(* ===== verification/_CoqProject ===== *)
-Q . S2P
Prelude.v
Ordered.v
Sort.v
Hex.v
Text.v
Digest.v
Errors.v
Pump.v
Cursor.v
Canonical.v
Attestation.v
Cas.v
Store.v
Reach.v
Evict.v
StoreInv.v
Pins.v
Disk.v
DiskLaws.v
DiskRefine.v
StoreDisk.v
Gate.v
ActionCache.v
Peers.v
PeersLaws.v
Volume.v
MemBackend.v
Xdr.v
Rpc.v
RpcServer.v
Nfs.v
Vfs.v
NfsHandlers.v
NfsConform.v
NfsSafety.v
Mount.v
NfsExample.v
Json.v
Ontap.v
Rest.v
SnapMirror.v
ControlPlane.v
ControlLaws.v
RestMem.v
Mirror.v
ControlExample.v
S3.v
S3Laws.v
Reapi.v
ReapiLaws.v
Config.v
CasRoutes.v
Node.v
NodeLaws.v
NodePins.v
Faces.v
Passthrough.v
PassthroughLaws.v
Confine.v
PassthroughExample.v
Zfs.v
ZfsLaws.v
Mesh.v
MeshLaws.v
Daemon.v
DaemonLaws.v
Conformance.v
ConformanceLaws.v
CacheConforms.v
VolumeConforms.v
