(* ===== verification/Prelude.v ===== *)
(** * nessie-store: a verification development

    nessie-store is a storage daemon in Rust (crates/ of the repository): an ONTAP REST
    control plane over pluggable volume backends, a content-addressed store with an
    action cache shared by several protocol faces, and an embedded NFSv3 server.  This
    library models its own logic as executable definitions and proves what makes it
    correct.  The names of the source are kept; each file says which source files it
    follows.

    ** The parts, and the files that model them

    Foundations.
    - Prelude.v: bytes, [result], the state-and-error monad [M], machine-width
      arithmetic (saturating and wrapping), little- and big-endian words, sums.
    - Ordered.v: [Ord] as a class, [BTreeMap] as a strictly ascending entry list.
    - Sort.v: sorting by a key ([sort_by_key], [sort_by_cached_key]).
    - Text.v: UTF-8 validation, splitting, decimal text.  Pump.v: the loop that sends a
      reader's bytes in chunks.
    - Hex.v: nessie-backend-core/src/hex.rs.
    - Errors.v: error.rs, ids.rs, the hex identifiers of attestation.rs, and
      [std::io::Read] sources as the list of what their reads return.

    Content addressing (nessie-backend-core).
    - Digest.v: digest.rs.  BLAKE3 and SHA-256 are third-party: the class [Hashers],
      with [HasherLaws] for what they document.
    - Cursor.v, Canonical.v: the canonical codecs of action_result.rs and tree.rs.
    - Attestation.v: attestation.rs, attestation_set.rs (a grow-only CRDT).
    - Cas.v: the [CasBackend], [ReclaimableCas] and [ContentRouter] traits (cas.rs,
      router.rs) as classes; [CasLaws] is what a backend promises, stated through the
      bytes it [held]s and the copies it quarantined; [Mem] (nessie-backend-mem)
      discharges it; [Swarm] is the in-memory router.

    The retention store (nessie-cas-store), proved against the interface [CasLaws].
    - Store.v: store.rs, policy.rs, clock.rs, scrub.rs; StoreInv.v: its invariants over
      any sequence of operations.
    - Gate.v: the write-only write path as a step relation, one atomic access of one of
      any number of writers per step.
    - Reach.v: reach.rs, resolver.rs, roots.rs.  Evict.v: evict.rs.
    - Pins.v: a daemon's node on top of it (nessie-store's cas_node.rs without peers,
      cas_node/refs.rs): the pins, and the ref that makes them survive a restart.
    - StoreDisk.v: the store over the on-disk blobs, and a damaged blob at opening.

    The on-disk store (nessie-cas-disk/src/lib.rs).
    - Disk.v: the file system as a map from paths to nodes, in which any call may fail
      after part of its work, and every operation of [DiskCas] on it; DiskLaws.v: what
      each does to the blobs and copies the disk holds; DiskRefine.v: opening, the plain
      blob store the disk refines, and what works when nothing fails.  [DiskCas] is not
      given as a [CasLaws]: it replaces a healthy blob by another of the same digest,
      which [stores] rules out, and no finite digest excludes that there is one.

    The action cache: ActionCache.v (action_cache.rs, [MemActionCache]).

    Nodes with peers (nessie-cas-peer, nessie-store).
    - Peers.v (peers.rs, router.rs, durable.rs, swarm.rs): the verbs spoken to a peer, the
      store that fetches what it misses, the replicator; HTTP is the class [Http].
      PeersLaws.v: what it serves, of whatever peers.
    - Config.v (config.rs, and what cas_node.rs makes of it); CasRoutes.v (cas_routes.rs),
      and a fleet of nodes serving them as an instance of [Http]; Node.v (cas_node.rs,
      cas_node/scrub.rs): mirrored writes, the scrub, the maintenance pass, over any
      backend and its replicator (the class [Mirrors]); NodeLaws.v: what they promise
      over the swarm; NodePins.v: the life of a node without peers (writes, changes of the
      pins, maintenance with its scrub, crashes and restarts) and its pins.
    - Faces.v (cas_node.rs, faces.rs): a node built from its configuration, and the faces
      over it.
    - Mesh.v, MeshLaws.v (nessie-mtls: authorized_keys.rs, proof.rs, identity.rs,
      verifier.rs; peer_tls.rs): mutual TLS on operators' keys; signatures, certificates and
      key parsing are the class [MeshLib], with [MeshLaws] for what they document.
    - Daemon.v, DaemonLaws.v (nessie-mtls/server.rs, face_tls.rs, tls.rs, identity.rs,
      identity_cmd.rs, main.rs's [serve]): the listeners a daemon starts.

    The cache faces, over any backend with [CasLaws].
    - S3.v (nessie-s3: key.rs, error.rs, service.rs), S3Laws.v.
    - Reapi.v (nessie-reapi: boundary, resource names, map, signer and the services),
      ReapiLaws.v.  Decoding a Directory is the class [Prost].

    Volumes: Volume.v (types.rs, capabilities.rs, access.rs, and the traits of traits.rs
    as classes); MemBackend.v ([MemBackend] of nessie-backend-mem, an instance of them);
    Zfs.v (nessie-backend-zfs/zfs.rs, another instance, over a class of command runners) and
    ZfsLaws.v: identifiers, what each call may ask of the machine, and deletion.

    The conformance suites (nessie-backend-conformance, nessie-cas-conformance,
    nessie-ac-conformance) as programs: Conformance.v; ConformanceLaws.v,
    CacheConforms.v and VolumeConforms.v show which backends pass them.

    The NFS server (nessie-nfsserve).
    - Xdr.v (xdr.rs, a class with laws), Rpc.v (rpc.rs), RpcServer.v (rpcwire.rs,
      transaction_tracker.rs, portmap_handlers.rs), whose programs are the class
      [Programs].
    - Nfs.v (nfs.rs); Vfs.v (vfs.rs, fs_util.rs): the file system a server serves, as
      the class [NFSFileSystem], and the trait's default methods; NfsHandlers.v
      (nfs_handlers.rs): every procedure, proved against [ValidVfs], what a file system
      owes the server.
    - NfsConform.v: replies against RFC 1813's result unions; NfsSafety.v: read-only
      servers and directory pages; Mount.v (mount.rs, mount_handlers.rs, tcp.rs's export
      name): the MOUNT program, and the instance of [Programs] that joins both;
      NfsExample.v: a small file system they are all evaluated on.
    - Passthrough.v (nessie-nfs/unix.rs, and [path_setattr] of fs_util.rs): the file system
      the daemon exports, over a class [Host] of the calls it makes; PassthroughLaws.v:
      identifiers and directory pages; Confine.v: the paths it hands to the host;
      PassthroughExample.v: a small host.

    The control plane (nessie-store, nessie-ontap-protocol).
    - Json.v: serde_json's [Value] and how handlers read it; the text forms of
      identifiers and times, third-party code, are the class [Texts].  Ontap.v: the wire
      records, their JSON, the error envelopes.
    - Rest.v (state.rs, error.rs, blocking.rs, auth.rs, routes.rs, volumes.rs,
      snapshots.rs): authentication and every handler, over any backend of Volume.v's
      interfaces ([Tiers]).
    - SnapMirror.v (snapmirror.rs): peers, relationships and transfers, a transfer cut
      where the source releases its lock ([transfer_phase]); the network is the class
      [Network].
    - ControlPlane.v: the route tables and [app].
    - ControlLaws.v: who may change the daemon, and transfers that interleave; RestMem.v:
      the handlers over [MemBackend]; Mirror.v: two daemons, one the network of the
      other; ControlExample.v: both evaluated.

    ** How state and effects are modelled

    An operation on [&mut self] or on a value behind a lock takes the state and returns
    a result and the new state.  A [HashMap] is a [gmap], a [BTreeMap] an ascending
    list, a [Mutex] nothing: outside Gate.v operations run one at a time, which is what
    the locks give; Gate.v is where they interleave.  A 64-bit counter that can
    saturate or wrap in the source does so in the model; one that only advances by one
    per operation is an unbounded [Z].  Clock readings, drawn identifiers and third-party
    functions are arguments.  Error values carry the source's messages.

    ** What is shown

    - Safety of the store: concurrent write-only writers never store more than the
      capacity (Gate.v) and return every reservation; a sequential store's charges always
      match what it holds, a refused write changes nothing, admission is decided exactly by
      [admits], and the capacity is kept if every blob is intact when the store opens
      (StoreInv.v); a blob damaged by then escapes it (StoreDisk.v).
    - Garbage collection: the reachability walk terminates and computes exactly the least
      closed set (Reach.v); eviction never drops a pinned, in-flight or fresh blob,
      reports exactly what it did, and takes the cheapest sufficient prefix (Evict.v).
    - Agreement: with fewer than k dishonest signers no wrong result is ever confirmed
      or served, only verified attestations count, deliveries in any order converge, and
      a result with k attestations is served (Attestation.v, ActionCache.v).
    - Codecs: the digest, [ActionResult] and [Tree] decoders accept exactly the encodings
      of well-formed values and invert the encoders; RPC messages and record marking
      round-trip; replication descriptors round-trip on names without line breaks.
    - Volumes: any history of requests keeps the backend's tables consistent, a failed
      request changes nothing; full and incremental replication and clones do exactly
      what they should, on every branch.
    - Pins: whatever operations a node without peers ran, its maintenance with the scrub
      included, and wherever it died, reopening its disk gives back the pins in force; a
      pinned upload keeps its bytes (NodePins.v).  Each operation runs whole, and each
      change of the pins makes a tree that can be stored ([can_apply]).
    - Peers: a node serves only bytes that hash to the digest asked for, whoever answered;
      an acknowledged mirrored write is held by as many durable peers as configured; a
      scrub takes out only what is corrupt, and a whole scan all of it (PeersLaws.v,
      NodeLaws.v); a node is wired as its configuration says (Faces.v).
    - Mutual TLS: a connection is admitted only for a key that a listed operator signed and
      nobody revoked, an operator's own nodes are admitted, a saved identity loads as itself
      (MeshLaws.v); every listener a daemon starts is enabled and guarded as its kind must be
      (DaemonLaws.v).
    - ZFS: what each call asks of the machine, an identifier names one thing for good, and a
      volume is unexported, then destroyed within its retries (ZfsLaws.v).
    - Conformance: the in-memory volumes, willing stores and the action cache pass the
      repository's suites (ConformanceLaws.v, CacheConforms.v, VolumeConforms.v).
    - S3 and REAPI: what is served is what the key or digest names, listings and trees come
      whole, in order and once over their pages, an acknowledged upload is held, a read is
      the slice asked for, an uploaded action result that has no rival is served (S3Laws.v,
      ReapiLaws.v).
    - The disk: through restarts and the failure of any call but the stat of a quarantine
      slot it answers as a map of blobs would, a write lands whole or not at all, opening
      loses no healthy blob (DiskRefine.v, which shows what that one failure does).
    - RPC and NFS: a repeated transaction runs once, whatever is handled in between; the
      server's own replies are well-formed; every NFS reply has the form its procedure
      promises, a read-only file system is never changed, a directory page is the longest
      that fits, and what a client mounts is what it then reads.  The exported file system
      hands the host only paths below the export, its identifiers do not alias, its
      directory pages chain (PassthroughLaws.v, Confine.v).
    - The control plane: only the administrator, or on the receive endpoint a peer's
      token, changes anything; a relationship runs one transfer at a time however they
      interleave or are dropped; a transfer to a peer running the same code keeps the
      names of the destination's snapshots in step; a failing request changes nothing, a created volume is
      served where its answer says.

    ** Fuel

    [closure_loop] (Reach.v) takes fuel; [reachable_closure_exact] proves that the roots
    plus the references held, plus one, always suffice.  [read_entries] (Cursor.v) takes
    the input's length plus one: each entry consumes eight bytes
    ([read_entries_fuel]).  [read_records] (RpcServer.v) takes the stream's length plus
    one: each fragment consumes four ([read_records_fuel]).  [dec_fuel] (Text.v) takes
    the bit length, more than the digits.  [de_entries] (NfsConform.v) takes the reply's
    length plus one: each entry consumes four bytes.  [trim_with] (Mount.v) takes the
    text's length: each character removed is at least one byte.  [quarantine_slots]
    (Disk.v) takes one more than there are files: the slots tried are distinct files
    ([quarantine_finds_a_slot]); the source stops at 2^32 slots.  [lossy_fuel] (Disk.v)
    takes the name's length: each piece is at least one byte.
    [run_phases] (SnapMirror.v) takes five, the phases a transfer has.  [pump] (Pump.v)
    takes the reads left plus one.  [list_all] (S3Laws.v) takes the blobs held plus one:
    each page but the last is not empty.  [collect_tree] (Reapi.v) is proved to end with
    [walk_fuel], the references of the blobs held and two more (ReapiLaws.v), [tree_pages]
    with the directories left plus one.  [split_white] (Text.v) takes the text's length plus one.
    [fill] (Passthrough.v) takes the bytes still wanted: each read that is not the last
    brings at least one.  [destroy_loop] (Zfs.v) recurses on the retries left.

    ** Not modelled

    The NFS crate's [file_setattr] and [exists_no_traverse] are system calls.  axum's path
    matching and extractors are parameters or have run; a backend call that panics is left
    out.  The disk has no symbolic links, and what was renamed is not lost by a power failure
    (the source does not sync directories).  Input and output, or third-party code: sockets
    and tasks, HTTP and gRPC frameworks, serde and clap derivations, running a subprocess
    ([SystemRunner]), rustls, cryptography, and the Python bindings. *)

From Stdlib Require Import ZArith Lia.
From Stdlib Require Strings.Byte Strings.String Strings.Ascii.
From stdpp Require Import base list gmap sets strings countable option sorting.

Local Open Scope Z_scope.

(** ** Bytes *)

Abbreviation byte := Byte.byte.

#[export] Instance byte_eq_dec : EqDecision byte := Byte.byte_eq_dec.

#[export] Instance byte_countable : Countable byte :=
  inj_countable Byte.to_N Byte.of_N Byte.of_to_N.

(** [b2z] reads a byte as the Rust [u8] it is; [z2b] is the [as u8] cast. *)
Definition b2z (b : byte) : Z := Z.of_N (Byte.to_N b).
Definition z2b (z : Z) : byte :=
  default Byte.x00 (Byte.of_N (Z.to_N (z mod 256))).

Lemma b2z_range b : 0 <= b2z b < 256.
Proof. unfold b2z. pose proof (Byte.to_N_bounded b). lia. Qed.

Lemma z2b_b2z b : z2b (b2z b) = b.
Proof.
  unfold z2b. pose proof (b2z_range b). rewrite Z.mod_small by done.
  unfold b2z. by rewrite N2Z.id, Byte.of_to_N.
Qed.

Lemma b2z_z2b_mod z : b2z (z2b z) = z mod 256.
Proof.
  unfold z2b, b2z. pose proof (Z.mod_pos_bound z 256 ltac:(lia)).
  destruct (Byte.of_N (Z.to_N (z mod 256))) as [b|] eqn:Hb; simpl.
  - apply Byte.to_of_N in Hb. rewrite Hb. lia.
  - apply Byte.of_N_None_iff in Hb. lia.
Qed.

Lemma b2z_z2b z : 0 <= z < 256 -> b2z (z2b z) = z.
Proof. intros. rewrite b2z_z2b_mod. by rewrite Z.mod_small. Qed.

#[export] Instance b2z_inj : Inj (=) (=) b2z.
Proof. intros a b H. by rewrite <- (z2b_b2z a), <- (z2b_b2z b), H. Qed.

(** Literals: the bytes of an ASCII string constant of the source. *)
Definition bs (s : String.string) : list byte := String.list_byte_of_string s.
Arguments bs s%_string.
Export String.StringSyntax.

(** ** Fallible computations: Rust's [Result] *)

Inductive result (E A : Type) : Type :=
| Ok (a : A)
| Err (e : E).
Arguments Ok {E A} _.
Arguments Err {E A} _.

#[export] Instance result_eq_dec {E A} `{EqDecision E, EqDecision A} :
  EqDecision (result E A).
Proof. solve_decision. Defined.

#[export] Instance result_ret {E} : MRet (result E) := @Ok E.
#[export] Instance result_bind {E} : MBind (result E) :=
  λ A B f r, match r with Ok a => f a | Err e => Err e end.
#[export] Instance result_fmap {E} : FMap (result E) :=
  λ A B f r, match r with Ok a => Ok (f a) | Err e => Err e end.

(** [Result::map_err], [Option::ok_or], [Result::ok], [Result::unwrap_or]. *)
Definition map_err {E F A} (f : E -> F) (r : result E A) : result F A :=
  match r with Ok a => Ok a | Err e => Err (f e) end.
Definition ok_or {E A} (o : option A) (e : E) : result E A :=
  match o with Some a => Ok a | None => Err e end.
Definition res_ok {E A} (r : result E A) : option A :=
  match r with Ok a => Some a | Err _ => None end.
Definition unwrap_or {E A} (r : result E A) (d : A) : A :=
  match r with Ok a => a | Err _ => d end.
Definition is_ok {E A} (r : result E A) : bool :=
  match r with Ok _ => true | Err _ => false end.

Lemma bind_Ok {E A B} (r : result E A) (f : A -> result E B) b :
  r ≫= f = Ok b <-> exists a, r = Ok a /\ f a = Ok b.
Proof. destruct r as [x|e]; cbn; split; [eauto| |done|]; intros (?&[=]&?); by subst. Qed.

Lemma bind_Ok_l {E A B} (a : A) (f : A -> result E B) :
  (Ok a : result E A) ≫= f = f a.
Proof. done. Qed.

Lemma map_err_Ok {E F A} (f : E -> F) (r : result E A) a :
  map_err f r = Ok a <-> r = Ok a.
Proof. destruct r; simpl; naive_solver. Qed.

Lemma ok_or_Ok {E A} (o : option A) (e : E) a : ok_or o e = Ok a <-> o = Some a.
Proof. destruct o; simpl; naive_solver. Qed.

(** [inv_ok] splits every hypothesis saying that a chain of binds succeeded. *)
Ltac inv_ok :=
  repeat match goal with
  | H : mbind _ _ = Ok _ |- _ =>
      let a := fresh "a" in let Ha := fresh "Ha" in
      apply bind_Ok in H as (a & Ha & H)
  | H : map_err _ _ = Ok _ |- _ => apply map_err_Ok in H
  | H : ok_or _ _ = Ok _ |- _ => apply ok_or_Ok in H
  | H : Ok _ = Ok _ |- _ => injection H; clear H; intros; simplify_eq
  | H : Err _ = Ok _ |- _ => discriminate H
  | H : Ok _ = Err _ |- _ => discriminate H
  end.

(** ** Stateful fallible computations

    The source's [&self] methods mutate through a lock and return a [Result]; an
    error keeps whatever was changed before it. *)

Definition M (E S A : Type) : Type := S -> result E A * S.

#[export] Instance M_ret {E S} : MRet (M E S) := λ A a s, (Ok a, s).
#[export] Instance M_bind {E S} : MBind (M E S) := λ A B f m s,
  match m s with
  | (Ok a, s') => f a s'
  | (Err e, s') => (Err e, s')
  end.

Definition fail {E S A} (e : E) : M E S A := λ s, (Err e, s).
Definition get_state {E S} : M E S S := λ s, (Ok s, s).
Definition put_state {E S} (s' : S) : M E S () := λ _, (Ok (), s').
Definition lift {E S A} (r : result E A) : M E S A := λ s, (r, s).

Lemma pair_of_fst {A B} (p : A * B) a : p.1 = a -> p = (a, p.2).
Proof. destruct p. by intros <-. Qed.

Lemma M_bind_inv {E S A B} (m : M E S A) (f : A -> M E S B) s b s' :
  (m ≫= f) s = (Ok b, s') -> exists a s1, m s = (Ok a, s1) /\ f a s1 = (Ok b, s').
Proof. unfold mbind, M_bind. destruct (m s) as [[a|e] s1]; naive_solver. Qed.

(** Two continuations that agree after every success of [m] give the same run. *)
Lemma M_bind_ext {E S A B} (m : M E S A) (f g : A -> M E S B) s :
  (forall a s1, m s = (Ok a, s1) -> f a s1 = g a s1) -> (m ≫= f) s = (m ≫= g) s.
Proof. unfold mbind, M_bind. destruct (m s) as [[a|e] s1]; auto. Qed.

(** ** Machine-width integers *)

Definition u8_max : Z := 2 ^ 8 - 1.
Definition u32_max : Z := 2 ^ 32 - 1.
Definition u64_max : Z := 2 ^ 64 - 1.

Definition is_u64 (z : Z) : Prop := 0 <= z <= u64_max.
Definition is_u32 (z : Z) : Prop := 0 <= z <= u32_max.
Definition is_i32 (z : Z) : Prop := - 2 ^ 31 <= z < 2 ^ 31.

(** Atomic [fetch_add]/[fetch_sub] wrap around; [saturating_*] clamp. *)
Definition wrap64 (z : Z) : Z := z mod 2 ^ 64.
Definition sat_add64 (a b : Z) : Z := Z.min (a + b) u64_max.
Definition sat_sub64 (a b : Z) : Z := Z.max (a - b) 0.

Lemma wrap64_id z : is_u64 z -> wrap64 z = z.
Proof. unfold is_u64, u64_max, wrap64. intros. rewrite Z.mod_small; lia. Qed.

Lemma sat_add64_u64 a b : is_u64 a -> is_u64 b -> is_u64 (sat_add64 a b).
Proof. unfold is_u64, sat_add64, u64_max. lia. Qed.

Lemma sat_add64_le a b c : c <= u64_max -> a + b <= c -> sat_add64 a b <= c.
Proof. unfold sat_add64. lia. Qed.

(** [len as u64]: a [usize] is 64 bits wide on the supported targets. *)
Definition zlen {A} (l : list A) : Z := Z.of_nat (length l).

Lemma zlen_app {A} (l k : list A) : zlen (l ++ k) = zlen l + zlen k.
Proof. unfold zlen. rewrite length_app. lia. Qed.
Lemma zlen_nil {A} : zlen (@nil A) = 0.
Proof. done. Qed.
Lemma zlen_cons {A} (x : A) l : zlen (x :: l) = 1 + zlen l.
Proof. unfold zlen. simpl length. lia. Qed.
Lemma zlen_nonneg {A} (l : list A) : 0 <= zlen l.
Proof. unfold zlen. lia. Qed.

Create HintDb nessie discriminated.
#[export] Hint Resolve zlen_nonneg b2z_range : nessie.
Create Rewrite HintDb zlen.
Create Rewrite HintDb codec.
#[export] Hint Rewrite @zlen_app @zlen_nil @zlen_cons : zlen.

(** ** Fixed-width integers as bytes: [to_le_bytes] and [from_le_bytes] *)

Fixpoint le_bytes (n : nat) (z : Z) : list byte :=
  match n with
  | O => []
  | S n' => z2b z :: le_bytes n' (z / 256)
  end.

Fixpoint le_val (l : list byte) : Z :=
  match l with
  | [] => 0
  | b :: l' => b2z b + 256 * le_val l'
  end.

Lemma length_le_bytes n z : length (le_bytes n z) = n.
Proof. revert z. induction n; intros; simpl; auto. Qed.

Lemma le_val_bytes n z : le_val (le_bytes n z) = z mod 256 ^ Z.of_nat n.
Proof.
  revert z. induction n as [|n IH]; intros z; cbn [le_bytes le_val].
  - by rewrite Z.pow_0_r, Z.mod_1_r.
  - rewrite IH, b2z_z2b_mod, Nat2Z.inj_succ, Z.pow_succ_r by lia.
    rewrite (Z.rem_mul_r z 256) by lia. lia.
Qed.

Lemma le_val_range l : 0 <= le_val l < 256 ^ zlen l.
Proof.
  induction l as [|b l IH]; cbn [le_val]; [done|].
  pose proof (zlen_nonneg l). pose proof (b2z_range b).
  rewrite zlen_cons, Z.add_1_l, Z.pow_succ_r by done. lia.
Qed.

Lemma le_bytes_val l : le_bytes (length l) (le_val l) = l.
Proof.
  induction l as [|b l IH]; cbn [le_val length le_bytes]; [done|].
  pose proof (b2z_range b). f_equal.
  - rewrite <- (z2b_b2z b) at 2. unfold z2b.
    by rewrite Z.add_mod, Z.mul_comm, Z.mod_mul, Z.add_0_r, Z.mod_mod by lia.
  - replace (b2z b + 256 * le_val l) with (le_val l * 256 + b2z b) by lia.
    by rewrite Z.div_add_l, Z.div_small, Z.add_0_r by lia.
Qed.

Lemma le_bytes_val_n n l : length l = n -> le_bytes n (le_val l) = l.
Proof. intros <-. apply le_bytes_val. Qed.

(** Big-endian, as the XDR and RPC layers use. *)
Definition be_bytes (n : nat) (z : Z) : list byte := rev (le_bytes n z).
Definition be_val (l : list byte) : Z := le_val (rev l).

Lemma length_be_bytes n z : length (be_bytes n z) = n.
Proof. unfold be_bytes. by rewrite length_rev, length_le_bytes. Qed.
Lemma be_val_bytes n z : be_val (be_bytes n z) = z mod 256 ^ Z.of_nat n.
Proof. unfold be_val, be_bytes. by rewrite rev_involutive, le_val_bytes. Qed.
Lemma be_bytes_val_n n l : length l = n -> be_bytes n (be_val l) = l.
Proof.
  intros <-. unfold be_bytes, be_val. rewrite <- length_rev, le_bytes_val.
  apply rev_involutive.
Qed.

(** Two's complement reading of an [n]-byte value. *)
Definition signed (n : nat) (z : Z) : Z :=
  if bool_decide (z < 2 ^ (8 * Z.of_nat n - 1)) then z
  else z - 2 ^ (8 * Z.of_nat n).

Lemma signed_mod32 z : is_i32 z -> signed 4 (z mod 2 ^ 32) = z.
Proof.
  unfold is_i32, signed. intros Hz. change (8 * Z.of_nat 4) with 32.
  destruct (decide (0 <= z)).
  - rewrite Z.mod_small by lia. rewrite bool_decide_true; [done|lia].
  - replace (z mod 2 ^ 32) with (z + 2 ^ 32).
    + rewrite bool_decide_false; lia.
    + apply (Z.mod_unique _ _ (-1)); lia.
Qed.

Lemma signed_range32 z : 0 <= z < 2 ^ 32 -> is_i32 (signed 4 z) /\ signed 4 z mod 2 ^ 32 = z.
Proof.
  unfold is_i32, signed. intros Hz. change (8 * Z.of_nat 4) with 32.
  case_bool_decide; (split; [lia|]).
  - by rewrite Z.mod_small.
  - symmetry. apply (Z.mod_unique _ _ (-1)); lia.
Qed.

(** ** Sums *)

Definition zsum (l : list Z) : Z := foldr Z.add 0 l.

Lemma zsum_cons z l : zsum (z :: l) = z + zsum l.
Proof. done. Qed.

Lemma zsum_app l1 l2 : zsum (l1 ++ l2) = zsum l1 + zsum l2.
Proof. induction l1 as [|z l1 IH]; simpl; [done|]. unfold zsum in *. simpl. lia. Qed.

#[export] Instance zsum_perm : Proper ((≡ₚ) ==> (=)) zsum.
Proof. intros l1 l2 H. induction H; simpl in *; unfold zsum in *; simpl; lia. Qed.

Lemma zsum_nonneg l : Forall (fun z => 0 <= z) l -> 0 <= zsum l.
Proof. unfold zsum. induction 1; simpl; lia. Qed.

Lemma zsum_concat_zlen (l : list (list byte)) : zlen (concat l) = zsum (zlen <$> l).
Proof.
  induction l as [|x l IH]; csimpl; [done|]. rewrite zlen_app, IH. reflexivity.
Qed.

(** The sum of a map's values. *)
Section msum.
Context {K : Type} `{Countable K}.
Implicit Type m : gmap K Z.

Definition msum m : Z := zsum (map_to_list m).*2.

Lemma msum_empty : msum ∅ = 0.
Proof. unfold msum. by rewrite map_to_list_empty. Qed.

Lemma msum_insert m k z : m !! k = None -> msum (<[k := z]> m) = z + msum m.
Proof. intros Hk. unfold msum. by rewrite map_to_list_insert. Qed.

Lemma msum_delete m k : msum m = default 0 (m !! k) + msum (delete k m).
Proof.
  destruct (m !! k) as [z|] eqn:E; simpl.
  - rewrite <- (insert_delete_id m k z E) at 1. apply msum_insert. by rewrite lookup_delete_eq.
  - by rewrite delete_id.
Qed.

Lemma msum_nonneg m : map_Forall (fun _ z => 0 <= z) m -> 0 <= msum m.
Proof.
  intros Hm. apply zsum_nonneg. apply Forall_fmap, Forall_forall. intros [k z] Hin.
  apply elem_of_map_to_list in Hin. by apply (Hm k z).
Qed.

Lemma msum_lookup m k z : map_Forall (fun _ z => 0 <= z) m -> m !! k = Some z -> z <= msum m.
Proof.
  intros Hm E. rewrite (msum_delete m k), E. simpl.
  pose proof (msum_nonneg (delete k m) (map_Forall_delete _ _ _ Hm)). lia.
Qed.

(** A map dominated pointwise has the smaller sum. *)
Lemma msum_le m1 m2 :
  map_Forall (fun _ z => 0 <= z) m2 ->
  (forall k z, m1 !! k = Some z -> z <= default 0 (m2 !! k)) -> msum m1 <= msum m2.
Proof.
  revert m2. induction m1 as [|k z m Hk IH] using map_ind; intros m2 H2 Hle.
  - rewrite msum_empty. by apply msum_nonneg.
  - rewrite msum_insert by done. rewrite (msum_delete m2 k).
    pose proof (Hle k z (lookup_insert_eq m k z)).
    enough (msum m <= msum (delete k m2)) by lia.
    apply IH; [by apply map_Forall_delete|]. intros k' z' Hk'.
    destruct (decide (k = k')) as [<-|Hne]; [congruence|].
    rewrite lookup_delete_ne by done. apply Hle. by rewrite lookup_insert_ne.
Qed.
End msum.
