(* ===== verification/Ordered.v ===== *)
(** Total orders and the ordered containers of the standard library.

    [Cmp] is Rust's [Ord]: a three-way comparison; [CmpLaws] is what [Ord]
    documents.  A [BTreeMap] is the list of its entries in iteration order, so
    the order of iteration (which the canonical encodings depend on) is part of
    the model; [bt_insert] keeps it strictly ascending. *)

From Stdlib Require Import ZArith Lia.
From stdpp Require Import base list sets sorting.
From S2P Require Import Prelude.

Class Cmp (K : Type) : Type := kcmp : K -> K -> comparison.

Class CmpLaws (K : Type) {C : Cmp K} : Prop := {
  cmp_eq_iff : forall a b : K, kcmp a b = Eq <-> a = b;
  cmp_antisym : forall a b : K, kcmp b a = CompOpp (kcmp a b);
  cmp_lt_trans : forall a b c : K, kcmp a b = Lt -> kcmp b c = Lt -> kcmp a c = Lt;
}.

Definition klt {K} {C : Cmp K} (a b : K) : Prop := kcmp a b = Lt.

#[export] Instance klt_dec {K} {C : Cmp K} (a b : K) : Decision (klt a b).
Proof. unfold klt. apply comparison_eq_dec. Defined.
#[export] Typeclasses Opaque klt.

Section laws.
Context {K : Type} {C : Cmp K} {L : CmpLaws K}.
  Implicit Types a b c : K.

Lemma cmp_refl a : kcmp a a = Eq.
Proof. by apply cmp_eq_iff. Qed.

#[export] Instance klt_trans : Transitive (klt (K := K)).
Proof. intros a b c. apply cmp_lt_trans. Qed.

Lemma klt_irrefl a : ~ klt a a.
Proof. unfold klt. by rewrite cmp_refl. Qed.

Lemma klt_ne a b : klt a b -> a <> b.
Proof. intros H ->. by apply klt_irrefl in H. Qed.

Lemma cmp_gt_iff a b : kcmp a b = Gt <-> klt b a.
Proof. unfold klt. rewrite (cmp_antisym a b). by destruct (kcmp a b). Qed.

Lemma klt_trichotomy a b : {klt a b} + {a = b} + {klt b a}.
Proof.
    destruct (kcmp a b) eqn:E.
    - left. right. by apply cmp_eq_iff.
    - left. left. done.
    - right. by apply cmp_gt_iff.
Qed.

(** The guard [x <= y] of the decoders. *)
Definition kle_b a b : bool := match kcmp a b with Gt => false | _ => true end.

Lemma kle_b_false a b : kle_b a b = false <-> klt b a.
Proof. unfold kle_b. rewrite <- cmp_gt_iff. by destruct (kcmp a b). Qed.
End laws.

Arguments kle_b {K C} a b.

(** ** Orders used as keys *)

#[export] Instance byte_cmp : Cmp byte := fun a b => (b2z a ?= b2z b)%Z.

#[export] Instance byte_cmp_laws : CmpLaws byte.
Proof.
  split; unfold kcmp, byte_cmp; intros.
  - rewrite Z.compare_eq_iff. split; [apply (inj b2z)|congruence].
  - apply Z.compare_antisym.
  - rewrite Z.compare_lt_iff in *. lia.
Qed.

(** Slices and strings compare lexicographically. *)
#[export] Instance list_cmp {A} {C : Cmp A} : Cmp (list A) :=
  fix go (a b : list A) : comparison :=
    match a, b with
    | [], [] => Eq
    | [], _ :: _ => Lt
    | _ :: _, [] => Gt
    | x :: a', y :: b' => match kcmp x y with Eq => go a' b' | c => c end
    end.

#[export] Instance list_cmp_laws {A} {C : Cmp A} {L : CmpLaws A} : CmpLaws (list A).
Proof.
  split; unfold kcmp.
  - intros a. induction a as [|x a IH]; intros [|y b]; simpl; try done.
    destruct (kcmp x y) eqn:E.
    + rewrite IH. apply cmp_eq_iff in E. split; congruence.
    + split; [done|]. intros [= -> ->]. by rewrite cmp_refl in E.
    + split; [done|]. intros [= -> ->]. by rewrite cmp_refl in E.
  - intros a. induction a as [|x a IH]; intros [|y b]; simpl; try done.
    rewrite (cmp_antisym x y). destruct (kcmp x y); simpl; auto.
  - intros a. induction a as [|x a IH]; intros [|y b] [|z c]; simpl; try done.
    destruct (kcmp x y) eqn:E1, (kcmp y z) eqn:E2; try done; intros H1 H2.
    + apply cmp_eq_iff in E1, E2. subst. rewrite cmp_refl. eauto.
    + apply cmp_eq_iff in E1. subst. by rewrite E2.
    + apply cmp_eq_iff in E2. subst. by rewrite E1.
    + by rewrite (cmp_lt_trans x y z).
Qed.

(** Pairs compare by the first component, then by the second. *)
#[export] Instance pair_cmp {A B} {CA : Cmp A} {CB : Cmp B} : Cmp (A * B) :=
  fun x y => match kcmp x.1 y.1 with Eq => kcmp x.2 y.2 | c => c end.

#[export] Instance pair_cmp_laws {A B} {CA : Cmp A} {CB : Cmp B} {LA : CmpLaws A} {LB : CmpLaws B} :
  CmpLaws (A * B).
Proof.
  split; unfold kcmp, pair_cmp.
  - intros [a b] [a' b']; simpl. destruct (kcmp a a') eqn:E.
    + apply cmp_eq_iff in E as ->. rewrite cmp_eq_iff. split; congruence.
    + split; [done|]. intros [= -> ->]. by rewrite cmp_refl in E.
    + split; [done|]. intros [= -> ->]. by rewrite cmp_refl in E.
  - intros [a b] [a' b']; simpl. rewrite (cmp_antisym a a'). destruct (kcmp a a'); simpl; [apply cmp_antisym|done..].
  - intros [a b] [a' b'] [a'' b'']; simpl.
    destruct (kcmp a a') eqn:E1, (kcmp a' a'') eqn:E2; try done; intros H1 H2.
    + apply cmp_eq_iff in E1, E2. subst. rewrite cmp_refl. by eapply cmp_lt_trans.
    + apply cmp_eq_iff in E1. subst. by rewrite E2.
    + apply cmp_eq_iff in E2. subst. by rewrite E1.
    + by rewrite (cmp_lt_trans a a' a'').
Qed.

(** ** [BTreeMap] *)

Section btree.
Context {K V : Type} {C : Cmp K}.

Definition bt_sorted (m : list (K * V)) : Prop := StronglySorted klt m.*1.

#[export] Instance bt_sorted_dec m : Decision (bt_sorted m).
Proof. unfold bt_sorted. apply _. Defined.

Fixpoint bt_lookup (k : K) (m : list (K * V)) : option V :=
    match m with
    | [] => None
    | (k', v) :: m' => match kcmp k k' with Eq => Some v | _ => bt_lookup k m' end
    end.

Fixpoint bt_insert (k : K) (v : V) (m : list (K * V)) : list (K * V) :=
    match m with
    | [] => [(k, v)]
    | (k', v') :: m' =>
        match kcmp k k' with
        | Lt => (k, v) :: m
        | Eq => (k, v) :: m'
        | Gt => (k', v') :: bt_insert k v m'
        end
    end.

(** Collecting an iterator of pairs: later duplicates win. *)
Definition bt_collect (l : list (K * V)) : list (K * V) :=
    foldl (fun m kv => bt_insert kv.1 kv.2 m) [] l.

Lemma bt_insert_elem (k : K) (v : V) m kv : kv ∈ bt_insert k v m -> kv = (k, v) \/ kv ∈ m.
Proof.
  induction m as [|[k1 v1] m IH]; simpl; [set_solver|]. destruct (kcmp k k1); set_solver.
Qed.
End btree.

Section btree_laws.
Context {K V : Type} {C : Cmp K} {L : CmpLaws K}.
  Implicit Types (m : list (K * V)) (k : K) (v : V).

Lemma bt_insert_keys k v m k' :
    k' ∈ (bt_insert k v m).*1 <-> k' = k \/ k' ∈ m.*1.
Proof.
    induction m as [|[k1 v1] m IH]; simpl; [set_solver|].
    destruct (kcmp k k1) eqn:E; csimpl.
    - apply cmp_eq_iff in E. subst. set_solver.
    - set_solver.
    - rewrite !elem_of_cons, IH. set_solver.
Qed.

Lemma bt_insert_sorted k v m : bt_sorted m -> bt_sorted (bt_insert k v m).
Proof.
    unfold bt_sorted. induction m as [|[k1 v1] m IH]; csimpl; intros Hs.
    - repeat constructor.
    - inversion Hs as [|?? Hs' Hall]; subst. destruct (kcmp k k1) eqn:E; csimpl.
      + apply cmp_eq_iff in E. subst. by constructor.
      + constructor; [done|]. constructor; [done|].
        eapply Forall_impl; [exact Hall|]. intros x Hx. by trans k1.
      + constructor; [auto|]. apply Forall_forall. intros x Hx.
        apply bt_insert_keys in Hx as [->|Hx]; [by apply cmp_gt_iff|].
        rewrite Forall_forall in Hall. auto.
Qed.

Lemma bt_lookup_insert k v m k' :
    bt_sorted m ->
    bt_lookup k' (bt_insert k v m) =
    match kcmp k' k with Eq => Some v | _ => bt_lookup k' m end.
Proof.
    unfold bt_sorted. induction m as [|[k1 v1] m IH]; csimpl; intros Hs.
    - by destruct (kcmp k' k).
    - inversion Hs as [|?? Hs' Hall]; subst.
      destruct (kcmp k k1) eqn:E; simpl.
      + apply cmp_eq_iff in E. subst. by destruct (kcmp k' k1).
      + by destruct (kcmp k' k).
      + rewrite IH by done. destruct (kcmp k' k1) eqn:E1; [|done|done].
        apply cmp_eq_iff in E1. subst. rewrite cmp_antisym, E. done.
Qed.

(** Inserting a key above every present one appends it, so a decoder that
      checks strict ascent rebuilds exactly the list it read. *)
Lemma bt_insert_last k v m :
    Forall (fun k' => klt k' k) m.*1 -> bt_insert k v m = m ++ [(k, v)].
Proof.
    induction m as [|[k1 v1] m IH]; csimpl; intros Hall; [done|].
    inversion Hall as [|?? H1 H2]; subst.
    apply cmp_gt_iff in H1. rewrite H1. by rewrite IH.
Qed.

Lemma bt_sorted_app m1 k v m2 :
    bt_sorted (m1 ++ (k, v) :: m2) -> Forall (fun k' => klt k' k) m1.*1.
Proof.
    unfold bt_sorted. rewrite fmap_app. csimpl. intros Hs.
    apply Forall_forall. intros x Hx.
    eapply (StronglySorted_app_1_elem_of klt) in Hs; [exact Hs|exact Hx|].
    by left.
Qed.

Lemma bt_sorted_snoc m k v :
    bt_sorted m -> Forall (fun k' => klt k' k) m.*1 -> bt_sorted (m ++ [(k, v)]).
Proof.
    intros Hs Hall. rewrite <- bt_insert_last by done. by apply bt_insert_sorted.
Qed.

Lemma bt_collect_sorted (l : list (K * V)) : bt_sorted (bt_collect l).
Proof.
    unfold bt_collect.
    assert (H : forall m, bt_sorted m ->
      bt_sorted (foldl (fun m kv => bt_insert kv.1 kv.2 m) m l)).
    { induction l as [|[k v] l IH]; intros m Hm; simpl; [done|].
      apply IH. by apply bt_insert_sorted. }
    apply H. constructor.
Qed.

Lemma bt_lookup_elem m k v : bt_sorted m -> (k, v) ∈ m -> bt_lookup k m = Some v.
Proof.
    unfold bt_sorted. induction m as [|[k1 v1] m IH]; csimpl; intros Hs Hin; [set_solver|].
    inversion Hs as [|?? Hs' Hall]; subst.
    apply elem_of_cons in Hin as [[= -> ->]|Hin]; [by rewrite cmp_refl|].
    rewrite Forall_forall in Hall. specialize (Hall k).
    assert (Hk : k ∈ m.*1) by (apply list_elem_of_fmap; by exists (k, v)).
    specialize (Hall Hk). rewrite cmp_antisym. unfold klt in Hall. rewrite Hall.
    simpl. auto.
Qed.
End btree_laws.
