(* ===== verification/Sort.v ===== *)
(** [slice::sort_by] and [sort_by_key] for any [Ord] key: a stable sort, as an insertion
    sort; and what ascending lists give. *)

From Stdlib Require Import ZArith Lia.
From stdpp Require Import base list sets sorting.
From S2P Require Import Prelude Ordered.

(** Integers as keys. *)
#[export] Instance Z_cmp : Cmp Z := Z.compare.

#[export] Instance Z_cmp_laws : CmpLaws Z.
Proof.
  split; unfold kcmp, Z_cmp; intros.
  - apply Z.compare_eq_iff.
  - apply Z.compare_antisym.
  - rewrite Z.compare_lt_iff in *. lia.
Qed.

Lemma klt_Z (a b : Z) : klt a b <-> (a < b)%Z.
Proof. unfold klt, kcmp, Z_cmp. apply Z.compare_lt_iff. Qed.

(** A filter that keeps all, or nothing. *)
Lemma filter_keep {A} (P : A -> Prop) `{forall x, Decision (P x)} l : Forall P l -> filter P l = l.
Proof. induction 1; [done|]. rewrite filter_cons_True by done. congruence. Qed.

Lemma filter_drop {A} (P : A -> Prop) `{forall x, Decision (P x)} l :
  Forall (fun x => ~ P x) l -> filter P l = [].
Proof. induction 1; [done|]. by rewrite filter_cons_False. Qed.

Lemma filter_of_fmap {A B} (f : A -> B) (P : B -> Prop) `{forall x, Decision (P x)} (l : list A) :
  filter P (f <$> l) = f <$> filter (fun x => P (f x)) l.
Proof. induction l as [|x l IH]; [done|]. csimpl. rewrite !filter_cons, IH. by case_decide. Qed.

Section sort.
Context {A K : Type} {C : Cmp K} {L : CmpLaws K} (key : A -> K).

(** Goes after the elements that are not greater. *)
Fixpoint insert_sorted (x : A) (l : list A) : list A :=
  match l with
  | [] => [x]
  | y :: l' => if kle_b (key x) (key y) then x :: l else y :: insert_sorted x l'
  end.

Definition sort_on (l : list A) : list A := foldr insert_sorted [] l.

Definition key_le (x y : A) : Prop := ~ klt (key y) (key x).

Lemma kle_b_true x y : kle_b (key x) (key y) = true <-> key_le x y.
Proof.
  unfold key_le. rewrite <- kle_b_false. by destruct (kle_b _ _).
Qed.

Lemma key_le_trans x y z : key_le x y -> key_le y z -> key_le x z.
Proof.
  unfold key_le. intros H1 H2 H3.
  destruct (klt_trichotomy (key y) (key x)) as [[H|H]|H]; [done| |].
  - rewrite H in H2. done.
  - apply H2. by trans (key x).
Qed.

Lemma insert_sorted_perm x l : insert_sorted x l ≡ₚ x :: l.
Proof.
  induction l as [|y l IH]; simpl; [done|]. destruct (kle_b _ _); [done|].
  rewrite IH. constructor.
Qed.

Lemma sort_on_perm l : sort_on l ≡ₚ l.
Proof. induction l as [|x l IH]; simpl; [done|]. by rewrite insert_sorted_perm, IH. Qed.

Lemma insert_sorted_sorted x l : StronglySorted key_le l -> StronglySorted key_le (insert_sorted x l).
Proof.
  induction 1 as [|y l Hs IH Hall]; simpl; [by repeat constructor|].
  destruct (kle_b _ _) eqn:E.
  - apply kle_b_true in E. constructor; [by constructor|]. constructor; [done|].
    eapply Forall_impl; [exact Hall|]. intros z. by apply key_le_trans.
  - apply kle_b_false in E. constructor; [done|].
    rewrite Forall_forall. intros z Hz. rewrite insert_sorted_perm, elem_of_cons in Hz.
    destruct Hz as [->|Hz]; [|rewrite Forall_forall in Hall; by apply Hall].
    intros H. apply (klt_irrefl (key x)). by trans (key y).
Qed.

Lemma sort_on_sorted l : StronglySorted key_le (sort_on l).
Proof. induction l; simpl; [constructor|]. by apply insert_sorted_sorted. Qed.

(** Distinct keys ascend strictly. *)
Lemma sort_on_strict l : NoDup (key <$> l) -> StronglySorted klt (key <$> sort_on l).
Proof.
  intros Hn. assert (Hn' : NoDup (key <$> sort_on l)) by (by rewrite sort_on_perm).
  revert Hn'. generalize (sort_on_sorted l). generalize (sort_on l). clear Hn l.
  induction 1 as [|x l Hs IH Hall]; csimpl; [constructor|].
  intros [Hx Hn]%NoDup_cons. constructor; [auto|]. apply Forall_fmap, Forall_forall. intros y Hy.
  rewrite Forall_forall in Hall. destruct (klt_trichotomy (key x) (key y)) as [[H|H]|H]; [done| |].
  - destruct Hx. rewrite H. by apply list_elem_of_fmap_2.
  - by destruct (Hall y Hy).
Qed.
End sort.

Section ascending.
Context {A K : Type} {C : Cmp K} {L : CmpLaws K} (key : A -> K).
Implicit Types (l : list A) (k : K).

(** In an ascending list, what is greater than some key is what follows it. *)
Lemma ascending_after l1 l2 k :
  StronglySorted klt (key <$> (l1 ++ l2)) ->
  last (key <$> l1) = Some k -> filter (fun x => klt k (key x)) (l1 ++ l2) = l2.
Proof.
  intros Hs Hk. rewrite fmap_app in Hs. apply StronglySorted_app in Hs as (Hlt & Hs1 & Hs2).
  rewrite filter_app. rewrite (filter_drop _ l1).
  - simpl. apply filter_keep. rewrite Forall_forall. intros x Hx. apply Hlt; [|by apply list_elem_of_fmap_2].
    rewrite last_lookup in Hk. by eapply list_elem_of_lookup_2.
  - rewrite Forall_forall. intros x Hx Hlt'. apply list_elem_of_fmap_2 with (f := key) in Hx.
    rewrite last_Some in Hk. destruct Hk as [l' E]. rewrite E in Hx, Hs1.
    apply elem_of_app in Hx as [Hx|Hx%list_elem_of_singleton].
    + apply StronglySorted_app in Hs1 as (Hl & _ & _).
      apply (klt_irrefl k). trans (key x); [done|]. apply Hl; [done|]. set_solver.
    + rewrite Hx in Hlt'. by apply klt_irrefl in Hlt'.
Qed.
End ascending.

Section unique.
Context {A K : Type} {C : Cmp K} {L : CmpLaws K} (key : A -> K).
Implicit Types l : list A.

Definition key_lt (x y : A) : Prop := klt (key x) (key y).

Lemma key_lt_fmap l : StronglySorted klt (key <$> l) <-> StronglySorted key_lt l.
Proof.
  induction l as [|x l IH]; csimpl; [split; constructor|].
  by rewrite !StronglySorted_cons, Forall_fmap, IH.
Qed.

#[export] Instance key_lt_antisym : AntiSymm (=) key_lt.
Proof. intros x y H1 H2. destruct (klt_irrefl (key x)). unfold key_lt in *. by trans (key y). Qed.

(** A strictly ascending list is determined by its elements. *)
Lemma ascending_unique l1 l2 :
  StronglySorted klt (key <$> l1) -> StronglySorted klt (key <$> l2) -> l1 ≡ₚ l2 -> l1 = l2.
Proof. rewrite !key_lt_fmap. intros. by apply (StronglySorted_unique key_lt). Qed.

Lemma ascending_filter (P : A -> Prop) `{forall x, Decision (P x)} l :
  StronglySorted klt (key <$> l) -> StronglySorted klt (key <$> filter P l).
Proof.
  induction l as [|x l IH]; csimpl; [done|]. inversion 1 as [|?? Hs Hall]; subst.
  rewrite filter_cons. case_decide; csimpl; [|auto]. constructor; [auto|].
  rewrite Forall_fmap in Hall |- *. rewrite Forall_forall in *.
  intros y [_ Hy]%list_elem_of_filter. by apply Hall.
Qed.

(** Sorting a selection is selecting of the sorted. *)
Lemma sort_on_filter (P : A -> Prop) `{forall x, Decision (P x)} l l' :
  NoDup (key <$> l) -> l ≡ₚ l' -> sort_on key (filter P l') = filter P (sort_on key l).
Proof.
  intros Hn Hp. apply ascending_unique.
  - apply sort_on_strict. rewrite <- Hp. eapply sublist_NoDup; [exact Hn|].
    apply fmap_sublist, sublist_filter.
  - by apply ascending_filter, sort_on_strict.
  - by rewrite !sort_on_perm, Hp.
Qed.
End unique.
