(* ===== verification/Hex.v ===== *)
(** The lowercase-hex codec (crates/nessie-backend-core/src/hex.rs) shared by
    the text forms of digests, signer ids and signatures. *)

From Stdlib Require Import ZArith Lia.
From stdpp Require Import base list.
From S2P Require Import Prelude.

Local Open Scope Z_scope.

Definition HEX : list byte := bs "0123456789abcdef".

(** [HEX\[i\] as char]; the indices the code uses are nibbles, always in range. *)
Definition hex_char (i : Z) : byte := nth (Z.to_nat i) HEX Byte.x00.

Fixpoint encode (bytes : list byte) : list byte :=
  match bytes with
  | [] => []
  | b :: rest =>
      hex_char (Z.shiftr (b2z b) 4) :: hex_char (Z.land (b2z b) 15) :: encode rest
  end.

Definition val (c : byte) : option Z :=
  let c := b2z c in
  if bool_decide (48 <= c <= 57) then Some (c - 48)
  else if bool_decide (97 <= c <= 102) then Some (c - 97 + 10)
  else if bool_decide (65 <= c <= 70) then Some (c - 65 + 10)
  else None.

(** The [chunks_exact(2)] loop of [decode]. *)
Fixpoint decode_pairs (s : list byte) : option (list byte) :=
  match s with
  | c0 :: c1 :: rest =>
      v0 ← val c0;
      v1 ← val c1;
      out ← decode_pairs rest;
      Some (z2b (Z.lor (Z.shiftl v0 4) v1) :: out)
  | _ => Some []
  end.

Definition decode (s : list byte) : option (list byte) :=
  if bool_decide (length s mod 2 = 0)%nat then decode_pairs s else None.

(** ASCII lowercase hex digits: what [encode] emits. *)
Definition is_lower_hex (c : byte) : bool :=
  bool_decide (48 <= b2z c <= 57) || bool_decide (97 <= b2z c <= 102).

(** ASCII [to_ascii_lowercase], used only to state what [decode] accepts. *)
Definition to_lower (c : byte) : byte :=
  if bool_decide (65 <= b2z c <= 90) then z2b (b2z c + 32) else c.

(** A statement about every byte, decided by enumeration. *)
Lemma byte_forall (P : byte -> Prop) `{!forall b, Decision (P b)} :
  forallb (fun n => bool_decide (P (z2b (Z.of_nat n)))) (seq 0 256) = true ->
  forall b, P b.
Proof.
  rewrite forallb_forall. intros Hall b. pose proof (b2z_range b).
  specialize (Hall (Z.to_nat (b2z b)) ltac:(apply in_seq; lia)).
  rewrite Z2Nat.id, z2b_b2z in Hall by lia. by apply bool_decide_eq_true_1 in Hall.
Qed.

#[local] Instance from_option_dec {A} (P : A -> Prop) `{forall a, Decision (P a)} (o : option A) :
  Decision (from_option P True o).
Proof. destruct o; simpl; apply _. Defined.

Ltac by_bytes := refine (byte_forall _ _); vm_compute; reflexivity.

Lemma val_nibbles : forall b,
  val (hex_char (Z.shiftr (b2z b) 4)) = Some (Z.shiftr (b2z b) 4) /\
  val (hex_char (Z.land (b2z b) 15)) = Some (Z.land (b2z b) 15).
Proof. by_bytes. Qed.

Lemma nibbles_join : forall b,
  z2b (Z.lor (Z.shiftl (Z.shiftr (b2z b) 4) 4) (Z.land (b2z b) 15)) = b.
Proof. by_bytes. Qed.

Lemma nibbles_lower : forall b,
  is_lower_hex (hex_char (Z.shiftr (b2z b) 4)) = true /\
  is_lower_hex (hex_char (Z.land (b2z b) 15)) = true.
Proof. by_bytes. Qed.

Lemma lower_hex_val : forall c, is_lower_hex c = true -> is_Some (val c).
Proof. by_bytes. Qed.

Lemma val_range : forall c, from_option (fun v => 0 <= v < 16) True (val c).
Proof. by_bytes. Qed.

Lemma val_hex_char : forall c,
  from_option (fun v => hex_char v = to_lower c) True (val c).
Proof. by_bytes. Qed.

Lemma join_nibbles v0 v1 :
  0 <= v0 < 16 -> 0 <= v1 < 16 ->
  let b := z2b (Z.lor (Z.shiftl v0 4) v1) in
  Z.shiftr (b2z b) 4 = v0 /\ Z.land (b2z b) 15 = v1.
Proof.
  intros H0 H1.
  assert (Hall : forallb (fun i => forallb (fun j =>
      let b := z2b (Z.lor (Z.shiftl (Z.of_nat i) 4) (Z.of_nat j)) in
      bool_decide (Z.shiftr (b2z b) 4 = Z.of_nat i /\ Z.land (b2z b) 15 = Z.of_nat j))
      (seq 0 16)) (seq 0 16) = true) by (vm_compute; reflexivity).
  rewrite forallb_forall in Hall.
  specialize (Hall (Z.to_nat v0) ltac:(apply in_seq; lia)).
  rewrite forallb_forall in Hall.
  specialize (Hall (Z.to_nat v1) ltac:(apply in_seq; lia)).
  rewrite !Z2Nat.id in Hall by lia. by apply bool_decide_eq_true_1 in Hall.
Qed.

Lemma length_encode bytes : length (encode bytes) = (2 * length bytes)%nat.
Proof. induction bytes; simpl in *; lia. Qed.

Lemma encode_lower bytes : Forall (fun c => is_lower_hex c = true) (encode bytes).
Proof.
  induction bytes as [|b bytes IH]; simpl; [constructor|].
  destruct (nibbles_lower b). by repeat constructor.
Qed.

Lemma hex_no (c : byte) l : is_lower_hex c = false -> c ∉ encode l.
Proof.
  intros Hc Hin. pose proof (encode_lower l) as Hall. rewrite Forall_forall in Hall.
  specialize (Hall c Hin). congruence.
Qed.

Lemma decode_pairs_encode bytes : decode_pairs (encode bytes) = Some bytes.
Proof.
  induction bytes as [|b bytes IH]; simpl; [done|].
  destruct (val_nibbles b) as [-> ->]. cbn. rewrite IH. cbn. by rewrite nibbles_join.
Qed.

Lemma decode_encode bytes : decode (encode bytes) = Some bytes.
Proof.
  unfold decode. rewrite bool_decide_true; [apply decode_pairs_encode|].
  rewrite length_encode, Nat.mul_comm. apply Nat.Div0.mod_mul.
Qed.

Lemma pair_ind {A} (P : list A -> Prop) :
  P [] -> (forall x, P [x]) -> (forall x y l, P l -> P (x :: y :: l)) -> forall l, P l.
Proof.
  intros H0 H1 H2 l.
  enough (H : P l /\ forall x, P (x :: l)) by apply H.
  induction l as [|y l [IH1 IH2]]; split; auto.
Qed.

(** [decode] accepts both cases, and what it accepts is [encode]'s output up to
    case: the text form is canonical exactly on lowercase input. *)
Lemma decode_Some s bytes :
  decode s = Some bytes -> encode bytes = to_lower <$> s.
Proof.
  unfold decode. case_bool_decide as Hev; [|done]. revert bytes Hev.
  induction s as [|c|c0 c1 s IH] using pair_ind; intros bytes Hev.
  - by intros [= <-].
  - done.
  - cbn [decode_pairs]. rewrite bind_Some. intros (v0 & E0 & H).
    rewrite bind_Some in H. destruct H as (v1 & E1 & H).
    rewrite bind_Some in H. destruct H as (out & Eo & H). injection H as <-.
    pose proof (val_range c0) as R0. pose proof (val_range c1) as R1.
    pose proof (val_hex_char c0) as H0. pose proof (val_hex_char c1) as H1.
    rewrite E0 in R0, H0. rewrite E1 in R1, H1. simpl in R0, R1, H0, H1.
    destruct (join_nibbles v0 v1 R0 R1) as [J0 J1].
    cbn [encode]. rewrite J0, J1, H0, H1. csimpl. do 2 f_equal.
    apply IH; [|done]. cbn [length] in Hev.
    replace (S (S (length s))) with (length s + 1 * 2)%nat in Hev by lia.
    by rewrite Nat.Div0.mod_add in Hev.
Qed.

Lemma decode_length s bytes :
  decode s = Some bytes -> length s = (2 * length bytes)%nat.
Proof.
  intros H. apply decode_Some in H. rewrite <- length_encode, H. by rewrite length_fmap.
Qed.

Lemma to_lower_lower : forall c, is_lower_hex c = true -> to_lower c = c.
Proof. by_bytes. Qed.

Lemma decode_lower s bytes :
  Forall (fun c => is_lower_hex c = true) s -> decode s = Some bytes -> encode bytes = s.
Proof.
  intros Hall H. rewrite (decode_Some s bytes H).
  clear H. induction Hall as [|c s Hc Hs IH]; csimpl; [done|].
  by rewrite (to_lower_lower c Hc), IH.
Qed.

Lemma decode_lower_Some s :
  Forall (fun c => is_lower_hex c = true) s -> (length s mod 2 = 0)%nat ->
  is_Some (decode s).
Proof.
  intros Hall Hev. unfold decode. rewrite bool_decide_true by done.
  revert Hall Hev. induction s as [|c|c0 c1 s IH] using pair_ind; intros Hall Hev;
    [by eexists|done|].
  inversion Hall as [|?? Hc0 Hall']; subst. inversion Hall' as [|?? Hc1 Hall'']; subst.
  cbn [decode_pairs].
  destruct (lower_hex_val c0 Hc0) as [v0 ->], (lower_hex_val c1 Hc1) as [v1 ->].
  destruct IH as [out ->]; [done| |by eexists].
  cbn [length] in Hev. replace (S (S (length s))) with (length s + 1 * 2)%nat in Hev by lia.
  by rewrite Nat.Div0.mod_add in Hev.
Qed.

Lemma val_to_lower : forall c, val (to_lower c) = val c.
Proof. by_bytes. Qed.

Lemma decode_to_lower s : decode (to_lower <$> s) = decode s.
Proof.
  unfold decode. rewrite length_fmap.
  enough (decode_pairs (to_lower <$> s) = decode_pairs s) as -> by done.
  induction s as [|c|c0 c1 s IH] using pair_ind; [done..|]. csimpl.
  by rewrite !val_to_lower, IH.
Qed.

(** Exactly the encodings, up to case. *)
Lemma decode_iff s bytes : decode s = Some bytes <-> encode bytes = to_lower <$> s.
Proof.
  split; [apply decode_Some|]. intros E. by rewrite <- decode_to_lower, <- E, decode_encode.
Qed.

#[export] Hint Rewrite decode_encode length_encode : codec.
