(* ===== verification/Text.v ===== *)
(** Strings as the source uses them: UTF-8 byte sequences, splitting on a
    separator, and the decimal text of unsigned integers.  A Rust [String] or
    [&str] is its list of bytes. *)

From Stdlib Require Import ZArith Lia.
From stdpp Require Import base list sets.
From S2P Require Import Prelude.

Local Open Scope Z_scope.

(** ** UTF-8 validation: [String::from_utf8] *)

Definition in_range (lo hi : Z) (b : byte) : bool := bool_decide (lo <= b2z b <= hi).
Definition is_cont (b : byte) : bool := in_range 128 191 b.

Definition second3_ok (b0 b1 : byte) : bool :=
  if in_range 224 224 b0 then in_range 160 191 b1
  else if in_range 237 237 b0 then in_range 128 159 b1
  else is_cont b1.

Definition second4_ok (b0 b1 : byte) : bool :=
  if in_range 240 240 b0 then in_range 144 191 b1
  else if in_range 244 244 b0 then in_range 128 143 b1
  else is_cont b1.

Fixpoint utf8_valid (s : list byte) : bool :=
  match s with
  | [] => true
  | b0 :: r0 =>
      if in_range 0 127 b0 then utf8_valid r0
      else match r0 with
      | [] => false
      | b1 :: r1 =>
          if in_range 194 223 b0 then is_cont b1 && utf8_valid r1
          else match r1 with
          | [] => false
          | b2 :: r2 =>
              if in_range 224 239 b0 then second3_ok b0 b1 && is_cont b2 && utf8_valid r2
              else match r2 with
              | [] => false
              | b3 :: r3 =>
                  in_range 240 244 b0 && second4_ok b0 b1 && is_cont b2 && is_cont b3
                  && utf8_valid r3
              end
          end
      end
  end.

Definition from_utf8 (s : list byte) : option (list byte) :=
  if utf8_valid s then Some s else None.

Lemma from_utf8_Some s t : from_utf8 s = Some t <-> s = t /\ utf8_valid s = true.
Proof. unfold from_utf8. destruct (utf8_valid s); naive_solver. Qed.

Lemma utf8_valid_ascii s :
  Forall (fun b => in_range 0 127 b = true) s -> utf8_valid s = true.
Proof. induction 1 as [|b s Hb Hs IH]; simpl; [done|]. by rewrite Hb. Qed.

Lemma utf8_valid_app s t :
  utf8_valid s = true -> utf8_valid t = true -> utf8_valid (s ++ t) = true.
Proof.
  intros Hs Ht. revert Hs. remember (length s) as n eqn:Hn. revert s Hn.
  induction n as [n IH] using lt_wf_ind. intros s ->.
  assert (Hr : forall r, (length r < length s)%nat -> utf8_valid r = true -> utf8_valid (r ++ t) = true)
    by (intros r Hlt; by eapply IH).
  clear IH. rename Hr into IH.
  destruct s as [|b0 r0]; [done|]. cbn [utf8_valid app].
  destruct (in_range 0 127 b0); [apply IH; simpl; lia|].
  destruct r0 as [|b1 r1]; [done|]. cbn [app].
  destruct (in_range 194 223 b0).
  { intros [-> Hr]%andb_true_iff. simpl. apply IH; [simpl; lia|done]. }
  destruct r1 as [|b2 r2]; [done|]. cbn [app].
  destruct (in_range 224 239 b0).
  { intros [-> Hr]%andb_true_iff. simpl. apply IH; [simpl; lia|done]. }
  destruct r2 as [|b3 r3]; [done|]. cbn [app].
  intros [-> Hr]%andb_true_iff. simpl. apply IH; [simpl; lia|done].
Qed.

(** ** Splitting *)

(** [str::split_once(c)] and [str::rsplit_once(c)] for an ASCII [c]. *)
Fixpoint split_once (c : byte) (s : list byte) : option (list byte * list byte) :=
  match s with
  | [] => None
  | b :: s' =>
      if decide (b = c) then Some ([], s')
      else '(l, r) ← split_once c s'; Some (b :: l, r)
  end.

Definition rsplit_once (c : byte) (s : list byte) : option (list byte * list byte) :=
  '(l, r) ← split_once c (rev s); Some (rev r, rev l).

(** [str::split(c)]: never empty; the pieces in order. *)
Fixpoint split_on (c : byte) (s : list byte) : list (list byte) :=
  match s with
  | [] => [[]]
  | b :: s' =>
      if decide (b = c) then [] :: split_on c s'
      else match split_on c s' with
      | p :: ps => (b :: p) :: ps
      | [] => [[b]]
      end
  end.

(** [slice.join(sep)] for a one-byte separator. *)
Fixpoint join_on (c : byte) (l : list (list byte)) : list byte :=
  match l with
  | [] => []
  | [p] => p
  | p :: ps => p ++ c :: join_on c ps
  end.

Fixpoint starts_with (p s : list byte) : bool :=
  match p, s with
  | [], _ => true
  | a :: p', b :: s' => bool_decide (a = b) && starts_with p' s'
  | _ :: _, [] => false
  end.

(** [str::strip_suffix] *)
Definition strip_suffix (p s : list byte) : option (list byte) :=
  if starts_with (rev p) (rev s) then Some (take (length s - length p) s) else None.

Definition slash_byte : byte := z2b 47.

(** [PathBuf::join] of a relative name. *)
Definition path_join (dir name : list byte) : list byte :=
  match last dir with
  | None => name
  | Some b => if bool_decide (b = slash_byte) then dir ++ name else dir ++ [slash_byte] ++ name
  end.

(** [str::strip_prefix] *)
Definition strip_prefix (p s : list byte) : option (list byte) :=
  if starts_with p s then Some (drop (length p) s) else None.

(** [str::contains] *)
Fixpoint contains (p s : list byte) : bool :=
  starts_with p s || match s with [] => false | _ :: s => contains p s end.

Definition nl : byte := z2b 10.
Definition cr : byte := z2b 13.

(** [str::lines]: pieces ended by a newline, each less one trailing carriage
    return; a last piece without a newline is kept as it is, unless empty. *)
Definition strip_cr (l : list byte) : list byte := default l (strip_suffix [cr] l).

Definition lines (s : list byte) : list (list byte) :=
  let ps := split_on nl s in
  (strip_cr <$> take (length ps - 1) ps) ++
  match last ps with Some (b :: l) => [b :: l] | _ => [] end.

(** [str::trim_start_matches(c)] and [str::trim_end_matches(c)] for an ASCII [c]. *)
Fixpoint trim_start_matches (c : byte) (s : list byte) : list byte :=
  match s with
  | [] => []
  | b :: s' => if decide (b = c) then trim_start_matches c s' else s
  end.

Definition trim_end_matches (c : byte) (s : list byte) : list byte :=
  rev (trim_start_matches c (rev s)).

(** The UTF-8 encodings of Unicode's white space, which [str::trim] removes. *)
Definition white_space : list (list byte) :=
  (fun l : list Z => z2b <$> l) <$>
    [[9]; [10]; [11]; [12]; [13]; [32];
     [0xC2; 0x85]; [0xC2; 0xA0]; [0xE1; 0x9A; 0x80];
     [0xE2; 0x80; 0x80]; [0xE2; 0x80; 0x81]; [0xE2; 0x80; 0x82]; [0xE2; 0x80; 0x83];
     [0xE2; 0x80; 0x84]; [0xE2; 0x80; 0x85]; [0xE2; 0x80; 0x86]; [0xE2; 0x80; 0x87];
     [0xE2; 0x80; 0x88]; [0xE2; 0x80; 0x89]; [0xE2; 0x80; 0x8A]; [0xE2; 0x80; 0xA8];
     [0xE2; 0x80; 0xA9]; [0xE2; 0x80; 0xAF]; [0xE2; 0x81; 0x9F]; [0xE3; 0x80; 0x80]].

Fixpoint trim_with (spaces : list (list byte)) (fuel : nat) (s : list byte) : list byte :=
  match fuel with
  | O => s
  | S fuel =>
      match find (fun w => starts_with w s) spaces with
      | Some w => trim_with spaces fuel (drop (length w) s)
      | None => s
      end
  end.

(** [str::trim]: each removed character is at least one byte. *)
Definition trim (s : list byte) : list byte :=
  let s := trim_with white_space (length s) s in
  rev (trim_with (@rev byte <$> white_space) (length s) (rev s)).

(** [str::split_whitespace]: [token] is the piece being read, last byte first. *)
Fixpoint split_white (fuel : nat) (token s : list byte) : list (list byte) :=
  let done := match token with [] => [] | _ => [rev token] end in
  match fuel, s with
  | O, _ | _, [] => done
  | S fuel, b :: s' =>
      match find (fun w => starts_with w s) white_space with
      | Some w => done ++ split_white fuel [] (drop (length w) s)
      | None => split_white fuel (b :: token) s'
      end
  end.

Definition split_whitespace (s : list byte) : list (list byte) := split_white (S (length s)) [] s.

(** [trim_end_matches('/')] *)
Definition trim_slashes (s : list byte) : list byte :=
  rev ((fix go (l : list byte) :=
    match l with
    | b :: l' => if bool_decide (b2z b = 47) then go l' else l
    | [] => []
    end) (rev s)).

Lemma split_once_app c l r : c ∉ l -> split_once c (l ++ c :: r) = Some (l, r).
Proof.
  induction l as [|b l IH]; intros Hn; simpl.
  - by rewrite decide_True.
  - rewrite decide_False by set_solver. rewrite IH by set_solver. done.
Qed.

Lemma rsplit_once_app c l r : c ∉ r -> rsplit_once c (l ++ c :: r) = Some (l, r).
Proof.
  intros Hr. unfold rsplit_once. rewrite rev_app_distr. cbn [rev]. rewrite <- app_assoc.
  cbn [app]. rewrite split_once_app by (by rewrite list_elem_of_In, <- in_rev, <- list_elem_of_In). cbn. by rewrite !rev_involutive.
Qed.

Lemma split_once_Some c s l r :
  split_once c s = Some (l, r) -> s = l ++ c :: r /\ c ∉ l.
Proof.
  revert l. induction s as [|b s IH]; intros l; simpl; [done|].
  case_decide as Hb.
  - intros [= <- <-]. subst. split; [done|set_solver].
  - destruct (split_once c s) as [[l' r']|]; [|done]. intros [= <- <-].
    destruct (IH l' eq_refl) as [-> Hn]. split; [done|]. set_solver.
Qed.

Lemma split_once_None c s : split_once c s = None <-> c ∉ s.
Proof.
  induction s as [|b s IH]; simpl; [set_solver|].
  case_decide as Hb.
  - split; [done|]. subst. set_solver.
  - destruct (split_once c s) as [[l' r']|]; simpl.
    + split; [done|]. set_solver.
    + split; [|done]. set_solver.
Qed.

Lemma join_split_on c s : join_on c (split_on c s) = s.
Proof.
  induction s as [|b s IH]; simpl; [done|].
  case_decide as Hb.
  - subst. destruct (split_on c s) eqn:E; [|simpl in *; by f_equal].
    destruct s; simpl in E; [done|]. repeat (case_decide || case_match); done.
  - destruct (split_on c s) as [|p [|q ps]] eqn:E; simpl in *; by f_equal.
Qed.

(** A separator-free prefix is one piece: how the parsers recover a segment. *)
Lemma split_on_app c l r :
  c ∉ l -> split_on c (l ++ c :: r) = l :: split_on c r.
Proof.
  induction l as [|b l IH]; intros Hn; simpl.
  - by rewrite decide_True.
  - rewrite decide_False by set_solver. by rewrite IH by set_solver.
Qed.

Lemma split_on_nosep c l : c ∉ l -> split_on c l = [l].
Proof.
  induction l as [|b l IH]; intros Hn; simpl; [done|].
  rewrite decide_False by set_solver. by rewrite IH by set_solver.
Qed.

Lemma split_on_pieces c s : Forall (fun p => c ∉ p) (split_on c s).
Proof.
  induction s as [|b s IH]; simpl; [by repeat constructor; set_solver|].
  case_decide as Hb; [constructor; [set_solver|done]|].
  inversion IH as [|p ps Hp Hps Heq]; subst; constructor; [set_solver| |set_solver|done].
  constructor.
Qed.

Lemma starts_with_app p s : starts_with p (p ++ s) = true.
Proof. induction p; simpl; [done|]. by rewrite bool_decide_true. Qed.

Lemma strip_prefix_app p s : strip_prefix p (p ++ s) = Some s.
Proof. unfold strip_prefix. by rewrite starts_with_app, drop_app_length. Qed.

(** ** Decimal text of unsigned integers *)

Definition digit_byte (d : Z) : byte := z2b (48 + d).

(** [u64::to_string]: most significant digit first. [fuel] bounds the number of
    digits; [dec] supplies more than enough. *)
Fixpoint dec_fuel (fuel : nat) (z : Z) (acc : list byte) : list byte :=
  match fuel with
  | O => acc
  | S f =>
      let acc' := digit_byte (z mod 10) :: acc in
      if bool_decide (z < 10) then acc' else dec_fuel f (z / 10) acc'
  end.

Definition dec (z : Z) : list byte := dec_fuel (S (Z.to_nat (Z.log2_up z))) z [].

Definition digit_val (b : byte) : option Z :=
  if bool_decide (48 <= b2z b <= 57) then Some (b2z b - 48) else None.

(** [checked_mul(10)] then [checked_add(d)], from the left. *)
Fixpoint parse_digits (bound : Z) (s : list byte) (acc : Z) : option Z :=
  match s with
  | [] => Some acc
  | b :: s' =>
      d ← digit_val b;
      let v := acc * 10 + d in
      if bool_decide (v <= bound) then parse_digits bound s' v else None
  end.

(** [str::parse::<uN>] with maximum [bound]: a leading ['+'] is allowed, an empty
    digit string is not. *)
Definition parse_uint (bound : Z) (s : list byte) : option Z :=
  match s with
  | [] => None
  | b :: s' =>
      let digits := if bool_decide (b2z b = 43) then s' else s in
      match digits with [] => None | _ => parse_digits bound digits 0 end
  end.

Definition parse_u64 : list byte -> option Z := parse_uint u64_max.

(** [str::parse::<i64>]: one sign, then digits. *)
Definition parse_i64 (s : list byte) : option Z :=
  match s with
  | b :: (_ :: _ as digits) =>
      if bool_decide (b2z b = 45) then Z.opp <$> parse_digits (2 ^ 63) digits 0 else parse_uint (2 ^ 63 - 1) s
  | _ => parse_uint (2 ^ 63 - 1) s
  end.

Lemma digit_val_byte d : 0 <= d < 10 -> digit_val (digit_byte d) = Some d.
Proof.
  intros Hd. unfold digit_val, digit_byte. rewrite b2z_z2b by lia.
  rewrite bool_decide_true by lia. f_equal. lia.
Qed.

Lemma digit_byte_b2z d : 0 <= d < 10 -> b2z (digit_byte d) = 48 + d.
Proof. intros. unfold digit_byte. by rewrite b2z_z2b by lia. Qed.

(** The digits [dec_fuel] puts before [acc] read back as [z]. *)
Lemma parse_dec_fuel fuel bound z acc :
  0 <= z <= bound -> z < 10 ^ Z.of_nat fuel ->
  parse_digits bound (dec_fuel fuel z acc) 0 = parse_digits bound acc z.
Proof.
  revert z acc. induction fuel as [|f IH]; intros z acc Hz Hlt; cbn [dec_fuel].
  - rewrite Z.pow_0_r in Hlt. by replace z with 0 by lia.
  - rewrite Nat2Z.inj_succ, Z.pow_succ_r in Hlt by lia.
    assert (Hm : 0 <= z mod 10 < 10) by (apply Z.mod_pos_bound; lia).
    case_bool_decide as Hs.
    + cbn [parse_digits]. rewrite digit_val_byte by done. cbn.
      rewrite Z.mod_small by lia. rewrite bool_decide_true by lia. done.
    + assert (0 <= z / 10 <= z).
      { split; [apply Z.div_pos; lia|]. apply Z.div_le_upper_bound; lia. }
      rewrite IH; [|lia|apply Z.div_lt_upper_bound; lia].
      cbn [parse_digits]. rewrite digit_val_byte by done. cbn.
      replace (z / 10 * 10 + z mod 10) with z by (pose proof (Z.div_mod z 10); lia).
      by rewrite bool_decide_true by lia.
Qed.

Lemma dec_fuel_enough z : 0 <= z -> z < 10 ^ Z.of_nat (S (Z.to_nat (Z.log2_up z))).
Proof.
  intros Hz. rewrite Nat2Z.inj_succ, Z2Nat.id by apply Z.log2_up_nonneg.
  pose proof (Z.log2_up_nonneg z).
  apply Z.lt_le_trans with (10 * 2 ^ Z.log2_up z).
  - destruct (decide (z <= 1)); [|pose proof (Z.log2_log2_up_spec z); lia].
    pose proof (Z.pow_pos_nonneg 2 (Z.log2_up z)). lia.
  - rewrite Z.pow_succ_r by done.
    apply Z.mul_le_mono_nonneg_l; [lia|]. apply Z.pow_le_mono_l. lia.
Qed.

Lemma dec_fuel_digits fuel z acc :
  0 <= z -> Forall (fun b => is_Some (digit_val b)) acc ->
  Forall (fun b => is_Some (digit_val b)) (dec_fuel fuel z acc).
Proof.
  revert z acc. induction fuel as [|f IH]; intros z acc Hz Hacc; cbn [dec_fuel]; [done|].
  assert (Hd : Forall (fun b => is_Some (digit_val b)) (digit_byte (z mod 10) :: acc)).
  { constructor; [|done]. rewrite digit_val_byte; [done|]. apply Z.mod_pos_bound. lia. }
  case_bool_decide; [done|]. apply IH; [apply Z.div_pos; lia|done].
Qed.

Lemma dec_fuel_nonempty fuel z acc : acc <> [] \/ fuel <> O -> dec_fuel fuel z acc <> [].
Proof.
  revert z acc. induction fuel as [|f IH]; intros z acc H; cbn [dec_fuel]; [naive_solver|].
  case_bool_decide; [done|]. apply IH. by left.
Qed.

Lemma dec_digits z : 0 <= z -> Forall (fun b => is_Some (digit_val b)) (dec z).
Proof. intros. apply dec_fuel_digits; [done|constructor]. Qed.

Lemma parse_dec bound z : 0 <= z <= bound -> parse_uint bound (dec z) = Some z.
Proof.
  intros Hz. unfold parse_uint.
  pose proof (dec_digits z ltac:(lia)) as Hd.
  destruct (dec z) as [|b s] eqn:E.
  { exfalso. revert E. apply dec_fuel_nonempty. by right. }
  inversion Hd as [|?? Hb Hs]; subst.
  rewrite bool_decide_false.
  2:{ intros H43. destruct Hb as [d Hd']. unfold digit_val in Hd'.
      rewrite H43 in Hd'. case_bool_decide; [lia|done]. }
  rewrite <- E. unfold dec. rewrite parse_dec_fuel; [done|done|].
  apply dec_fuel_enough. lia.
Qed.

Lemma dec_inj m n : 0 <= m -> 0 <= n -> dec m = dec n -> m = n.
Proof.
  intros Hm Hn E. pose proof (parse_dec (Z.max m n) m) as P1. pose proof (parse_dec (Z.max m n) n) as P2.
  rewrite E in P1. rewrite P1 in P2 by lia. specialize (P2 ltac:(lia)). congruence.
Qed.

Lemma parse_digits_bound bound s acc v :
  0 <= acc <= bound -> parse_digits bound s acc = Some v -> 0 <= v <= bound.
Proof.
  revert acc. induction s as [|b s IH]; intros acc Hacc; cbn [parse_digits].
  - intros [= <-]. done.
  - rewrite bind_Some. intros (d & Hd & H). case_bool_decide as Hle; [|done].
    eapply IH; [|done]. unfold digit_val in Hd. case_bool_decide; [|done].
    injection Hd as <-. lia.
Qed.

Lemma parse_u64_range s v : parse_u64 s = Some v -> is_u64 v.
Proof.
  unfold parse_u64, parse_uint, is_u64. destruct s as [|b s]; [done|].
  destruct (if bool_decide (b2z b = 43) then s else b :: s); [done|].
  apply (parse_digits_bound u64_max _ 0). unfold u64_max. lia.
Qed.
