(* ===== verification/Digest.v ===== *)
(** Content digests (crates/nessie-backend-core/src/digest.rs): the algorithm
    tag, incremental hashing, and the text and multihash codecs.

    The BLAKE3 and SHA-256 implementations are third-party crates; they enter as
    the class [Hashers], with [HasherLaws] stating what their documentation
    promises (fixed output length, and that the chunking of updates does not
    matter).  [Checksum] is a concrete instance for evaluating the model. *)

From Stdlib Require Import ZArith Lia.
From stdpp Require Import base list sets countable.
From S2P Require Import Prelude Ordered Hex Text.

Local Open Scope Z_scope.

(** ** [DigestAlgo] *)

Inductive DigestAlgo := Blake3 | Sha256.

#[export] Instance DigestAlgo_eq_dec : EqDecision DigestAlgo.
Proof. solve_decision. Defined.

Definition DEFAULT : DigestAlgo := Blake3.

Definition multicodec (a : DigestAlgo) : Z :=
  match a with Blake3 => 0x1e | Sha256 => 0x12 end.

Definition digest_len (a : DigestAlgo) : nat :=
  match a with Blake3 | Sha256 => 32%nat end.

Definition name (a : DigestAlgo) : list byte :=
  match a with Blake3 => bs "blake3" | Sha256 => bs "sha2-256" end.

Definition from_multicodec (code : byte) : option DigestAlgo :=
  let code := b2z code in
  if bool_decide (code = 0x1e) then Some Blake3
  else if bool_decide (code = 0x12) then Some Sha256
  else None.

Definition from_name (n : list byte) : option DigestAlgo :=
  if bool_decide (n = bs "blake3") then Some Blake3
  else if bool_decide (n = bs "sha2-256") then Some Sha256
  else None.

(** ** [Digest] *)

Record Digest := mkDigest { algo : DigestAlgo; bytes : list byte }.

#[export] Instance Digest_eq_dec : EqDecision Digest.
Proof. solve_decision. Defined.

#[export] Instance DigestAlgo_countable : Countable DigestAlgo :=
  inj_countable' (fun a => match a with Blake3 => true | Sha256 => false end)
    (fun b : bool => if b then Blake3 else Sha256) ltac:(by intros []).

#[export] Instance Digest_countable : Countable Digest :=
  inj_countable' (fun d => (algo d, bytes d)) (fun p => mkDigest p.1 p.2)
    ltac:(by intros []).

(** Derived [Ord]: algorithm in declaration order, then the bytes. *)
#[export] Instance Digest_cmp : Cmp Digest := fun a b =>
  match algo a, algo b with
  | Blake3, Sha256 => Lt
  | Sha256, Blake3 => Gt
  | _, _ => kcmp (bytes a) (bytes b)
  end.

#[export] Instance Digest_cmp_laws : CmpLaws Digest.
Proof.
  split; unfold kcmp, Digest_cmp.
  - intros [[] x] [[] y]; simpl; try done;
      rewrite cmp_eq_iff; split; congruence.
  - intros [[] x] [[] y]; simpl; try done; apply cmp_antisym.
  - intros [[] x] [[] y] [[] z]; simpl; try done; apply cmp_lt_trans.
Qed.

(** The invariant of the type: only hashing and parsing build a digest, and both
    give the algorithm's output length. *)
Definition digest_wf (d : Digest) : Prop := length (bytes d) = digest_len (algo d).

#[export] Instance digest_wf_dec d : Decision (digest_wf d).
Proof. unfold digest_wf. apply _. Defined.

(** ** Hashing *)

Class Hashers : Type := {
  hstate : DigestAlgo -> Type;
  h_new : forall a, hstate a;
  h_update : forall a, hstate a -> list byte -> hstate a;
  h_finalize : forall a, hstate a -> list byte;
}.

Class HasherLaws (H : Hashers) : Prop := {
  h_output_len : forall a (s : hstate a), length (h_finalize a s) = 32%nat;
  h_chunking : forall a (xs ys : list (list byte)),
    concat xs = concat ys ->
    h_finalize a (foldl (h_update a) (h_new a) xs) =
    h_finalize a (foldl (h_update a) (h_new a) ys);
}.

Section hashing.
Context {H : Hashers}.

(** [DigestHasher(HasherState)], one variant per algorithm. *)
Inductive DigestHasher : Type :=
  | HBlake3 (h : hstate Blake3)
  | HSha256 (h : hstate Sha256).

Definition hasher_new (a : DigestAlgo) : DigestHasher :=
    match a with
    | Blake3 => HBlake3 (h_new Blake3)
    | Sha256 => HSha256 (h_new Sha256)
    end.

Definition hasher_update (h : DigestHasher) (data : list byte) : DigestHasher :=
    match h with
    | HBlake3 h => HBlake3 (h_update Blake3 h data)
    | HSha256 h => HSha256 (h_update Sha256 h data)
    end.

Definition hasher_finalize (h : DigestHasher) : Digest :=
    match h with
    | HBlake3 h => mkDigest Blake3 (h_finalize Blake3 h)
    | HSha256 h => mkDigest Sha256 (h_finalize Sha256 h)
    end.

Definition compute_with (a : DigestAlgo) (data : list byte) : Digest :=
    hasher_finalize (hasher_update (hasher_new a) data).

Definition compute (data : list byte) : Digest := compute_with DEFAULT data.

Definition verify (d : Digest) (data : list byte) : bool :=
    bool_decide (compute_with (algo d) data = d).

(** Feeding a sequence of chunks, as the streaming writers do. *)
Definition hasher_feed (h : DigestHasher) (chunks : list (list byte)) : DigestHasher :=
    foldl hasher_update h chunks.

Lemma hasher_feed_new a chunks :
    hasher_finalize (hasher_feed (hasher_new a) chunks) =
    mkDigest a (h_finalize a (foldl (h_update a) (h_new a) chunks)).
Proof.
    unfold hasher_feed. destruct a; simpl.
    - enough (Hg : forall h, hasher_finalize (foldl hasher_update (HBlake3 h) chunks) =
        mkDigest Blake3 (h_finalize Blake3 (foldl (h_update Blake3) h chunks))) by apply Hg.
      induction chunks; intros; simpl; auto.
    - enough (Hg : forall h, hasher_finalize (foldl hasher_update (HSha256 h) chunks) =
        mkDigest Sha256 (h_finalize Sha256 (foldl (h_update Sha256) h chunks))) by apply Hg.
      induction chunks; intros; simpl; auto.
Qed.

Lemma compute_with_feed a data :
    compute_with a data = hasher_finalize (hasher_feed (hasher_new a) [data]).
Proof. done. Qed.

Lemma algo_compute_with a data : algo (compute_with a data) = a.
Proof. by destruct a. Qed.

Lemma verify_true d data : verify d data = true <-> compute_with (algo d) data = d.
Proof. unfold verify. apply bool_decide_eq_true. Qed.

Lemma verify_compute_with a data : verify (compute_with a data) data = true.
Proof. apply verify_true. by rewrite algo_compute_with. Qed.

Lemma verify_compute data : verify (compute data) data = true.
Proof. apply verify_compute_with. Qed.

Context {HL : HasherLaws H}.

Lemma feed_concat a chunks :
    hasher_finalize (hasher_feed (hasher_new a) chunks) = compute_with a (concat chunks).
Proof.
    rewrite compute_with_feed, !hasher_feed_new. f_equal. apply h_chunking.
    simpl. by rewrite app_nil_r.
Qed.

Lemma compute_with_wf a data : digest_wf (compute_with a data).
Proof.
    unfold digest_wf. rewrite compute_with_feed, hasher_feed_new. simpl.
    rewrite h_output_len. by destruct a.
Qed.

Lemma compute_wf data : digest_wf (compute data).
Proof. apply compute_with_wf. Qed.

Lemma verify_wf d data : verify d data = true -> digest_wf d.
Proof. intros <-%verify_true. apply compute_with_wf. Qed.
End hashing.

#[export] Hint Resolve verify_compute verify_compute_with compute_wf compute_with_wf : nessie.

(** ** Codecs *)

Inductive DigestParseError :=
| MissingSeparator
| UnknownAlgo (n : list byte)
| UnknownMulticodec (code : byte)
| BadHex
| Truncated
| WrongLength (expected actual : nat).

#[export] Instance DigestParseError_eq_dec : EqDecision DigestParseError.
Proof. solve_decision. Defined.

Definition to_multihash_bytes (d : Digest) : list byte :=
  z2b (multicodec (algo d)) :: z2b (Z.of_nat (digest_len (algo d))) :: bytes d.

Definition from_multihash_bytes (input : list byte) : result DigestParseError Digest :=
  code ← ok_or (input !! 0%nat) Truncated;
  len ← ok_or (input !! 1%nat) Truncated;
  a ← ok_or (from_multicodec code) (UnknownMulticodec code);
  digest ← ok_or (if bool_decide (2 <= length input)%nat then Some (drop 2 input) else None)
    Truncated;
  if bool_decide (zlen digest <> b2z len) then Err Truncated
  else if bool_decide (length digest <> digest_len a) then
    Err (WrongLength (digest_len a) (length digest))
  else Ok (mkDigest a digest).

(** [Display]: ["<algo>:<hex>"]. *)
Definition to_string (d : Digest) : list byte :=
  name (algo d) ++ bs ":" ++ Hex.encode (bytes d).

Definition colon : byte := z2b 58.

(** [FromStr] *)
Definition from_str (s : list byte) : result DigestParseError Digest :=
  '(n, hex) ← ok_or (split_once colon s) MissingSeparator;
  a ← ok_or (from_name n) (UnknownAlgo n);
  bytes ← ok_or (Hex.decode hex) BadHex;
  if bool_decide (length bytes <> digest_len a) then
    Err (WrongLength (digest_len a) (length bytes))
  else Ok (mkDigest a bytes).

Lemma from_multicodec_multicodec a : from_multicodec (z2b (multicodec a)) = Some a.
Proof. by destruct a. Qed.

Lemma from_name_name a : from_name (name a) = Some a.
Proof. by destruct a. Qed.

Lemma from_name_Some n a : from_name n = Some a <-> n = name a.
Proof.
  split; [|intros ->; apply from_name_name]. unfold from_name.
  repeat case_bool_decide; intros [= <-]; done.
Qed.

Lemma name_no_colon a : colon ∉ name a.
Proof. destruct a; vm_compute; set_solver. Qed.

Lemma from_to_multihash_bytes d :
  digest_wf d -> from_multihash_bytes (to_multihash_bytes d) = Ok d.
Proof.
  unfold digest_wf. destruct d as [a b]; cbn [algo bytes]. intros Hlen.
  unfold from_multihash_bytes, to_multihash_bytes. cbn [lookup list_lookup ok_or algo bytes].
  rewrite bind_Ok_l, bind_Ok_l, from_multicodec_multicodec. cbn [ok_or].
  rewrite bind_Ok_l. rewrite bool_decide_true by (simpl; lia). cbn [ok_or].
  rewrite bind_Ok_l. cbn [drop]. rewrite drop_0. unfold zlen. rewrite Hlen.
  rewrite bool_decide_false; [by rewrite bool_decide_false by naive_solver|].
  intros Hn. apply Hn. by destruct a.
Qed.

(** Decoding is a validator: only the encoder's bytes are accepted. *)
Lemma from_multihash_bytes_Ok input d :
  from_multihash_bytes input = Ok d -> digest_wf d /\ input = to_multihash_bytes d.
Proof.
  unfold from_multihash_bytes, to_multihash_bytes, digest_wf. intros H0.
  destruct input as [|c [|l rest]]; try done.
  cbn [lookup list_lookup ok_or] in H0. rewrite !bind_Ok_l in H0.
  rewrite bool_decide_true in H0 by (simpl; lia). inv_ok.
  case_bool_decide as Hl; [done|]. case_bool_decide as Hl'; [done|]. inv_ok.
  cbn [drop algo bytes] in *. rewrite ?drop_0 in *.
  assert (Hlen : length rest = digest_len a) by (destruct (decide (length rest = digest_len a)); naive_solver).
  split; [done|]. rewrite <- Hlen.
  assert (Hz : zlen rest = b2z l) by (destruct (decide (zlen rest = b2z l)); naive_solver).
  unfold zlen in Hz. rewrite Hz, z2b_b2z. f_equal.
  unfold from_multicodec in Ha. repeat case_bool_decide; simplify_eq; simpl;
    apply (inj b2z); by rewrite b2z_z2b by done.
Qed.

Lemma from_str_to_string d : digest_wf d -> from_str (to_string d) = Ok d.
Proof.
  unfold digest_wf. destruct d as [a b]. cbn [algo bytes]. intros Hlen.
  unfold from_str, to_string. cbn [algo bytes].
  change (bs ":" ++ Hex.encode b) with (colon :: Hex.encode b).
  rewrite split_once_app by apply name_no_colon. cbn [ok_or]. rewrite bind_Ok_l.
  rewrite from_name_name. cbn [ok_or]. rewrite bind_Ok_l.
  rewrite Hex.decode_encode. cbn [ok_or]. rewrite bind_Ok_l.
  by rewrite bool_decide_false by naive_solver.
Qed.

(** What [from_str] accepts: the printed form up to the case of the hex. *)
Lemma from_str_Ok s d :
  from_str s = Ok d ->
  digest_wf d /\ exists hex, s = name (algo d) ++ colon :: hex /\
    Hex.encode (bytes d) = Hex.to_lower <$> hex.
Proof.
  unfold from_str, digest_wf. intros H0. inv_ok. destruct a as [n hex]. inv_ok.
  case_bool_decide as Hl; [done|]. inv_ok. cbn [algo bytes].
  apply split_once_Some in Ha as [-> _]. apply from_name_Some in Ha0 as ->.
  split; [destruct (decide (length a0 = digest_len a)); naive_solver|].
  eexists. split; [done|]. by apply Hex.decode_Some.
Qed.

Lemma to_string_inj d1 d2 :
  digest_wf d1 -> digest_wf d2 -> to_string d1 = to_string d2 -> d1 = d2.
Proof.
  intros H1 H2 Heq. apply from_str_to_string in H1, H2. congruence.
Qed.

Lemma lower_hex_ascii : forall b, Hex.is_lower_hex b = true -> in_range 0 127 b = true.
Proof.
  apply (Hex.byte_forall (fun b => Hex.is_lower_hex b = true -> in_range 0 127 b = true)).
  vm_compute. reflexivity.
Qed.

Lemma encode_ascii l : Forall (fun b => in_range 0 127 b = true) (Hex.encode l).
Proof. eapply Forall_impl; [apply lower_hex_ascii|apply Hex.encode_lower]. Qed.

Lemma to_string_ascii d : Forall (fun b => in_range 0 127 b = true) (to_string d).
Proof.
  unfold to_string. apply Forall_app. split.
  - destruct (algo d); apply (bool_decide_unpack _); vm_compute; exact I.
  - apply Forall_app. split; [by repeat constructor|].
    apply encode_ascii.
Qed.

(** ** Properties *)

(** The multihash form is canonical: a byte string decodes to a digest exactly
    when it is that digest's encoding and the digest has its algorithm's length. *)
Theorem multihash_canonical (input : list byte) (d : Digest) :
  from_multihash_bytes input = Ok d <-> digest_wf d /\ input = to_multihash_bytes d.
Proof.
  split; [apply from_multihash_bytes_Ok|]. intros [Hwf ->]. by apply from_to_multihash_bytes.
Qed.

(** The text form: what parses as a digest is exactly [algo:hex], with a known
    algorithm, hex digits of either case and the algorithm's length; so a printed
    digest parses back to itself, and two spellings of one digest differ only in
    the case of the hex. *)
Theorem digest_text (s : list byte) (d : Digest) :
  from_str s = Ok d <->
  digest_wf d /\ exists hex, s = name (algo d) ++ colon :: hex /\
    Hex.to_lower <$> hex = Hex.encode (bytes d).
Proof.
  split.
  - intros H. destruct (from_str_Ok s d H) as (Hwf & hex & -> & E). eauto.
  - intros (Hwf & hex & -> & E). unfold digest_wf in Hwf. destruct d as [a b].
    cbn [algo bytes] in *. unfold from_str. rewrite split_once_app by apply name_no_colon.
    cbn [ok_or]. rewrite bind_Ok_l, from_name_name. cbn [ok_or]. rewrite bind_Ok_l.
    assert (Hex.decode hex = Some b) as -> by (by apply Hex.decode_iff).
    cbn [ok_or]. rewrite bind_Ok_l. by rewrite bool_decide_false by naive_solver.
Qed.

(** Streaming is one-shot hashing: feeding a hasher any chunking of the data gives
    the digest of the whole, which verifies the data and has its algorithm's length. *)
Theorem streaming_digest {H : Hashers} {HL : HasherLaws H} (a : DigestAlgo)
    (chunks : list (list byte)) :
  let d := hasher_finalize (hasher_feed (hasher_new a) chunks) in
  d = compute_with a (concat chunks) /\ verify d (concat chunks) = true /\
  digest_wf d /\ algo d = a.
Proof.
  simpl. rewrite feed_concat. split_and!; [done|apply verify_compute_with|
    apply compute_with_wf|apply algo_compute_with].
Qed.

(** ** A concrete pair of hash functions, for evaluation

    A polynomial checksum of everything absorbed, tagged with its algorithm; it
    satisfies [HasherLaws] and is injective on short inputs. *)

Module Checksum.
Definition step (acc : Z) (b : byte) : Z := (acc * 257 + b2z b + 1) mod 2 ^ 248.

#[export] Instance hashers : Hashers := {|
    hstate _ := Z;
    h_new _ := 0;
    h_update _ acc data := foldl step acc data;
    h_finalize a acc := z2b (multicodec a) :: le_bytes 31 acc;
  |}.

#[export] Instance laws : HasherLaws hashers.
Proof.
    split.
    - intros a s. cbn [h_finalize hashers length]. by rewrite length_le_bytes.
    - intros a xs ys Heq.
      assert (Hf : forall zs acc, foldl (h_update a) acc zs = foldl step acc (concat zs)).
      { induction zs as [|z zs IH]; intros acc; simpl; [done|].
        by rewrite IH, foldl_app. }
      rewrite !Hf. by rewrite Heq.
Qed.
End Checksum.

(** The laws hold of [Checksum], and the streaming theorem applies to it. *)
Theorem streaming_digest_witness :
  let d := @hasher_finalize Checksum.hashers
    (hasher_feed (hasher_new Sha256) [bs "he"; []; bs "llo"]) in
  d = @compute_with Checksum.hashers Sha256 (bs "hello") /\
  @verify Checksum.hashers d (bs "hello") = true /\ digest_wf d /\ algo d = Sha256.
Proof.
  exact (@streaming_digest Checksum.hashers Checksum.laws Sha256 [bs "he"; []; bs "llo"]).
Defined.
