(* ===== verification/Errors.v ===== *)
(** The error type every backend returns (crates/nessie-backend-core/src/error.rs),
    the identifiers it carries (attestation.rs, ids.rs), and the byte-stream
    sources ([std::io::Read]) the write paths consume. *)

From Stdlib Require Import ZArith Lia.
From stdpp Require Import base list countable.
From S2P Require Import Prelude Ordered Hex Digest.

Local Open Scope Z_scope.

(** ** Identifiers *)

(** Opaque signer identity and signature bytes; the text form is hex. *)
Record SignerId := mkSignerId { signer_bytes : list byte }.
Record Signature := mkSignature { signature_bytes : list byte }.

#[export] Instance SignerId_eq_dec : EqDecision SignerId.
Proof. solve_decision. Defined.
#[export] Instance SignerId_countable : Countable SignerId :=
  inj_countable' signer_bytes mkSignerId ltac:(by intros []).
#[export] Instance Signature_eq_dec : EqDecision Signature.
Proof. solve_decision. Defined.

Inductive HexIdError := mkHexIdError.

Definition signer_to_string (s : SignerId) : list byte := Hex.encode (signer_bytes s).
Definition signer_from_str (s : list byte) : result HexIdError SignerId :=
  ok_or (mkSignerId <$> Hex.decode s) mkHexIdError.

Lemma signer_roundtrip s : signer_from_str (signer_to_string s) = Ok s.
Proof. unfold signer_from_str, signer_to_string. rewrite Hex.decode_encode. by destruct s. Qed.

(** A UUID is an opaque 128-bit value; generating one is the [uuid] crate's job. *)
Definition Uuid : Type := N.
Definition VolumeUuid : Type := Uuid.
Definition SnapshotUuid : Type := Uuid.

(** ** [BackendError] *)

Inductive BackendError :=
| VolumeNotFound (v : VolumeUuid)
| SnapshotNotFound (volume : VolumeUuid) (snapshot : SnapshotUuid)
| BlobNotFound (d : Digest)
| AttestationUnverified (signer : SignerId)
| ActionResultConflict (action : Digest)
| VolumeExists (n : list byte)
| SnapshotExists (volume : VolumeUuid) (n : list byte)
| FeatureNotSupported (capability : list byte)
| InvalidArgument (msg : list byte)
| CommandTimeout (command : list byte) (after : Z)
| CommandFailed (command stderr : list byte)
| CapacityExceeded (used incoming capacity : Z)
| Underreplicated (confirmed required : nat)
| Internal (msg : list byte).

#[export] Instance BackendError_eq_dec : EqDecision BackendError.
Proof. solve_decision. Defined.

(** ** [std::io] *)

Inductive ErrorKind := NotFound | PermissionDenied | AlreadyExists | Interrupted | OtherKind.

Record io_error := mkIoError { ie_kind : ErrorKind; ie_display : list byte }.

#[export] Instance ErrorKind_eq_dec : EqDecision ErrorKind.
Proof. solve_decision. Defined.
#[export] Instance io_error_eq_dec : EqDecision io_error.
Proof. solve_decision. Defined.

(** [io::Error::other(msg)] *)
Definition io_other (msg : list byte) : io_error := mkIoError OtherKind msg.

(** A reader is the sequence of results its successive [read] calls return; a
    read of no bytes is end of input, and past the end of the list a reader is
    at end of input for ever. *)
Inductive read_ev := RData (b : list byte) | RErr (e : io_error).

Definition source : Type := list read_ev.

(** A source that hands out [data] in one read: a [Cursor] or a byte slice. *)
Definition cursor (data : list byte) : source := [RData data].

(** [Read::read_to_end]: collects up to the first empty read, retries an
    interrupted read, stops at any other error.  Returns what is left unread. *)
Fixpoint read_to_end (s : source) : result io_error (list byte) * source :=
  match s with
  | [] => (Ok [], [])
  | RData [] :: s' => (Ok [], s')
  | RData b :: s' =>
      let '(r, s'') := read_to_end s' in ((fun t => b ++ t) <$> r, s'')
  | RErr e :: s' =>
      if bool_decide (ie_kind e = Interrupted) then read_to_end s' else (Err e, s')
  end.

(** The chunks and outcome a loop of plain [read] calls sees (no retry). *)
Fixpoint read_loop (s : source) : list (list byte) * result io_error () * source :=
  match s with
  | [] => ([], Ok (), [])
  | RData [] :: s' => ([], Ok (), s')
  | RData b :: s' => let '(cs, r, s'') := read_loop s' in (b :: cs, r, s'')
  | RErr e :: s' => ([], Err e, s')
  end.

Lemma read_to_end_cursor data : read_to_end (cursor data) = (Ok data, []).
Proof. destruct data; simpl; [done|]. by rewrite app_nil_r. Qed.

(** On success both consumers saw the same bytes. *)
Lemma read_loop_to_end s cs s' :
  read_loop s = (cs, Ok (), s') -> read_to_end s = (Ok (concat cs), s').
Proof.
  revert cs s'. induction s as [|[[|x b]|e] s IH]; intros cs s'; simpl.
  - by intros [= <- <-].
  - by intros [= <- <-].
  - destruct (read_loop s) as [[cs1 r] s1]. intros [= <- -> <-].
    by rewrite (IH cs1 s1 eq_refl).
  - done.
Qed.

(** The readers only ever drop a prefix. *)
Lemma read_to_end_suffix s r s' :
  read_to_end s = (r, s') -> exists pre, s = pre ++ s'.
Proof.
  revert r s'. induction s as [|[[|x b]|e] s IH]; intros r s'; simpl.
  - intros [= <- <-]. by exists [].
  - intros [= <- <-]. by exists [RData []].
  - destruct (read_to_end s) as [r1 s1]. intros [= <- <-].
    destruct (IH r1 s1 eq_refl) as [pre ->]. by exists (RData (x :: b) :: pre).
  - case_bool_decide; [|intros [= <- <-]; by exists [RErr e]].
    intros H'. destruct (IH _ _ H') as [pre ->]. by exists (RErr e :: pre).
Qed.
