(* ===== verification/Pump.v ===== *)
(** Sending a blob: the loop of plain [read] calls through a buffer of fixed size by which
    the S3 and REAPI faces stream a body, and what of the blob it delivers. *)

From Stdlib Require Import ZArith Lia.
From stdpp Require Import base list.
From S2P Require Import Prelude Digest Errors.

Local Open Scope Z_scope.

(** The faces' [CHUNK]. *)
Definition CHUNK : Z := 64 * 1024.

(** [reader.read(&mut buf\[..cap\])]: what does not fit stays to be read. *)
Definition read1 (cap : Z) (s : source) : result io_error (list byte) * source :=
  match s with
  | [] => (Ok [], [])
  | RErr e :: s' => (Err e, s')
  | RData b :: s' =>
      if bool_decide (zlen b <= cap) then (Ok b, s')
      else (Ok (firstn (Z.to_nat cap) b), RData (skipn (Z.to_nat cap) b) :: s')
  end.

(** The reads that can still happen. *)
Fixpoint reads_left (s : source) : nat :=
  match s with
  | [] => 0
  | RData b :: s' => S (length b) + reads_left s'
  | RErr _ :: s' => S (reads_left s')
  end.

(** The loop: chunks go out until an empty read, an error, or the limit ([remaining]). *)
Fixpoint pump (fuel : nat) (remaining : option Z) (s : source) : list (result io_error (list byte)) :=
  match fuel with
  | O => []
  | S fuel =>
      let cap := match remaining with Some r => Z.min r CHUNK | None => CHUNK end in
      if bool_decide (cap = 0) then []
      else
        match read1 cap s with
        | (Ok [], _) => []
        | (Ok b, s') => Ok b :: pump fuel ((fun r => r - zlen b) <$> remaining) s'
        | (Err e, _) => [Err e]
        end
  end.

Definition pump_all (remaining : option Z) (s : source) : list (result io_error (list byte)) :=
  pump (S (reads_left s)) remaining s.

Definition up_to (limit : option Z) (data : list byte) : list byte :=
  match limit with Some n => firstn (Z.to_nat n) data | None => data end.

(** What was sent is all of [want]; or an interrupted read, which the loop does not repeat,
    cut it short. *)
Definition delivered (want : list byte) (out : list (result io_error (list byte))) : Prop :=
  exists chunks tail, out = (Ok <$> chunks) ++ tail /\
    Forall (fun c => 0 < zlen c <= CHUNK) chunks /\
    (tail = [] /\ concat chunks = want \/
     exists e, tail = [Err e] /\ ie_kind e = Interrupted /\ concat chunks `prefix_of` want).

Lemma delivered_nil : delivered [] [].
Proof. exists [], []. split_and!; [done|done|by left]. Qed.

Lemma delivered_cons c want out :
  0 < zlen c <= CHUNK -> delivered want out -> delivered (c ++ want) (Ok c :: out).
Proof.
  intros Hc (chunks & tail & -> & Hall & Ht). exists (c :: chunks), tail. split; [done|].
  split; [by constructor|]. destruct Ht as [[-> <-]|(e & -> & He & Hp)]; [by left|].
  right. exists e. split_and!; [done..|]. simpl. by apply prefix_app.
Qed.

Lemma up_to_app limit b rest :
  from_option (fun r => zlen b <= r) True limit ->
  up_to limit (b ++ rest) = b ++ up_to ((fun r => r - zlen b) <$> limit) rest.
Proof.
  destruct limit as [r|]; simpl; [|done]. unfold zlen. intros Hle.
  rewrite firstn_app, firstn_all2 by lia. f_equal. f_equal. lia.
Qed.

(** A piece read of a source, put back before what the source still has. *)
Lemma read1_data cap b s data rest :
  0 < cap -> b <> [] -> read_to_end (RData b :: s) = (Ok data, rest) ->
  exists b' s' data', read1 cap (RData b :: s) = (Ok b', s') /\ 0 < zlen b' <= cap /\
    read_to_end s' = (Ok data', rest) /\ data = b' ++ data' /\
    (reads_left s' < reads_left (RData b :: s))%nat.
Proof.
  intros Hcap Hb E. unfold read1. case_bool_decide as Hle.
  - destruct b as [|x b]; [done|]. cbn [read_to_end] in E.
    destruct (read_to_end s) as [[d|e] s'] eqn:Es; cbn in E; [|done]. injection E as <- <-.
    exists (x :: b), s, d. split_and!; [done|unfold zlen; simpl length; lia|done|done|done|simpl; lia].
  - set (h := firstn (Z.to_nat cap) b). set (t := skipn (Z.to_nat cap) b).
    assert (Hl : (Z.to_nat cap < length b)%nat) by (unfold zlen in Hle; lia).
    assert (Hh : length h = Z.to_nat cap) by (unfold h; rewrite length_firstn; lia).
    assert (Ht : length t = (length b - Z.to_nat cap)%nat) by (unfold t; by rewrite length_skipn).
    destruct b as [|x b]; [done|]. cbn [read_to_end] in E.
    destruct (read_to_end s) as [[d|e] s'] eqn:Es; cbn in E; [|done]. injection E as <- <-.
    exists h, (RData t :: s), (t ++ d). split_and!; [done|unfold zlen; lia|unfold zlen; lia| | |].
    + destruct t as [|y t]; [simpl in *; lia|]. cbn [read_to_end]. by rewrite Es.
    + rewrite (app_assoc h t d). unfold h, t. by rewrite firstn_skipn.
    + cbn [reads_left]. rewrite Ht. lia.
Qed.

Lemma pump_delivers fuel remaining s data rest :
  (reads_left s < fuel)%nat -> from_option (fun r => 0 <= r) True remaining ->
  read_to_end s = (Ok data, rest) -> delivered (up_to remaining data) (pump fuel remaining s).
Proof.
  revert remaining s data. induction fuel as [|fuel IH]; intros remaining s data Hf Hr E; [lia|].
  cbn [pump]. set (cap := match remaining with Some r => Z.min r CHUNK | None => CHUNK end).
  case_bool_decide as Hc0.
  { destruct remaining as [r|]; [|done]. assert (r = 0) as -> by (unfold cap, CHUNK in Hc0; lia).
    apply delivered_nil. }
  assert (Hcap : 0 < cap <= CHUNK) by (unfold cap, CHUNK in *; destruct remaining; simpl in *; lia).
  destruct s as [|[b|e] s].
  - injection E as <- <-. assert (up_to remaining [] = []) as -> by (destruct remaining; simpl; [by rewrite firstn_nil|done]).
    apply delivered_nil.
  - destruct (decide (b = [])) as [->|Hb].
    + simpl in E. injection E as <- <-. unfold read1. rewrite bool_decide_true by (rewrite zlen_nil; lia).
      assert (up_to remaining [] = []) as -> by (destruct remaining; simpl; [by rewrite firstn_nil|done]).
      apply delivered_nil.
    + destruct (read1_data cap b s data rest) as (b' & s' & data' & -> & Hlen & E' & -> & Hless); [lia|done|done|].
      destruct b' as [|x b']; [unfold zlen in Hlen; simpl in Hlen; lia|].
      assert (Hfit : from_option (fun r => zlen (x :: b') <= r) True remaining)
        by (destruct remaining; simpl; [unfold cap in Hlen; lia|done]).
      rewrite up_to_app by done. apply delivered_cons; [lia|].
      apply IH; [lia| |done]. destruct remaining; simpl in *; [lia|done].
  - cbn [read_to_end] in E. case_bool_decide as He; [|done]. simpl.
    exists [], [Err e]. split_and!; [done|done|]. right. exists e. split_and!; [done..|apply prefix_nil].
Qed.

(** The loop ends, and delivers the blob up to the limit. *)
Lemma pump_all_delivers remaining s data rest :
  from_option (fun r => 0 <= r) True remaining -> read_to_end s = (Ok data, rest) ->
  delivered (up_to remaining data) (pump_all remaining s).
Proof. intros. eapply pump_delivers; [lia|done..]. Qed.

(** Without errors nothing is cut short. *)
Lemma delivered_all want out :
  delivered want out -> Forall (fun r => is_ok r = true) out ->
  concat (omap res_ok out) = want.
Proof.
  intros (chunks & tail & -> & _ & Ht) Hok.
  assert (Hch : forall cs : list (list byte), omap (res_ok (E := io_error)) (Ok <$> cs) = cs).
  { induction cs as [|c cs IH]; [done|]. csimpl. by rewrite IH. }
  destruct Ht as [[-> <-]|(e & -> & _)].
  - by rewrite app_nil_r, Hch.
  - apply Forall_app in Hok as [_ Hok]. inversion Hok; subst. done.
Qed.
