(* ===== verification/Cursor.v ===== *)
(** The bounds-checked cursor over canonical bytes (the private [Reader] of
    crates/nessie-backend-core/src/action_result.rs and, in the same shape, of
    tree.rs), the length-delimited writers, and the loop that reads a map whose
    keys must be strictly ascending.

    [bad] is each file's error constructor; everything else is common to both. *)

From Stdlib Require Import ZArith Lia.
From stdpp Require Import base list.
From S2P Require Import Prelude Ordered Text Digest Errors.

Local Open Scope Z_scope.

(** ** Writers *)

Definition write_delimited (b : list byte) : list byte := le_bytes 8 (zlen b) ++ b.

Definition write_bool (b : bool) : list byte := [z2b (if b then 1 else 0)].

Definition write_opt_digest (d : option Digest) : list byte :=
  match d with
  | None => [z2b 0]
  | Some d => z2b 1 :: write_delimited (to_multihash_bytes d)
  end.

(** ** The cursor *)

Record Reader := mkReader { buf : list byte; pos : nat }.

Definition reader_new (b : list byte) : Reader := mkReader b 0.

(** A Rust slice is never longer than [isize::MAX] bytes. *)
Definition isize_max : Z := 2 ^ 63 - 1.
Definition reader_wf (r : Reader) : Prop :=
  (pos r <= length (buf r))%nat /\ zlen (buf r) <= isize_max.

(** What is left to read. *)
Definition rest (r : Reader) : list byte := drop (pos r) (buf r).

Section cursor.
Variable bad : list byte -> BackendError.

Abbreviation RM := (M BackendError Reader).

Definition take (n : Z) : RM (list byte) := fun r =>
    let end_ := Z.of_nat (pos r) + n in
    if bool_decide (end_ <= u64_max) then
      if bool_decide (end_ <= zlen (buf r)) then
        (Ok (list.take (Z.to_nat n) (drop (pos r) (buf r))), mkReader (buf r) (Z.to_nat end_))
      else (Err (bad (bs "truncated")), r)
    else (Err (bad (bs "length overflow")), r).

Definition expect_tag (tag : list byte) : RM () :=
    b ← take (zlen tag);
    if bool_decide (b = tag) then mret () else fail (bad (bs "wrong domain tag")).

Definition read_i32 : RM Z := b ← take 4; mret (signed 4 (le_val b)).
Definition read_u64 : RM Z := b ← take 8; mret (le_val b).
Definition read_u8 : RM Z := b ← take 1; mret (le_val b).

Definition read_bool : RM bool :=
    b ← read_u8;
    if bool_decide (b = 0) then mret false
    else if bool_decide (b = 1) then mret true
    else fail (bad (bs "bool not 0/1")).

(** [usize::try_from(u64)] cannot fail on a 64-bit target. *)
Definition read_delimited : RM (list byte) := len ← read_u64; take len.

Definition read_digest : RM Digest :=
    mh ← read_delimited;
    lift (map_err (fun _ => bad (bs "bad embedded digest")) (from_multihash_bytes mh)).

Definition read_opt_digest : RM (option Digest) :=
    b ← read_u8;
    if bool_decide (b = 0) then mret None
    else if bool_decide (b = 1) then d ← read_digest; mret (Some d)
    else fail (bad (bs "option tag not 0/1")).

Definition expect_end : RM () := fun r =>
    if bool_decide (pos r = length (buf r)) then (Ok (), r)
    else (Err (bad (bs "trailing bytes")), r).

(** [for _ in 0..n { key; ascending check; value; insert }].  Every iteration
      reads at least the eight bytes of the key's length, so [fuel] above the
      number of bytes left is never used up ([read_entries_fuel]). *)
Fixpoint read_entries {V} (utf8_what order_what : list byte) (read_val : RM V)
      (fuel : nat) (n : Z) (prev : option (list byte))
      (m : list (list byte * V)) : RM (list (list byte * V)) :=
    if bool_decide (n <= 0) then mret m
    else match fuel with
    | O => fail (Internal (bs "out of fuel"))
    | S fuel =>
        raw ← read_delimited;
        key ← lift (ok_or (from_utf8 raw) (bad utf8_what));
        if from_option (fun p => kle_b key p) false prev then fail (bad order_what)
        else
          v ← read_val;
          read_entries utf8_what order_what read_val fuel (n - 1) (Some key)
            (bt_insert key v m)
    end.
End cursor.

(** ** Reading what was written *)

Definition write_entries {V} (wv : V -> list byte) (m : list (list byte * V)) : list byte :=
  flat_map (fun kv => write_delimited kv.1 ++ wv kv.2) m.

Lemma write_entries_cons {V} (wv : V -> list byte) kv m :
  write_entries wv (kv :: m) = (write_delimited kv.1 ++ wv kv.2) ++ write_entries wv m.
Proof. done. Qed.

Lemma zlen_delimited b : zlen (write_delimited b) = 8 + zlen b.
Proof. unfold write_delimited, zlen. rewrite length_app, length_le_bytes. lia. Qed.

(** [reads p x v]: on a buffer that continues with [x], [p] consumes exactly [x]
    and returns [v]. *)
Definition reads {A} (p : M BackendError Reader A) (x : list byte) (v : A) : Prop :=
  forall r k, reader_wf r -> rest r = x ++ k ->
  exists r', p r = (Ok v, r') /\ rest r' = k /\ buf r' = buf r /\ reader_wf r'.

(** [inverts p enc ok]: whatever [p] returns is well formed and [enc] of it is
    what [p] consumed. *)
Definition inverts {A} (p : M BackendError Reader A) (enc : A -> list byte)
    (ok : A -> Prop) : Prop :=
  forall r v r', reader_wf r -> p r = (Ok v, r') ->
  rest r = enc v ++ rest r' /\ buf r' = buf r /\ reader_wf r' /\ ok v.

Lemma rest_length r : reader_wf r -> length (rest r) = (length (buf r) - pos r)%nat.
Proof. intros. unfold rest. by rewrite length_drop. Qed.

Section correct.
Variable bad : list byte -> BackendError.

Lemma reads_bind {A B} (p : M BackendError Reader A) (f : A -> M BackendError Reader B) x y a b :
    reads p x a -> reads (f a) y b -> reads (p ≫= f) (x ++ y) b.
Proof.
    intros Hp Hf r k Hwf Hr. rewrite <- app_assoc in Hr.
    destruct (Hp r _ Hwf Hr) as (r1 & E1 & R1 & B1 & W1).
    destruct (Hf r1 k W1 R1) as (r2 & E2 & R2 & B2 & W2).
    exists r2. unfold mbind, M_bind. rewrite E1. repeat split; auto; congruence || apply W2.
Qed.

Lemma reads_ret {A} (a : A) : reads (mret a) [] a.
Proof. intros r k Hwf Hr. exists r. repeat split; auto; apply Hwf. Qed.

Lemma reads_take x : reads (take bad (zlen x)) x x.
Proof.
    intros r k Hwf Hr. pose proof Hwf as [Hp Hb].
    assert (Hlen : (length (buf r) = pos r + length x + length k)%nat).
    { apply (f_equal length) in Hr. rewrite rest_length, length_app in Hr by done. lia. }
    unfold zlen, isize_max in *. unfold take, zlen, u64_max.
    rewrite !bool_decide_true by lia. eexists. split_and!; [|..|split]; simpl.
    - unfold rest in Hr. rewrite Hr, Nat2Z.id, take_app_length. done.
    - unfold rest in *. simpl. rewrite Z2Nat.inj_add, !Nat2Z.id by lia.
      by rewrite <- drop_drop, Hr, drop_app_length.
    - done.
    - cbn [pos buf]. lia.
    - cbn [pos buf]. unfold zlen. done.
Qed.

Lemma take_Ok n r x r' :
    0 <= n -> reader_wf r -> take bad n r = (Ok x, r') ->
    rest r = x ++ rest r' /\ zlen x = n /\ buf r' = buf r /\ reader_wf r'.
Proof.
    intros Hn [Hp Hb]. unfold take. do 2 (case_bool_decide; [|done]).
    intros [= <- <-]. unfold rest, reader_wf, zlen in *. simpl in *.
    rewrite Z2Nat.inj_add, Nat2Z.id by lia.
    split_and!; [|rewrite length_take, length_drop; lia|done|lia|lia].
    by rewrite <- drop_drop, take_drop.
Qed.

Lemma inverts_take n : 0 <= n -> inverts (take bad n) id (fun x => zlen x = n).
Proof. intros Hn r x r' Hwf H. apply take_Ok in H; naive_solver. Qed.

Lemma inverts_bind {A B} (p : M BackendError Reader A) encA okA
      (f : A -> M BackendError Reader B) enc ok encf :
    inverts p encA okA ->
    (forall a, okA a -> inverts (f a) (encf a) (fun b => enc b = encA a ++ encf a b /\ ok b)) ->
    inverts (p ≫= f) enc ok.
Proof.
    intros Hp Hf r b r' Hwf (a & r1 & H1 & H2)%M_bind_inv.
    destruct (Hp _ _ _ Hwf H1) as (R1 & B1 & W1 & O1).
    destruct (Hf a O1 _ _ _ W1 H2) as (R2 & B2 & W2 & E & O2).
    rewrite E, R1, R2, app_assoc. split_and!; auto; congruence.
Qed.

Lemma inverts_ret {A} (a : A) enc (ok : A -> Prop) :
    enc a = [] -> ok a -> inverts (mret a) enc ok.
Proof. intros He Ho r v r' Hwf [= <- <-]. by rewrite He. Qed.

Lemma inverts_fail {A} e enc (ok : A -> Prop) : inverts (fail e) enc ok.
Proof. by intros r v r' Hwf [=]. Qed.

Lemma inverts_weaken {A} (p : M BackendError Reader A) enc enc' (ok ok' : A -> Prop) :
    inverts p enc ok -> (forall a, ok a -> enc a = enc' a /\ ok' a) -> inverts p enc' ok'.
Proof.
    intros Hp Himp r v r' Hwf H. destruct (Hp r v r' Hwf H) as (R & B & W & O).
    destruct (Himp v O) as [<- ?]. done.
Qed.

Lemma reads_bind_pure {A B} (p : M BackendError Reader A) (f : A -> M BackendError Reader B) x a b :
    reads p x a -> reads (f a) [] b -> reads (p ≫= f) x b.
Proof. intros. rewrite <- (app_nil_r x). by eapply reads_bind. Qed.

Lemma inverts_map {A B} (p : M BackendError Reader A) encA okA (g : A -> B) enc ok :
    inverts p encA okA -> (forall a, okA a -> enc (g a) = encA a /\ ok (g a)) ->
    inverts (a ← p; mret (g a)) enc ok.
Proof.
    intros Hp Hg. eapply (inverts_bind p _ _ _ _ _ (fun _ _ => []) Hp).
    intros a Ha. destruct (Hg a Ha). apply inverts_ret; [done|]. by rewrite app_nil_r.
Qed.

(** *** The primitive readers *)

Lemma reads_u64 z : is_u64 z -> reads (read_u64 bad) (le_bytes 8 z) z.
Proof.
    unfold is_u64, u64_max. intros Hz. eapply reads_bind_pure.
    - change 8 with (zlen (le_bytes 8 z)). apply reads_take.
    - rewrite le_val_bytes. change (256 ^ Z.of_nat 8) with (2 ^ 64).
      rewrite Z.mod_small by lia. apply reads_ret.
Qed.

Lemma inverts_u64 : inverts (read_u64 bad) (le_bytes 8) is_u64.
Proof.
    eapply inverts_map; [apply inverts_take; lia|]. intros x Hx.
    unfold zlen in Hx. rewrite le_bytes_val_n by lia. split; [done|].
    pose proof (le_val_range x). unfold zlen in *. rewrite Hx in *.
    unfold is_u64, u64_max. lia.
Qed.

Lemma reads_i32 z : is_i32 z -> reads (read_i32 bad) (le_bytes 4 z) z.
Proof.
    intros Hz. eapply reads_bind_pure.
    - change 4 with (zlen (le_bytes 4 z)). apply reads_take.
    - rewrite le_val_bytes. change (256 ^ Z.of_nat 4) with (2 ^ 32).
      rewrite signed_mod32 by done. apply reads_ret.
Qed.

Lemma le_bytes_mod n z : le_bytes n (z mod 256 ^ Z.of_nat n) = le_bytes n z.
Proof.
    rewrite <- le_val_bytes. rewrite <- (length_le_bytes n z) at 1. apply le_bytes_val.
Qed.

Lemma inverts_i32 : inverts (read_i32 bad) (le_bytes 4) is_i32.
Proof.
    eapply inverts_map; [apply inverts_take; lia|]. intros x Hx. unfold zlen in Hx.
    pose proof (le_val_range x) as Hr. unfold zlen in Hr. rewrite Hx in Hr.
    destruct (signed_range32 (le_val x) Hr) as [Hi Hm]. split; [|done].
    rewrite <- le_bytes_mod. change (256 ^ Z.of_nat 4) with (2 ^ 32). rewrite Hm.
    apply (le_bytes_val_n 4 x). lia.
Qed.

Lemma reads_u8 b : reads (read_u8 bad) [b] (b2z b).
Proof.
    eapply reads_bind_pure.
    - change 1 with (zlen [b]). apply reads_take.
    - cbn [le_val]. rewrite Z.mul_0_r, Z.add_0_r. apply reads_ret.
Qed.

Lemma inverts_u8 : inverts (read_u8 bad) (fun z => [z2b z]) (fun z => 0 <= z < 256).
Proof.
    eapply inverts_map; [apply inverts_take; lia|]. intros x Hx. unfold zlen in Hx.
    destruct x as [|b [|? ?]]; simpl in Hx; try lia. cbn [le_val].
    rewrite Z.mul_0_r, Z.add_0_r, z2b_b2z. split; [done|apply b2z_range].
Qed.

Lemma reads_bool b : reads (read_bool bad) (write_bool b) b.
Proof.
    eapply reads_bind_pure; [apply reads_u8|]. destruct b; cbn; apply reads_ret.
Qed.

Lemma inverts_bool : inverts (read_bool bad) write_bool (fun _ => True).
Proof.
    eapply (inverts_bind _ _ _ _ _ _ (fun _ _ => [])); [apply inverts_u8|].
    intros z Hz. case_bool_decide; [by subst; apply inverts_ret|].
    case_bool_decide; [by subst; apply inverts_ret|apply inverts_fail].
Qed.

Lemma reads_delimited x :
    zlen x <= isize_max -> reads (read_delimited bad) (write_delimited x) x.
Proof.
    intros Hx. pose proof (zlen_nonneg x). unfold isize_max in Hx.
    eapply reads_bind; [apply reads_u64; unfold is_u64, u64_max; lia|apply reads_take].
Qed.

Lemma inverts_delimited :
    inverts (read_delimited bad) write_delimited (fun x => is_u64 (zlen x)).
Proof.
    eapply (inverts_bind _ _ _ _ _ _ (fun _ => id)); [apply inverts_u64|].
    intros n Hn. eapply inverts_weaken; [apply inverts_take; apply Hn|].
    intros x Hx. simpl in Hx. subst. split; [done|]. split; [done|done].
Qed.

Lemma zlen_multihash d : digest_wf d -> zlen (to_multihash_bytes d) = 34.
Proof. unfold digest_wf, to_multihash_bytes, zlen. cbn [length]. intros ->. by destruct (algo d). Qed.

Lemma reads_lift_ok {A} (r : result BackendError A) a : r = Ok a -> reads (lift r) [] a.
Proof. intros ->. apply reads_ret. Qed.

Lemma reads_digest d :
    digest_wf d -> reads (read_digest bad) (write_delimited (to_multihash_bytes d)) d.
Proof.
    intros Hd. eapply reads_bind_pure.
    - apply reads_delimited. rewrite zlen_multihash by done. unfold isize_max. lia.
    - apply reads_lift_ok. by rewrite from_to_multihash_bytes.
Qed.

Lemma inverts_digest :
    inverts (read_digest bad) (fun d => write_delimited (to_multihash_bytes d)) digest_wf.
Proof.
    eapply (inverts_bind _ _ _ _ _ _ (fun _ _ => [])); [apply inverts_delimited|].
    intros x Hx r v r' Hwf [= Hv <-]. apply map_err_Ok in Hv.
    apply from_multihash_bytes_Ok in Hv as [Hd ->]. by rewrite app_nil_r.
Qed.

Definition opt_digest_wf (d : option Digest) : Prop := from_option digest_wf True d.

Lemma reads_opt_digest d :
    opt_digest_wf d -> reads (read_opt_digest bad) (write_opt_digest d) d.
Proof.
    destruct d as [d|]; simpl; intros Hd.
    - change (z2b 1 :: write_delimited (to_multihash_bytes d))
        with ([z2b 1] ++ write_delimited (to_multihash_bytes d)).
      eapply reads_bind; [apply reads_u8|]. cbn.
      eapply reads_bind_pure; [by apply reads_digest|apply reads_ret].
    - eapply reads_bind_pure; [apply reads_u8|]. cbn. apply reads_ret.
Qed.

Lemma inverts_opt_digest : inverts (read_opt_digest bad) write_opt_digest opt_digest_wf.
Proof.
    eapply (inverts_bind _ _ _ _ _ _
      (fun _ o => match o with Some d => write_delimited (to_multihash_bytes d) | None => [] end));
      [apply inverts_u8|].
    intros z Hz. case_bool_decide; [by subst; apply inverts_ret|].
    case_bool_decide; [|apply inverts_fail]. subst.
    eapply inverts_map; [apply inverts_digest|]. intros d Hd. by split_and!.
Qed.

Lemma reads_tag tag : reads (expect_tag bad tag) tag ().
Proof.
    eapply reads_bind_pure; [apply reads_take|].
    rewrite bool_decide_true by done. apply reads_ret.
Qed.

Lemma inverts_tag tag : inverts (expect_tag bad tag) (fun _ => tag) (fun _ => True).
Proof.
    eapply (inverts_bind _ _ _ _ _ _ (fun _ _ => [])).
    - apply inverts_take, zlen_nonneg.
    - intros x Hx. case_bool_decide; [|apply inverts_fail]. subst.
      apply inverts_ret; [done|]. by rewrite app_nil_r.
Qed.

Lemma expect_end_nil r : reader_wf r -> rest r = [] -> expect_end bad r = (Ok (), r).
Proof.
    intros Hwf Hr. apply (f_equal length) in Hr. rewrite rest_length in Hr by done.
    destruct Hwf. unfold expect_end. rewrite bool_decide_true; [done|]. simpl in Hr. lia.
Qed.

Lemma expect_end_Ok r v r' : expect_end bad r = (Ok v, r') -> r' = r /\ rest r = [].
Proof.
    unfold expect_end, rest. case_bool_decide as Hp; [|done]. intros [= _ <-].
    split; [done|]. rewrite Hp. apply drop_all.
Qed.
End correct.

(** *** The map loop *)

Section entries.
Context {V : Type} (bad : list byte -> BackendError).
  Variables (utf8_what order_what : list byte).
  Variables (read_val : M BackendError Reader V) (wv : V -> list byte) (okv : V -> Prop).

Abbreviation loop := (read_entries bad utf8_what order_what read_val).

Definition key_ok (k : list byte) : Prop := utf8_valid k = true /\ zlen k <= isize_max.
Definition entry_ok (kv : list byte * V) : Prop := key_ok kv.1 /\ okv kv.2.

(** The last key read, which the loop keeps in [prev]. *)
Definition last_key (m : list (list byte * V)) : option (list byte) := last m.*1.

Lemma last_key_snoc m k v : last_key (m ++ [(k, v)]) = Some k.
Proof. unfold last_key. rewrite fmap_app. apply last_snoc. Qed.

Lemma last_key_below m k :
    bt_sorted m -> from_option (fun p => klt p k) True (last_key m) ->
    Forall (fun k' => klt k' k) m.*1.
Proof.
    unfold last_key. destruct m as [|[k1 v1] m _] using rev_ind; [constructor|].
    rewrite fmap_app. csimpl. rewrite last_snoc. simpl. intros Hs Hlt.
    apply bt_sorted_app in Hs. apply Forall_app. split; [|by repeat constructor].
    eapply Forall_impl; [exact Hs|]. intros x Hx. by trans k1.
Qed.

Lemma guard_false m k :
    from_option (fun p => kle_b k p) false (last_key m) = false <->
    from_option (fun p => klt p k) True (last_key m).
Proof. destruct (last_key m); simpl; [apply kle_b_false|done]. Qed.

Hypothesis reads_val : forall v, okv v -> reads read_val (wv v) v.

Lemma reads_entries es fuel m :
    (length es <= fuel)%nat -> bt_sorted (m ++ es) -> Forall entry_ok es ->
    reads (loop fuel (zlen es) (last_key m) m) (write_entries wv es) (m ++ es).
Proof.
    revert fuel m. induction es as [|[k v] es IH]; intros fuel m Hf Hs Hok.
    - rewrite app_nil_r. destruct fuel; apply reads_ret.
    - inversion Hok as [|?? [[Hu Hz] Hv] Hok']; subst. simpl in Hu, Hz, Hv.
      destruct fuel as [|fuel]; simpl in Hf; [lia|]. cbn [read_entries].
      pose proof (zlen_nonneg es). rewrite zlen_cons.
      rewrite bool_decide_false by lia.
      rewrite write_entries_cons, <- app_assoc. cbn [fst snd]. eapply reads_bind; [by apply reads_delimited|].
      eapply (reads_bind _ _ []); [apply reads_lift_ok; unfold from_utf8; by rewrite Hu|].
      assert (Hbelow := bt_sorted_app _ _ _ _ Hs).
      replace (from_option (fun p => kle_b k p) false (last_key m)) with false.
      2:{ symmetry. apply guard_false. unfold last_key.
          destruct m as [|[k1 v1] m _] using rev_ind; [done|].
          rewrite fmap_app in *. csimpl in *. rewrite last_snoc.
          rewrite Forall_app in Hbelow. destruct Hbelow as [_ Hb]. by inversion Hb. }
      eapply reads_bind; [by apply reads_val|].
      rewrite bt_insert_last by done. rewrite <- (last_key_snoc m k v).
      replace (1 + zlen es - 1) with (zlen es) by lia.
      replace (m ++ (k, v) :: es) with ((m ++ [(k, v)]) ++ es) by by rewrite <- app_assoc.
      apply IH; [lia| |done]. by rewrite <- app_assoc.
Qed.

Hypothesis inverts_val : inverts read_val wv okv.

(** What the loop accepts is exactly a strictly ascending list of [n] entries. *)
Lemma read_entries_Ok fuel n m r m' r' :
    bt_sorted m -> reader_wf r ->
    loop fuel n (last_key m) m r = (Ok m', r') ->
    exists es, m' = m ++ es /\ bt_sorted m' /\ rest r = write_entries wv es ++ rest r' /\
      zlen es = Z.max n 0 /\ Forall entry_ok es /\ buf r' = buf r /\ reader_wf r'.
Proof.
    revert n m r. induction fuel as [|fuel IH]; intros n m r Hs Hwf; cbn [read_entries].
    - case_bool_decide; [|done]. intros [= <- <-]. exists []. rewrite app_nil_r.
      rewrite zlen_nil. split_and!; auto; lia.
    - case_bool_decide as Hn.
      { intros [= <- <-]. exists []. rewrite app_nil_r, zlen_nil. split_and!; auto; lia. }
      intros (k & r1 & H1 & H)%M_bind_inv.
      apply (inverts_delimited bad) in H1 as (R1 & B1 & W1 & O1); [|done].
      apply M_bind_inv in H as (k' & r2 & [= H2 <-] & H).
      apply ok_or_Ok, from_utf8_Some in H2 as [-> Hu].
      destruct (from_option _ _ _) eqn:Hg in H; [done|].
      apply guard_false in Hg. pose proof (last_key_below m k' Hs Hg) as Hbelow.
      apply M_bind_inv in H as (v & r3 & H3 & H).
      apply inverts_val in H3 as (R3 & B3 & W3 & O3); [|done].
      rewrite bt_insert_last, <- (last_key_snoc m k' v) in H by done.
      destruct (IH _ _ _ (bt_sorted_snoc _ _ _ Hs Hbelow) W3 H)
        as (es & -> & Hs' & R & Hz & Hok & B & W).
      exists ((k', v) :: es). rewrite <- app_assoc.
      split_and!; auto; [by rewrite <- app_assoc in Hs'| |rewrite zlen_cons; lia| |congruence].
      + rewrite write_entries_cons, R1, R3, R. by rewrite <- !app_assoc.
      + constructor; [|done]. split; [|done]. split; [done|]. simpl.
        destruct Hwf as [_ Hb]. unfold rest in R1. apply (f_equal zlen) in R1.
        unfold write_delimited in R1. rewrite !zlen_app in R1.
        unfold zlen in *. rewrite length_drop in R1. lia.
Qed.

(** [fuel] never decides the outcome once it exceeds the bytes left. *)
Lemma read_entries_fuel fuel1 fuel2 n prev m r :
    reader_wf r -> (length (rest r) < fuel1)%nat -> (length (rest r) < fuel2)%nat ->
    loop fuel1 n prev m r = loop fuel2 n prev m r.
Proof.
    revert fuel2 n prev m r. induction fuel1 as [|f1 IH]; intros [|f2] n prev m r Hwf H1 H2;
      try lia. cbn [read_entries]. case_bool_decide; [done|].
    apply M_bind_ext. intros k r1 E1.
    apply (inverts_delimited bad) in E1 as (R1 & B1 & W1 & O1); [|done].
    apply M_bind_ext. intros k' r1' [= _ <-].
    destruct (from_option _ _ _); [done|].
    apply M_bind_ext. intros v r2 E2.
    apply inverts_val in E2 as (R2 & B2 & W2 & O2); [|done].
    assert (Hlt : (length (rest r2) < length (rest r))%nat).
    { rewrite R1, R2. unfold write_delimited. rewrite !length_app, length_le_bytes. lia. }
    apply IH; [done|lia|lia].
Qed.
End entries.
