(* ===== verification/Canonical.v ===== *)
(** The structured CAS objects and their canonical encodings: [ActionResult]
    (crates/nessie-backend-core/src/action_result.rs) and [Tree] (tree.rs).

    Encoding and decoding are inverse to each other in both directions: every
    well-formed value decodes from its encoding, and every byte string a decoder
    accepts is the encoding of the value it returns. *)

From Stdlib Require Import ZArith Lia.
From stdpp Require Import base list sets.
From S2P Require Import Prelude Ordered Text Digest Errors Cursor.

Local Open Scope Z_scope.

Lemma write_entries_length {V} (wv : V -> list byte) es kv :
  kv ∈ es -> zlen kv.1 <= zlen (write_entries wv es).
Proof.
  induction es as [|kv' es IH]; [set_solver|].
  rewrite write_entries_cons, !zlen_app, zlen_delimited.
  pose proof (zlen_nonneg (wv kv'.2)). pose proof (zlen_nonneg kv'.1).
  pose proof (zlen_nonneg (write_entries wv es)).
  intros [->|Hin]%elem_of_cons; [lia|]. specialize (IH Hin). lia.
Qed.

Lemma write_entries_count {V} (wv : V -> list byte) es :
  zlen es <= zlen (write_entries wv es).
Proof.
  induction es as [|kv es IH]; [done|].
  rewrite write_entries_cons, !zlen_app, zlen_delimited, zlen_cons.
  pose proof (zlen_nonneg (wv kv.2)). pose proof (zlen_nonneg kv.1). lia.
Qed.

(** Every key of an encoding that fits in memory fits in memory. *)
Lemma entries_ok {V} (wv : V -> list byte) (okv : V -> Prop) es :
  zlen (write_entries wv es) <= isize_max ->
  Forall (fun kv => utf8_valid kv.1 = true /\ okv kv.2) es -> Forall (entry_ok okv) es.
Proof.
  intros Hfit. rewrite !Forall_forall. intros Hall kv Hin.
  destruct (Hall kv Hin). split; [split|]; auto.
  pose proof (write_entries_length wv es kv Hin). lia.
Qed.

Module ActionResult.

Record OutputFile := mkOutputFile { of_digest : Digest; is_executable : bool }.

Record t := mk {
  outputs : list (list byte * OutputFile);
  exit_code : Z;
  stdout_digest : option Digest;
  stderr_digest : option Digest;
}.

#[export] Instance OutputFile_eq_dec : EqDecision OutputFile.
Proof. solve_decision. Defined.
#[export] Instance t_eq_dec : EqDecision t.
Proof. solve_decision. Defined.

Definition AR_DOMAIN : list byte := bs "nessie.ActionResult.v1" ++ [z2b 0].

Definition bad (what : list byte) : BackendError :=
  InvalidArgument (bs "malformed ActionResult: " ++ what).

Definition write_output (f : OutputFile) : list byte :=
  write_delimited (to_multihash_bytes (of_digest f)) ++ write_bool (is_executable f).

Definition to_canonical_bytes (ar : t) : list byte :=
  AR_DOMAIN ++ le_bytes 4 (exit_code ar) ++ le_bytes 8 (zlen (outputs ar)) ++
  write_entries write_output (outputs ar) ++
  write_opt_digest (stdout_digest ar) ++ write_opt_digest (stderr_digest ar).

Definition read_output : M BackendError Reader OutputFile :=
  d ← read_digest bad;
  x ← read_bool bad;
  mret (mkOutputFile d x).

Definition read_all (fuel : nat) : M BackendError Reader t :=
  expect_tag bad AR_DOMAIN ≫= fun _ =>
  exit ← read_i32 bad;
  n ← read_u64 bad;
  outs ← read_entries bad (bs "output path") (bs "outputs not in canonical ascending order")
    read_output fuel n None [];
  so ← read_opt_digest bad;
  se ← read_opt_digest bad;
  expect_end bad ≫= fun _ => mret (mk outs exit so se).

Definition from_canonical_bytes (bytes : list byte) : result BackendError t :=
  (read_all (S (length bytes)) (reader_new bytes)).1.

Definition result_digest `{Hashers} (ar : t) : Digest := compute (to_canonical_bytes ar).

(** [Referenced::references] *)
Definition references (ar : t) : list Digest :=
  (of_digest ∘ snd <$> outputs ar) ++ option_list (stdout_digest ar) ++
  option_list (stderr_digest ar).

(** The type's invariants: a [BTreeMap] with [String] keys, [i32], and digests
    that only come from hashing or parsing. *)
Definition output_wf (f : OutputFile) : Prop := digest_wf (of_digest f).

Definition wf (ar : t) : Prop :=
  bt_sorted (outputs ar) /\
  Forall (fun kv => utf8_valid kv.1 = true /\ output_wf kv.2) (outputs ar) /\
  is_i32 (exit_code ar) /\
  opt_digest_wf (stdout_digest ar) /\ opt_digest_wf (stderr_digest ar).

#[export] Instance ar_wf_dec ar : Decision (wf ar).
Proof.
  unfold wf, output_wf, is_i32, opt_digest_wf. destruct (stdout_digest ar), (stderr_digest ar); apply _.
Defined.

(** The encoding fits in one allocation. *)
Definition fits (ar : t) : Prop := zlen (to_canonical_bytes ar) <= isize_max.

Lemma reads_output f : output_wf f -> reads read_output (write_output f) f.
Proof.
  intros Hf. eapply reads_bind; [by apply reads_digest|].
  eapply reads_bind_pure; [apply reads_bool|]. destruct f. apply reads_ret.
Qed.

Lemma inverts_output : inverts read_output write_output output_wf.
Proof.
  eapply (inverts_bind _ _ _ _ _ _ (fun _ f => write_bool (is_executable f)));
    [apply inverts_digest|].
  intros d Hd. eapply inverts_map; [apply inverts_bool|]. intros x _. by split_and!.
Qed.

Lemma ar_fits_entries ar : fits ar -> zlen (write_entries write_output (outputs ar)) <= isize_max.
Proof.
  unfold fits, to_canonical_bytes. rewrite !zlen_app. intros Hfit.
  pose proof (zlen_nonneg AR_DOMAIN). pose proof (zlen_nonneg (le_bytes 4 (exit_code ar))).
  pose proof (zlen_nonneg (le_bytes 8 (zlen (outputs ar)))).
  pose proof (zlen_nonneg (write_opt_digest (stdout_digest ar))).
  pose proof (zlen_nonneg (write_opt_digest (stderr_digest ar))). lia.
Qed.

Lemma ar_read_all_correct ar fuel :
  wf ar -> fits ar -> (length (outputs ar) <= fuel)%nat ->
  (read_all fuel (reader_new (to_canonical_bytes ar))).1 = Ok ar.
Proof.
  intros (Hs & Hout & Hexit & Hso & Hse) Hfit Hfuel.
  pose proof (ar_fits_entries ar Hfit) as Hfe.
  pose proof (write_entries_count write_output (outputs ar)) as Hcnt.
  pose proof (zlen_nonneg (outputs ar)) as Hnn.
  set (r0 := reader_new (to_canonical_bytes ar)).
  assert (Hwf0 : reader_wf r0) by (split; [simpl; lia|exact Hfit]).
  assert (Hread : reads (expect_tag bad AR_DOMAIN ≫= fun _ =>
    exit ← read_i32 bad; n ← read_u64 bad;
    outs ← read_entries bad (bs "output path") (bs "outputs not in canonical ascending order")
      read_output fuel n None [];
    so ← read_opt_digest bad; se ← read_opt_digest bad; mret (mk outs exit so se))
    (to_canonical_bytes ar) ar).
  { eapply reads_bind; [apply reads_tag|]. eapply reads_bind; [by apply reads_i32|].
    eapply reads_bind.
    { apply reads_u64. unfold is_u64, u64_max, isize_max in *. lia. }
    eapply reads_bind.
    { apply (reads_entries bad _ _ read_output write_output output_wf reads_output _ _ []);
        [done|exact Hs|by eapply entries_ok]. }
    eapply reads_bind; [by apply reads_opt_digest|].
    eapply reads_bind_pure; [by apply reads_opt_digest|]. destruct ar. apply reads_ret. }
  destruct (Hread r0 [] Hwf0) as (r' & E & Hr & _ & Hwf'); [by rewrite app_nil_r|].
  enough (Hrun : read_all fuel r0 = (Ok ar, r')) by by rewrite Hrun.
  revert E. unfold read_all, mbind, M_bind.
  repeat (match goal with |- context [match ?p ?r with (_, _) => _ end] =>
    lazymatch p with expect_end _ => fail | _ => idtac end;
    destruct (p r) as [[?|?] ?]; [|done] end).
  intros [= <- <-]. by rewrite expect_end_nil.
Qed.

(** ** Properties *)

Lemma ar_from_to_canonical ar : wf ar -> fits ar -> from_canonical_bytes (to_canonical_bytes ar) = Ok ar.
Proof.
  intros Hwf Hfit. apply ar_read_all_correct; [done..|].
  unfold to_canonical_bytes. rewrite !length_app.
  pose proof (write_entries_count write_output (outputs ar)). unfold zlen in *. lia.
Qed.

Lemma ar_from_canonical_Ok b ar :
  zlen b <= isize_max -> from_canonical_bytes b = Ok ar ->
  wf ar /\ to_canonical_bytes ar = b.
Proof.
  unfold from_canonical_bytes. intros Hb H.
  destruct (read_all _ _) as [v r'] eqn:E. simpl in H. subst v. unfold read_all in E.
  set (r0 := reader_new b) in E.
  assert (Hwf0 : reader_wf r0) by (split; [simpl; lia|exact Hb]).
  apply M_bind_inv in E as (u & r1 & H1 & E).
  apply inverts_tag in H1 as (R1 & B1 & W1 & _); [|done].
  apply M_bind_inv in E as (exit & r2 & H2 & E).
  apply inverts_i32 in H2 as (R2 & B2 & W2 & O2); [|done].
  apply M_bind_inv in E as (n & r3 & H3 & E).
  apply inverts_u64 in H3 as (R3 & B3 & W3 & O3); [|done].
  apply M_bind_inv in E as (outs & r4 & H4 & E).
  apply (read_entries_Ok bad _ _ read_output write_output output_wf inverts_output _ _ [])
    in H4 as (es & -> & Hs & R4 & Hz & Hok & B4 & W4); [|constructor|done].
  apply M_bind_inv in E as (so & r5 & H5 & E).
  apply inverts_opt_digest in H5 as (R5 & B5 & W5 & O5); [|done].
  apply M_bind_inv in E as (se & r6 & H6 & E).
  apply inverts_opt_digest in H6 as (R6 & B6 & W6 & O6); [|done].
  apply M_bind_inv in E as (u' & r7 & H7 & E).
  apply expect_end_Ok in H7 as [-> Hend]. injection E as <- <-.
  simpl in *. split.
  - split_and!; auto. eapply Forall_impl; [exact Hok|]. intros kv [[Hu _] Ho]. done.
  - unfold to_canonical_bytes. simpl. change b with (rest r0).
    destruct O3. rewrite Z.max_l in Hz by done.
    by rewrite R1, R2, R3, R4, R5, R6, Hend, Hz, app_nil_r.
Qed.

(** C22. Encode/decode round trip of an [ActionResult], in both directions: a byte
    string decodes to a value exactly when the value satisfies the type's
    invariants and the byte string is its canonical encoding.  So every accepted
    encoding is the only one of its value, and the digest of a value is the digest
    of the bytes it was read from. *)
Theorem action_result_canonical (b : list byte) (ar : t) :
  zlen b <= isize_max ->
  from_canonical_bytes b = Ok ar <-> wf ar /\ to_canonical_bytes ar = b.
Proof.
  intros Hb. split; [by apply ar_from_canonical_Ok|].
  intros [Hwf <-]. by apply ar_from_to_canonical.
Qed.

End ActionResult.

Module Tree.

Inductive TreeKind := File (is_executable : bool) | Dir.
Record TreeEntry := mkTreeEntry { te_digest : Digest; kind : TreeKind }.
Record t := mk { entries : list (list byte * TreeEntry) }.

#[export] Instance TreeKind_eq_dec : EqDecision TreeKind.
Proof. solve_decision. Defined.
#[export] Instance TreeEntry_eq_dec : EqDecision TreeEntry.
Proof. solve_decision. Defined.
#[export] Instance t_eq_dec : EqDecision t.
Proof. solve_decision. Defined.

Definition new : t := mk [].

Definition TREE_DOMAIN : list byte := bs "nessie.Tree.v1" ++ [z2b 0].

Definition bad (what : list byte) : BackendError :=
  InvalidArgument (bs "malformed Tree: " ++ what).

Definition write_kind (k : TreeKind) : list byte :=
  match k with
  | File x => z2b 0 :: write_bool x
  | Dir => [z2b 1]
  end.

Definition write_entry (e : TreeEntry) : list byte :=
  write_kind (kind e) ++ write_delimited (to_multihash_bytes (te_digest e)).

Definition to_canonical_bytes (tr : t) : list byte :=
  TREE_DOMAIN ++ le_bytes 8 (zlen (entries tr)) ++ write_entries write_entry (entries tr).

Definition read_kind : M BackendError Reader TreeKind :=
  b ← read_u8 bad;
  if bool_decide (b = 0) then x ← read_bool bad; mret (File x)
  else if bool_decide (b = 1) then mret Dir
  else fail (bad (bs "unknown tree entry kind")).

Definition read_entry : M BackendError Reader TreeEntry :=
  k ← read_kind;
  d ← read_digest bad;
  mret (mkTreeEntry d k).

Definition read_all (fuel : nat) : M BackendError Reader t :=
  expect_tag bad TREE_DOMAIN ≫= fun _ =>
  n ← read_u64 bad;
  es ← read_entries bad (bs "entry name") (bs "entries not in canonical ascending order")
    read_entry fuel n None [];
  expect_end bad ≫= fun _ => mret (mk es).

Definition from_canonical_bytes (bytes : list byte) : result BackendError t :=
  (read_all (S (length bytes)) (reader_new bytes)).1.

Definition tree_digest `{Hashers} (tr : t) : Digest := compute (to_canonical_bytes tr).

(** [Referenced::references] *)
Definition references (tr : t) : list Digest := te_digest ∘ snd <$> entries tr.

Definition entry_wf (e : TreeEntry) : Prop := digest_wf (te_digest e).

Definition wf (tr : t) : Prop :=
  bt_sorted (entries tr) /\
  Forall (fun kv => utf8_valid kv.1 = true /\ entry_wf kv.2) (entries tr).

#[export] Instance tree_wf_dec tr : Decision (wf tr).
Proof. unfold wf, entry_wf. apply _. Defined.

Definition fits (tr : t) : Prop := zlen (to_canonical_bytes tr) <= isize_max.

Lemma reads_kind k : reads read_kind (write_kind k) k.
Proof.
  destruct k as [x|]; simpl.
  - change (z2b 0 :: write_bool x) with ([z2b 0] ++ write_bool x).
    eapply reads_bind; [apply reads_u8|]. cbn.
    eapply reads_bind_pure; [apply reads_bool|apply reads_ret].
  - eapply reads_bind_pure; [apply reads_u8|]. cbn. apply reads_ret.
Qed.

Lemma inverts_kind : inverts read_kind write_kind (fun _ => True).
Proof.
  eapply (inverts_bind _ _ _ _ _ _
    (fun _ k => match k with File x => write_bool x | Dir => [] end)); [apply inverts_u8|].
  intros z Hz. case_bool_decide.
  - subst. eapply inverts_map; [apply inverts_bool|]. by intros x _.
  - case_bool_decide; [by subst; apply inverts_ret|apply inverts_fail].
Qed.

Lemma reads_entry e : entry_wf e -> reads read_entry (write_entry e) e.
Proof.
  intros He. eapply reads_bind; [apply reads_kind|].
  eapply reads_bind_pure; [by apply reads_digest|]. destruct e. apply reads_ret.
Qed.

Lemma inverts_entry : inverts read_entry write_entry entry_wf.
Proof.
  eapply (inverts_bind _ _ _ _ _ _
    (fun _ e => write_delimited (to_multihash_bytes (te_digest e)))); [apply inverts_kind|].
  intros k _. eapply inverts_map; [apply inverts_digest|]. intros d Hd. by split_and!.
Qed.

Lemma tree_fits_entries tr : fits tr -> zlen (write_entries write_entry (entries tr)) <= isize_max.
Proof.
  unfold fits, to_canonical_bytes. rewrite !zlen_app. intros Hfit.
  pose proof (zlen_nonneg TREE_DOMAIN).
  pose proof (zlen_nonneg (le_bytes 8 (zlen (entries tr)))). lia.
Qed.

Lemma tree_read_all_correct tr fuel :
  wf tr -> fits tr -> (length (entries tr) <= fuel)%nat ->
  (read_all fuel (reader_new (to_canonical_bytes tr))).1 = Ok tr.
Proof.
  intros [Hs Hok] Hfit Hfuel.
  pose proof (tree_fits_entries tr Hfit) as Hfe.
  pose proof (write_entries_count write_entry (entries tr)) as Hcnt.
  pose proof (zlen_nonneg (entries tr)) as Hnn.
  set (r0 := reader_new (to_canonical_bytes tr)).
  assert (Hwf0 : reader_wf r0) by (split; [simpl; lia|exact Hfit]).
  assert (Hread : reads (expect_tag bad TREE_DOMAIN ≫= fun _ =>
    n ← read_u64 bad;
    es ← read_entries bad (bs "entry name") (bs "entries not in canonical ascending order")
      read_entry fuel n None []; mret (mk es))
    (to_canonical_bytes tr) tr).
  { eapply reads_bind; [apply reads_tag|]. eapply reads_bind.
    { apply reads_u64. unfold is_u64, u64_max, isize_max in *. lia. }
    eapply reads_bind_pure.
    { apply (reads_entries bad _ _ read_entry write_entry entry_wf reads_entry _ _ []);
        [done|exact Hs|by eapply entries_ok]. }
    destruct tr. apply reads_ret. }
  destruct (Hread r0 [] Hwf0) as (r' & E & Hr & _ & Hwf'); [by rewrite app_nil_r|].
  enough (Hrun : read_all fuel r0 = (Ok tr, r')) by by rewrite Hrun.
  revert E. unfold read_all, mbind, M_bind.
  repeat (match goal with |- context [match ?p ?r with (_, _) => _ end] =>
    lazymatch p with expect_end _ => fail | _ => idtac end;
    destruct (p r) as [[?|?] ?]; [|done] end).
  intros [= <- <-]. by rewrite expect_end_nil.
Qed.

(** ** Properties *)

Lemma tree_from_to_canonical tr : wf tr -> fits tr -> from_canonical_bytes (to_canonical_bytes tr) = Ok tr.
Proof.
  intros Hwf Hfit. apply tree_read_all_correct; [done..|].
  unfold to_canonical_bytes. rewrite !length_app.
  pose proof (write_entries_count write_entry (entries tr)). unfold zlen in *. lia.
Qed.

Lemma tree_from_canonical_Ok b tr :
  zlen b <= isize_max -> from_canonical_bytes b = Ok tr ->
  wf tr /\ to_canonical_bytes tr = b.
Proof.
  unfold from_canonical_bytes. intros Hb H.
  destruct (read_all _ _) as [v r'] eqn:E. simpl in H. subst v. unfold read_all in E.
  set (r0 := reader_new b) in E.
  assert (Hwf0 : reader_wf r0) by (split; [simpl; lia|exact Hb]).
  apply M_bind_inv in E as (u & r1 & H1 & E).
  apply inverts_tag in H1 as (R1 & B1 & W1 & _); [|done].
  apply M_bind_inv in E as (n & r3 & H3 & E).
  apply inverts_u64 in H3 as (R3 & B3 & W3 & O3); [|done].
  apply M_bind_inv in E as (outs & r4 & H4 & E).
  apply (read_entries_Ok bad _ _ read_entry write_entry entry_wf inverts_entry _ _ [])
    in H4 as (es & -> & Hs & R4 & Hz & Hok & B4 & W4); [|constructor|done].
  apply M_bind_inv in E as (u' & r7 & H7 & E).
  apply expect_end_Ok in H7 as [-> Hend]. injection E as <- <-.
  simpl in *. split.
  - split; [done|]. eapply Forall_impl; [exact Hok|]. intros kv [[Hu _] Ho]. done.
  - unfold to_canonical_bytes. simpl. change b with (rest r0).
    destruct O3. rewrite Z.max_l in Hz by done.
    by rewrite R1, R3, R4, Hend, Hz, app_nil_r.
Qed.

(** Encode/decode round trip of a [Tree], in both directions: a byte string
    decodes to a tree exactly when the tree satisfies the type's invariants and
    the byte string is its canonical encoding. *)
Theorem tree_canonical (b : list byte) (tr : t) :
  zlen b <= isize_max ->
  from_canonical_bytes b = Ok tr <-> wf tr /\ to_canonical_bytes tr = b.
Proof.
  intros Hb. split; [by apply tree_from_canonical_Ok|].
  intros [Hwf <-]. by apply tree_from_to_canonical.
Qed.

End Tree.

Lemma decode_disjoint b ar tr :
  zlen b <= isize_max ->
  ActionResult.from_canonical_bytes b = Ok ar -> Tree.from_canonical_bytes b <> Ok tr.
Proof.
  intros Hb Ha Ht. apply ActionResult.ar_from_canonical_Ok in Ha as [_ Ha]; [|done].
  apply Tree.tree_from_canonical_Ok in Ht as [_ Ht]; [|done]. rewrite <- Ha in Ht.
  apply (f_equal (fun l => l !! 7%nat)) in Ht. vm_compute in Ht. done.
Qed.

(** ** Witnesses *)

Definition ex_blob (n : Z) : Digest := mkDigest Blake3 (le_bytes 32 n).

Definition ex_result : ActionResult.t :=
  ActionResult.mk
    [(bs "bin/app", ActionResult.mkOutputFile (ex_blob 1) true);
     (bs "bin/app.d", ActionResult.mkOutputFile (ex_blob 2) false)]
    (-1) (Some (ex_blob 3)) None.

Definition ex_tree : Tree.t :=
  Tree.mk [(bs "lib", Tree.mkTreeEntry (ex_blob 4) Tree.Dir);
           (bs "main.c", Tree.mkTreeEntry (ex_blob 5) (Tree.File false))].

Theorem action_result_canonical_witness :
  ActionResult.from_canonical_bytes (ActionResult.to_canonical_bytes ex_result) = Ok ex_result.
Proof.
  apply ActionResult.action_result_canonical; [by vm_compute|].
  split; [|reflexivity]. apply (bool_decide_unpack _). vm_compute. exact I.
Defined.

Theorem tree_canonical_witness :
  Tree.from_canonical_bytes (Tree.to_canonical_bytes ex_tree) = Ok ex_tree.
Proof.
  apply Tree.tree_canonical; [by vm_compute|].
  split; [|reflexivity]. apply (bool_decide_unpack _). vm_compute. exact I.
Defined.
