(* ===== verification/Attestation.v ===== *)
(** Attestations and the grow-only ActionCache CRDT
    (crates/nessie-backend-core/src/attestation.rs and attestation_set.rs). *)

From Stdlib Require Import ZArith Lia.
From stdpp Require Import base list gmap sets fin_sets countable.
From S2P Require Import Prelude Ordered Digest Errors.

(** ** Attestations *)

Record Attestation := mkAttestation { signer : SignerId; att_result : Digest }.

#[export] Instance Attestation_eq_dec : EqDecision Attestation.
Proof. solve_decision. Defined.
#[export] Instance Attestation_countable : Countable Attestation :=
  inj_countable' (fun a => (signer a, att_result a)) (fun p => mkAttestation p.1 p.2)
    ltac:(by intros []).

Record SignedAttestation := mkSigned { attestation : Attestation; signature : Signature }.

Definition STMT_DOMAIN : list byte := bs "nessie.Attestation.v1" ++ [z2b 0].

(** The message a signer signs: it binds both the action and the result. *)
Definition statement_signing_bytes (action res : Digest) : list byte :=
  STMT_DOMAIN ++ to_multihash_bytes action ++ to_multihash_bytes res.

Lemma length_multihash d : digest_wf d -> length (to_multihash_bytes d) = 34%nat.
Proof. unfold digest_wf, to_multihash_bytes. cbn [length]. intros ->. by destruct (algo d). Qed.

Lemma to_multihash_bytes_inj d1 d2 :
  digest_wf d1 -> digest_wf d2 -> to_multihash_bytes d1 = to_multihash_bytes d2 -> d1 = d2.
Proof.
  intros H1%from_to_multihash_bytes H2%from_to_multihash_bytes Heq. congruence.
Qed.

Lemma statement_inj a1 r1 a2 r2 :
  digest_wf a1 -> digest_wf a2 -> digest_wf r1 -> digest_wf r2 ->
  statement_signing_bytes a1 r1 = statement_signing_bytes a2 r2 -> a1 = a2 /\ r1 = r2.
Proof.
  unfold statement_signing_bytes. intros Ha1 Ha2 Hr1 Hr2 Heq.
  apply (inj (app STMT_DOMAIN)) in Heq. apply app_inj_1 in Heq as [Ea Er].
  - split; by apply to_multihash_bytes_inj.
  - by rewrite !length_multihash.
Qed.

(** ** The CRDT state for one action *)

(** [BTreeSet<Attestation>]: only membership is ever observed. *)
Record AttestationSet := mkAttSet { atts : gset Attestation }.

Definition att_new : AttestationSet := mkAttSet ∅.

(** Returns whether the element was newly added. *)
Definition insert (s : AttestationSet) (a : Attestation) : bool * AttestationSet :=
  (bool_decide (a ∉ atts s), mkAttSet ({[a]} ∪ atts s)).

Definition merge (s other : AttestationSet) : AttestationSet :=
  mkAttSet (atts s ∪ atts other).

Definition is_subset (s other : AttestationSet) : bool := bool_decide (atts s ⊆ atts other).

Definition signers_for (s : AttestationSet) (r : Digest) : gset SignerId :=
  set_map signer (filter (fun a => att_result a = r) (atts s)).

(** [NonZeroUsize] is a [positive]: a zero threshold is unrepresentable. *)
Definition is_confirmed (s : AttestationSet) (r : Digest) (k : positive) : bool :=
  bool_decide (Pos.to_nat k <= size (signers_for s r))%nat.

Inductive AcResolution :=
| Unconfirmed
| Confirmed (d : Digest)
| Conflicting (ds : gset Digest).

Definition confirmed_set (s : AttestationSet) (k : positive) : gset Digest :=
  filter (fun r => is_confirmed s r k = true) (set_map att_result (atts s)).

Definition resolve (s : AttestationSet) (k : positive) : AcResolution :=
  let confirmed := confirmed_set s k in
  match elements confirmed with
  | [] => Unconfirmed
  | [d] => Confirmed d
  | _ => Conflicting confirmed
  end.

Lemma elem_of_signers s r x :
  x ∈ signers_for s r <-> mkAttestation x r ∈ atts s.
Proof.
  unfold signers_for. rewrite elem_of_map. split.
  - intros (a & -> & [Hr Hin]%elem_of_filter). destruct a. simpl in *. by subst.
  - intros Hin. exists (mkAttestation x r). split; [done|]. by apply elem_of_filter.
Qed.

Lemma elem_of_confirmed s k r :
  r ∈ confirmed_set s k <-> is_confirmed s r k = true.
Proof.
  unfold confirmed_set. rewrite elem_of_filter, elem_of_map. split; [naive_solver|].
  intros Hc. split; [done|]. unfold is_confirmed in Hc. apply bool_decide_eq_true in Hc.
  assert (Hne : signers_for s r ≠ ∅).
  { intros He. rewrite He, size_empty in Hc. lia. }
  apply set_choose_L in Hne as [x Hx]. apply elem_of_signers in Hx.
  by exists (mkAttestation x r).
Qed.

Lemma signers_for_mono s s' r : atts s ⊆ atts s' -> signers_for s r ⊆ signers_for s' r.
Proof. intros Hsub x. rewrite !elem_of_signers. auto. Qed.

Lemma is_confirmed_mono s s' r k :
  atts s ⊆ atts s' -> is_confirmed s r k = true -> is_confirmed s' r k = true.
Proof.
  unfold is_confirmed. rewrite !bool_decide_eq_true. intros Hsub Hc.
  pose proof (subseteq_size _ _ (signers_for_mono s s' r Hsub)). lia.
Qed.

(** ** Resolution *)

Lemma resolve_cases s k :
  match resolve s k with
  | Unconfirmed => forall r, is_confirmed s r k = false
  | Confirmed d => forall r, is_confirmed s r k = true <-> r = d
  | Conflicting ds =>
      (forall r, r ∈ ds <-> is_confirmed s r k = true) /\ (2 <= size ds)%nat
  end.
Proof.
  assert (Hel : forall r, r ∈ elements (confirmed_set s k) <-> is_confirmed s r k = true).
  { intros r. rewrite elem_of_elements. apply elem_of_confirmed. }
  unfold resolve. destruct (elements (confirmed_set s k)) as [|d [|d' ds]] eqn:E.
  - intros r. destruct (is_confirmed s r k) eqn:Er; [|done].
    apply Hel in Er. set_solver.
  - intros r. rewrite <- Hel. set_solver.
  - split; [intros r; apply elem_of_confirmed|].
    unfold size, set_size. simpl. rewrite E. simpl. lia.
Qed.

Lemma resolve_Confirmed s k d :
  resolve s k = Confirmed d <->
  (forall r, is_confirmed s r k = true <-> r = d).
Proof.
  pose proof (resolve_cases s k) as Hc. split.
  - intros E. by rewrite E in Hc.
  - intros Hd. destruct (resolve s k) as [|d'|ds].
    + specialize (Hc d). assert (is_confirmed s d k = true) by by apply Hd. congruence.
    + f_equal. symmetry. by apply Hc, Hd.
    + destruct Hc as [Hin Hsz]. exfalso.
      assert (Hsub : ds ⊆ {[d]}).
      { intros r Hr. apply Hin, Hd in Hr. set_solver. }
      apply subseteq_size in Hsub. rewrite size_singleton in Hsub. lia.
Qed.

(** A confirmed result has an honest backer as soon as fewer than [k] signers are
    Byzantine. *)
Lemma confirmed_honest s r k (byz : gset SignerId) :
  (size byz < Pos.to_nat k)%nat -> is_confirmed s r k = true ->
  exists x, (x ∉ byz) /\ mkAttestation x r ∈ atts s.
Proof.
  unfold is_confirmed. rewrite bool_decide_eq_true. intros Hb Hc.
  destruct (decide (signers_for s r ∖ byz = ∅)) as [He|Hne].
  - assert (Hsub : signers_for s r ⊆ byz) by set_solver.
    apply subseteq_size in Hsub. lia.
  - apply set_choose_L in Hne as [x Hx]. exists x. rewrite <- elem_of_signers. set_solver.
Qed.

(** When every attestation is for one result, resolution only counts its signers. *)
Lemma resolve_unanimous s k d :
  (forall a, a ∈ atts s -> att_result a = d) ->
  resolve s k = if is_confirmed s d k then Confirmed d else Unconfirmed.
Proof.
  intros Hall.
  assert (Hconf : forall r, is_confirmed s r k = true -> r = d).
  { intros r Hc. destruct (confirmed_honest s r k ∅ ltac:(rewrite size_empty; lia) Hc)
      as (x & _ & Hin). by apply Hall in Hin. }
  destruct (is_confirmed s d k) eqn:E.
  - apply resolve_Confirmed. intros r. split; [apply Hconf|by intros ->].
  - pose proof (resolve_cases s k) as Hc. destruct (resolve s k) as [|x|ds]; [done|..].
    + assert (Hx : is_confirmed s x k = true) by by apply Hc.
      rewrite (Hconf x Hx) in Hx. congruence.
    + destruct Hc as [Hin Hsz].
      assert (Hsub : ds ⊆ ∅).
      { intros x Hx. apply Hin in Hx. rewrite (Hconf x Hx) in Hx. congruence. }
      apply subseteq_size in Hsub. rewrite size_empty in Hsub. lia.
Qed.

Lemma resolve_empty k : resolve (mkAttSet ∅) k = Unconfirmed.
Proof.
  assert (Hd : forall d, is_confirmed (mkAttSet ∅) d k = false).
  { intros d. unfold is_confirmed, signers_for. simpl. apply bool_decide_eq_false.
    replace (filter _ ∅) with (∅ : gset Attestation) by set_solver.
    rewrite set_map_empty, size_empty. lia. }
  rewrite (resolve_unanimous _ _ (mkDigest Blake3 [])) by (simpl; set_solver). by rewrite Hd.
Qed.

(** ** The semilattice *)

Lemma merge_comm s t : merge s t = merge t s.
Proof. unfold merge. f_equal. set_solver. Qed.
Lemma merge_assoc s t u : merge s (merge t u) = merge (merge s t) u.
Proof. unfold merge. simpl. f_equal. set_solver. Qed.
Lemma merge_idem s : merge s s = s.
Proof. destruct s. unfold merge. simpl. f_equal. set_solver. Qed.
Lemma merge_ub_l s t : is_subset s (merge s t) = true.
Proof. unfold is_subset, merge. rewrite bool_decide_eq_true. simpl. set_solver. Qed.
Lemma merge_lub s t u :
  is_subset s u = true -> is_subset t u = true -> is_subset (merge s t) u = true.
Proof. unfold is_subset, merge. rewrite !bool_decide_eq_true. simpl. set_solver. Qed.
Lemma insert_merge s a : (insert s a).2 = merge s (mkAttSet {[a]}).
Proof. unfold insert, merge. simpl. f_equal. set_solver. Qed.

(** Replica states reachable by local inserts and gossip: what a replica holds is
    what was attested, whatever the order, duplication or grouping of deliveries. *)
Inductive delivery := Attest (a : Attestation) | Gossip (s : AttestationSet).

Definition deliver (s : AttestationSet) (d : delivery) : AttestationSet :=
  match d with
  | Attest a => (insert s a).2
  | Gossip t => merge s t
  end.

Definition delivered (d : delivery) : gset Attestation :=
  match d with Attest a => {[a]} | Gossip t => atts t end.

Lemma deliver_atts s d : atts (deliver s d) = atts s ∪ delivered d.
Proof. destruct d; simpl; set_solver. Qed.

Lemma deliveries_atts s ds : atts (foldl deliver s ds) = atts s ∪ ⋃ (delivered <$> ds).
Proof.
  revert s. induction ds as [|d ds IH]; intros s; csimpl.
  - set_solver.
  - rewrite IH, deliver_atts. set_solver.
Qed.

Lemma resolve_honest (s : AttestationSet) (k : positive) (byz : gset SignerId)
    (honest_result : Digest) :
  (size byz < Pos.to_nat k)%nat ->
  (forall a, a ∈ atts s -> signer a ∉ byz -> att_result a = honest_result) ->
  resolve s k = Confirmed honest_result \/ resolve s k = Unconfirmed.
Proof.
  intros Hb Hh.
  assert (Honly : forall r, is_confirmed s r k = true -> r = honest_result).
  { intros r Hc. destruct (confirmed_honest s r k byz Hb Hc) as (x & Hx & Hin).
    exact (Hh _ Hin Hx). }
  destruct (is_confirmed s honest_result k) eqn:E.
  - left. apply resolve_Confirmed. intros r. split; [apply Honly|by intros ->].
  - right. pose proof (resolve_cases s k) as Hc. destruct (resolve s k) as [|d|ds]; [done|..].
    + assert (is_confirmed s d k = true) as Hd by by apply Hc.
      rewrite (Honly d Hd) in Hd. congruence.
    + destruct Hc as [Hin Hsz].
      assert (Hsub : ds ⊆ ∅).
      { intros r Hr. apply Hin in Hr. rewrite (Honly r Hr) in Hr. congruence. }
      apply subseteq_size in Hsub. rewrite size_empty in Hsub. lia.
Qed.

(** ** Properties *)

(** C4. Agreement under a Byzantine minority.  If fewer than [k] signers are
    Byzantine and every other signer attests only the action's deterministic
    result, then resolution never returns any other result and never reports a
    conflict. *)
Theorem resolve_agreement (s : AttestationSet) (k : positive) (byz : gset SignerId)
    (honest_result : Digest) :
  (size byz < Pos.to_nat k)%nat ->
  (forall a, a ∈ atts s -> signer a ∉ byz -> att_result a = honest_result) ->
  resolve s k = Confirmed honest_result \/ resolve s k = Unconfirmed.
Proof. apply resolve_honest. Qed.

(** C40. Convergence of the CRDT: replicas starting empty that received the same
    attestations hold the same state and resolve alike, whatever the order,
    repetition and gossip grouping of the deliveries. *)
Theorem deliveries_converge (ds1 ds2 : list delivery) (k : positive) :
  (⋃ (delivered <$> ds1) : gset Attestation) = ⋃ (delivered <$> ds2) ->
  foldl deliver att_new ds1 = foldl deliver att_new ds2 /\
  resolve (foldl deliver att_new ds1) k = resolve (foldl deliver att_new ds2) k.
Proof.
  intros Heq.
  assert (Hs : foldl deliver att_new ds1 = foldl deliver att_new ds2).
  { pose proof (deliveries_atts att_new ds1) as H1.
    pose proof (deliveries_atts att_new ds2) as H2. rewrite Heq in H1.
    destruct (foldl deliver att_new ds1), (foldl deliver att_new ds2).
    simpl in *. congruence. }
  by rewrite Hs.
Qed.

(** Resolution is exactly the k-of-n rule: a miss when nothing has k distinct
    signers, a result when it alone has, a conflict (listing every one) when two or
    more have; and more deliveries never unconfirm a result. *)
Theorem resolve_threshold (s : AttestationSet) (k : positive) :
  match resolve s k with
  | Unconfirmed => forall r, (size (signers_for s r) < Pos.to_nat k)%nat
  | Confirmed d => forall r, (Pos.to_nat k <= size (signers_for s r))%nat <-> r = d
  | Conflicting ds =>
      (forall r, r ∈ ds <-> (Pos.to_nat k <= size (signers_for s r))%nat) /\ (2 <= size ds)%nat
  end /\
  forall d r, is_confirmed s r k = true -> is_confirmed (deliver s d) r k = true.
Proof.
  split.
  - pose proof (resolve_cases s k) as Hc. unfold is_confirmed in Hc.
    destruct (resolve s k) as [|d|ds].
    + intros r. specialize (Hc r). apply bool_decide_eq_false in Hc. lia.
    + intros r. rewrite <- Hc. by rewrite bool_decide_eq_true.
    + destruct Hc as [Hin Hsz]. split; [|done]. intros r.
      rewrite Hin. by rewrite bool_decide_eq_true.
  - intros d r. apply is_confirmed_mono. rewrite deliver_atts. set_solver.
Qed.

(** ** Witnesses *)

Definition ex_digest (n : Z) : Digest := mkDigest Blake3 (le_bytes 32 n).
Definition ex_signer (n : Z) : SignerId := mkSignerId [z2b n].
Definition ex_set : AttestationSet :=
  foldl deliver att_new
    [Attest (mkAttestation (ex_signer 1) (ex_digest 7));
     Attest (mkAttestation (ex_signer 2) (ex_digest 7));
     Attest (mkAttestation (ex_signer 3) (ex_digest 8))].

Example ex_resolves : resolve ex_set 2 = Confirmed (ex_digest 7).
Proof. vm_compute. reflexivity. Qed.

Theorem resolve_agreement_witness :
  resolve ex_set 2 = Confirmed (ex_digest 7) \/ resolve ex_set 2 = Unconfirmed.
Proof.
  apply (resolve_agreement ex_set 2 {[ex_signer 3]} (ex_digest 7)).
  - rewrite size_singleton. lia.
  - change (set_Forall (fun a => signer a ∉ ({[ex_signer 3]} : gset SignerId) ->
      att_result a = ex_digest 7) (atts ex_set)).
    apply (bool_decide_unpack _). vm_compute. exact I.
Defined.

Theorem deliveries_converge_witness :
  let a := mkAttestation (ex_signer 1) (ex_digest 7) in
  let b := mkAttestation (ex_signer 2) (ex_digest 7) in
  let l := [Attest a; Gossip (mkAttSet {[b]}); Attest a] in
  let m := [Attest b; Attest a] in
  foldl deliver att_new l = foldl deliver att_new m /\
  resolve (foldl deliver att_new l) 2 = resolve (foldl deliver att_new m) 2.
Proof. apply deliveries_converge. simpl. set_solver. Defined.
