(* ===== verification/Cas.v ===== *)
(** The content-addressed backend contract ([CasBackend], [ReclaimableCas] of
    crates/nessie-backend-core/src/cas.rs) as type classes with their laws, the
    routing contract ([ContentRouter] of router.rs), and the in-memory reference
    implementations of both (crates/nessie-backend-mem/src/lib.rs).

    A backend's operation takes the backend's state and returns a result and the
    new state.  The laws speak about a backend only through [held] (the bytes it
    serves, by digest) and [quarantined_at] (the copies moved aside); clients are
    verified against the laws, implementations discharge them. *)

From Stdlib Require Import ZArith Lia.
From stdpp Require Import base list gmap sets.
From S2P Require Import Prelude Ordered Text Digest Errors.

Local Open Scope Z_scope.

Record LocalBlob := mkLocalBlob { lb_digest : Digest; lb_size : Z }.
Record QuarantinedBlob := mkQuarantined { q_id : list byte; q_digest : Digest; q_size : Z }.

#[export] Instance LocalBlob_eq_dec : EqDecision LocalBlob.
Proof. solve_decision. Defined.
#[export] Instance QuarantinedBlob_eq_dec : EqDecision QuarantinedBlob.
Proof. solve_decision. Defined.

(** [dyn CasBackend].  The write operations also return what they left unread of
    the source. *)
Class CasBackend (S : Type) : Type := {
  cas_has : Digest -> M BackendError S bool;
  cas_get : Digest -> M BackendError S source;
  cas_put : source -> S -> result BackendError Digest * source * S;
  cas_put_keyed : Digest -> source -> S -> result BackendError () * source * S;
  cas_ensure_replicated : Digest -> M BackendError S ();
  cas_size : Digest -> M BackendError S (option Z);
}.

(** [dyn ReclaimableCas] *)
Class ReclaimableCas (S : Type) : Type := {
  iter_local : M BackendError S (list LocalBlob);
  reclaim : Digest -> M BackendError S bool;
  cas_verify : Digest -> M BackendError S bool;
  reclaim_if_corrupt : Digest -> M BackendError S bool;
  cas_quarantine : Digest -> M BackendError S (option QuarantinedBlob);
  iter_quarantine : M BackendError S (list QuarantinedBlob);
}.

(** ** The traits' default methods *)

Section defaults.
Context {S : Type}.

Definition default_put_keyed (expected : Digest) (src : source) (s : S) :
    result BackendError () * source * S :=
  (Err (FeatureNotSupported (bs "put_keyed")), src, s).

Definition default_ensure_replicated (digest : Digest) : M BackendError S () := mret ().

(** [io::copy] into a sink: the number of bytes up to the end of the input. *)
Definition default_size (get : Digest -> M BackendError S source) (digest : Digest) :
    M BackendError S (option Z) := fun s =>
  match get digest s with
  | (Ok reader, s') =>
      match (read_to_end reader).1 with
      | Ok data => (Ok (Some (zlen data)), s')
      | Err e =>
          (Err (Internal (bs "cas size of " ++ to_string digest ++ bs ": " ++ ie_display e)), s')
      end
  | (Err (BlobNotFound _), s') => (Ok None, s')
  | (Err e, s') => (Err e, s')
  end.

Definition default_verify (get : Digest -> M BackendError S source) (digest : Digest) :
    M BackendError S bool :=
  get digest ≫= fun _ => mret true.

Definition default_reclaim_if_corrupt (digest : Digest) : M BackendError S bool :=
  fail (FeatureNotSupported (bs "reclaim_if_corrupt")).

Definition default_quarantine (digest : Digest) :
    M BackendError S (option QuarantinedBlob) := mret None.

Definition default_iter_quarantine : M BackendError S (list QuarantinedBlob) := mret [].
End defaults.

(** ** The laws of a backend

    What the trait's documentation promises: bytes are verified before they are
    served or stored, a write that fails stores nothing, a stored blob is left
    alone unless it is corrupt, and a reclaim removes one blob. *)

Class CasModel (S : Type) : Type := {
  held : S -> gmap Digest (list byte);
  quarantined_at : S -> gmap (list byte) Z;
  (** What the implementation relies on of its own state. *)
  cas_valid : S -> Prop;
}.

Section laws.
Context {S : Type} {Hs : Hashers} {B : CasBackend S} {R : ReclaimableCas S} {V : CasModel S}.

(** The state still holds the same bytes. *)
Definition same_content (s s' : S) : Prop :=
  held s' = held s /\ quarantined_at s' = quarantined_at s.

(** [data] was stored under [d], unless a healthy copy was there already. *)
Definition stores (s : S) (d : Digest) (data : list byte) (s' : S) : Prop :=
  verify d data = true /\ quarantined_at s' = quarantined_at s /\
  match held s !! d with
  | None => held s' = <[d := data]> (held s)
  | Some old =>
      held s' = held s \/ verify d old = false /\ held s' = <[d := data]> (held s)
  end.

Definition has_spec (d : Digest) (s : S) : Prop :=
  let '(r, s') := cas_has d s in
  same_content s s' /\
  match r with Ok b => b = bool_decide (is_Some (held s !! d)) | Err _ => True end.

Definition get_spec (d : Digest) (s : S) : Prop :=
  let '(r, s') := cas_get d s in
  same_content s s' /\
  match r with
  | Ok src => exists data, held s !! d = Some data /\ verify d data = true /\
      read_to_end src = (Ok data, [])
  | Err (BlobNotFound d') => d' = d /\ held s !! d = None
  | Err _ => True
  end.

Definition put_spec (src : source) (s : S) : Prop :=
  let '(r, src', s') := cas_put src s in
  match r with
  | Ok d => exists data, read_to_end src = (Ok data, src') /\ d = compute data /\
      stores s d data s'
  | Err _ => same_content s s'
  end.

(** A keyed write either stores what it read, or finds the blob and reads nothing. *)
Definition put_keyed_spec (d : Digest) (src : source) (s : S) : Prop :=
  let '(r, src', s') := cas_put_keyed d src s in
  (exists pre, src = pre ++ src') /\
  match r with
  | Ok () =>
      (exists data, read_to_end src = (Ok data, src') /\ stores s d data s') \/
      (src' = src /\ is_Some (held s !! d) /\ same_content s s')
  | Err _ => same_content s s'
  end.

Definition size_spec (d : Digest) (s : S) : Prop :=
  let '(r, s') := cas_size d s in
  same_content s s' /\
  match r with Ok n => n = zlen <$> held s !! d | Err _ => True end.

(** A verdict is about the bytes held. *)
Definition verify_spec (d : Digest) (s : S) : Prop :=
  let '(r, s') := cas_verify d s in
  same_content s s' /\
  match r with
  | Ok b => exists data, held s !! d = Some data /\ b = verify d data
  | Err (BlobNotFound _) => held s !! d = None
  | Err _ => True
  end.

Definition iter_local_spec (s : S) : Prop :=
  let '(r, s') := iter_local s in
  same_content s s' /\
  match r with
  | Ok l => l ≡ₚ (fun kv => mkLocalBlob kv.1 (zlen kv.2)) <$> map_to_list (held s)
  | Err _ => True
  end.

(** One blob goes away; nothing else moves. *)
Definition removes (s : S) (d : Digest) (b : bool) (s' : S) : Prop :=
  quarantined_at s' = quarantined_at s /\
  held s' = if b then delete d (held s) else held s.

Definition reclaim_spec (d : Digest) (s : S) : Prop :=
  let '(r, s') := reclaim d s in
  match r with
  | Ok b => b = bool_decide (is_Some (held s !! d)) /\ removes s d b s'
  | Err _ => same_content s s'
  end.

Definition reclaim_if_corrupt_spec (d : Digest) (s : S) : Prop :=
  let '(r, s') := reclaim_if_corrupt d s in
  match r with
  | Ok b =>
      (b = true <-> exists data, held s !! d = Some data /\ verify d data = false) /\
      removes s d b s'
  | Err _ => same_content s s'
  end.

Definition quarantine_spec (d : Digest) (s : S) : Prop :=
  let '(r, s') := cas_quarantine d s in
  match r with
  | Ok (Some q) => exists data,
      held s !! d = Some data /\ held s' = delete d (held s) /\
      q_digest q = d /\ q_size q = zlen data /\ quarantined_at s !! q_id q = None /\
      quarantined_at s' = <[q_id q := q_size q]> (quarantined_at s)
  | Ok None => same_content s s' /\ forall data, held s !! d = Some data -> verify d data = true
  | Err _ => same_content s s'
  end.

Definition iter_quarantine_spec (s : S) : Prop :=
  let '(r, s') := iter_quarantine s in
  same_content s s' /\
  match r with
  | Ok l =>
      (fun q => (q_id q, q_size q)) <$> l ≡ₚ map_to_list (quarantined_at s) /\
      Forall (fun q => 0 <= q_size q) l
  | Err _ => True
  end.
End laws.

(** Every operation meets its specification from a valid state and leaves one. *)
Class CasLaws (S : Type) `{Hashers, CasBackend S, ReclaimableCas S, CasModel S} : Prop := {
  law_has d s : cas_valid s -> has_spec d s /\ cas_valid (cas_has d s).2;
  law_get d s : cas_valid s -> get_spec d s /\ cas_valid (cas_get d s).2;
  law_put src s : cas_valid s -> put_spec src s /\ cas_valid (cas_put src s).2;
  law_put_keyed d src s :
    cas_valid s -> put_keyed_spec d src s /\ cas_valid (cas_put_keyed d src s).2;
  law_ensure_replicated d s :
    cas_valid s -> same_content s (cas_ensure_replicated d s).2 /\
      cas_valid (cas_ensure_replicated d s).2;
  law_verify d s : cas_valid s -> verify_spec d s /\ cas_valid (cas_verify d s).2;
  law_size d s : cas_valid s -> size_spec d s /\ cas_valid (cas_size d s).2;
  law_iter_local s : cas_valid s -> iter_local_spec s /\ cas_valid (iter_local s).2;
  law_reclaim d s : cas_valid s -> reclaim_spec d s /\ cas_valid (reclaim d s).2;
  law_reclaim_if_corrupt d s :
    cas_valid s -> reclaim_if_corrupt_spec d s /\ cas_valid (reclaim_if_corrupt d s).2;
  law_quarantine d s :
    cas_valid s -> quarantine_spec d s /\ cas_valid (cas_quarantine d s).2;
  law_iter_quarantine s :
    cas_valid s -> iter_quarantine_spec s /\ cas_valid (iter_quarantine s).2;
}.

(** ** [MemCas] *)

Module Mem.

Record MemCas := mkMemCas { blobs : gmap Digest (list byte) }.

Definition new : MemCas := mkMemCas ∅.

(** [entry(d).or_insert(bytes)] *)
Definition or_insert (d : Digest) (bytes : list byte) (s : MemCas) : MemCas :=
  match blobs s !! d with
  | Some _ => s
  | None => mkMemCas (<[d := bytes]> (blobs s))
  end.

Definition has (d : Digest) : M BackendError MemCas bool := fun s =>
  (Ok (bool_decide (is_Some (blobs s !! d))), s).

(** The [debug_assert!] that the stored bytes verify holds in every reachable
    state ([mem_laws]). *)
Definition get (d : Digest) : M BackendError MemCas source := fun s =>
  (cursor <$> ok_or (blobs s !! d) (BlobNotFound d), s).

Section mem.
Context {Hs : Hashers}.

Definition put (src : source) (s : MemCas) : result BackendError Digest * source * MemCas :=
  let '(r, src') := read_to_end src in
  match r with
  | Err e => (Err (Internal (bs "cas put: reading source failed: " ++ ie_display e)), src', s)
  | Ok bytes => let d := compute bytes in (Ok d, src', or_insert d bytes s)
  end.

Definition put_keyed (expected : Digest) (src : source) (s : MemCas) :
    result BackendError () * source * MemCas :=
  let '(r, src') := read_to_end src in
  match r with
  | Err e =>
      (Err (Internal (bs "cas put_keyed: reading source failed: " ++ ie_display e)), src', s)
  | Ok bytes =>
      if verify expected bytes then (Ok (), src', or_insert expected bytes s)
      else (Err (InvalidArgument (bs "put_keyed: bytes do not hash to " ++ to_string expected)),
            src', s)
  end.

Definition size (d : Digest) : M BackendError MemCas (option Z) := fun s =>
  (Ok (zlen <$> blobs s !! d), s).

Definition mem_iter_local : M BackendError MemCas (list LocalBlob) := fun s =>
  (Ok ((fun kv => mkLocalBlob kv.1 (zlen kv.2)) <$> map_to_list (blobs s)), s).

Definition mem_reclaim (d : Digest) : M BackendError MemCas bool := fun s =>
  (Ok (bool_decide (is_Some (blobs s !! d))), mkMemCas (delete d (blobs s))).

Definition mem_reclaim_if_corrupt (d : Digest) : M BackendError MemCas bool := fun s =>
  match blobs s !! d with
  | Some b =>
      if verify d b then (Ok false, s) else (Ok true, mkMemCas (delete d (blobs s)))
  | None => (Ok false, s)
  end.

#[global] Instance mem_backend : CasBackend MemCas := {|
  cas_has := has;
  cas_get := get;
  cas_put := put;
  cas_put_keyed := put_keyed;
  cas_ensure_replicated := default_ensure_replicated;
  cas_size := size;
|}.

#[global] Instance mem_reclaimable : ReclaimableCas MemCas := {|
  iter_local := mem_iter_local;
  reclaim := mem_reclaim;
  cas_verify := default_verify get;
  reclaim_if_corrupt := mem_reclaim_if_corrupt;
  cas_quarantine := default_quarantine;
  iter_quarantine := default_iter_quarantine;
|}.

#[global] Instance mem_model : CasModel MemCas := {|
  held := blobs;
  quarantined_at _ := ∅;
  cas_valid s := forall d b, blobs s !! d = Some b -> verify d b = true;
|}.

Lemma or_insert_stores d data s :
  verify d data = true -> stores s d data (or_insert d data s).
Proof.
  intros Hv. unfold or_insert, stores. split; [done|].
  destruct (blobs s !! d) eqn:E; simpl in *; rewrite E; simpl; auto.
Qed.

Lemma or_insert_valid d data s :
  verify d data = true -> cas_valid s -> cas_valid (or_insert d data s).
Proof.
  intros Hv Hval. unfold or_insert. destruct (blobs s !! d) eqn:E; [done|].
  intros d' b'. simpl. intros [[<- <-]|[_ H]]%lookup_insert_Some; [done|by apply Hval].
Qed.

Lemma delete_valid d s : cas_valid s -> cas_valid (mkMemCas (delete d (blobs s))).
Proof. intros Hval d' b. simpl. intros [_ H]%lookup_delete_Some. by apply Hval. Qed.

Context {Hl : HasherLaws Hs}.

#[global] Instance mem_laws : CasLaws MemCas.
Proof.
  split.
  - intros d s Hval. by repeat split.
  - intros d s Hval. split; [|done]. unfold get_spec. cbn [cas_get mem_backend held mem_model]. unfold get.
    destruct (blobs s !! d) as [b|] eqn:E; cbn [ok_or fmap result_fmap]; (split; [done|]).
    + exists b. split_and!; [done|by apply Hval|by rewrite read_to_end_cursor].
    + done.
  - intros src s Hval. unfold put_spec. simpl. unfold put.
    destruct (read_to_end src) as [[data|e] src']; [|by repeat split].
    split; [|apply or_insert_valid; auto with nessie]. exists data.
    split_and!; [done..|]. apply or_insert_stores. auto with nessie.
  - intros d src s Hval. unfold put_keyed_spec. simpl. unfold put_keyed.
    destruct (read_to_end src) as [[data|e] src'] eqn:E;
      apply read_to_end_suffix in E as Hpre; [|by repeat split].
    destruct (verify d data) eqn:Ev; [|by repeat split].
    split; [|by apply or_insert_valid]. split; [done|]. left. exists data.
    split; [done|]. by apply or_insert_stores.
  - intros d s Hval. by repeat split.
  - intros d s Hval. unfold verify_spec. cbn [cas_verify mem_reclaimable]. unfold default_verify, mbind, M_bind, get.
    destruct (blobs s !! d) as [b|] eqn:E; cbn; [|done]. split_and!; [done| |done].
    exists b. split; [done|]. symmetry. by apply Hval.
  - intros d s Hval. by repeat split.
  - intros s Hval. by repeat split.
  - intros d s Hval. split; [|by apply delete_valid]. unfold reclaim_spec. simpl.
    repeat split. simpl. case_bool_decide as Hd; [done|].
    apply eq_None_not_Some in Hd. by rewrite delete_id.
  - intros d s Hval. unfold reclaim_if_corrupt_spec. simpl. unfold mem_reclaim_if_corrupt.
    destruct (blobs s !! d) as [b|] eqn:E.
    + rewrite (Hval d b E). repeat split; try done. simpl. intros (b' & [= <-] & Hv).
      rewrite (Hval d b E) in Hv. done.
    + repeat split; try done. by intros (b' & ? & _).
  - intros d s Hval. split; [|done]. split; [done|]. intros data. apply Hval.
  - intros s Hval. repeat split; done.
Qed.
End mem.

End Mem.

(** ** Routing *)

Record PeerId := mkPeerId { peer_addr : list byte }.
#[export] Instance PeerId_eq_dec : EqDecision PeerId.
Proof. solve_decision. Defined.
#[export] Instance PeerId_countable : Countable PeerId :=
  inj_countable' peer_addr mkPeerId ltac:(by intros []).
#[export] Instance PeerId_cmp : Cmp PeerId := fun a b => kcmp (peer_addr a) (peer_addr b).

Inductive RouterError := Unavailable (why : list byte).

(** [dyn ContentRouter] *)
Class ContentRouter (T : Type) : Type := {
  providers : Digest -> M RouterError T (list PeerId);
  announce : Digest -> M RouterError T ();
  withdraw : Digest -> M RouterError T ();
}.

(** The in-process swarm: nodes share one table of providers. *)
Module Swarm.

(** A [BTreeSet] is the sorted list of its elements. *)
Definition peers : Type := list (PeerId * ()).

Record MemRouter := mkMemRouter { table : gmap Digest peers; me : PeerId }.

(** [MemSwarm::node]: the shared table seen as one node. *)
Definition node (table : gmap Digest peers) (me : PeerId) : MemRouter := mkMemRouter table me.
Definition new (me : PeerId) : MemRouter := node ∅ me.

Definition mem_providers (d : Digest) : M RouterError MemRouter (list PeerId) := fun t =>
  (Ok (from_option (fun holders => holders.*1) [] (table t !! d)), t).

Definition mem_announce (d : Digest) : M RouterError MemRouter () := fun t =>
  (Ok (), node (<[d := bt_insert (me t) () (default [] (table t !! d))]> (table t)) (me t)).

(** [BTreeSet::remove] *)
Definition bt_remove (p : PeerId) (s : list (PeerId * ())) : list (PeerId * ()) :=
  filter (fun kv => kv.1 <> p) s.

Definition mem_withdraw (d : Digest) : M RouterError MemRouter () := fun t =>
  (Ok (),
   match table t !! d with
   | None => t
   | Some holders =>
       let holders' := bt_remove (me t) holders in
       node (if bool_decide (holders' = []) then delete d (table t)
             else <[d := holders']> (table t)) (me t)
   end).

#[global] Instance mem_router : ContentRouter MemRouter := {|
  providers := mem_providers;
  announce := mem_announce;
  withdraw := mem_withdraw;
|}.

(** A run of a swarm: who announced and withdrew what, in order. *)
Inductive swarm_ev := Announced (p : PeerId) (d : Digest) | Withdrew (p : PeerId) (d : Digest).

Definition swarm_step (tab : gmap Digest peers) (e : swarm_ev) : gmap Digest peers :=
  match e with
  | Announced p d => table (announce d (node tab p)).2
  | Withdrew p d => table (withdraw d (node tab p)).2
  end.

Definition swarm_run : gmap Digest peers -> list swarm_ev -> gmap Digest peers :=
  foldl swarm_step.

(** [p]'s last word about [d] in a run, [false] if it never spoke. *)
Definition last_word (p : PeerId) (d : Digest) (evs : list swarm_ev) : bool :=
  foldl (fun acc e =>
    match e with
    | Announced p' d' => if bool_decide (p' = p /\ d' = d) then true else acc
    | Withdrew p' d' => if bool_decide (p' = p /\ d' = d) then false else acc
    end) false evs.

Definition lists (tab : gmap Digest peers) (p : PeerId) (d : Digest) : Prop :=
  p ∈ (default [] (tab !! d)).*1.

Lemma elem_of_bt_remove p q (s : peers) : q ∈ (bt_remove p s).*1 <-> q <> p /\ q ∈ s.*1.
Proof.
  unfold bt_remove. rewrite !list_elem_of_fmap. setoid_rewrite list_elem_of_filter.
  naive_solver.
Qed.

Lemma bt_remove_sorted p (s : peers) : bt_sorted s -> bt_sorted (bt_remove p s).
Proof.
  unfold bt_sorted, bt_remove. induction s as [|kv s IH]; intros Hs; [done|].
  csimpl in Hs. inversion Hs as [|?? Hs' Hall]; subst. rewrite filter_cons.
  case_decide; csimpl; [|auto]. constructor; [auto|].
  apply Forall_forall. intros q Hq. apply elem_of_bt_remove in Hq as [_ Hq].
  rewrite Forall_forall in Hall. auto.
Qed.

#[global] Instance PeerId_cmp_laws : CmpLaws PeerId.
Proof.
  split.
  - intros [a] [b]. unfold kcmp, PeerId_cmp. simpl. rewrite cmp_eq_iff. naive_solver.
  - intros [a] [b]. apply (cmp_antisym a b).
  - intros [a] [b] [c]. apply (cmp_lt_trans a b c).
Qed.

Lemma lists_step tab e p d :
  lists (swarm_step tab e) p d <->
  match e with
  | Announced p' d' => p' = p /\ d' = d \/ lists tab p d
  | Withdrew p' d' => ~ (p' = p /\ d' = d) /\ lists tab p d
  end.
Proof.
  unfold lists. destruct e as [p' d'|p' d']; simpl.
  - destruct (decide (d' = d)) as [<-|Hd].
    + rewrite lookup_insert_eq. simpl. rewrite bt_insert_keys. naive_solver.
    + rewrite lookup_insert_ne by done. naive_solver.
  - destruct (tab !! d') as [holders|] eqn:E; simpl.
    + assert (Hdef : default [] ((if bool_decide (bt_remove p' holders = []) then delete d' tab
          else <[d':=bt_remove p' holders]> tab) !! d) =
        if decide (d' = d) then bt_remove p' holders else default [] (tab !! d)).
      { case_bool_decide as Hb; case_decide as Hdd; subst.
        - by rewrite lookup_delete_eq, Hb.
        - by rewrite lookup_delete_ne.
        - by rewrite lookup_insert_eq.
        - by rewrite lookup_insert_ne. }
      rewrite Hdef. case_decide; subst; [rewrite elem_of_bt_remove, E; naive_solver|].
      naive_solver.
    + destruct (decide (d' = d)) as [<-|]; [rewrite E; simpl; set_solver|naive_solver].
Qed.

(** The table never keeps an empty entry, and every entry is a sorted set. *)
Definition swarm_wf (tab : gmap Digest peers) : Prop :=
  map_Forall (fun _ holders => holders <> [] /\ bt_sorted holders) tab.

Lemma swarm_step_wf tab e : swarm_wf tab -> swarm_wf (swarm_step tab e).
Proof.
  intros Hwf. destruct e as [p d|p d]; simpl.
  - apply map_Forall_insert_2; [|done]. split.
    + intros E. apply (f_equal (fmap fst)) in E.
      assert (Hin : p ∈ (bt_insert p () (default [] (tab !! d))).*1)
        by (apply bt_insert_keys; by left).
      rewrite E in Hin. set_solver.
    + apply bt_insert_sorted. destruct (tab !! d) eqn:E; simpl; [|constructor].
      by eapply Hwf.
  - destruct (tab !! d) as [holders|] eqn:E; [|done]. case_bool_decide; simpl.
    + by apply map_Forall_delete.
    + apply map_Forall_insert_2; [|done]. split; [done|].
      apply bt_remove_sorted. by eapply Hwf.
Qed.

Lemma swarm_run_wf evs tab : swarm_wf tab -> swarm_wf (swarm_run tab evs).
Proof.
  revert tab. induction evs as [|e evs IH]; intros tab Hwf; [done|].
  apply IH. by apply swarm_step_wf.
Qed.

Lemma lists_run evs p d : lists (swarm_run ∅ evs) p d <-> last_word p d evs = true.
Proof.
  induction evs as [|e evs IH] using rev_ind.
  - unfold lists. simpl. rewrite lookup_empty. simpl. set_solver.
  - unfold swarm_run, last_word in *. rewrite !foldl_app. simpl.
    rewrite lists_step.
    destruct e; case_bool_decide; rewrite IH; naive_solver.
Qed.

(** A swarm's routing table over any interleaving of its nodes' announcements
    and withdrawals: from any node, the providers listed for a digest are exactly
    the nodes whose last word about it was an announcement, each listed once, and a
    digest nobody holds takes no room in the table. *)
Theorem swarm_providers (evs : list swarm_ev) (who : PeerId) (d : Digest) :
  let tab := swarm_run ∅ evs in
  exists holders,
    providers d (node tab who) = (Ok holders, node tab who) /\
    (forall p, p ∈ holders <-> last_word p d evs = true) /\ NoDup holders /\
    (holders = [] -> tab !! d = None).
Proof.
  intros tab. eexists. split; [reflexivity|]. simpl.
  pose proof (swarm_run_wf evs ∅ (map_Forall_empty _)) as Hwf. fold tab in Hwf.
  split; [|destruct (tab !! d) as [h|] eqn:E; simpl].
  - intros p. rewrite <- lists_run. unfold lists. fold tab.
    by destruct (tab !! d).
  - destruct (Hwf _ _ E) as [Hne Hs]. split.
    + clear -Hs. unfold bt_sorted in Hs. induction Hs as [|x l Hs IH Hall]; constructor; [|done].
      intros Hin. rewrite Forall_forall in Hall. by apply (klt_irrefl x), Hall.
    + by destruct h.
  - split; [constructor|done].
Qed.

End Swarm.
