(* ===== verification/Store.v ===== *)
(** The retention-managed store: crates/nessie-cas-store/src/store.rs ([CasStore],
    its books and its write path), policy.rs, clock.rs and scrub.rs.

    One operation runs at a time here, so what a lock protects is a state update
    and the writers' reservations return to zero between operations; Gate.v models
    the writers that interleave.  Counters that grow by one per operation
    ([next_tick], the in-flight counts) are unbounded integers. *)

From Stdlib Require Import ZArith Lia.
From stdpp Require Import base list gmap sets.
From S2P Require Import Prelude Ordered Text Digest Errors Cas.

Local Open Scope Z_scope.

(** ** Policy (policy.rs) *)

Record LruPolicy := mkLru { byte_budget : Z; gc_grace : Z }.
Record WriteOnlyPolicy := mkWriteOnly { capacity : Z }.
Inductive StorageMode := Lru (p : LruPolicy) | WriteOnly (p : WriteOnlyPolicy).
Record RetentionPolicy := mkPolicy { mode : StorageMode }.

Definition lru (byte_budget gc_grace : Z) : RetentionPolicy :=
  mkPolicy (Lru (mkLru byte_budget gc_grace)).
Definition write_only (capacity : Z) : RetentionPolicy :=
  mkPolicy (WriteOnly (mkWriteOnly capacity)).

(** ** Clock (clock.rs): time is a reading in nanoseconds that only [advance] moves *)

Record MockClock := mkClock { clock_now : Z }.
Definition clock_at (start : Z) : MockClock := mkClock start.
Definition advance (by_ : Z) (c : MockClock) : MockClock := mkClock (clock_now c + by_).

(** ** The books *)

Record AccessLog := mkAccess {
  written_at : gmap Digest Z;
  last_touch_at : gmap Digest Z;
  next_tick : Z;
}.

Definition access_default : AccessLog := mkAccess ∅ ∅ 0.

Definition touch (d : Digest) (a : AccessLog) : AccessLog :=
  let tick := next_tick a in
  mkAccess (written_at a) (<[d := tick]> (last_touch_at a)) (tick + 1).

Definition seed_written (d : Digest) (now : Z) (a : AccessLog) : AccessLog :=
  mkAccess (<[d := now]> (written_at a)) (last_touch_at a) (next_tick a).

Definition record_write (d : Digest) (now : Z) (a : AccessLog) : AccessLog :=
  touch d (seed_written d now a).

Definition written_snapshot (a : AccessLog) : gmap Digest Z := written_at a.

Definition last_touch (a : AccessLog) (d : Digest) : Z := default 0 (last_touch_at a !! d).

Definition forget (d : Digest) (a : AccessLog) : AccessLog :=
  mkAccess (delete d (written_at a)) (delete d (last_touch_at a)) (next_tick a).

Record StoreState := mkState {
  in_flight : gset Digest;
  access : AccessLog;
  accounted : gmap Digest Z;
  quarantined : gmap (list byte) Z;
  fast_inflight : gmap Digest Z;
  st_committed : Z;
}.

Definition state_default : StoreState := mkState ∅ access_default ∅ ∅ ∅ 0.

Definition set_in_flight (f : gset Digest -> gset Digest) (s : StoreState) : StoreState :=
  mkState (f (in_flight s)) (access s) (accounted s) (quarantined s) (fast_inflight s)
    (st_committed s).
Definition set_access (f : AccessLog -> AccessLog) (s : StoreState) : StoreState :=
  mkState (in_flight s) (f (access s)) (accounted s) (quarantined s) (fast_inflight s)
    (st_committed s).
Definition set_fast (f : gmap Digest Z -> gmap Digest Z) (s : StoreState) : StoreState :=
  mkState (in_flight s) (access s) (accounted s) (quarantined s) (f (fast_inflight s))
    (st_committed s).

(** ** The store *)

(** [committed] is the atomic mirror of [st_committed], [pending] the bytes
    reserved by writers still streaming, [clock] the clock's current reading. *)
Record CasStore (C T : Type) := mkStore {
  inner : C;
  policy : RetentionPolicy;
  router : T;
  clock : MockClock;
  me : PeerId;
  state : StoreState;
  committed : Z;
  pending : Z;
}.
Arguments mkStore {C T}.
Arguments inner {C T}. Arguments policy {C T}. Arguments router {C T}.
Arguments clock {C T}. Arguments me {C T}. Arguments state {C T}.
Arguments committed {C T}. Arguments pending {C T}.

Section setters.
Context {C T : Type}.
Implicit Type s : CasStore C T.
Definition set_inner (c : C) s : CasStore C T :=
  mkStore c (policy s) (router s) (clock s) (me s) (state s) (committed s) (pending s).
Definition set_router (t : T) s : CasStore C T :=
  mkStore (inner s) (policy s) t (clock s) (me s) (state s) (committed s) (pending s).
Definition set_clock (k : MockClock) s : CasStore C T :=
  mkStore (inner s) (policy s) (router s) k (me s) (state s) (committed s) (pending s).
Definition set_state (st : StoreState) s : CasStore C T :=
  mkStore (inner s) (policy s) (router s) (clock s) (me s) st (committed s) (pending s).
Definition set_committed (z : Z) s : CasStore C T :=
  mkStore (inner s) (policy s) (router s) (clock s) (me s) (state s) z (pending s).
Definition set_pending (z : Z) s : CasStore C T :=
  mkStore (inner s) (policy s) (router s) (clock s) (me s) (state s) (committed s) z.

(** Run an operation of the inner backend. *)
Definition on_inner {A} (op : M BackendError C A) : M BackendError (CasStore C T) A := fun s =>
  let '(r, c) := op (inner s) in (r, set_inner c s).

(** [let _ = self.router.op(..)]: the routing outcome is ignored. *)
Definition best_effort {A} (op : M RouterError T A) s : CasStore C T :=
  set_router (op (router s)).2 s.

Definition update_state (f : StoreState -> StoreState) s : CasStore C T :=
  set_state (f (state s)) s.
End setters.

(** ** The capacity gate *)

Definition gate_error : io_error := io_other (bs "write-only capacity exceeded").

(** [CapacityGate::read] for one result of the source's [read]: what the gate
    returns, its reservation [mine] afterwards, and whether it tripped here.
    [others] is what the other writers have reserved. *)
Definition gate_read (cap committed others mine : Z) (ev : read_ev) : read_ev * Z * bool :=
  match ev with
  | RErr e => (RErr e, mine, false)
  | RData b =>
      let n := zlen b in
      let before := others + mine in
      if bool_decide (cap < sat_add64 (sat_add64 committed before) n)
      then (RErr gate_error, mine, true)
      else (RData b, mine + n, false)
  end.

(** The reads a backend sees through the gate.  The end of the input is gated too
    (a read of no bytes). *)
Fixpoint gate_reads (cap committed others mine : Z) (src : source) : source :=
  match src with
  | [] =>
      match gate_read cap committed others mine (RData []) with
      | (ev, _, true) => [ev]
      | _ => []
      end
  | ev :: src' =>
      let '(ev', mine', _) := gate_read cap committed others mine ev in
      ev' :: gate_reads cap committed others mine' src'
  end.

(** How many reads a consumer made that left [left_] of [g]. *)
Definition reads_made (g left_ : source) : nat := length g - length left_.

(** The gate's [mine] and [tripped] after [k] of those reads. *)
Fixpoint gate_after (cap committed others mine : Z) (tripped : bool) (src : source) (k : nat) :
    Z * bool :=
  match k with
  | O => (mine, tripped)
  | S k' =>
      let '(ev, src') := match src with [] => (RData [], []) | ev :: src' => (ev, src') end in
      let '(_, mine', t) := gate_read cap committed others mine ev in
      gate_after cap committed others mine' (tripped || t) src' k'
  end.

(** ** Operations *)

Section store.
Context {C T : Type} {Hs : Hashers} {B : CasBackend C} {R : ReclaimableCas C}
  {Rt : ContentRouter T}.
Implicit Type s : CasStore C T.

Definition seed_blob (now : Z) (st : StoreState) (blob : LocalBlob) : StoreState :=
  mkState (in_flight st) (seed_written (lb_digest blob) now (access st))
    (<[lb_digest blob := lb_size blob]> (accounted st)) (quarantined st) (fast_inflight st)
    (st_committed st + lb_size blob).

Definition seed_quarantined (st : StoreState) (q : QuarantinedBlob) : StoreState :=
  mkState (in_flight st) (access st) (accounted st)
    (<[q_id q := q_size q]> (quarantined st)) (fast_inflight st)
    (st_committed st + q_size q).

Definition new (c : C) (policy : RetentionPolicy) (router : T) (clock : MockClock)
    (me : PeerId) : result BackendError (CasStore C T) :=
  let now := clock_now clock in
  let '(r, c1) := iter_local c in
  blobs ← r;
  let st1 := foldl (seed_blob now) state_default blobs in
  let '(r', c2) := iter_quarantine c1 in
  qs ← r';
  let st2 := foldl seed_quarantined st1 qs in
  Ok (mkStore c2 policy router clock me st2 (st_committed st2) 0).

Definition account (d : Digest) (size : Z) s : CasStore C T :=
  if bool_decide (size = 0) then s
  else
    let st := state s in
    match accounted st !! d with
    | Some _ => s
    | None =>
        let st' := mkState (in_flight st) (access st) (<[d := size]> (accounted st))
          (quarantined st) (fast_inflight st) (st_committed st + size) in
        set_committed (st_committed st') (set_state st' s)
    end.

(** [FastWrite]: registration, and what its [Drop] does. *)
Definition fast_register (d : Digest) (m : gmap Digest Z) : gmap Digest Z :=
  <[d := default 0 (m !! d) + 1]> m.
Definition fast_release (d : Digest) (m : gmap Digest Z) : gmap Digest Z :=
  match m !! d with
  | None => m
  | Some n => if bool_decide (n - 1 = 0) then delete d m else <[d := n - 1]> m
  end.

(** Is the blob already charged, or held by the backend?  [has] is asked only if
    it is not charged. *)
Definition already_held (expected : Digest) s : bool * CasStore C T :=
  if bool_decide (is_Some (accounted (state s) !! expected)) then (true, s)
  else let '(r, s') := on_inner (cas_has expected) s in (unwrap_or r false, s').

Definition put_keyed_write_only (cap : Z) (expected : Digest) (src : source) s :
    result BackendError () * source * CasStore C T :=
  let '(held, s1) := already_held expected s in
  if held then
    let s2 := update_state (set_fast (fast_register expected)) s1 in
    let '(out, unread, c) := cas_put_keyed expected src (inner s2) in
    (out, unread, update_state (set_fast (fast_release expected)) (set_inner c s2))
  else
    let gated := gate_reads cap (committed s1) (pending s1) 0 src in
    let '(out, unread, c) := cas_put_keyed expected gated (inner s1) in
    let k := reads_made gated unread in
    let '(mine, tripped) := gate_after cap (committed s1) (pending s1) 0 false src k in
    let s2 := set_pending (pending s1 + mine) (set_inner c s1) in
    let drop_gate s' := set_pending (pending s' - mine) s' in
    if tripped then
      (Err (CapacityExceeded (committed s2) mine cap), drop k src, drop_gate s2)
    else
      match out with
      | Err e => (Err e, drop k src, drop_gate s2)
      | Ok () => (Ok (), drop k src, drop_gate (account expected mine s2))
      end.

Definition after_write (d : Digest) s : CasStore C T :=
  let s1 := update_state (fun st =>
    set_access (record_write d (clock_now (clock s))) (set_in_flight (fun f => f ∪ {[d]}) st)) s in
  best_effort (announce d) s1.

Definition release_guard (d : Digest) s : CasStore C T :=
  update_state (set_in_flight (fun f => f ∖ {[d]})) s.
(** [CasStore::committed] and [CasStore::abandon] *)
Definition commit (d : Digest) s : CasStore C T := release_guard d s.
Definition abandon (d : Digest) s : CasStore C T := release_guard d s.

Definition has (d : Digest) : M BackendError (CasStore C T) bool := on_inner (cas_has d).

Definition ensure_replicated (d : Digest) : M BackendError (CasStore C T) () :=
  on_inner (cas_ensure_replicated d).

Definition get (d : Digest) : M BackendError (CasStore C T) source := fun s =>
  match on_inner (cas_get d) s with
  | (Ok reader, s') => (Ok reader, update_state (set_access (touch d)) s')
  | (Err e, s') => (Err e, s')
  end.

Definition size (d : Digest) : M BackendError (CasStore C T) (option Z) :=
  on_inner (cas_size d).

Definition put_keyed (expected : Digest) (src : source) s :
    result BackendError () * source * CasStore C T :=
  let '(r, unread, s') :=
    match mode (policy s) with
    | WriteOnly p => put_keyed_write_only (capacity p) expected src s
    | Lru _ =>
        let '(r, unread, c) := cas_put_keyed expected src (inner s) in (r, unread, set_inner c s)
    end in
  match r with
  | Ok () => (Ok (), unread, after_write expected s')
  | Err e => (Err e, unread, s')
  end.

Definition put (src : source) s : result BackendError Digest * source * CasStore C T :=
  match mode (policy s) with
  | WriteOnly _ =>
      let '(r, unread) := read_to_end src in
      match r with
      | Err e => (Err (Internal (bs "read source: " ++ ie_display e)), unread, s)
      | Ok body =>
          let d := compute body in
          let '(r', _, s') := put_keyed d (cursor body) s in
          ((fun _ => d) <$> r', unread, s')
      end
  | Lru _ =>
      let '(r, unread, c) := cas_put src (inner s) in
      match r with
      | Ok d => (Ok d, unread, after_write d (set_inner c s))
      | Err e => (Err e, unread, set_inner c s)
      end
  end.

(** ** Scrubbing (scrub.rs) *)

Inductive Quarantine := Moved (q : QuarantinedBlob) | Absent | Deferred.

Definition local_blobs : M BackendError (CasStore C T) (list LocalBlob) := on_inner iter_local.

Definition list_quarantined : M BackendError (CasStore C T) (list QuarantinedBlob) :=
  on_inner iter_quarantine.

Definition committed_bytes s : Z := committed s.

Definition verify_local (d : Digest) : M BackendError (CasStore C T) bool :=
  on_inner (cas_verify d).

Definition quarantine (d : Digest) : M BackendError (CasStore C T) Quarantine := fun s =>
  if bool_decide (is_Some (fast_inflight (state s) !! d)) then (Ok Deferred, s)
  else
    match on_inner (cas_quarantine d) s with
    | (Err e, s1) => (Err e, s1)
    | (Ok None, s1) => (Ok Absent, s1)
    | (Ok (Some q), s1) =>
        let st := state s1 in
        let credit := default 0 (accounted st !! d) in
        let st' := mkState (in_flight st) (forget d (access st)) (delete d (accounted st))
          (<[q_id q := q_size q]> (quarantined st)) (fast_inflight st)
          (sat_sub64 (st_committed st) credit + q_size q) in
        let s2 := set_committed (st_committed st') (set_state st' s1) in
        (Ok (Moved q), best_effort (withdraw d) s2)
    end.

Definition admits (size : Z) s : bool :=
  match mode (policy s) with
  | Lru _ => true
  | WriteOnly p =>
      let used := committed s + pending s in
      bool_decide (sat_add64 used size <= capacity p)
  end.

Definition reclaim_corrupt (d : Digest) : M BackendError (CasStore C T) bool := fun s =>
  match on_inner (Cas.reclaim_if_corrupt d) s with
  | (Err e, s1) => (Err e, s1)
  | (Ok false, s1) => (Ok false, s1)
  | (Ok true, s1) =>
      let st := state s1 in
      let credit := default 0 (accounted st !! d) in
      let st' := mkState (in_flight st) (forget d (access st)) (delete d (accounted st))
        (quarantined st) (fast_inflight st) (sat_sub64 (st_committed st) credit) in
      let s2 := set_committed (st_committed st') (set_state st' s1) in
      (Ok true, best_effort (withdraw d) s2)
  end.

End store.

(** The first blob ever touched has the same recency as one never touched. *)
Lemma first_touch_ties d d' :
  d <> d' -> last_touch (touch d access_default) d = last_touch (touch d access_default) d'.
Proof.
  intros Hne. unfold last_touch, touch. simpl. by rewrite lookup_insert_eq, lookup_insert_ne.
Qed.
