(* ===== verification/Reach.v ===== *)
(** Live roots and reachability: crates/nessie-cas-store/src/roots.rs
    ([RootRegistry]), resolver.rs ([CanonicalResolver], [LeafResolver]) and reach.rs
    ([reachable_closure]).

    The worklist walk computes exactly the least set that contains the roots and is
    closed under the references of the blobs held locally, and it terminates: the
    fuel it needs is bounded by the roots plus the references held. *)

From Stdlib Require Import ZArith Lia.
From stdpp Require Import base list gmap sets.
From S2P Require Import Prelude Ordered Text Digest Errors Cursor Canonical Cas.

Local Open Scope Z_scope.

(** A [BTreeSet]'s elements in iteration order. *)
Definition bt_iter (s : gset Digest) : list Digest :=
  (bt_collect ((fun d => (d, ())) <$> elements s)).*1.

Lemma elem_of_bt_collect {K V} {Ck : Cmp K} {L : CmpLaws K} (l : list (K * V)) k :
  k ∈ (bt_collect l).*1 <-> k ∈ l.*1.
Proof.
  induction l as [|[k' v] l IH] using rev_ind; [done|].
  unfold bt_collect in *. rewrite foldl_app, fmap_app. cbn [foldl fst snd].
  rewrite bt_insert_keys, elem_of_app, IH. csimpl. set_solver.
Qed.

Lemma elem_of_bt_iter s d : d ∈ bt_iter s <-> d ∈ s.
Proof.
  unfold bt_iter. rewrite elem_of_bt_collect, <- list_fmap_compose, <- elem_of_elements.
  rewrite list_elem_of_fmap. naive_solver.
Qed.

(** ** [RootRegistry] *)

Record RootSet := mkRootSet { seed : gset Digest; pinned : gset Digest }.

Record RootRegistry := mkRefs { pins_set : gset Digest; tree : option Digest }.

Definition registry_new : RootRegistry := mkRefs ∅ None.
Definition register (root : Digest) (r : RootRegistry) : RootRegistry :=
  mkRefs (pins_set r ∪ {[root]}) (tree r).
Definition unregister (root : Digest) (r : RootRegistry) : RootRegistry :=
  mkRefs (pins_set r ∖ {[root]}) (tree r).
Definition pins (r : RootRegistry) : gset Digest := pins_set r.
Definition replace (pins : gset Digest) (tree : option Digest) (r : RootRegistry) :
    RootRegistry := mkRefs pins tree.
Definition roots (r : RootRegistry) : result BackendError RootSet :=
  let set := pins_set r ∪ option_to_set (tree r) in
  Ok (mkRootSet set set).

(** ** Resolvers: a blob's out-edges *)

Definition resolver : Type := Digest -> list byte -> list Digest.

Definition canonical_resolver : resolver := fun _ bytes =>
  match ActionResult.from_canonical_bytes bytes with
  | Ok r => ActionResult.references r
  | Err _ =>
      match Tree.from_canonical_bytes bytes with
      | Ok t => Tree.references t
      | Err _ => []
      end
  end.

Definition leaf_resolver : resolver := fun _ _ => [].

(** ** The closure *)

Section closure.
Context {C : Type} {Hs : Hashers} {B : CasBackend C} {Rc : ReclaimableCas C}
  {V : CasModel C}.
Context (references_of : resolver).

(** The stack's top is the head of the list.  [None] is running out of fuel. *)
Fixpoint closure_loop (fuel : nat) (visited : gset Digest) (stack : list Digest) (c : C) :
    option (result BackendError (gset Digest)) * C :=
  match fuel with
  | O => (None, c)
  | S fuel =>
      match stack with
      | [] => (Some (Ok visited), c)
      | digest :: stack =>
          if bool_decide (digest ∈ visited) then closure_loop fuel visited stack c
          else
            let visited := visited ∪ {[digest]} in
            match cas_get digest c with
            | (Ok reader, c) =>
                match (read_to_end reader).1 with
                | Err e => (Some (Err (Internal (bs "reachability read of " ++
                    to_string digest ++ bs ": " ++ ie_display e))), c)
                | Ok bytes =>
                    let stack := foldl (fun st child =>
                      if bool_decide (child ∈ visited) then st else child :: st)
                      stack (references_of digest bytes) in
                    closure_loop fuel visited stack c
                end
            | (Err (BlobNotFound _), c) => closure_loop fuel visited stack c
            | (Err e, c) => (Some (Err e), c)
            end
      end
  end.

Definition reachable_closure (fuel : nat) (seed : gset Digest) (c : C) :
    option (result BackendError (gset Digest)) * C :=
  closure_loop fuel ∅ (rev (bt_iter seed)) c.

(** The references of a locally held blob. *)
Definition edges (m : gmap Digest (list byte)) (d : Digest) : list Digest :=
  match m !! d with Some data => references_of d data | None => [] end.

(** The specification: the least set with the seed, closed under [edges]. *)
Inductive Reach (m : gmap Digest (list byte)) (sd : gset Digest) : Digest -> Prop :=
| reach_seed d : d ∈ sd -> Reach m sd d
| reach_edge d d' : Reach m sd d -> d' ∈ edges m d -> Reach m sd d'.

Definition edge_count (m : gmap Digest (list byte)) : gmap Digest Z :=
  map_imap (fun d data => Some (zlen (references_of d data))) m.

(** Edges not walked yet. *)
Definition todo (m : gmap Digest (list byte)) (visited : gset Digest) : Z :=
  msum (filter (fun kv => kv.1 ∉ visited) (edge_count m)).

(** The fuel that always suffices: one step per root and per reference held. *)
Definition closure_fuel (m : gmap Digest (list byte)) (sd : gset Digest) : nat :=
  S (size sd + Z.to_nat (msum (edge_count m))).

Lemma push_children (l : list Digest) (visited : gset Digest) (st : list Digest) :
  exists pre, foldl (fun st child =>
      if bool_decide (child ∈ visited) then st else child :: st) st l = pre ++ st /\
    (length pre <= length l)%nat /\ (forall c, c ∈ pre -> c ∈ l) /\
    forall c, c ∈ l -> c ∈ visited \/ c ∈ pre.
Proof.
  revert st. induction l as [|x l IH]; intros st; simpl.
  - exists []. split_and!; [done|simpl; lia|set_solver|set_solver].
  - case_bool_decide as Hx.
    + destruct (IH st) as (pre & -> & Hlen & H1 & H2). exists pre.
      split_and!; [done|lia|set_solver|]. intros c [->|Hc]%elem_of_cons; [by left|auto].
    + destruct (IH (x :: st)) as (pre & -> & Hlen & H1 & H2). exists (pre ++ [x]).
      split_and!.
      * by rewrite <- app_assoc.
      * rewrite length_app. simpl. lia.
      * intros c [Hc|Hc]%elem_of_app; set_solver.
      * intros c [->|Hc]%elem_of_cons; [right; set_solver|].
        destruct (H2 c Hc); [by left|right; set_solver].
Qed.

Lemma todo_visit m visited d :
  d ∉ visited -> todo m visited = zlen (edges m d) + todo m (visited ∪ {[d]}).
Proof.
  intros Hd. unfold todo.
  set (f := filter (fun kv : Digest * Z => kv.1 ∉ visited) (edge_count m)).
  rewrite (msum_delete f d).
  assert (Hf : f !! d = (fun data => zlen (references_of d data)) <$> m !! d).
  { unfold f, edge_count. destruct (m !! d) as [data|] eqn:E; simpl.
    - apply map_lookup_filter_Some. split; [|done]. by rewrite map_lookup_imap, E.
    - apply map_lookup_filter_None. left. by rewrite map_lookup_imap, E. }
  f_equal.
  - rewrite Hf. unfold edges. by destruct (m !! d).
  - f_equal. apply map_eq. intros k. unfold f.
    destruct (decide (k = d)) as [->|Hk].
    + rewrite lookup_delete_eq. symmetry. apply map_lookup_filter_None. right.
      intros x _. simpl. set_solver.
    + rewrite lookup_delete_ne by done. apply option_eq. intros x.
      rewrite !map_lookup_filter_Some. simpl. set_solver.
Qed.

Lemma edge_count_nonneg m (visited : gset Digest) :
  map_Forall (fun _ z => 0 <= z) (filter (fun kv => kv.1 ∉ visited) (edge_count m)).
Proof.
  intros k z [Hz _]%map_lookup_filter_Some. unfold edge_count in Hz.
  rewrite map_lookup_imap in Hz. destruct (m !! k); simplify_eq/=. apply zlen_nonneg.
Qed.

Lemma todo_nonneg m visited : 0 <= todo m visited.
Proof. apply msum_nonneg, edge_count_nonneg. Qed.

Context {L : CasLaws C}.

(** Enough fuel always finishes. *)
Lemma closure_loop_terminates fuel visited stack c :
  cas_valid c -> zlen stack + todo (held c) visited < Z.of_nat fuel ->
  (closure_loop fuel visited stack c).1 <> None.
Proof.
  revert visited stack c. induction fuel as [|fuel IH]; intros visited stack c Hc Hf.
  - pose proof (todo_nonneg (held c) visited). pose proof (zlen_nonneg stack). lia.
  - destruct stack as [|d stack]; [done|]. rewrite zlen_cons in Hf. cbn [closure_loop].
    case_bool_decide as Hd; [apply IH; [done|lia]|].
    rewrite (todo_visit _ _ d Hd) in Hf.
    destruct (law_get d c Hc) as [Hspec Hv]. unfold get_spec in Hspec.
    destruct (cas_get d c) as [[reader|e] c'] eqn:E; simpl in Hv.
    + destruct Hspec as [[Hh _] (data & Hdata & _ & ->)]. cbn [fst].
      unfold edges in Hf. rewrite Hdata in Hf.
      destruct (push_children (references_of d data) (visited ∪ {[d]}) stack)
        as (pre & -> & Hlen & _). apply IH; [done|].
      rewrite Hh, zlen_app. unfold zlen in *. lia.
    + destruct Hspec as [[Hh _] He].
      pose proof (zlen_nonneg (edges (held c) d)).
      destruct e; try done. apply IH; [done|]. rewrite Hh. lia.
Qed.

(** The invariant of the walk: what is visited is reachable and its references are
    visited or on the stack; so is the seed. *)
Definition walk_inv (m : gmap Digest (list byte)) (sd : gset Digest)
    (visited : gset Digest) (stack : list Digest) : Prop :=
  (forall d, d ∈ visited \/ d ∈ stack -> Reach m sd d) /\
  (forall d, d ∈ sd -> d ∈ visited \/ d ∈ stack) /\
  (forall d d', d ∈ visited -> d' ∈ edges m d -> d' ∈ visited \/ d' ∈ stack).

Lemma walk_inv_done m sd visited :
  walk_inv m sd visited [] -> forall d, d ∈ visited <-> Reach m sd d.
Proof.
  intros (H1 & H2 & H3) d. split; [auto|].
  induction 1 as [d Hd|d d' _ IH Hd'].
  - destruct (H2 d Hd); set_solver.
  - destruct (H3 d d' IH Hd'); set_solver.
Qed.

Lemma closure_loop_correct fuel sd visited stack c r c' :
  cas_valid c -> walk_inv (held c) sd visited stack ->
  closure_loop fuel visited stack c = (Some (Ok r), c') ->
  same_content c c' /\ forall d, d ∈ r <-> Reach (held c) sd d.
Proof.
  revert visited stack c. induction fuel as [|fuel IH]; intros visited stack c Hc Hinv E;
    [done|].
  destruct stack as [|d stack].
  - simplify_eq/=. split; [done|by apply walk_inv_done].
  - cbn [closure_loop] in E. destruct Hinv as (H1 & H2 & H3).
    case_bool_decide as Hd.
    { apply (IH visited stack c Hc); [|done]. split_and!.
      - intros x Hx. apply H1. set_solver.
      - intros x Hx. destruct (H2 x Hx); set_solver.
      - intros x y Hx Hy. destruct (H3 x y Hx Hy); set_solver. }
    destruct (law_get d c Hc) as [Hspec Hv]. unfold get_spec in Hspec.
    destruct (cas_get d c) as [[reader|e] c1] eqn:Eg; simpl in Hv.
    + destruct Hspec as [[Hh Hq] (data & Hdata & _ & Hread)]. rewrite Hread in E.
      cbn [fst] in E.
      destruct (push_children (references_of d data) (visited ∪ {[d]}) stack)
        as (pre & Hpush & _ & Hp1 & Hp2). rewrite Hpush in E.
      apply IH in E; [|done|].
      * destruct E as [[Hh' Hq'] Hr]. rewrite Hh in *. rewrite Hq in *. done.
      * rewrite Hh. assert (Hed : edges (held c) d = references_of d data)
          by (unfold edges; by rewrite Hdata).
        assert (Hrd : Reach (held c) sd d) by (apply H1; right; by left).
        split_and!.
        -- intros x Hx. destruct (decide (x ∈ pre)) as [Hp|Hp].
           ++ apply (reach_edge _ _ d); [done|]. rewrite Hed. auto.
           ++ apply H1. set_solver.
        -- intros x Hx. destruct (H2 x Hx); set_solver.
        -- intros x y Hx Hy. apply elem_of_union in Hx as [Hx|Hx%elem_of_singleton].
           ++ destruct (H3 x y Hx Hy); set_solver.
           ++ subst x. rewrite Hed in Hy. destruct (Hp2 y Hy); set_solver.
    + destruct e; try done. destruct Hspec as [[Hh Hq] [-> Hnone]].
      apply IH in E; [|done|].
      * destruct E as [[Hh' Hq'] Hr]. rewrite Hh in *. rewrite Hq in *. done.
      * rewrite Hh. split_and!.
        -- intros x Hx. apply H1. set_solver.
        -- intros x Hx. destruct (H2 x Hx); set_solver.
        -- intros x y Hx Hy. apply elem_of_union in Hx as [Hx|Hx%elem_of_singleton].
           ++ destruct (H3 x y Hx Hy); set_solver.
           ++ subst x. unfold edges in Hy. rewrite Hnone in Hy. set_solver.
Qed.

Lemma walk_inv_init m sd : walk_inv m sd ∅ (rev (bt_iter sd)).
Proof.
  assert (He : forall d, d ∈ rev (bt_iter sd) <-> d ∈ sd)
    by (intros d; rewrite <- elem_of_bt_iter, !list_elem_of_In; symmetry; apply in_rev).
  split_and!; [|set_solver|set_solver].
  intros d [Hd|Hd]; [set_solver|]. apply reach_seed. by apply He.
Qed.

Lemma bt_insert_length {K W} {Ck : Cmp K} (k : K) (v : W) m :
  (length (bt_insert k v m) <= S (length m))%nat.
Proof.
  induction m as [|[k' v'] m IH]; simpl; [lia|]. destruct (kcmp k k'); simpl; lia.
Qed.

Lemma length_bt_iter sd : (length (bt_iter sd) <= size sd)%nat.
Proof.
  unfold bt_iter. rewrite length_fmap. unfold size, set_size, bt_collect. simpl.
  induction (elements sd) as [|d l IH] using rev_ind; [done|].
  rewrite fmap_app, foldl_app, length_app. csimpl.
  etrans; [apply bt_insert_length|]. lia.
Qed.

(** C15. Reachability terminates and is exact.  With as much fuel as there are roots
    and held references the walk returns; when it succeeds, its result is exactly
    the least set containing the roots and closed under the references of locally
    held blobs (a missing blob is marked and not expanded), and the store's content
    is untouched. *)
Theorem reachable_closure_exact (c : C) (sd : gset Digest) (fuel : nat) :
  cas_valid c -> (closure_fuel (held c) sd <= fuel)%nat ->
  exists r c', reachable_closure fuel sd c = (Some r, c') /\
    forall v, r = Ok v -> same_content c c' /\ forall d, d ∈ v <-> Reach (held c) sd d.
Proof.
  intros Hc Hfuel. unfold reachable_closure.
  destruct (closure_loop fuel ∅ (rev (bt_iter sd)) c) as [[r|] c'] eqn:E.
  - exists r, c'. split; [done|]. intros v ->.
    eapply closure_loop_correct; [done|apply walk_inv_init|exact E].
  - exfalso. apply (closure_loop_terminates fuel ∅ (rev (bt_iter sd)) c Hc); [|by rewrite E].
    assert (Ht : todo (held c) ∅ = msum (edge_count (held c))).
    { unfold todo. f_equal. apply map_filter_id. set_solver. }
    rewrite Ht. pose proof (length_bt_iter sd) as Hlen.
    assert (0 <= msum (edge_count (held c))) by (rewrite <- Ht; apply todo_nonneg).
    unfold closure_fuel in Hfuel. unfold zlen. rewrite length_rev. lia.
Qed.

End closure.

(** The resolver that the walk uses knows both structured types: the encoding of
    a well-formed [ActionResult] or [Tree] resolves to exactly that value's
    references, and bytes that decode as neither are a leaf; no byte string decodes
    as both, so the order of the attempts does not matter. *)
Theorem canonical_resolver_exact (d : Digest) (b : list byte) :
  zlen b <= isize_max ->
  (forall ar, ActionResult.wf ar -> ActionResult.to_canonical_bytes ar = b ->
    canonical_resolver d b = ActionResult.references ar) /\
  (forall tr, Tree.wf tr -> Tree.to_canonical_bytes tr = b ->
    canonical_resolver d b = Tree.references tr) /\
  (canonical_resolver d b <> [] ->
    (exists ar, ActionResult.wf ar /\ ActionResult.to_canonical_bytes ar = b) \/
    (exists tr, Tree.wf tr /\ Tree.to_canonical_bytes tr = b)) /\
  forall ar tr, ActionResult.from_canonical_bytes b = Ok ar ->
    Tree.from_canonical_bytes b <> Ok tr.
Proof.
  intros Hb. split_and!.
  - intros ar Hwf <-. unfold canonical_resolver.
    by rewrite ActionResult.ar_from_to_canonical.
  - intros tr Hwf <-. unfold canonical_resolver.
    pose proof (Tree.tree_from_to_canonical tr Hwf Hb) as Ht. rewrite Ht.
    destruct (ActionResult.from_canonical_bytes _) as [ar|] eqn:Ea; [|done].
    by destruct (decode_disjoint _ _ tr Hb Ea).
  - unfold canonical_resolver.
    destruct (ActionResult.from_canonical_bytes b) as [ar|] eqn:Ea.
    + intros _. left. exists ar. by apply ActionResult.ar_from_canonical_Ok.
    + destruct (Tree.from_canonical_bytes b) as [tr|] eqn:Et; [|done].
      intros _. right. exists tr. by apply Tree.tree_from_canonical_Ok.
  - intros ar tr. by apply decode_disjoint.
Qed.

(** ** Witnesses *)

Module ReachExample.
Import Checksum.

Definition leaf : list byte := bs "leaf".
Definition dir : Tree.t := Tree.mk [(bs "a", Tree.mkTreeEntry (compute leaf) Tree.Dir)].
Definition dir_bytes : list byte := Tree.to_canonical_bytes dir.
Definition store : Mem.MemCas :=
  Mem.mkMemCas (<[compute leaf := leaf]> (<[compute dir_bytes := dir_bytes]>
    (<[compute (bs "orphan") := bs "orphan"]> ∅))).

Example closure_run :
  (reachable_closure canonical_resolver 5 {[compute dir_bytes]} store).1 =
  Some (Ok {[compute dir_bytes; compute leaf]}).
Proof. apply (bool_decide_unpack _). vm_compute. exact I. Qed.

Theorem reachable_closure_exact_witness :
  exists r c', reachable_closure canonical_resolver 5 {[compute dir_bytes]} store = (Some r, c') /\
    forall v, r = Ok v -> same_content store c' /\ forall d, d ∈ v <->
      Reach canonical_resolver (held store) {[compute dir_bytes]} d.
Proof.
  apply (reachable_closure_exact canonical_resolver store {[compute dir_bytes]} 5).
  - change (map_Forall (fun d b => verify d b = true) (Mem.blobs store)).
    apply (bool_decide_unpack _). vm_compute. exact I.
  - apply (bool_decide_unpack _). vm_compute. exact I.
Defined.

Theorem canonical_resolver_exact_witness :
  canonical_resolver (compute dir_bytes) dir_bytes = [compute leaf].
Proof.
  assert (Hb : zlen dir_bytes <= isize_max) by (vm_compute; done).
  destruct (canonical_resolver_exact (compute dir_bytes) dir_bytes Hb) as (_ & H & _).
  rewrite (H dir); [reflexivity| |reflexivity].
  apply (bool_decide_unpack _). vm_compute. exact I.
Defined.
End ReachExample.
