(* ===== verification/Evict.v ===== *)
(** LRU eviction: crates/nessie-cas-store/src/evict.rs.

    [evict_to_budget] is modelled with everything it asks: the roots it is given,
    the router, the oracle and the replicator.  [evicted_prefix] is its
    specification: candidates are ordered replicated-before-sole, coldest first
    within each class, and the pass removes the shortest prefix that brings the
    store within budget. *)

From Stdlib Require Import ZArith Lia.
From stdpp Require Import base list gmap sets sorting.
From S2P Require Import Prelude Ordered Sort Text Digest Errors Cas Store Reach.

Local Open Scope Z_scope.

(** ** A stable sort: [slice::sort_by_key] *)

Section sort.
Context {A : Type} (key : A -> Z).

Definition sort_by_key (l : list A) : list A := sort_on key l.

Definition key_le (x y : A) : Prop := key x <= key y.

Lemma sort_by_key_perm l : sort_by_key l ≡ₚ l.
Proof. apply sort_on_perm. Qed.

Lemma sort_by_key_sorted l : StronglySorted key_le (sort_by_key l).
Proof.
  generalize (sort_on_sorted key l). unfold sort_by_key. induction 1 as [|x k _ IH Hall]; constructor; [done|].
  eapply Forall_impl; [exact Hall|]. intros y. unfold Sort.key_le, key_le. rewrite klt_Z. lia.
Qed.
End sort.

(** ** The pass *)

Record EvictReport := mkReport {
  scanned : Z;
  evicted : Z;
  evicted_sole : Z;
  bytes_evicted : Z;
  still_over_budget : bool;
}.

Definition report_default : EvictReport := mkReport 0 0 0 0 false.

(** [DurabilityOracle::durably_held] *)
Definition oracle : Type := Digest -> result BackendError bool.
Definition no_durable_oracle : oracle := fun _ => Ok false.

(** [Replicator::replicate] to one other holder: its outcome is ignored, so what a
    run keeps of it is the list of digests it was asked to push ([pushed]). *)

Record Progress := mkProgress { used : Z; report : EvictReport; pushed : list Digest }.

Section evict.
Context {C T : Type} {Hs : Hashers} {B : CasBackend C} {R : ReclaimableCas C}
  {Rt : ContentRouter T}.
Implicit Type s : CasStore C T.

Definition has_other_holder (orc : oracle) (d : Digest) s : bool * CasStore C T :=
  let '(r, t) := providers d (router s) in
  let others :=
    match r with
    | Ok h => length (filter (fun p => p <> me s) h)
    | Err _ => 0%nat
    end in
  (bool_decide (1 <= others)%nat || unwrap_or (orc d) false, set_router t s).

(** [Iterator::partition], asking for each blob in turn. *)
Fixpoint partition_holders (orc : oracle) (l : list LocalBlob) s :
    list LocalBlob * list LocalBlob * CasStore C T :=
  match l with
  | [] => ([], [], s)
  | b :: l' =>
      let '(x, s1) := has_other_holder orc (lb_digest b) s in
      let '(replicated, sole, s2) := partition_holders orc l' s1 in
      if x then (b :: replicated, sole, s2) else (replicated, b :: sole, s2)
  end.

Definition count_push (is_sole : bool) (d : Digest) (p : Progress) : Progress :=
  mkProgress (used p) (report p) (pushed p ++ (if is_sole then [d] else [])).

Definition count_evicted (is_sole : bool) (size : Z) (p : Progress) : Progress :=
  let r := report p in
  mkProgress (used p - size)
    (mkReport (scanned r) (evicted r + 1) (evicted_sole r + (if is_sole then 1 else 0))
       (bytes_evicted r + size) (still_over_budget r)) (pushed p).

Fixpoint evict_pass (budget : Z) (is_sole : bool) (blobs : list LocalBlob) (p : Progress) :
    M BackendError (CasStore C T) Progress := fun s =>
  match blobs with
  | [] => (Ok p, s)
  | b :: blobs' =>
      if bool_decide (used p <= budget) then (Ok p, s)
      else
        let p := count_push is_sole (lb_digest b) p in
        match on_inner (reclaim (lb_digest b)) s with
        | (Err e, s1) => (Err e, s1)
        | (Ok true, s1) =>
            let s2 := update_state (set_access (forget (lb_digest b))) s1 in
            let s3 := best_effort (withdraw (lb_digest b)) s2 in
            evict_pass budget is_sole blobs' (count_evicted is_sole (lb_size b) p) s3
        | (Ok false, s1) => evict_pass budget is_sole blobs' p s1
        end
  end.

(** Past the grace window: written long enough ago, or at an unknown time. *)
Definition past_grace (written : gmap Digest Z) (now grace : Z) (d : Digest) : bool :=
  match written !! d with
  | None => true
  | Some w => bool_decide (grace <= Z.max (now - w) 0)
  end.

(** Not pinned, not in flight, past grace. *)
Definition candidate (pinned guarded : gset Digest) (written : gmap Digest Z) (now grace : Z)
    (d : Digest) : bool :=
  negb (bool_decide (d ∈ pinned)) && negb (bool_decide (d ∈ guarded)) &&
  past_grace written now grace d.

(** The pass also returns what it asked the replicator to push. *)
Definition evict_to_budget (roots : result BackendError RootSet) (orc : oracle) :
    M BackendError (CasStore C T) (EvictReport * list Digest) := fun s =>
  match mode (policy s) with
  | WriteOnly _ => (Err (FeatureNotSupported (bs "cache-eviction")), s)
  | Lru p =>
      match roots with
      | Err e => (Err e, s)
      | Ok rs =>
          match on_inner iter_local s with
          | (Err e, s1) => (Err e, s1)
          | (Ok local, s1) =>
              let total := zsum (lb_size <$> local) in
              if bool_decide (total <= byte_budget p) then (Ok (report_default, []), s1)
              else
                let now := clock_now (clock s1) in
                let guarded := in_flight (state s1) in
                let written := written_snapshot (access (state s1)) in
                let candidates := filter (fun b =>
                  candidate (pinned rs) guarded written now (gc_grace p) (lb_digest b) = true)
                  local in
                let report0 := mkReport (zlen candidates) 0 0 0 false in
                let candidates :=
                  sort_by_key (fun b => last_touch (access (state s1)) (lb_digest b))
                    candidates in
                let '(replicated, sole, s2) := partition_holders orc candidates s1 in
                (p1 ← evict_pass (byte_budget p) false replicated (mkProgress total report0 []);
                 p2 ← evict_pass (byte_budget p) true sole p1;
                 mret (let r := report p2 in
                   (mkReport (scanned r) (evicted r) (evicted_sole r) (bytes_evicted r)
                      (bool_decide (byte_budget p < used p2)), pushed p2))) s2
          end
      end
  end.

(** ** What a pass does to the store *)

(** Everything but the content, the recency log and the routing table. *)
Definition same_books s s' : Prop :=
  policy s' = policy s /\ clock s' = clock s /\ me s' = me s /\
  in_flight (state s') = in_flight (state s) /\
  accounted (state s') = accounted (state s) /\
  quarantined (state s') = quarantined (state s) /\
  fast_inflight (state s') = fast_inflight (state s) /\
  st_committed (state s') = st_committed (state s) /\
  committed s' = committed s /\ pending s' = pending s.

Lemma same_books_refl s : same_books s s.
Proof. by repeat split. Qed.

Lemma same_books_trans s1 s2 s3 : same_books s1 s2 -> same_books s2 s3 -> same_books s1 s3.
Proof. unfold same_books. intuition congruence. Qed.

Context {V : CasModel C}.

Definition total (m : gmap Digest (list byte)) : Z := msum (zlen <$> m).

Definition del_all (m : gmap Digest (list byte)) (ds : list Digest) : gmap Digest (list byte) :=
  foldl (fun m d => delete d m) m ds.

(** The content after an eviction of the first [n] of [ds]. *)
Definition evicts s (ds : list Digest) (n : nat) s' : Prop :=
  (n <= length ds)%nat /\ cas_valid (inner s') /\
  held (inner s') = del_all (held (inner s)) (take n ds) /\
  quarantined_at (inner s') = quarantined_at (inner s) /\ same_books s s'.

Lemma del_all_lookup m ds d :
  del_all m ds !! d = if bool_decide (d ∈ ds) then None else m !! d.
Proof.
  revert m. induction ds as [|x ds IH]; intros m; cbn [del_all foldl].
  - by rewrite bool_decide_false by set_solver.
  - change (foldl (fun m d => delete d m) (delete x m) ds) with (del_all (delete x m) ds).
    rewrite IH. destruct (decide (d = x)) as [->|Hne].
    + rewrite lookup_delete_eq. rewrite (bool_decide_true (x ∈ x :: ds)) by set_solver.
      by case_bool_decide.
    + rewrite lookup_delete_ne by done. repeat case_bool_decide; set_solver.
Qed.

Lemma total_delete m d data : m !! d = Some data -> total (delete d m) = total m - zlen data.
Proof.
  intros E. unfold total. rewrite (msum_delete (zlen <$> m) d).
  rewrite lookup_fmap, E. simpl. rewrite fmap_delete. lia.
Qed.

Lemma total_held (m : gmap Digest (list byte)) :
  total m = zsum (lb_size <$> ((fun kv => mkLocalBlob kv.1 (zlen kv.2)) <$> map_to_list m)).
Proof.
  unfold total, msum. rewrite map_to_list_fmap, <- !list_fmap_compose. reflexivity.
Qed.

(** [blobs] lists distinct blobs of [m] at their sizes. *)
Definition listed (m : gmap Digest (list byte)) (blobs : list LocalBlob) : Prop :=
  NoDup (lb_digest <$> blobs) /\
  Forall (fun b => zlen <$> m !! lb_digest b = Some (lb_size b)) blobs.

Lemma listed_delete m b blobs :
  listed m (b :: blobs) -> listed (delete (lb_digest b) m) blobs.
Proof.
  intros [Hnd Hall]. csimpl in Hnd. apply NoDup_cons in Hnd as [Hn Hnd].
  split; [done|]. apply Forall_cons in Hall as [_ Hall].
  rewrite Forall_forall in Hall |- *. intros b' Hb'.
  rewrite lookup_delete_ne; [by apply Hall|].
  intros E. apply Hn. rewrite E. by apply list_elem_of_fmap_2.
Qed.

Lemma total_take m blobs n :
  listed m blobs ->
  total (del_all m (take n (lb_digest <$> blobs))) = total m - zsum (take n (lb_size <$> blobs)).
Proof.
  revert m n. induction blobs as [|b blobs IH]; intros m [|n] Hl; csimpl;
    try (unfold zsum; simpl; lia).
  pose proof (listed_delete m b blobs Hl) as Hl'.
  change (del_all m (lb_digest b :: ?ds)) with (del_all (delete (lb_digest b) m) ds).
  etrans; [exact (IH _ n Hl')|]. destruct Hl as [_ Hall].
  apply Forall_cons in Hall as [Hb _].
  destruct (m !! lb_digest b) as [data|] eqn:E; simplify_eq/=.
  rewrite (total_delete m _ data E), Hb. unfold zsum. simpl. lia.
Qed.

Definition sizes (blobs : list LocalBlob) : list Z := lb_size <$> blobs.
Definition digests (blobs : list LocalBlob) : list Digest := lb_digest <$> blobs.

(** The running totals after the first [n] blobs went. *)
Definition advances (is_sole : bool) (blobs : list LocalBlob) (n : nat) (p p' : Progress) : Prop :=
  used p' = used p - zsum (take n (sizes blobs)) /\
  scanned (report p') = scanned (report p) /\
  evicted (report p') = evicted (report p) + Z.of_nat n /\
  evicted_sole (report p') =
    evicted_sole (report p) + (if is_sole then Z.of_nat n else 0) /\
  bytes_evicted (report p') = bytes_evicted (report p) + zsum (take n (sizes blobs)) /\
  pushed p' = pushed p ++ (if is_sole then take n (digests blobs) else []).

Definition above (budget : Z) (blobs : list LocalBlob) (n : nat) (start : Z) : Prop :=
  forall m, (m < n)%nat -> budget < start - zsum (take m (sizes blobs)).

Context {L : CasLaws C}.

Lemma reclaim_step b blobs s r c :
  cas_valid (inner s) -> listed (held (inner s)) (b :: blobs) ->
  reclaim (lb_digest b) (inner s) = (r, c) ->
  cas_valid c /\ quarantined_at c = quarantined_at (inner s) /\
  match r with
  | Ok x => x = true /\ held c = delete (lb_digest b) (held (inner s))
  | Err _ => held c = held (inner s)
  end.
Proof.
  intros Hv [_ Hl] E. apply Forall_cons in Hl as [Hb _].
  destruct (law_reclaim (lb_digest b) (inner s) Hv) as [Hspec Hv']. unfold reclaim_spec in Hspec.
  rewrite E in Hspec, Hv'. simpl in Hv'. split; [done|].
  destruct r as [x|e]; [|by destruct Hspec as [Hh Hq]].
  destruct Hspec as [-> [Hq Hh]]. split; [done|].
  destruct (held (inner s) !! lb_digest b) as [data|] eqn:Ed; [|by simplify_eq/=].
  rewrite bool_decide_true in Hh |- * by eauto. done.
Qed.

Lemma evicts_refl s ds : cas_valid (inner s) -> evicts s ds 0 s.
Proof. intros Hv. split; [lia|]. repeat split; done. Qed.

Lemma evict_pass_spec budget is_sole blobs p s r s' :
  cas_valid (inner s) -> listed (held (inner s)) blobs ->
  evict_pass budget is_sole blobs p s = (r, s') ->
  exists n, evicts s (digests blobs) n s' /\ above budget blobs n (used p) /\
    match r with
    | Ok p' => advances is_sole blobs n p p' /\ (n = length blobs \/ used p' <= budget)
    | Err _ => True
    end.
Proof.
  revert p s. induction blobs as [|b blobs IH]; intros p s Hv Hl E; cbn [evict_pass] in E.
  - simplify_eq. exists 0%nat. split_and!; [by apply evicts_refl|intros m ?; lia| |by left].
    unfold advances. simpl. destruct is_sole; rewrite app_nil_r; unfold zsum; simpl; split_and!; lia || done.
  - case_bool_decide as Hu.
    { simplify_eq. exists 0%nat. split_and!; [by apply evicts_refl|intros m ?; lia| |by right].
      unfold advances. simpl. destruct is_sole; rewrite app_nil_r; unfold zsum; simpl; split_and!; lia || done. }
    unfold on_inner in E. destruct (reclaim (lb_digest b) (inner s)) as [rr c] eqn:Er.
    destruct (reclaim_step b blobs s rr c Hv Hl Er) as (Hvc & Hq & Hr).
    destruct rr as [x|e].
    2:{ simplify_eq. exists 0%nat. split_and!; [|intros m ?; lia|done].
        split; [lia|]. by split_and!. }
    destruct Hr as [-> Hh]. set (s3 := best_effort _ _) in E.
    assert (Hin : inner s3 = c) by done.
    assert (Hl3 : listed (held (inner s3)) blobs)
      by (rewrite Hin, Hh; by apply listed_delete).
    destruct (IH _ s3 ltac:(by rewrite Hin) Hl3 E) as (n & (Hn & Hv' & Hh' & Hq' & Hbk) & Hab & Hres).
    unfold above, advances.
    change (sizes (b :: blobs)) with (lb_size b :: sizes blobs).
    change (digests (b :: blobs)) with (lb_digest b :: digests blobs).
    exists (S n). split; [|split].
    + split; [simpl; lia|]. split_and!; [done| |by rewrite Hq', Hin|].
      * rewrite Hh', Hin, Hh. done.
      * eapply same_books_trans; [|exact Hbk]. by repeat split.
    + intros [|m] Hm; [unfold zsum; simpl; lia|]. specialize (Hab m ltac:(lia)).
      cbn in Hab |- *. unfold zsum in *. simpl. lia.
    + destruct r as [p'|]; [|done]. destruct Hres as [(H1 & H2 & H3 & H4 & H5 & H6) Hstop].
      split; [|destruct Hstop as [->|]; [by left|by right]].
      cbn in H1, H2, H3, H4, H5, H6 |- *. unfold zsum in *. simpl.
      destruct is_sole; split_and!; try lia; try done.
      all: by rewrite H6, <- app_assoc.
Qed.

(** Asking the router changes nothing else, and splits the candidates in order. *)
Lemma partition_holders_spec orc l s rep sole s' :
  partition_holders orc l s = (rep, sole, s') ->
  rep `sublist_of` l /\ sole `sublist_of` l /\ rep ++ sole ≡ₚ l /\
  inner s' = inner s /\ state s' = state s /\ same_books s s'.
Proof.
  revert s rep sole s'. induction l as [|b l IH]; intros s rep sole s'; cbn [partition_holders].
  - intros [= <- <- <-]. by repeat split.
  - destruct (has_other_holder _ _ s) as [x s1] eqn:E1.
    assert (H1 : inner s1 = inner s /\ state s1 = state s /\ same_books s s1).
    { unfold has_other_holder in E1. destruct (providers _ _) as [? t].
      simplify_eq. by repeat split. }
    destruct H1 as (Hi & Hst & Hb).
    destruct (partition_holders orc l s1) as [[rep1 sole1] s2] eqn:E2.
    apply IH in E2 as (Hr & Hso & Hp & Hi2 & Hst2 & Hb2).
    assert (same_books s s2) by (by eapply same_books_trans).
    destruct x; intros [= <- <- <-].
    + split_and!; try congruence; [by constructor|by constructor|].
      simpl. by rewrite Hp.
    + split_and!; try congruence; [by constructor|by constructor|].
      rewrite <- Hp. by rewrite Permutation_middle.
Qed.

Lemma take_seq {A} (l1 l2 : list A) (n1 n2 : nat) :
  (n1 <= length l1)%nat -> n1 = length l1 \/ n2 = 0%nat ->
  take (n1 + n2) (l1 ++ l2) = take n1 l1 ++ take n2 l2.
Proof.
  intros Hle [->| ->].
  - by rewrite take_app_add, firstn_all.
  - rewrite Nat.add_0_r, take_app_le by done. by rewrite app_nil_r.
Qed.

Lemma listed_rest m l1 l2 n :
  listed m (l1 ++ l2) -> listed (del_all m (take n (digests l1))) l2.
Proof.
  intros [Hnd Hall]. rewrite fmap_app in Hnd. apply NoDup_app in Hnd as (_ & Hdis & Hnd).
  split; [done|]. apply Forall_app in Hall as [_ Hall].
  rewrite Forall_forall in Hall |- *. intros b Hb. rewrite del_all_lookup.
  rewrite bool_decide_false; [by apply Hall|].
  intros Hin. apply (Hdis (lb_digest b)); [|by apply list_elem_of_fmap_2].
  unfold digests in Hin. apply elem_of_take in Hin as (i & Hi & _).
  by apply list_elem_of_lookup_2 in Hi.
Qed.

Lemma listed_app_l m l1 l2 : listed m (l1 ++ l2) -> listed m l1.
Proof.
  intros [Hnd Hall]. rewrite fmap_app in Hnd. apply NoDup_app in Hnd as (Hnd & _).
  by apply Forall_app in Hall as [Hall _].
Qed.

Lemma del_all_app m l1 l2 : del_all m (l1 ++ l2) = del_all (del_all m l1) l2.
Proof. unfold del_all. by rewrite foldl_app. Qed.

(** The two passes together remove a prefix of [replicated ++ sole]. *)
Lemma two_passes budget replicated sole p s r s' :
  cas_valid (inner s) -> listed (held (inner s)) (replicated ++ sole) ->
  (evict_pass budget false replicated p ≫= evict_pass budget true sole) s = (r, s') ->
  exists n, evicts s (digests (replicated ++ sole)) n s' /\
    above budget (replicated ++ sole) n (used p) /\
    match r with
    | Ok p' =>
        (n = length (replicated ++ sole) \/ used p' <= budget) /\
        used p' = used p - zsum (take n (sizes (replicated ++ sole))) /\
        scanned (report p') = scanned (report p) /\
        evicted (report p') = evicted (report p) + Z.of_nat n /\
        evicted_sole (report p') =
          evicted_sole (report p) + Z.of_nat (n - length replicated) /\
        bytes_evicted (report p') =
          bytes_evicted (report p) + zsum (take n (sizes (replicated ++ sole))) /\
        pushed p' = pushed p ++ drop (length replicated) (take n (digests (replicated ++ sole)))
    | Err _ => True
    end.
Proof.
  intros Hv Hl E. unfold mbind, M_bind in E.
  assert (Hlen : length (digests replicated) = length replicated) by apply length_fmap.
  assert (Hlenz : length (sizes replicated) = length replicated) by apply length_fmap.
  unfold above, digests, sizes in *. rewrite !fmap_app.
  destruct (evict_pass budget false replicated p s) as [r1 s1] eqn:E1.
  apply evict_pass_spec in E1 as (n1 & (Hn1 & Hv1 & Hh1 & Hq1 & Hb1) & Hab1 & Hr1);
    [|done|by eapply listed_app_l].
  unfold above, digests, sizes in *.
  assert (Hnl : (n1 <= length replicated)%nat) by (by rewrite <- Hlen).
  assert (Hab : forall m, (m < n1)%nat ->
    budget < used p - zsum (take m ((lb_size <$> replicated) ++ (lb_size <$> sole)))).
  { intros m Hm. rewrite take_app_le by (rewrite Hlenz; lia). by apply Hab1. }
  destruct r1 as [p1|e].
  2:{ simplify_eq. exists n1. split_and!; [|done|done].
      split; [rewrite length_app; lia|]. split_and!; try done.
      rewrite Hh1. f_equal. rewrite take_app_le by lia. done. }
  destruct Hr1 as [(U1 & S1 & V1 & W1 & B1 & P1) Hstop1].
  apply evict_pass_spec in E as (n2 & (Hn2 & Hv2 & Hh2 & Hq2 & Hb2) & Hab2 & Hr2);
    [|done|rewrite Hh1; by apply listed_rest].
  assert (Hcase : n1 = length replicated \/ n2 = 0%nat).
  { destruct Hstop1 as [->|Hstop1]; [by left|]. right. destruct n2 as [|n2]; [done|].
    specialize (Hab2 0%nat ltac:(lia)). unfold zsum in Hab2. simpl in Hab2. lia. }
  unfold above, digests, sizes in *.
  exists (n1 + n2)%nat.
  rewrite (take_seq (lb_size <$> replicated)) by (rewrite ?Hlenz; done).
  unfold evicts. rewrite (take_seq (lb_digest <$> replicated)) by (rewrite ?Hlen; done).
  split; [|split].
  - split_and!; [rewrite length_app; lia|done| |congruence|by eapply same_books_trans].
    by rewrite del_all_app, <- Hh1.
  - intros m Hm. destruct (decide (m < n1)%nat) as [|Hge]; [by apply Hab|].
    destruct Hcase as [Hc|Hc]; [|lia].
    replace m with (n1 + (m - n1))%nat by lia.
    rewrite (take_seq (lb_size <$> replicated)) by (rewrite ?Hlenz; auto).
    rewrite zsum_app. specialize (Hab2 (m - n1)%nat ltac:(lia)). lia.
  - destruct r as [p'|]; [|done].
    destruct Hr2 as [(U2 & S2 & V2 & W2 & B2 & P2) Hstop2].
    unfold sizes, digests in *. rewrite zsum_app.
    split_and!; try lia.
    + destruct Hstop2 as [Hs2|Hs2]; [|by right]. destruct Hcase as [Hc|Hc]; [|].
      * left. rewrite length_app. lia.
      * destruct Hstop1; [left; rewrite length_app; lia|right].
        rewrite U2, Hc. unfold zsum. simpl. lia.
    + rewrite P2, P1, app_nil_r. f_equal. destruct Hcase as [Hc|Hc]; subst.
      * rewrite <- Hlen, firstn_all, drop_app_length. done.
      * simpl. rewrite app_nil_r. symmetry. apply drop_ge. rewrite length_take. lia.
Qed.

(** ** A whole run *)

(** What the store may drop, as [evict_to_budget] sees it when it starts. *)
Definition may_evict (rs : RootSet) (grace : Z) s (d : Digest) : bool :=
  candidate (pinned rs) (in_flight (state s)) (written_at (access (state s)))
    (clock_now (clock s)) grace d.

Definition recency s (b : LocalBlob) : Z := last_touch (access (state s)) (lb_digest b).

(** [order] is how a run over [local] ranks its candidates: replicated blobs, then
    sole copies, each class coldest first. *)
Definition ranked (rs : RootSet) (grace : Z) (orc : oracle) s (local replicated sole : list LocalBlob) :
    Prop :=
  exists s1 s2, state s1 = state s /\
    partition_holders orc
      (sort_by_key (recency s)
        (filter (fun b => may_evict rs grace s (lb_digest b) = true) local)) s1 =
      (replicated, sole, s2).

Definition local_listing s (local : list LocalBlob) : Prop :=
  local ≡ₚ (fun kv => mkLocalBlob kv.1 (zlen kv.2)) <$> map_to_list (held (inner s)).

Lemma listing_listed s local : local_listing s local -> listed (held (inner s)) local.
Proof.
  unfold local_listing. intros Hp. split.
  - rewrite Hp, <- list_fmap_compose.
    change (NoDup ((fun kv : Digest * list byte => kv.1) <$> map_to_list (held (inner s)))).
    apply NoDup_fst_map_to_list.
  - rewrite Hp. apply Forall_fmap, Forall_forall. intros [d data] Hin. simpl.
    apply elem_of_map_to_list in Hin. by rewrite Hin.
Qed.

Lemma listed_perm m l1 l2 : l1 ≡ₚ l2 -> listed m l1 -> listed m l2.
Proof. intros Hp [H1 H2]. split; by rewrite <- Hp. Qed.

Lemma listed_filter m P `{forall b, Decision (P b)} l : listed m l -> listed m (filter P l).
Proof.
  intros [H1 H2]. split.
  - eapply sublist_NoDup; [exact H1|]. apply fmap_sublist, sublist_filter.
  - rewrite Forall_forall in H2 |- *. intros b [_ Hb]%list_elem_of_filter. auto.
Qed.

Lemma ranked_perm rs grace orc s local replicated sole :
  ranked rs grace orc s local replicated sole ->
  replicated ++ sole ≡ₚ filter (fun b => may_evict rs grace s (lb_digest b) = true) local.
Proof.
  intros (s1 & s2 & _ & E). apply partition_holders_spec in E as (_ & _ & Hp & _).
  rewrite Hp. apply sort_by_key_perm.
Qed.

Lemma ranked_listed rs grace orc s local replicated sole :
  local_listing s local -> ranked rs grace orc s local replicated sole ->
  listed (held (inner s)) (replicated ++ sole).
Proof.
  intros Hl Hr. eapply listed_perm; [symmetry; by eapply ranked_perm|].
  by apply listed_filter, listing_listed.
Qed.

(** The three ways a run on a cache ends: it cannot list the store, there is nothing
    to do, or it removes a prefix of the ranking. *)
Inductive evict_run (rs : RootSet) (orc : oracle) (p : LruPolicy) s :
    result BackendError (EvictReport * list Digest) -> CasStore C T -> Prop :=
| run_unlistable e s' :
    cas_valid (inner s') -> same_content (inner s) (inner s') -> same_books s s' ->
    evict_run rs orc p s (Err e) s'
| run_within s' :
    total (held (inner s)) <= byte_budget p ->
    cas_valid (inner s') -> same_content (inner s) (inner s') -> same_books s s' ->
    evict_run rs orc p s (Ok (report_default, [])) s'
| run_evicts local replicated sole n r s' :
    byte_budget p < total (held (inner s)) ->
    local_listing s local -> ranked rs (gc_grace p) orc s local replicated sole ->
    evicts s (digests (replicated ++ sole)) n s' ->
    above (byte_budget p) (replicated ++ sole) n (total (held (inner s))) ->
    match r with
    | Ok (rep, pushes) =>
        let gone := zsum (take n (sizes (replicated ++ sole))) in
        (n = length (replicated ++ sole) \/ total (held (inner s)) - gone <= byte_budget p) /\
        rep = mkReport (zlen (replicated ++ sole)) (Z.of_nat n)
          (Z.of_nat (n - length replicated)) gone
          (bool_decide (byte_budget p < total (held (inner s)) - gone)) /\
        pushes = drop (length replicated) (take n (digests (replicated ++ sole)))
    | Err _ => True
    end ->
    evict_run rs orc p s r s'.

Lemma evict_to_budget_run rs orc p s r s' :
  cas_valid (inner s) -> mode (policy s) = Lru p ->
  evict_to_budget (Ok rs) orc s = (r, s') -> evict_run rs orc p s r s'.
Proof.
  intros Hv Hm E. unfold evict_to_budget in E. rewrite Hm in E. unfold on_inner in E.
  destruct (law_iter_local (inner s) Hv) as [Hspec Hv1]. unfold iter_local_spec in Hspec.
  destruct (iter_local (inner s)) as [[local|e] c] eqn:Ei; simpl in Hv1;
    [|simplify_eq; apply run_unlistable; [done|by destruct Hspec|by repeat split]].
  destruct Hspec as [[Hh Hq] Hlocal].
  assert (Htot : zsum (lb_size <$> local) = total (held (inner s)))
    by (rewrite total_held; by rewrite Hlocal).
  rewrite Htot in E. case_bool_decide as Hb.
  { simplify_eq. apply run_within; [lia|done..|by repeat split]. }
  assert (Hlst : local_listing s local) by exact Hlocal.
  set (cands := filter _ local) in E. set (s1 := set_inner c s) in E.
  destruct (partition_holders orc _ s1) as [[replicated sole] s2] eqn:Ep.
  assert (Hrk : ranked rs (gc_grace p) orc s local replicated sole)
    by (exists s1, s2; by split).
  apply partition_holders_spec in Ep as (_ & _ & Hperm & Hi2 & _ & Hbk2).
  assert (Hl2 : listed (held (inner s2)) (replicated ++ sole)).
  { rewrite Hi2. simpl. rewrite Hh. by eapply ranked_listed. }
  assert (Hv2 : cas_valid (inner s2)) by (by rewrite Hi2).
  destruct ((evict_pass (byte_budget p) false replicated
      (mkProgress (total (held (inner s))) (mkReport (zlen cands) 0 0 0 false) [])
      ≫= evict_pass (byte_budget p) true sole) s2) as [r2 s3] eqn:E2.
  assert (Es : s3 = s' /\ match r2 with
      | Ok p2 => r = Ok (mkReport (scanned (report p2)) (evicted (report p2))
          (evicted_sole (report p2)) (bytes_evicted (report p2))
          (bool_decide (byte_budget p < used p2)), pushed p2)
      | Err e => r = Err e end).
  { unfold mbind, M_bind in E2, E. destruct (evict_pass _ false replicated _ s2) as [[p1|e] s4].
    - destruct (evict_pass _ true sole p1 s4) as [[p2|e] s5];
        unfold mret, M_ret in E; simplify_eq; by split.
    - simplify_eq. by split. }
  destruct Es as [-> Er].
  apply two_passes in E2 as (n & (Hn & Hv' & Hh' & Hq' & Hb') & Hab & Hr); [|done|done].
  simpl in Hab.
  apply (run_evicts rs orc p s local replicated sole n); [lia|done|done| |done|].
  - split_and!; [done|done| | |].
    + rewrite Hh', Hi2. simpl. by rewrite Hh.
    + rewrite Hq', Hi2. simpl. done.
    + eapply same_books_trans; [|exact Hb']. eapply same_books_trans; [|exact Hbk2].
      by repeat split.
  - destruct r2 as [p2|e]; [|by rewrite Er]. rewrite Er.
    destruct Hr as (Hstop & U & S1 & V1 & W & B1 & P). simpl in *.
    rewrite U in Hstop |- *. split_and!; [done| |done].
    f_equal; try lia. rewrite S1. unfold zlen. f_equal. symmetry.
    rewrite Hperm. by rewrite sort_by_key_perm.
Qed.

Lemma evict_not_lru orc s r s' rs :
  evict_to_budget (Ok rs) orc s = (r, s') ->
  (forall p, mode (policy s) <> Lru p) ->
  r = Err (FeatureNotSupported (bs "cache-eviction")) /\ s' = s.
Proof.
  unfold evict_to_budget. intros E Hm. destruct (mode (policy s)); [by destruct (Hm p)|].
  by simplify_eq.
Qed.

Lemma evicts_lookup s ds n s' d :
  evicts s ds n s' ->
  held (inner s') !! d = if bool_decide (d ∈ take n ds) then None else held (inner s) !! d.
Proof. intros (_ & _ & -> & _). apply del_all_lookup. Qed.

Lemma ranked_candidate rs grace orc s local replicated sole d :
  ranked rs grace orc s local replicated sole -> local_listing s local ->
  d ∈ digests (replicated ++ sole) <->
  may_evict rs grace s d = true /\ is_Some (held (inner s) !! d).
Proof.
  intros Hr Hl. unfold digests. rewrite list_elem_of_fmap.
  setoid_rewrite (ranked_perm _ _ _ _ _ _ _ Hr). setoid_rewrite list_elem_of_filter.
  unfold local_listing in Hl. setoid_rewrite Hl. setoid_rewrite list_elem_of_fmap. split.
  - intros (b & -> & Hm & ([k data] & -> & Hin)). apply elem_of_map_to_list in Hin. eauto.
  - intros [Hm [data Hd]]. exists (mkLocalBlob d (zlen data)). split_and!; [done..|].
    exists (d, data). split; [done|]. by apply elem_of_map_to_list.
Qed.

Lemma listed_size m blobs n :
  listed m blobs -> (n <= length blobs)%nat ->
  Z.of_nat (base.size (del_all m (take n (digests blobs)))) = Z.of_nat (base.size m) - Z.of_nat n.
Proof.
  unfold digests. revert m n. induction blobs as [|b blobs IH]; intros m [|n] Hl Hn; csimpl;
    try (simpl in *; lia).
  pose proof (listed_delete m b blobs Hl) as Hl'. destruct Hl as [_ Hall].
  apply Forall_cons in Hall as [Hb _].
  destruct (m !! lb_digest b) as [data|] eqn:E; [|done].
  change (del_all m (lb_digest b :: ?ds)) with (del_all (delete (lb_digest b) m) ds).
  rewrite IH by (simpl in *; auto with lia).
  rewrite map_size_delete_Some by eauto.
  assert (base.size m <> 0%nat) by (intros Hz%map_size_empty_iff; subst; set_solver). lia.
Qed.

Lemma ranked_sorted rs grace orc s local replicated sole :
  ranked rs grace orc s local replicated sole ->
  StronglySorted (key_le (recency s)) replicated /\ StronglySorted (key_le (recency s)) sole.
Proof.
  intros (s1 & s2 & _ & E). apply partition_holders_spec in E as (H1 & H2 & _).
  assert (Hsub : forall l, l `sublist_of` sort_by_key (recency s)
      (filter (fun b => may_evict rs grace s (lb_digest b) = true) local) ->
      StronglySorted (key_le (recency s)) l).
  { intros l Hl. pose proof (sort_by_key_sorted (recency s)
      (filter (fun b => may_evict rs grace s (lb_digest b) = true) local)) as Hso.
    clear -Hl Hso. induction Hl as [|x l1 l2 Hl IH|x l1 l2 Hl IH]; [constructor|..];
      inversion Hso as [|?? Hso' Hall]; subst.
    - constructor; [auto|]. rewrite Forall_forall in Hall |- *. intros y Hy.
      apply Hall. by eapply elem_of_sublist.
    - auto. }
  split; auto.
Qed.

(** A pass that left every blob where it was dropped nothing. *)
Lemma unchanged_blobs s s' (P : Digest -> Prop) :
  held (inner s') = held (inner s) -> quarantined_at (inner s') = quarantined_at (inner s) ->
  same_books s s' ->
  held (inner s') ⊆ held (inner s) /\ quarantined_at (inner s') = quarantined_at (inner s) /\
  same_books s s' /\
  forall d, is_Some (held (inner s) !! d) -> held (inner s') !! d = None -> P d.
Proof.
  intros -> Hq Hb. split; [done|split; [done|split; [done|]]].
  intros d [x Hx]. by rewrite Hx.
Qed.

(** ** Properties *)

(** C7. Eviction safety.  Whatever the outcome, error or not, and whatever the roots were, a
    pass adds no blob and changes none: what it holds afterwards it held before, byte for
    byte; the quarantine and the books are as they were; and a blob that is gone was in an
    lru store over its budget, not pinned, not an in-flight write, and not inside the grace
    window when its write time is known. *)
Theorem evict_never_drops_protected roots orc s r s' :
  cas_valid (inner s) -> evict_to_budget roots orc s = (r, s') ->
  held (inner s') ⊆ held (inner s) /\ quarantined_at (inner s') = quarantined_at (inner s) /\ same_books s s' /\
  forall d, is_Some (held (inner s) !! d) -> held (inner s') !! d = None ->
    exists rs p, roots = Ok rs /\ mode (policy s) = Lru p /\ byte_budget p < total (held (inner s)) /\
      (d ∉ pinned rs) /\ (d ∉ in_flight (state s)) /\
      forall w, written_at (access (state s)) !! d = Some w -> gc_grace p <= Z.max (clock_now (clock s) - w) 0.
Proof.
  intros Hv E. destruct roots as [rs|e].
  2:{ assert (s' = s) as -> by (unfold evict_to_budget in E; destruct (mode (policy s)); by injection E).
      apply unchanged_blobs; [done..|apply same_books_refl]. }
  destruct (mode (policy s)) as [p|p] eqn:Hm.
  2:{ apply evict_not_lru in E as [_ ->]; [|intros q; by rewrite Hm].
      apply unchanged_blobs; [done..|apply same_books_refl]. }
  destruct (evict_to_budget_run _ _ p _ _ _ Hv Hm E) as
    [e s' _ [Hh Hq] Hb|s' _ _ [Hh Hq] Hb|local rep sole n r s' Hlt Hl Hr Hev _ _];
    [by apply unchanged_blobs..|].
  pose proof Hev as (_ & _ & Hh & Hq & Hb). split; [|split; [done|split; [done|]]].
  - apply map_subseteq_spec. intros d x. rewrite (evicts_lookup _ _ _ _ d Hev). by case_bool_decide.
  - intros d Hd. rewrite (evicts_lookup _ _ _ _ d Hev).
    case_bool_decide as Hin; [intros _|by intros Hn; rewrite Hn in Hd; destruct Hd].
    exists rs, p. split; [done|split; [done|split; [done|]]].
    apply elem_of_take in Hin as (i & Hi & _). apply list_elem_of_lookup_2 in Hi.
    apply (ranked_candidate _ _ _ _ _ _ _ d Hr Hl) in Hi as [Hc _].
    unfold may_evict, candidate, past_grace in Hc.
    apply andb_prop in Hc as [[H1 H2]%andb_prop H3].
    apply negb_true_iff, bool_decide_eq_false in H1, H2. split_and!; [done..|].
    intros w Hw. rewrite Hw in H3. by apply bool_decide_eq_true in H3.
Qed.

(** The report is exact and the pass finishes its job: the freed bytes, the
    number of blobs gone and the over-budget flag are those of the store after the
    pass, and if the store is still over budget then no remaining blob may be
    evicted. *)
Theorem evict_report_exact rs orc s p rep pushes s' :
  cas_valid (inner s) -> mode (policy s) = Lru p ->
  evict_to_budget (Ok rs) orc s = (Ok (rep, pushes), s') ->
  bytes_evicted rep = total (held (inner s)) - total (held (inner s')) /\
  evicted rep = Z.of_nat (base.size (held (inner s))) - Z.of_nat (base.size (held (inner s'))) /\
  still_over_budget rep = bool_decide (byte_budget p < total (held (inner s'))) /\
  (still_over_budget rep = true -> forall d, is_Some (held (inner s') !! d) ->
    may_evict rs (gc_grace p) s d = false).
Proof.
  intros Hv Hm E. pose proof (evict_to_budget_run _ _ p _ _ _ Hv Hm E) as Hrun.
  inversion Hrun as [|? Hle _ [Hh _] _ E1|local replicated sole n ? ? Hlt Hl Hr Hev Hab Hres E1];
    subst.
  { rewrite Hh. split_and!; [simpl; lia|simpl; lia| |done]. simpl.
    symmetry. apply bool_decide_eq_false. lia. }
  destruct Hres as (Hstop & -> & _). pose proof (ranked_listed _ _ _ _ _ _ _ Hl Hr) as Hls.
  pose proof Hev as (Hn & _ & Hh & _ & _). unfold digests in Hn. rewrite length_fmap in Hn.
  assert (Htot : total (held (inner s')) = total (held (inner s)) -
      zsum (take n (sizes (replicated ++ sole)))) by (rewrite Hh; by apply total_take).
  simpl. rewrite Htot. split_and!; [lia| |done|].
  - rewrite Hh, listed_size by done. lia.
  - intros Hover%bool_decide_eq_true d Hd. destruct Hstop as [->|]; [|lia].
    rewrite (evicts_lookup _ _ _ _ d Hev) in Hd. case_bool_decide as Hin; [by destruct Hd|].
    destruct (may_evict rs (gc_grace p) s d) eqn:Em; [|done]. exfalso. apply Hin.
    assert (Hord : d ∈ digests (replicated ++ sole))
      by (by eapply ranked_candidate).
    rewrite firstn_all2; [done|]. unfold digests. by rewrite length_fmap.
Qed.

(** The eviction order.  Over budget, a pass removes a prefix of the candidates
    ranked with every replicated blob before every sole copy and coldest first in
    each class; it removes no blob once the budget is met; the sole copies it
    removed are the ones it asked the replicator to push. *)
Theorem evict_order rs orc s p rep pushes s' :
  cas_valid (inner s) -> mode (policy s) = Lru p ->
  byte_budget p < total (held (inner s)) ->
  evict_to_budget (Ok rs) orc s = (Ok (rep, pushes), s') ->
  exists local replicated sole n,
    local_listing s local /\ ranked rs (gc_grace p) orc s local replicated sole /\
    StronglySorted (key_le (recency s)) replicated /\
    StronglySorted (key_le (recency s)) sole /\
    held (inner s') = del_all (held (inner s)) (take n (digests (replicated ++ sole))) /\
    (forall m, (m < n)%nat -> byte_budget p <
      total (del_all (held (inner s)) (take m (digests (replicated ++ sole))))) /\
    evicted_sole rep = Z.of_nat (n - length replicated) /\
    pushes = drop (length replicated) (take n (digests (replicated ++ sole))).
Proof.
  intros Hv Hm Hb E. pose proof (evict_to_budget_run _ _ p _ _ _ Hv Hm E) as Hrun.
  inversion Hrun as [|? Hle _ [Hh _] _ E1|local replicated sole n ? ? Hlt Hl Hr Hev Hab Hres E1];
    subst; [lia|].
  destruct Hres as (Hstop & -> & ->). pose proof (ranked_listed _ _ _ _ _ _ _ Hl Hr) as Hls.
  pose proof (ranked_sorted _ _ _ _ _ _ _ Hr) as [Hs1 Hs2].
  pose proof Hev as (_ & _ & Hh & _ & _).
  exists local, replicated, sole, n. split_and!; try done.
  intros m Hlt'. unfold digests. rewrite total_take by done. by apply Hab.
Qed.
End evict.

(** ** Witnesses: three ten-byte blobs, [b] held by a peer too, a budget of fifteen *)

Module EvictExample.
Import Checksum.

Definition me : PeerId := mkPeerId (bs "me").
Definition a : list byte := bs "aaaaaaaaaa".
Definition b : list byte := bs "bbbbbbbbbb".
Definition c : list byte := bs "cccccccccc".

Definition put_committed (s : CasStore Mem.MemCas Swarm.MemRouter) (data : list byte) :
    CasStore Mem.MemCas Swarm.MemRouter :=
  match put (cursor data) s with
  | (Ok d, _, s') => commit d s'
  | (Err _, _, s') => s'
  end.

Definition swarm : Swarm.MemRouter :=
  Swarm.node (Swarm.swarm_run ∅ [Swarm.Announced (mkPeerId (bs "peer")) (compute b)]) me.

Definition store : CasStore Mem.MemCas Swarm.MemRouter :=
  foldl put_committed
    (mkStore Mem.new (lru 15 0) swarm (clock_at 0) me state_default 0 0) [a; b; c].

Definition pin_none : RootSet := mkRootSet ∅ ∅.
Definition pin_c : RootSet := mkRootSet {[compute c]} {[compute c]}.

Definition after (rs : RootSet) := evict_to_budget (Ok rs) no_durable_oracle store.

Lemma store_valid : cas_valid (inner store).
Proof.
  change (map_Forall (fun d b => verify d b = true) (Mem.blobs (inner store))).
  apply (bool_decide_unpack _). vm_compute. exact I.
Defined.

(** [b] is warmer than [a] but replicated: it goes first; then the colder sole copy
    [a]; [c] then fits. *)
Example evict_run_example :
  (after pin_none).1 = Ok (mkReport 3 2 1 20 false, [compute a]).
Proof. vm_compute. reflexivity. Qed.

Lemma after_none :
  after pin_none = (Ok (mkReport 3 2 1 20 false, [compute a]), (after pin_none).2).
Proof. rewrite <- evict_run_example. apply surjective_pairing. Defined.

Theorem evict_never_drops_protected_witness :
  held (inner (after pin_c).2) ⊆ held (inner store) /\
  quarantined_at (inner (after pin_c).2) = quarantined_at (inner store) /\ same_books store (after pin_c).2 /\
  forall d, is_Some (held (inner store) !! d) -> held (inner (after pin_c).2) !! d = None ->
    exists rs p, Ok (E := BackendError) pin_c = Ok rs /\ mode (policy store) = Lru p /\
      byte_budget p < total (held (inner store)) /\ (d ∉ pinned rs) /\ (d ∉ in_flight (state store)) /\
      forall w, written_at (access (state store)) !! d = Some w -> gc_grace p <= Z.max (clock_now (clock store) - w) 0.
Proof.
  apply (evict_never_drops_protected (Ok pin_c) no_durable_oracle store (after pin_c).1 (after pin_c).2 store_valid).
  apply surjective_pairing.
Defined.

Theorem evict_report_exact_witness :
  20 = total (held (inner store)) - total (held (inner (after pin_none).2)).
Proof.
  apply (evict_report_exact pin_none no_durable_oracle store (mkLru 15 0)
    (mkReport 3 2 1 20 false) [compute a] (after pin_none).2 store_valid eq_refl).
  exact after_none.
Defined.

Theorem evict_order_witness :
  exists local replicated sole n,
    local_listing store local /\
    ranked pin_none 0 no_durable_oracle store local replicated sole /\
    held (inner (after pin_none).2) =
      del_all (held (inner store)) (take n (digests (replicated ++ sole))).
Proof.
  destruct (evict_order pin_none no_durable_oracle store (mkLru 15 0)
    (mkReport 3 2 1 20 false) [compute a] (after pin_none).2 store_valid eq_refl)
    as (local & replicated & sole & n & H1 & H2 & _ & _ & H3 & _).
  - apply (bool_decide_unpack _). vm_compute. exact I.
  - exact after_none.
  - exact (ex_intro _ local (ex_intro _ replicated (ex_intro _ sole (ex_intro _ n
      (conj H1 (conj H2 H3)))))).
Defined.
End EvictExample.
