(* ===== verification/StoreInv.v ===== *)
(** The store's guarantees over any sequence of its operations
    (crates/nessie-cas-store/src/{store,scrub,evict}.rs, models in Store.v and
    Evict.v): the books balance, a write-only store never retains more than its
    capacity, and a refused write changes nothing. *)

From Stdlib Require Import ZArith Lia.
From stdpp Require Import base list gmap sets.
From S2P Require Import Prelude Ordered Text Digest Errors Cas Store Reach Evict.

Local Open Scope Z_scope.

(** ** The gate, read by read *)

Section gate.
Context (cap held others : Z) (Hcap : 0 <= cap < u64_max).

(** The gate lets [n] more bytes through with [mine] reserved. *)
Definition fits (mine n : Z) : Prop := held + others + mine + n <= cap.
#[global] Instance fits_dec mine n : Decision (fits mine n).
Proof. unfold fits. apply _. Defined.

Lemma gate_read_data mine b :
  gate_read cap held others mine (RData b) =
  if bool_decide (fits mine (zlen b)) then (RData b, mine + zlen b, false)
  else (RErr gate_error, mine, true).
Proof.
  unfold gate_read, fits. pose proof (zlen_nonneg b).
  assert (Hiff : cap < sat_add64 (sat_add64 held (others + mine)) (zlen b) <->
    ~ held + others + mine + zlen b <= cap) by (unfold sat_add64, u64_max in *; lia).
  repeat case_bool_decide; tauto.
Qed.

Lemma gate_reads_nil mine :
  gate_reads cap held others mine [] = if bool_decide (fits mine 0) then [] else [RErr gate_error].
Proof. cbn [gate_reads]. rewrite gate_read_data. change (zlen []) with 0. by case_bool_decide. Qed.

Lemma gate_reads_data mine b src :
  gate_reads cap held others mine (RData b :: src) =
  if bool_decide (fits mine (zlen b))
  then RData b :: gate_reads cap held others (mine + zlen b) src
  else RErr gate_error :: gate_reads cap held others mine src.
Proof. cbn [gate_reads]. rewrite gate_read_data. by case_bool_decide. Qed.

Lemma gate_after_data mine t b src k :
  gate_after cap held others mine t (RData b :: src) (S k) =
  if bool_decide (fits mine (zlen b))
  then gate_after cap held others (mine + zlen b) t src k
  else gate_after cap held others mine true src k.
Proof.
  cbn [gate_after]. rewrite gate_read_data.
  case_bool_decide; by rewrite ?orb_false_r, ?orb_true_r.
Qed.

Lemma read_to_end_len s r s' : read_to_end s = (r, s') -> (length s' <= length s)%nat.
Proof. intros [pre ->]%read_to_end_suffix. rewrite length_app. lia. Qed.

Lemma reads_made_cons ev g r left_ :
  read_to_end g = (r, left_) -> reads_made (ev :: g) left_ = S (reads_made g left_).
Proof. intros H%read_to_end_len. unfold reads_made. simpl. lia. Qed.

Lemma reads_made_one ev g : reads_made (ev :: g) g = 1%nat.
Proof. unfold reads_made. simpl. lia. Qed.

(** A complete read through the gate is a complete read of the source; the gate has
    reserved what was read, did not trip, and the bytes fit. *)
Lemma gate_complete src mine t data left_ k :
  0 <= mine ->
  read_to_end (gate_reads cap held others mine src) = (Ok data, left_) ->
  k = reads_made (gate_reads cap held others mine src) left_ ->
  gate_after cap held others mine t src k = (mine + zlen data, t) /\
  fits mine (zlen data) /\ read_to_end src = (Ok data, drop k src).
Proof.
  revert mine data left_ k. induction src as [|[b|e] src IH]; intros mine data left_ k Hm.
  - rewrite gate_reads_nil. case_bool_decide as Hf; [|done]. intros [= <- <-] ->.
    rewrite zlen_nil. simpl. split_and!; [f_equal; lia|done|done].
  - rewrite gate_reads_data. case_bool_decide as Hf; [|done].
    destruct b as [|x b].
    + intros [= <- <-] ->. rewrite reads_made_one.
      rewrite gate_after_data, bool_decide_true by done. rewrite zlen_nil in *. simpl.
      split_and!; [f_equal; lia|done|by rewrite drop_0].
    + intros E ->. cbn [read_to_end] in E.
      destruct (read_to_end _) as [[u|] s1] eqn:E1 in E; [injection E as <- <-|done].
      rewrite (reads_made_cons _ _ _ _ E1).
      destruct (IH (mine + zlen (x :: b)) u s1 _ ltac:(pose proof (zlen_nonneg (x :: b)); lia)
        E1 eq_refl) as (H1 & H2 & H3).
      rewrite gate_after_data, bool_decide_true by done. rewrite H1.
      cbn [read_to_end drop]. rewrite H3.
      change (x :: b ++ u) with ((x :: b) ++ u). rewrite zlen_app. unfold fits in *.
      split_and!; [f_equal; lia|lia|]. done.
  - cbn [gate_reads gate_read]. intros E ->. cbn [read_to_end] in E |- *.
    case_bool_decide as Hi; [|done]. rewrite (reads_made_cons _ _ _ _ E).
    destruct (IH mine data left_ _ Hm E eq_refl) as (H1 & H2 & H3).
    cbn [gate_after gate_read drop]. by rewrite orb_false_r.
Qed.

(** What the gate reserved at any point fits, or it reserved nothing. *)
Lemma gate_after_fits src mine t k mine' t' :
  gate_after cap held others mine t src k = (mine', t') ->
  mine' = mine \/ held + others + mine' <= cap.
Proof.
  revert src mine t. induction k as [|k IH]; intros src mine t.
  - intros [= <- <-]. by left.
  - assert (Hd : forall b src, gate_after cap held others mine t (RData b :: src) (S k) =
        (mine', t') -> mine' = mine \/ held + others + mine' <= cap).
    { intros b src'. rewrite gate_after_data. case_bool_decide as Hf; intros E; [|by eapply IH].
      apply IH in E as [->|]; [right; unfold fits in Hf; lia|by right]. }
    destruct src as [|[b|e] src]; [apply (Hd [] [])|apply Hd|].
    cbn [gate_after gate_read]. apply IH.
Qed.

(** A source that reads completely reads completely through the gate if its bytes
    fit, and otherwise the read fails with the gate tripped. *)
Lemma gate_admits src mine data rest :
  read_to_end src = (Ok data, rest) -> fits mine (zlen data) -> 0 <= mine ->
  exists left_, read_to_end (gate_reads cap held others mine src) = (Ok data, left_).
Proof.
  revert mine data rest. induction src as [|[b|e] src IH]; intros mine data rest;
    cbn [read_to_end].
  - intros [= <- <-] Hf _. rewrite gate_reads_nil, bool_decide_true by done. by exists [].
  - destruct b as [|x b]; cbn [read_to_end].
    + intros [= <- <-] Hf _. rewrite gate_reads_data, bool_decide_true by done. by eexists.
    + destruct (read_to_end src) as [[u|] s1] eqn:E; [intros [= <- <-] Hf Hm|done].
      change (x :: b ++ u) with ((x :: b) ++ u) in Hf. rewrite zlen_app in Hf.
      pose proof (zlen_nonneg u). pose proof (zlen_nonneg (x :: b)). unfold fits in Hf.
      rewrite gate_reads_data, bool_decide_true by (unfold fits; lia).
      destruct (IH (mine + zlen (x :: b)) u s1 eq_refl) as [left_ Hl];
        [unfold fits; lia|lia|]. exists left_. cbn [read_to_end]. by rewrite Hl.
  - case_bool_decide as Hi; [|done]. intros E Hf Hm.
    destruct (IH mine data rest E Hf Hm) as [left_ Hl]. exists left_.
    cbn [gate_reads gate_read read_to_end]. by rewrite bool_decide_true.
Qed.

Lemma gate_after_tripped src mine k : (gate_after cap held others mine true src k).2 = true.
Proof.
  revert src mine. induction k as [|k IH]; intros src mine; [done|]. cbn [gate_after].
  destruct src as [|ev src]; [destruct (gate_read _ _ _ _ _) as [[? ?] ?]|
    destruct (gate_read _ _ _ _ ev) as [[? ?] ?]]; apply IH.
Qed.

Lemma gate_refuses src mine t data rest :
  read_to_end src = (Ok data, rest) -> ~ fits mine (zlen data) -> 0 <= mine ->
  exists left_, read_to_end (gate_reads cap held others mine src) = (Err gate_error, left_) /\
    (gate_after cap held others mine t src
      (reads_made (gate_reads cap held others mine src) left_)).2 = true.
Proof.
  revert mine t data rest. induction src as [|[b|e] src IH]; intros mine t data rest E Hf Hm.
  - injection E as <- <-. rewrite gate_reads_nil, bool_decide_false by done. exists [].
    split; [done|]. rewrite reads_made_one. cbn [gate_after].
    rewrite gate_read_data, bool_decide_false by done. by rewrite orb_true_r.
  - destruct (decide (fits mine (zlen b))) as [Hb|Hb].
    2:{ rewrite gate_reads_data, bool_decide_false by done.
        eexists. split; [reflexivity|]. rewrite reads_made_one.
        by rewrite gate_after_data, bool_decide_false by done. }
    destruct b as [|x b]; [by simplify_eq/=|]. cbn [read_to_end] in E.
    destruct (read_to_end src) as [[u|] s1] eqn:E1; [injection E as <- <-|done].
    change (x :: b ++ u) with ((x :: b) ++ u) in Hf. rewrite zlen_app in Hf.
    pose proof (zlen_nonneg (x :: b)).
    destruct (IH (mine + zlen (x :: b)) t u s1 eq_refl) as (left_ & Hl & Ht);
      [unfold fits in *; lia|lia|].
    rewrite gate_reads_data, bool_decide_true by done. exists left_.
    rewrite (reads_made_cons _ _ _ _ Hl), gate_after_data, bool_decide_true by done.
    split; [|done]. cbn [read_to_end]. by rewrite Hl.
  - cbn [read_to_end] in E. case_bool_decide as Hi; [|done].
    destruct (IH mine (t || false) data rest E Hf Hm) as (left_ & Hl & Ht). exists left_.
    cbn [gate_reads gate_read]. rewrite (reads_made_cons _ _ _ _ Hl).
    cbn [read_to_end]. by rewrite bool_decide_true.
Qed.
End gate.

(** ** The invariants *)

Section store.
Context {C T : Type} {Hs : Hashers} {B : CasBackend C} {R : ReclaimableCas C}
  {Rt : ContentRouter T} {V : CasModel C} {L : CasLaws C}.
Implicit Type s : CasStore C T.

(** The books balance: what is committed is what is charged plus what is
    quarantined, nothing is reserved or in flight between operations, and the
    quarantine register is the backend's. *)
Definition books s : Prop :=
  cas_valid (inner s) /\
  st_committed (state s) = msum (accounted (state s)) + msum (quarantined (state s)) /\
  committed s = st_committed (state s) /\ pending s = 0 /\ fast_inflight (state s) = ∅ /\
  map_Forall (fun _ n => 0 <= n) (accounted (state s)) /\
  map_Forall (fun _ n => 0 <= n) (quarantined (state s)) /\
  quarantined (state s) = quarantined_at (inner s).

(** Every byte held is charged, and what is charged is held, intact. *)
Definition covered s : Prop :=
  (forall d data, held (inner s) !! d = Some data ->
    verify d data = true /\ zlen data <= default 0 (accounted (state s) !! d)) /\
  (forall d n, accounted (state s) !! d = Some n -> is_Some (held (inner s) !! d)).

(** Every byte the node retains. *)
Definition retained s : Z := total (held (inner s)) + msum (quarantined_at (inner s)).

(** Two stores whose backend and books agree. *)
Definition same_core s s' : Prop :=
  inner s' = inner s /\ policy s' = policy s /\
  accounted (state s') = accounted (state s) /\ quarantined (state s') = quarantined (state s) /\
  fast_inflight (state s') = fast_inflight (state s) /\
  st_committed (state s') = st_committed (state s) /\
  committed s' = committed s /\ pending s' = pending s.

(** The state a step may reach: the books still balance, the policy is the same,
    and in a write-only store everything held stays charged and what is committed
    does not pass the capacity. *)
Definition keeps s s' : Prop :=
  policy s' = policy s /\ books s' /\
  forall p, mode (policy s) = WriteOnly p -> 0 <= capacity p < u64_max ->
    covered s -> covered s' /\ committed s' <= Z.max (capacity p) (committed s).

Lemma same_core_books s s' : same_core s s' -> books s -> books s'.
Proof.
  unfold same_core, books. intros (-> & _ & -> & -> & -> & -> & -> & ->). done.
Qed.

Lemma same_core_keeps s s' : same_core s s' -> books s -> keeps s s'.
Proof.
  intros Hc Hb. split_and!; [apply Hc|by eapply same_core_books|].
  intros p _ _ Hcov. unfold covered. destruct Hc as (-> & _ & -> & _ & _ & _ & -> & _).
  split; [done|lia].
Qed.

Lemma keeps_core s s1 s2 : keeps s s1 -> same_core s1 s2 -> keeps s s2.
Proof.
  intros (Hp & Hb & Hc) H12. pose proof (same_core_keeps _ _ H12 Hb) as (Hp2 & Hb2 & Hc2).
  split_and!; [congruence|done|]. intros p Hm Hcap Hcov.
  destruct (Hc p Hm Hcap Hcov) as [H1 H2].
  destruct (Hc2 p ltac:(congruence) Hcap H1) as [H3 H4]. split; [done|lia].
Qed.

(** The backend moved on without changing its content. *)
Lemma content_keeps s c :
  books s -> cas_valid c -> same_content (inner s) c -> keeps s (set_inner c s).
Proof.
  intros (Hv & Hb) Hc [Hh Hq]. split_and!; [done| |].
  - unfold books. simpl. rewrite Hq. done.
  - intros p _ _ Hcov. unfold covered. simpl. rewrite Hh. split; [done|lia].
Qed.

(** ** Each operation *)

Lemma on_inner_keeps {A} (op : M BackendError C A) s r s' :
  books s -> (forall c, cas_valid c -> same_content c (op c).2 /\ cas_valid (op c).2) ->
  on_inner op s = (r, s') -> keeps s s'.
Proof.
  unfold on_inner. intros Hb Hop E. destruct (op (inner s)) as [r1 c] eqn:Eo. simplify_eq.
  destruct (Hop (inner s) (proj1 Hb)) as [H1 H2]. rewrite Eo in H1, H2.
  by apply content_keeps.
Qed.

Lemma after_write_core d s : same_core s (after_write d s).
Proof. by repeat split. Qed.

Lemma release_guard_core d s : same_core s (release_guard d s).
Proof. by repeat split. Qed.

Lemma msum_credit (m : gmap Digest Z) d :
  map_Forall (fun _ n => 0 <= n) m ->
  0 <= default 0 (m !! d) <= msum m /\ msum (delete d m) = msum m - default 0 (m !! d).
Proof.
  intros Hm. rewrite (msum_delete m d) at 1 2.
  pose proof (msum_nonneg (delete d m) (map_Forall_delete _ _ _ Hm)).
  destruct (m !! d) as [n|] eqn:E; simpl; [pose proof (Hm d n E); simpl in *|]; lia.
Qed.

(** Registering and releasing a fast write is invisible afterwards. *)
Lemma fast_release_register d (m : gmap Digest Z) :
  m !! d = None -> fast_release d (fast_register d m) = m.
Proof.
  intros E. unfold fast_release, fast_register. rewrite E, lookup_insert_eq. simpl.
  by rewrite delete_insert_id.
Qed.

Lemma keeps_refl s : books s -> keeps s s.
Proof. intros Hb. apply same_core_keeps; [by repeat split|done]. Qed.

Lemma keeps_trans s1 s2 s3 : keeps s1 s2 -> keeps s2 s3 -> keeps s1 s3.
Proof.
  intros (P1 & B1 & C1) (P2 & B2 & C2). split_and!; [congruence|done|].
  intros p Hm Hcap Hcov. destruct (C1 p Hm Hcap Hcov) as [Hc1 Hl1].
  destruct (C2 p ltac:(congruence) Hcap Hc1) as [Hc2 Hl2]. split; [done|lia].
Qed.

(** Charging a blob that the backend has just stored. *)
Lemma account_books d n s : 0 <= n -> books s -> books (account d n s).
Proof.
  unfold account. intros Hn Hb. case_bool_decide; [done|].
  destruct (accounted (state s) !! d) eqn:E; [done|].
  destruct Hb as (Hv & Hc & Hm & Hp & Hf & Ha & Hq & Hr).
  unfold books. simpl. rewrite msum_insert by done.
  split_and!; try done; [lia|]. by apply map_Forall_insert_2.
Qed.

Lemma account_committed d n s : 0 <= n -> books s -> committed (account d n s) <= committed s + n.
Proof.
  unfold account. intros Hn (_ & _ & Hm & _). case_bool_decide; [lia|].
  destruct (accounted (state s) !! d); simpl; lia.
Qed.

(** A store of healthy blobs stays covered when [data] is stored and charged. *)
Lemma account_covered d data n s c :
  covered s -> stores (inner s) d data c -> zlen data <= n \/ is_Some (held (inner s) !! d) ->
  0 <= n -> covered (account d n (set_inner c s)).
Proof.
  intros [Hcov Hheld] (Hv & Hq & Hst) Hn Hn0.
  assert (Hc : held c = held (inner s) \/
      held (inner s) !! d = None /\ held c = <[d := data]> (held (inner s))).
  { destruct (held (inner s) !! d) as [old|] eqn:E; [|by right].
    destruct Hst as [Hst|[Hbad _]]; [by left|]. destruct (Hcov d old E). congruence. }
  assert (Hsome : is_Some (held c !! d)).
  { destruct Hc as [Hc|[_ Hc]]; rewrite Hc; [|rewrite lookup_insert_eq; by eexists].
    destruct (held (inner s) !! d) eqn:E; [by eexists|]. rewrite Hst in Hc.
    apply (f_equal (fun m => m !! d)) in Hc. rewrite lookup_insert_eq, E in Hc. done. }
  (* charges only grow, and [d]'s is at least [n] when it was not charged *)
  assert (Hacc : forall d', default 0 (accounted (state s) !! d') <=
      default 0 (accounted (state (account d n (set_inner c s))) !! d')).
  { intros d'. unfold account. case_bool_decide; [done|]. simpl.
    destruct (accounted (state s) !! d) eqn:E; [done|]. simpl.
    destruct (decide (d = d')) as [<-|]; [rewrite lookup_insert_eq, E; simpl; lia|].
    by rewrite lookup_insert_ne. }
  assert (Hin : held (inner (account d n (set_inner c s))) = held c).
  { unfold account. case_bool_decide; [done|]. by destruct (accounted _ !! d). }
  split.
  - rewrite Hin. intros d' data' Hd'. destruct (decide (held (inner s) !! d' = Some data')) as [Ho|Ho].
    + destruct (Hcov d' data' Ho) as [Hv' Hl']. split; [done|]. specialize (Hacc d'). lia.
    + destruct Hc as [Hc|[Hnone Hc]]; rewrite Hc in Hd'; [done|].
      apply lookup_insert_Some in Hd' as [[<- <-]|[_ ?]]; [|done]. split; [done|].
      destruct Hn as [Hn|[? Hn]]; [|congruence]. unfold account.
      case_bool_decide; [subst; specialize (Hacc d); simpl;
        destruct (accounted (state s) !! d) eqn:E; simpl; [|lia];
        destruct (Hheld d z E); congruence|].
      simpl. destruct (accounted (state s) !! d) eqn:E; simpl.
      * destruct (Hheld d z E). congruence.
      * rewrite lookup_insert_eq. simpl. lia.
  - rewrite Hin. intros d' m Hd'.
    assert (Hor : is_Some (accounted (state s) !! d') \/ d' = d).
    { unfold account in Hd'. case_bool_decide; [left; by eexists|]. simpl in Hd'.
      destruct (accounted (state s) !! d) eqn:E; [left; by eexists|]. simpl in Hd'.
      apply lookup_insert_Some in Hd' as [[<- _]|[_ ?]]; [by right|left; by eexists]. }
    destruct Hor as [[k Hk]| ->]; [|done].
    destruct Hc as [Hc|[_ Hc]]; rewrite Hc; [by eapply Hheld|].
    apply lookup_insert_is_Some'. right. by eapply Hheld.
Qed.

Lemma already_held_keeps d s b s1 :
  books s -> already_held d s = (b, s1) ->
  exists c, s1 = set_inner c s /\ cas_valid c /\ same_content (inner s) c /\
    (b = true -> is_Some (accounted (state s) !! d) \/ is_Some (held (inner s) !! d)) /\
    (b = false -> accounted (state s) !! d = None).
Proof.
  unfold already_held, on_inner. intros (Hv & _). case_bool_decide as Ha.
  - intros [= <- <-]. exists (inner s). by destruct s; split_and!; auto.
  - destruct (law_has d (inner s) Hv) as [Hspec Hv']. unfold has_spec in Hspec.
    destruct (cas_has d (inner s)) as [r c]. destruct Hspec as [Hsc Hr].
    intros [= <- <-]. exists c. split_and!; try done.
    + destruct r as [x|]; simpl; [|done]. intros ->. symmetry in Hr.
      apply bool_decide_eq_true in Hr. by right.
    + intros _. by apply eq_None_not_Some.
Qed.

(** The content a keyed write leaves, when it succeeds and when it fails. *)
Lemma put_keyed_content d src (c : C) r left_ c' :
  cas_valid c -> cas_put_keyed d src c = (r, left_, c') ->
  cas_valid c' /\ quarantined_at c' = quarantined_at c /\
  (same_content c c' /\ (r = Ok () -> left_ = src) \/
   r = Ok () /\ exists data, read_to_end src = (Ok data, left_) /\ stores c d data c').
Proof.
  intros Hv E. destruct (law_put_keyed d src c Hv) as [Hspec Hv']. unfold put_keyed_spec in Hspec.
  rewrite E in Hspec, Hv'. split; [done|]. destruct Hspec as [_ Hspec].
  destruct r as [[]|e].
  - destruct Hspec as [(data & H1 & H2)|(-> & _ & Hsc)].
    + split; [apply H2|]. right. eauto.
    + split; [apply Hsc|by left].
  - split; [apply Hspec|]. left. by split.
Qed.

Lemma fast_put_keeps d src s r left_ c :
  books s -> is_Some (accounted (state s) !! d) \/ is_Some (held (inner s) !! d) ->
  cas_put_keyed d src (inner s) = (r, left_, c) ->
  keeps s (update_state (set_fast (fast_release d))
    (set_inner c (update_state (set_fast (fast_register d)) s))).
Proof.
  intros Hb Hheld E. pose proof Hb as (Hv & _ & _ & _ & Hf & _).
  destruct (put_keyed_content _ _ _ _ _ _ Hv E) as (Hvc & Hq & Hcont).
  assert (Hcore : same_core (set_inner c s) (update_state (set_fast (fast_release d))
      (set_inner c (update_state (set_fast (fast_register d)) s)))).
  { repeat split. simpl. apply fast_release_register. rewrite Hf. apply lookup_empty. }
  eapply keeps_core; [|exact Hcore].
  destruct Hcont as [[Hsc _]|(_ & data & _ & Hst)]; [by apply content_keeps|].
  split_and!; [done| |].
  { destruct Hb as (_ & Hb). unfold books. simpl. by rewrite Hq. }
  intros p _ _ Hcov. split; [|simpl; lia].
  assert (Hsome : is_Some (held (inner s) !! d)).
  { destruct Hheld as [[n Hn]|]; [|done]. by eapply Hcov. }
  apply (account_covered d data 0 s c Hcov Hst); [by right|lia].
Qed.

(** The gated write. *)
Lemma slow_put_keeps d src s s' r left_ c mine tripped cap :
  mode (policy s) = WriteOnly (mkWriteOnly cap) -> 0 <= cap < u64_max ->
  books s ->
  cas_put_keyed d (gate_reads cap (committed s) (pending s) 0 src) (inner s) = (r, left_, c) ->
  gate_after cap (committed s) (pending s) 0 false src
    (reads_made (gate_reads cap (committed s) (pending s) 0 src) left_) = (mine, tripped) ->
  s' = (if tripped then set_inner c s
        else match r with Ok () => account d mine (set_inner c s) | Err _ => set_inner c s end) ->
  keeps s s' /\
  (tripped = true -> same_content (inner s) (inner s')) /\
  (forall e, r = Err e -> same_content (inner s) (inner s')).
Proof.
  intros Hm Hcap Hb E Hg ->. pose proof Hb as (Hv & _ & _ & Hp & _).
  destruct (put_keyed_content _ _ _ _ _ _ Hv E) as (Hvc & Hq & Hcont).
  assert (Hbc : books (set_inner c s)).
  { destruct Hb as (_ & Hb). unfold books. simpl. by rewrite Hq. }
  destruct Hcont as [[Hsc Hleft]|(-> & data & Hread & Hst)].
  - assert (Hk : keeps s (set_inner c s)) by (by apply content_keeps).
    destruct tripped; [done|]. destruct r as [[]|e]; [|done].
    rewrite (Hleft eq_refl) in Hg. unfold reads_made in Hg. rewrite Nat.sub_diag in Hg.
    cbn in Hg. simplify_eq. done.
  - edestruct (gate_complete cap (committed s) (pending s) Hcap src 0 false data left_)
      as (Hga & Hfit & _); [lia|exact Hread|reflexivity|].
    rewrite Hg in Hga. injection Hga as -> ->. split; [|done].
    pose proof (zlen_nonneg data) as Hnn. unfold fits in Hfit.
    split_and!; [|by apply account_books|].
    + unfold account. case_bool_decide; [done|]. by destruct (accounted _ !! d).
    + intros p Hp' _ Hcov. split; [apply (account_covered d data); auto; left; lia|].
      pose proof (account_committed d (0 + zlen data) (set_inner c s) Hnn Hbc) as Hle.
      simpl in Hle. rewrite Hm in Hp'. simplify_eq/=. lia.
Qed.

(** Nothing stored and nothing charged. *)
Definition unchanged s s' : Prop :=
  same_content (inner s) (inner s') /\ accounted (state s') = accounted (state s) /\
  quarantined (state s') = quarantined (state s) /\ committed s' = committed s.

Lemma put_keyed_err d src (c : C) e left_ c' :
  cas_valid c -> cas_put_keyed d src c = (Err e, left_, c') -> same_content c c'.
Proof.
  intros Hv E. destruct (put_keyed_content _ _ _ _ _ _ Hv E) as (_ & _ & [[H _]|[? _]]); done.
Qed.

Lemma same_content_trans (c1 c2 c3 : C) :
  same_content c1 c2 -> same_content c2 c3 -> same_content c1 c3.
Proof. intros [H1 H2] [H3 H4]. split; congruence. Qed.

(** The gate's release returns the reservation: outside the write it is invisible. *)
Lemma drop_gate_core mine s1 s2 :
  pending s2 = pending s1 + mine -> same_core s1 (set_pending (pending s1) s2) ->
  same_core s1 (set_pending (pending s2 - mine) s2).
Proof. intros E H. by replace (pending s2 - mine) with (pending s1) by lia. Qed.

Lemma put_keyed_write_only_keeps cap d src s r left_ s' :
  mode (policy s) = WriteOnly (mkWriteOnly cap) -> 0 <= cap < u64_max -> books s ->
  put_keyed_write_only cap d src s = (r, left_, s') ->
  keeps s s' /\ forall e, r = Err e -> unchanged s s'.
Proof.
  intros Hm Hcap Hb E. unfold put_keyed_write_only in E.
  destruct (already_held d s) as [b s1] eqn:Eh.
  destruct (already_held_keeps _ _ _ _ Hb Eh) as (c1 & -> & Hv1 & Hsc1 & Hheld & _).
  pose proof (content_keeps s c1 Hb Hv1 Hsc1) as Hk1. pose proof Hk1 as (_ & Hb1 & _).
  set (s1 := set_inner c1 s) in *.
  destruct b.
  - destruct (cas_put_keyed _ _ _) as [[out unread] c] eqn:Ec. simplify_eq.
    assert (Hh1 : is_Some (accounted (state s1) !! d) \/ is_Some (held (inner s1) !! d)).
    { destruct Hsc1 as [Hh _]. simpl. rewrite Hh. auto. }
    split; [eapply keeps_trans; [exact Hk1|by eapply fast_put_keeps]|].
    intros e ->. apply put_keyed_err in Ec; [|apply Hb1].
    split_and!; [|done..]. by eapply same_content_trans.
  - destruct (cas_put_keyed _ _ _) as [[out unread] c] eqn:Ec.
    destruct (gate_after _ _ _ _ _ _ _) as [mine tripped] eqn:Eg.
    set (s2 := if tripped then set_inner c s1
      else match out with Ok () => account d mine (set_inner c s1) | Err _ => set_inner c s1 end).
    destruct (slow_put_keeps d src s1 s2 out unread c mine tripped cap Hm Hcap Hb1 Ec Eg eq_refl)
      as (Hk2 & Htr & Her).
    assert (Hcore : same_core s2 s' /\ (r = Ok () <-> tripped = false /\ out = Ok ())).
    { unfold s2. destruct tripped; [simplify_eq; split; [|naive_solver];
        split_and!; try done; simpl; lia|].
      destruct out as [[]|e]; simplify_eq; (split; [|naive_solver]).
      - unfold account. case_bool_decide; [split_and!; try done; simpl; lia|]. simpl.
        destruct (accounted (state s) !! d); split_and!; try done; simpl; lia.
      - split_and!; try done; simpl; lia. }
    destruct Hcore as [Hcore Hr]. split.
    + eapply keeps_core; [|exact Hcore]. by eapply keeps_trans.
    + intros e ->. assert (Hs2 : s2 = set_inner c s1 /\ same_content (inner s1) c).
      { unfold s2 in *. destruct tripped; [by split; [|apply Htr]|].
        destruct out as [[]|e']; [naive_solver|]. split; [done|]. by eapply Her. }
      destruct Hs2 as [Hs2 Hsc2]. destruct Hcore as (Hi & _ & Ha & Hq & _ & _ & Hc & _).
      rewrite Hs2 in Hi, Ha, Hq, Hc. unfold unchanged. rewrite Hi, Ha, Hq, Hc. simpl.
      split_and!; [|done..]. by eapply same_content_trans.
Qed.

Lemma put_keyed_keeps d src s r left_ s' :
  (forall p, mode (policy s) = WriteOnly p -> 0 <= capacity p < u64_max) -> books s ->
  put_keyed d src s = (r, left_, s') ->
  keeps s s' /\ forall e, r = Err e -> unchanged s s'.
Proof.
  intros Hcap Hb E. unfold put_keyed in E. destruct (mode (policy s)) as [p|[cap]] eqn:Hm.
  - destruct (cas_put_keyed d src (inner s)) as [[out unread] c] eqn:Ec.
    destruct (put_keyed_content _ _ _ _ _ _ (proj1 Hb) Ec) as (Hvc & Hq & Hcont).
    assert (Hk : keeps s (set_inner c s)).
    { split_and!; [done| |intros q Hq'; congruence].
      destruct Hb as (_ & Hb). unfold books. simpl. by rewrite Hq. }
    destruct out as [[]|e]; simplify_eq.
    + split; [|done]. eapply keeps_core; [exact Hk|apply after_write_core].
    + split; [done|]. intros e' _. apply put_keyed_err in Ec; [|apply Hb]. by split_and!.
  - destruct (put_keyed_write_only (capacity _) d src s) as [[out unread] s1] eqn:Ec.
    apply put_keyed_write_only_keeps in Ec as [Hk Her]; [|done|by eapply Hcap|done].
    destruct out as [[]|e]; simplify_eq.
    + split; [|done]. eapply keeps_core; [exact Hk|apply after_write_core].
    + split; [done|]. intros e' [= <-]. by eapply Her.
Qed.

Lemma put_keeps src s r left_ s' :
  (forall p, mode (policy s) = WriteOnly p -> 0 <= capacity p < u64_max) -> books s ->
  put src s = (r, left_, s') ->
  keeps s s' /\ forall e, r = Err e -> unchanged s s'.
Proof.
  intros Hcap Hb E. unfold put in E. destruct (mode (policy s)) as [p|p] eqn:Hm.
  - destruct (law_put src (inner s) (proj1 Hb)) as [Hspec Hvc]. unfold put_spec in Hspec.
    destruct (cas_put src (inner s)) as [[out unread] c] eqn:Ec. simpl in Hvc.
    assert (Hk : quarantined_at c = quarantined_at (inner s) -> keeps s (set_inner c s)).
    { intros Hq. split_and!; [done| |intros q Hq'; congruence].
      destruct Hb as (_ & Hb). unfold books. simpl. by rewrite Hq. }
    destruct out as [d|e]; simplify_eq.
    + destruct Hspec as (data & _ & _ & (_ & Hq & _)). split; [|done].
      eapply keeps_core; [by apply Hk|apply after_write_core].
    + split; [apply Hk, Hspec|]. by intros e' _.
  - destruct (read_to_end src) as [[body|e] unread].
    + destruct (put_keyed _ _ s) as [[out unread'] s1] eqn:Ec. simplify_eq.
      apply put_keyed_keeps in Ec as [Hk Her]; [|by rewrite Hm|done].
      split; [done|]. destruct out as [[]|e']; [done|]. intros e _. by eapply Her.
    + simplify_eq. split; [by apply keeps_refl|]. by repeat split.
Qed.

Lemma quarantine_keeps d s r s' : books s -> quarantine d s = (r, s') -> keeps s s'.
Proof.
  intros Hb E. unfold quarantine in E. case_bool_decide; [simplify_eq; by apply keeps_refl|].
  unfold on_inner in E. pose proof Hb as (Hv & Hc & Hm & Hp & Hf & Ha & Hqn & Hq).
  destruct (law_quarantine d (inner s) Hv) as [Hspec Hvc]. unfold quarantine_spec in Hspec.
  destruct (cas_quarantine d (inner s)) as [[[q|]|e] c]; simpl in Hvc; simplify_eq;
    [|apply content_keeps; [done|done|apply Hspec]|by apply content_keeps].
  destruct Hspec as (data & Hd & Hh & _ & Hsz & Hfresh & Hq').
  destruct (msum_credit (accounted (state s)) d Ha) as [Hcr Hdel].
  pose proof (msum_nonneg _ Hqn) as Hqsum. pose proof (zlen_nonneg data) as Hlen.
  assert (Hsub : sat_sub64 (st_committed (state s)) (default 0 (accounted (state s) !! d)) =
    st_committed (state s) - default 0 (accounted (state s) !! d)) by (unfold sat_sub64; lia).
  split_and!; [done| |].
  - unfold books. simpl. rewrite Hsub, Hdel.
    rewrite msum_insert by (rewrite Hq; exact Hfresh).
    split_and!; try done; [lia|by apply map_Forall_delete| |].
    + apply map_Forall_insert_2; [lia|done].
    + by rewrite Hq', Hq.
  - intros p _ _ [Hcov Hheld]. split; [split|]; simpl.
    + rewrite Hh. intros d' data' [Hne Hd']%lookup_delete_Some.
      rewrite lookup_delete_ne by done. by apply Hcov.
    + intros d' n [Hne Hd']%lookup_delete_Some. rewrite Hh, lookup_delete_ne by done.
      by eapply Hheld.
    + rewrite Hsub. destruct (Hcov d data Hd) as [_ Hle]. lia.
Qed.

Lemma reclaim_corrupt_keeps d s r s' : books s -> reclaim_corrupt d s = (r, s') -> keeps s s'.
Proof.
  intros Hb E. unfold reclaim_corrupt, on_inner in E.
  pose proof Hb as (Hv & Hc & Hm & Hp & Hf & Ha & Hqn & Hq).
  destruct (law_reclaim_if_corrupt d (inner s) Hv) as [Hspec Hvc].
  unfold reclaim_if_corrupt_spec in Hspec.
  destruct (reclaim_if_corrupt d (inner s)) as [[[]|e] c]; simpl in Hvc; simplify_eq;
    [|apply content_keeps; [done..|]; split; apply Hspec|by apply content_keeps].
  destruct Hspec as [[Hbad _] [Hq' Hh]]. destruct (Hbad eq_refl) as (data & Hd & Hver).
  destruct (msum_credit (accounted (state s)) d Ha) as [Hcr Hdel].
  pose proof (msum_nonneg _ Hqn) as Hqsum.
  assert (Hsub : sat_sub64 (st_committed (state s)) (default 0 (accounted (state s) !! d)) =
    st_committed (state s) - default 0 (accounted (state s) !! d)) by (unfold sat_sub64; lia).
  split_and!; [done| |].
  - unfold books. simpl. rewrite Hsub, Hdel.
    split_and!; try done; [lia|by apply map_Forall_delete|by rewrite Hq', Hq].
  - intros p _ _ [Hcov _]. destruct (Hcov d data Hd). congruence.
Qed.

Lemma evict_keeps rs orc s r s' : books s -> evict_to_budget rs orc s = (r, s') -> keeps s s'.
Proof.
  intros Hb E. destruct (mode (policy s)) as [p|p] eqn:Hm.
  2:{ unfold evict_to_budget in E. rewrite Hm in E. simplify_eq. by apply keeps_refl. }
  destruct rs as [rs|e].
  2:{ unfold evict_to_budget in E. rewrite Hm in E. simplify_eq. by apply keeps_refl. }
  assert (Hfin : forall s', cas_valid (inner s') ->
    quarantined_at (inner s') = quarantined_at (inner s) -> same_books s s' -> keeps s s').
  { intros s1 Hv Hq (Hp & _ & _ & _ & Ha & Hqq & Hf & Hc & Hm1 & Hpe).
    split_and!; [done| |intros q Hq'; congruence].
    destruct Hb as (_ & Hb). unfold books. by rewrite Hq, Ha, Hqq, Hf, Hc, Hm1, Hpe. }
  destruct (evict_to_budget_run _ _ p _ _ _ (proj1 Hb) Hm E) as
    [e s' Hv [_ Hq] Hbk|s' _ Hv [_ Hq] Hbk|local rep sole n r s' _ _ _ (_ & Hv & _ & Hq & Hbk) _ _];
    by apply Hfin.
Qed.

Lemma get_keeps d s r s' : books s -> get d s = (r, s') -> keeps s s'.
Proof.
  intros Hb E. unfold get in E. destruct (on_inner (cas_get d) s) as [r1 s1] eqn:Eo.
  assert (Hk : keeps s s1).
  { eapply on_inner_keeps; [done| |exact Eo]. intros c Hc.
    destruct (law_get d c Hc) as [Hspec Hv]. split; [|done]. unfold get_spec in Hspec.
    by destruct (cas_get d c) as [? ?], Hspec. }
  destruct r1; simplify_eq; [|done]. eapply keeps_core; [exact Hk|by repeat split].
Qed.

(** ** Any sequence of operations *)

Inductive store_op :=
| OpPut (src : source)
| OpPutKeyed (d : Digest) (src : source)
| OpGet (d : Digest)
| OpHas (d : Digest)
| OpSize (d : Digest)
| OpReplicate (d : Digest)
| OpCommitted (d : Digest)
| OpAbandon (d : Digest)
| OpVerify (d : Digest)
| OpQuarantine (d : Digest)
| OpReclaimCorrupt (d : Digest)
| OpEvict (rs : result BackendError RootSet) (orc : oracle)
| OpTick (by_ : Z).

Definition run_op s (op : store_op) : CasStore C T :=
  match op with
  | OpPut src => (put src s).2
  | OpPutKeyed d src => (put_keyed d src s).2
  | OpGet d => (get d s).2
  | OpHas d => (has d s).2
  | OpSize d => (Store.size d s).2
  | OpReplicate d => (ensure_replicated d s).2
  | OpCommitted d => commit d s
  | OpAbandon d => abandon d s
  | OpVerify d => (verify_local d s).2
  | OpQuarantine d => (quarantine d s).2
  | OpReclaimCorrupt d => (reclaim_corrupt d s).2
  | OpEvict rs orc => (evict_to_budget rs orc s).2
  | OpTick by_ => set_clock (advance by_ (clock s)) s
  end.

Definition run_ops : CasStore C T -> list store_op -> CasStore C T := foldl run_op.

(** A capacity is a [u64]; the top value, which no store can reach, is left out. *)
Definition policy_ok (pol : RetentionPolicy) : Prop :=
  forall p, mode pol = WriteOnly p -> 0 <= capacity p < u64_max.

Lemma on_inner_op_keeps {A} (op : M BackendError C A) s :
  books s -> (forall c, cas_valid c -> same_content c (op c).2 /\ cas_valid (op c).2) ->
  keeps s (on_inner op s).2.
Proof. intros Hb Hop. eapply on_inner_keeps; [done|exact Hop|apply surjective_pairing]. Qed.

Lemma run_op_keeps s op : policy_ok (policy s) -> books s -> keeps s (run_op s op).
Proof.
  intros Hpol Hb. destruct op as [src|d src|d|d|d|d|d|d|d|d|d|rs orc|k]; simpl.
  - destruct (put src s) as [[r l] s'] eqn:E. by eapply put_keeps.
  - destruct (put_keyed d src s) as [[r l] s'] eqn:E. by eapply put_keyed_keeps.
  - eapply get_keeps; [done|apply surjective_pairing].
  - apply on_inner_op_keeps; [done|]. intros c Hc. destruct (law_has d c Hc) as [Hspec Hv].
    split; [|done]. unfold has_spec in Hspec. by destruct (cas_has d c) as [? ?], Hspec.
  - apply on_inner_op_keeps; [done|]. intros c Hc. destruct (law_size d c Hc) as [Hspec Hv].
    split; [|done]. unfold size_spec in Hspec. by destruct (cas_size d c) as [? ?], Hspec.
  - apply on_inner_op_keeps; [done|]. intros c Hc. by apply law_ensure_replicated.
  - apply same_core_keeps; [by repeat split|done].
  - apply same_core_keeps; [by repeat split|done].
  - apply on_inner_op_keeps; [done|]. intros c Hc. destruct (law_verify d c Hc) as [Hspec Hv].
    split; [|done]. unfold verify_spec in Hspec. by destruct (cas_verify d c) as [? ?], Hspec.
  - eapply quarantine_keeps; [done|apply surjective_pairing].
  - eapply reclaim_corrupt_keeps; [done|apply surjective_pairing].
  - eapply evict_keeps; [done|apply surjective_pairing].
  - apply same_core_keeps; [by repeat split|done].
Qed.

Lemma run_ops_keeps ops s : policy_ok (policy s) -> books s -> keeps s (run_ops s ops).
Proof.
  revert s. induction ops as [|op ops IH]; intros s Hpol Hb; [by apply keeps_refl|].
  pose proof (run_op_keeps s op Hpol Hb) as Hk. eapply keeps_trans; [exact Hk|].
  apply IH; [|apply Hk]. destruct Hk as (Hp & _). by rewrite Hp.
Qed.

Lemma retained_committed s : books s -> covered s -> retained s <= committed s.
Proof.
  intros (_ & Hc & Hm & _ & _ & Ha & _ & Hq) [Hcov _]. unfold retained, total.
  rewrite <- Hq, Hm, Hc. enough (msum (zlen <$> held (inner s)) <= msum (accounted (state s)))
    by lia.
  apply msum_le; [done|]. intros d n. rewrite lookup_fmap.
  destruct (held (inner s) !! d) as [data|] eqn:E; [|done]. intros [= <-]. by apply Hcov.
Qed.

(** ** Opening a store *)

Lemma seed_blobs_spec now blobs st :
  NoDup (lb_digest <$> blobs) -> (forall b, b ∈ blobs -> accounted st !! lb_digest b = None) ->
  let st' := foldl (seed_blob now) st blobs in
  st_committed st' - msum (accounted st') = st_committed st - msum (accounted st) /\
  (forall d n, accounted st' !! d = Some n <->
    accounted st !! d = Some n \/ mkLocalBlob d n ∈ blobs) /\
  quarantined st' = quarantined st /\ fast_inflight st' = fast_inflight st.
Proof.
  revert st. induction blobs as [|b blobs IH]; intros st Hnd Hfresh; simpl.
  - split_and!; [done| |done|done]. intros d n. set_solver.
  - csimpl in Hnd. apply NoDup_cons in Hnd as [Hn Hnd].
    pose proof (Hfresh b ltac:(by left)) as Hb.
    destruct (IH (seed_blob now st b)) as (H1 & H2 & H3 & H4); [done| |].
    { intros b' Hb'. simpl. rewrite lookup_insert_ne; [apply Hfresh; by right|].
      intros E. apply Hn. rewrite E. by apply list_elem_of_fmap_2. }
    simpl in H1, H3, H4. split_and!; [|intros d n; rewrite H2; simpl|done|done].
    + rewrite H1. rewrite msum_insert by done. lia.
    + rewrite lookup_insert_Some, elem_of_cons. destruct b as [k z]. simpl in *. split.
      * intros [[[<- <-]|[_ ?]]|?]; auto.
      * intros [Hd|[Heq|?]]; [|naive_solver|by right]. left. right. split; [|done].
        intros ->. congruence.
Qed.

Lemma seed_quarantined_spec qs st :
  NoDup (q_id <$> qs) -> (forall q, q ∈ qs -> quarantined st !! q_id q = None) ->
  let st' := foldl seed_quarantined st qs in
  st_committed st' - msum (quarantined st') = st_committed st - msum (quarantined st) /\
  (forall i n, quarantined st' !! i = Some n <->
    quarantined st !! i = Some n \/ (i, n) ∈ (fun q => (q_id q, q_size q)) <$> qs) /\
  accounted st' = accounted st /\ fast_inflight st' = fast_inflight st.
Proof.
  revert st. induction qs as [|q qs IH]; intros st Hnd Hfresh; csimpl.
  - split_and!; [done| |done|done]. intros i n. set_solver.
  - csimpl in Hnd. apply NoDup_cons in Hnd as [Hn Hnd].
    pose proof (Hfresh q ltac:(by left)) as Hq.
    destruct (IH (seed_quarantined st q)) as (H1 & H2 & H3 & H4); [done| |].
    { intros q' Hq'. simpl. rewrite lookup_insert_ne; [apply Hfresh; by right|].
      intros E. apply Hn. rewrite E. by apply list_elem_of_fmap_2. }
    simpl in H1, H3, H4. split_and!; [|intros i n; rewrite H2; simpl|done|done].
    + rewrite H1. rewrite msum_insert by done. lia.
    + rewrite lookup_insert_Some, elem_of_cons. split.
      * intros [[[<- <-]|[_ ?]]|?]; auto.
      * intros [Hd|[Heq|?]]; [|naive_solver|by right]. left. right. split; [|done].
        intros <-. congruence.
Qed.

Lemma listing_accounted c blobs d n :
  blobs ≡ₚ (fun kv => mkLocalBlob kv.1 (zlen kv.2)) <$> map_to_list (held c) ->
  mkLocalBlob d n ∈ blobs <-> exists data, held c !! d = Some data /\ n = zlen data.
Proof.
  intros Hp. rewrite Hp, list_elem_of_fmap. split.
  - intros ([k data] & [= -> ->] & Hin). apply elem_of_map_to_list in Hin. eauto.
  - intros (data & Hd & ->). exists (d, data). split; [done|]. by apply elem_of_map_to_list.
Qed.

Lemma new_spec c pol rt clk m s :
  cas_valid c -> new c pol rt clk m = Ok s ->
  books s /\ policy s = pol /\ same_content c (inner s) /\ committed s = retained s /\
  ((forall d data, held c !! d = Some data -> verify d data = true) -> covered s).
Proof.
  intros Hv E. unfold new in E.
  destruct (law_iter_local c Hv) as [Hs1 Hv1]. unfold iter_local_spec in Hs1.
  destruct (iter_local c) as [[blobs|e] c1]; [|done]. simpl in Hv1.
  destruct Hs1 as [Hsc1 Hlist]. rewrite bind_Ok_l in E.
  destruct (law_iter_quarantine c1 Hv1) as [Hs2 Hv2]. unfold iter_quarantine_spec in Hs2.
  destruct (iter_quarantine c1) as [[qs|e] c2]; [|done]. simpl in Hv2.
  destruct Hs2 as [Hsc2 [Hqs Hqn]]. rewrite bind_Ok_l in E. injection E as <-.
  assert (Hnd : NoDup (lb_digest <$> blobs)).
  { rewrite Hlist, <- list_fmap_compose.
    change (NoDup ((fun kv : Digest * list byte => kv.1) <$> map_to_list (held c))).
    apply NoDup_fst_map_to_list. }
  destruct (seed_blobs_spec (clock_now clk) blobs state_default Hnd) as (H1 & H2 & H3 & H4);
    [done|]. set (st1 := foldl (seed_blob _) _ _) in *.
  assert (Hndq : NoDup (q_id <$> qs)).
  { pose proof (NoDup_fst_map_to_list (quarantined_at c1)) as Hn. rewrite <- Hqs in Hn.
    by rewrite <- list_fmap_compose in Hn. }
  destruct (seed_quarantined_spec qs st1 Hndq) as (K1 & K2 & K3 & K4).
  { intros q _. rewrite H3. done. }
  set (st2 := foldl seed_quarantined st1 qs) in *. simpl in H1, H3, H4.
  rewrite (msum_empty (K := Digest)) in H1.
  rewrite H3, (msum_empty (K := list byte)) in K1. destruct Hsc1 as [Hh1 Hq1], Hsc2 as [Hh2 Hq2].
  assert (Hqq : quarantined st2 = quarantined_at c2).
  { rewrite Hq2. apply map_eq. intros i. apply option_eq. intros n.
    rewrite K2, H3, lookup_empty, Hqs, elem_of_map_to_list. naive_solver. }
  assert (Hacc : forall d n, accounted st2 !! d = Some n <->
      exists data, held c !! d = Some data /\ n = zlen data).
  { intros d n. rewrite K3, H2. rewrite (listing_accounted c) by done. naive_solver. }
  assert (Hmap : accounted st2 = zlen <$> held c).
  { apply map_eq. intros d. apply option_eq. intros n. rewrite Hacc, lookup_fmap, fmap_Some. done. }
  split_and!; [|done|by split; simpl; congruence| |].
  2:{ unfold retained, total. simpl. rewrite Hh2, Hh1, <- Hmap, <- Hqq, K3. lia. }
  - unfold books. simpl. rewrite K3. split_and!; try done; [lia|by rewrite K4| | ].
    + intros d n Hd. rewrite <- K3 in Hd. apply Hacc in Hd as (data & _ & ->). apply zlen_nonneg.
    + intros i n Hi. apply K2 in Hi as [Hi|Hi]; [by rewrite H3 in Hi|].
      apply list_elem_of_fmap in Hi as (q & [= -> ->] & Hq).
      rewrite Forall_forall in Hqn. by apply Hqn.
  - intros Hver. unfold covered. simpl. rewrite Hh2, Hh1. split.
    + intros d data Hd. split; [by apply Hver|].
      assert (accounted st2 !! d = Some (zlen data)) as -> by (apply Hacc; eauto). done.
    + intros d n (data & Hd & _)%Hacc. by eexists.
Qed.

(** ** Properties *)

(** C21. The books balance, always.  Open a store on any backend and run any sequence
    of operations (writes that succeed or fail, reads, scrubs, evictions): the
    committed total is exactly what is charged to blobs plus what sits in
    quarantine, its lock-free mirror agrees, no reservation and no in-flight
    registration is left behind, and the quarantine register is the backend's. *)
Theorem books_balance (c : C) (pol : RetentionPolicy) (rt : T) (clk : MockClock) (m : PeerId)
    (s : CasStore C T) (ops : list store_op) :
  cas_valid c -> policy_ok pol -> new c pol rt clk m = Ok s ->
  let s' := run_ops s ops in
  st_committed (state s') = msum (accounted (state s')) + msum (quarantined (state s')) /\
  committed_bytes s' = st_committed (state s') /\ pending s' = 0 /\
  fast_inflight (state s') = ∅ /\ quarantined (state s') = quarantined_at (inner s').
Proof.
  intros Hv Hpol Hnew. destruct (new_spec _ _ _ _ _ _ Hv Hnew) as (Hb & Hp & _).
  destruct (run_ops_keeps ops s) as (_ & (_ & H1 & H2 & H3 & H4 & _ & _ & H5) & _); [by rewrite Hp|done|].
  done.
Qed.

(** C2. A write-only store respects its capacity.  Opened on a backend whose blobs
    are intact (each verifies against its digest), with a capacity below [u64::MAX], and
    through any sequence of operations, everything the node retains (blobs and quarantined
    copies) is charged, and stays within the capacity, or within what was already there when
    the store opened.  A blob damaged at opening escapes this: StoreDisk.v. *)
Theorem write_only_capacity (c : C) (cap : Z) (rt : T) (clk : MockClock) (m : PeerId)
    (s : CasStore C T) (ops : list store_op) :
  cas_valid c -> 0 <= cap < u64_max ->
  (forall d data, held c !! d = Some data -> verify d data = true) ->
  new c (write_only cap) rt clk m = Ok s ->
  retained (run_ops s ops) <= committed_bytes (run_ops s ops) <= Z.max cap (retained s).
Proof.
  intros Hv Hcap Hver Hnew.
  destruct (new_spec _ _ _ _ _ _ Hv Hnew) as (Hb & Hp & _ & Hret & Hcov).
  destruct (run_ops_keeps ops s) as (_ & Hb' & Hk); [|done|].
  { intros p. rewrite Hp. by intros [= <-]. }
  destruct (Hk (mkWriteOnly cap)) as [Hcov' Hle]; [by rewrite Hp|done|by apply Hcov|].
  split; [by apply retained_committed|]. unfold committed_bytes. simpl in Hle. lia.
Qed.

(** C33. A failed write changes nothing: when [put] or [put_keyed] returns an error, for
    whatever reason and in either mode, the backend's content, the charges, the
    quarantine register and the committed total are as before. *)
Theorem failed_write_changes_nothing (s : CasStore C T) (d : Digest) (src : source) :
  policy_ok (policy s) -> books s ->
  (forall e left_ s', put_keyed d src s = (Err e, left_, s') -> unchanged s s') /\
  (forall e left_ s', put src s = (Err e, left_, s') -> unchanged s s').
Proof.
  intros Hpol Hb. split; intros e left_ s' E.
  - eapply put_keyed_keeps; [exact Hpol|done|exact E|done].
  - eapply put_keeps; [exact Hpol|done|exact E|done].
Qed.
End store.

Section mem.
Context {Hs : Hashers} {Hl : HasherLaws Hs} {T : Type} {Rt : ContentRouter T}.
Implicit Type s : CasStore Mem.MemCas T.

(** Admission is exact.  On the in-memory backend, a write-only store given a
    new blob through any readable source accepts it precisely when [admits] says
    its size fits: accepted, the blob is held, charged at its size and guarded
    until committed; refused, nothing is stored and the error reports the bytes
    held and, as [incoming], only the part of the write that had been let in
    before the refusal, so that [used + incoming] does not pass the capacity. *)
Theorem write_only_admission s (cap : Z) (d : Digest) (src : source) (data : list byte)
    (rest : source) :
  0 <= cap < u64_max -> mode (policy s) = WriteOnly (mkWriteOnly cap) -> books s ->
  accounted (state s) !! d = None -> Mem.blobs (inner s) !! d = None ->
  read_to_end src = (Ok data, rest) -> verify d data = true ->
  let '(r, _, s') := put_keyed d src s in
  if admits (zlen data) s then
    r = Ok () /\ Mem.blobs (inner s') = <[d := data]> (Mem.blobs (inner s)) /\
    committed_bytes s' = committed_bytes s + zlen data /\ d ∈ in_flight (state s')
  else
    (exists incoming, r = Err (CapacityExceeded (committed_bytes s) incoming cap) /\
      (incoming = 0 \/ committed_bytes s + incoming <= cap)) /\
    Mem.blobs (inner s') = Mem.blobs (inner s) /\ committed_bytes s' = committed_bytes s.
Proof.
  intros Hcap Hm Hb Ha Hd Hread Hver. pose proof Hb as (Hv & Hc & Hmir & Hp & Hf & Hacc & Hqn & Hq).
  pose proof (msum_nonneg _ Hacc). pose proof (msum_nonneg _ Hqn). pose proof (zlen_nonneg data).
  assert (Hadm : admits (zlen data) s = bool_decide (fits cap (committed s) (pending s) 0 (zlen data))).
  { unfold admits. rewrite Hm. unfold fits. cbn [capacity]. rewrite Hp.
    apply bool_decide_ext. unfold sat_add64, u64_max in *. lia. }
  rewrite Hadm. clear Hadm. unfold put_keyed. rewrite Hm. cbn [capacity]. unfold put_keyed_write_only.
  assert (Hah : already_held d s = (false, s)).
  { unfold already_held. rewrite Ha, bool_decide_false by (by intros [? ?]).
    unfold on_inner. simpl. rewrite Hd. by destruct s. }
  rewrite Hah. cbn [cas_put_keyed Mem.mem_backend]. unfold Mem.put_keyed.
  destruct (decide (fits cap (committed s) (pending s) 0 (zlen data))) as [Hfit|Hfit].
  - rewrite (bool_decide_true _ Hfit).
    destruct (gate_admits cap (committed s) (pending s) Hcap src 0 data rest) as [unread Hg];
      [done|done|lia|]. rewrite Hg, Hver.
    edestruct (gate_complete cap (committed s) (pending s) Hcap src 0 false data unread)
      as (Hga & _); [lia|exact Hg|reflexivity|]. rewrite Hga. simpl.
    unfold account. simpl. unfold Mem.or_insert. rewrite Hd. rewrite Ha.
    case_bool_decide as Hz; simpl; (split_and!; [done|done| |set_solver]);
      unfold committed_bytes; simpl; lia.
  - rewrite (bool_decide_false _ Hfit).
    destruct (gate_refuses cap (committed s) (pending s) Hcap src 0 false data rest)
      as (unread & Hg & Ht); [done|done|lia|]. rewrite Hg.
    destruct (gate_after _ _ _ _ _ _ _) as [mine tripped] eqn:Eg. simpl in Ht. subst tripped.
    apply gate_after_fits in Eg; [|done].
    split_and!; [|done|done]. exists mine. split; [done|].
    unfold committed_bytes. destruct Eg; [by left|right; lia].
Qed.
End mem.

(** ** Witnesses *)

Module StoreExample.
Import Checksum.

Definition me : PeerId := mkPeerId (bs "me").
Definition blob : list byte := bs "0123456789".
Definition chunked : source := [RData (bs "01234"); RErr (mkIoError Interrupted []); RData (bs "56789")].
Definition backend : Mem.MemCas := Mem.mkMemCas {[compute (bs "old") := bs "old"]}.

Definition opened (cap : Z) : result BackendError (CasStore Mem.MemCas Swarm.MemRouter) :=
  new backend (write_only cap) (Swarm.new me) (clock_at 0) me.

Definition store (cap : Z) : CasStore Mem.MemCas Swarm.MemRouter :=
  match opened cap with
  | Ok s => s
  | Err _ => mkStore backend (write_only cap) (Swarm.new me) (clock_at 0) me state_default 0 0
  end.

Definition ops : list store_op :=
  [OpPut chunked; OpPut (cursor (bs "more than fits")); OpQuarantine (compute blob);
   OpReclaimCorrupt (compute (bs "old")); OpPutKeyed (compute blob) chunked].

Lemma backend_valid : cas_valid backend.
Proof.
  change (map_Forall (fun d b => verify d b = true) (Mem.blobs backend)).
  apply (bool_decide_unpack _). vm_compute. exact I.
Defined.

Lemma opened_eq cap : opened cap = Ok (store cap).
Proof. reflexivity. Defined.

(** The refused write reports no incoming bytes at all: it was refused at its first
    read. *)
Example refused_incoming :
  (put (cursor (bs "more than fits")) (store 13)).1.1 = Err (CapacityExceeded 3 0 13).
Proof. vm_compute. reflexivity. Qed.

Theorem books_balance_witness :
  let s' := run_ops (store 13) ops in
  st_committed (state s') = msum (accounted (state s')) + msum (quarantined (state s')).
Proof.
  refine (proj1 (books_balance backend (write_only 13) (Swarm.new me) (clock_at 0) me
    (store 13) ops backend_valid _ (opened_eq 13))).
  intros p [= <-]. vm_compute. split; congruence.
Defined.

Theorem write_only_capacity_witness :
  retained (run_ops (store 13) ops) <= committed_bytes (run_ops (store 13) ops) <=
    Z.max 13 (retained (store 13)).
Proof.
  apply (write_only_capacity backend 13 (Swarm.new me) (clock_at 0) me (store 13) ops
    backend_valid).
  - vm_compute. split; congruence.
  - exact backend_valid.
  - exact (opened_eq 13).
Defined.

Lemma store_books : books (store 13).
Proof.
  exact (proj1 (new_spec backend (write_only 13) (Swarm.new me) (clock_at 0) me (store 13)
    backend_valid (opened_eq 13))).
Defined.

Theorem failed_write_changes_nothing_witness :
  unchanged (store 13) (put (cursor (bs "more than fits")) (store 13)).2.
Proof.
  refine (proj2 (failed_write_changes_nothing (store 13) (compute blob)
    (cursor (bs "more than fits")) _ store_books)
    (CapacityExceeded 3 0 13) (put (cursor (bs "more than fits")) (store 13)).1.2 _ _).
  - intros p [= <-]. vm_compute. split; congruence.
  - rewrite <- refused_incoming. by destruct (put _ _) as [[? ?] ?].
Defined.

Theorem write_only_admission_witness :
  let '(r, _, s') := put_keyed (compute blob) chunked (store 13) in
  if admits (zlen blob) (store 13) then
    r = Ok () /\ Mem.blobs (inner s') = <[compute blob := blob]> (Mem.blobs (inner (store 13))) /\
    committed_bytes s' = committed_bytes (store 13) + zlen blob /\ compute blob ∈ in_flight (state s')
  else
    (exists incoming, r = Err (CapacityExceeded (committed_bytes (store 13)) incoming 13) /\
      (incoming = 0 \/ committed_bytes (store 13) + incoming <= 13)) /\
    Mem.blobs (inner s') = Mem.blobs (inner (store 13)) /\
    committed_bytes s' = committed_bytes (store 13).
Proof.
  apply (write_only_admission (store 13) 13 (compute blob) chunked blob []).
  - vm_compute. split; congruence.
  - reflexivity.
  - exact store_books.
  - vm_compute. reflexivity.
  - vm_compute. reflexivity.
  - vm_compute. reflexivity.
  - vm_compute. reflexivity.
Defined.
End StoreExample.
