(* ===== verification/Pins.v ===== *)
(** Persistent pins: crates/nessie-store/src/cas_node/refs.rs and the parts of
    cas_node.rs it stands on (the node without peers: its own store is its local one,
    and no mirror waits for copies).  Whole nodes and their maintenance are Node.v's;
    what their runs do to the pins is shown in NodePins.v.

    The pin set lives in the store itself as a [Tree]; the file [refs/roots] names that
    tree's digest.  The ref directory is two files, the ref and the temporary one it is
    replaced from; a [pub_fault] is where replacing it fails, or where the process dies
    doing so, and [sync] is what syncing the directory afterwards returns. *)

From Stdlib Require Import ZArith Lia.
From stdpp Require Import base list gmap sets.
From S2P Require Import Prelude Ordered Text Digest Errors Cursor Canonical Cas Store Reach Evict.
From S2P Require Import StoreInv.

Local Open Scope Z_scope.

(** ** The ref directory *)

Record RefDir := mkRefDir { roots_file : option (list byte); roots_tmp : option (list byte) }.

Inductive pub_fault := FailDir | FailCreate | FailWrite (written : nat) | FailSync | FailRename.

Definition lf : byte := z2b 10.

(** [writeln!(file, "{tree}")] *)
Definition ref_line (tree : Digest) : list byte := to_string tree ++ [lf].

Definition pub_error : io_error := io_other (bs "publish").

(** [publish_ref]: temp, fsync, rename; only the rename touches the ref. *)
Definition publish_ref (fault : option pub_fault) (tree : Digest) (dir : RefDir) :
    result io_error () * RefDir :=
  match fault with
  | Some FailDir | Some FailCreate => (Err pub_error, dir)
  | Some (FailWrite n) =>
      (Err pub_error, mkRefDir (roots_file dir) (Some (firstn n (ref_line tree))))
  | Some FailSync | Some FailRename =>
      (Err pub_error, mkRefDir (roots_file dir) (Some (ref_line tree)))
  | None => (Ok (), mkRefDir (Some (ref_line tree)) None)
  end.

(** ** The tree of pins *)

(** One entry per pin, named by the pin's digest text. *)
Definition pin_entry (d : Digest) : list byte * Tree.TreeEntry :=
  (to_string d, Tree.mkTreeEntry d (Tree.File false)).

Definition root_tree (pins : gset Digest) : Tree.t := Tree.mk (bt_collect (pin_entry <$> bt_iter pins)).

(** Why the pins do not load: what [anyhow] carries. *)
Inductive LoadError :=
| Unreadable (e : io_error)
| NotADigest (e : DigestParseError)
| Backend (e : BackendError)
| Misnamed (name : list byte) (d : Digest).

(** An operation of the local store, its error carried along. *)
Definition backend {S A} (op : M BackendError S A) : M LoadError S A := fun s =>
  let '(r, s') := op s in (map_err Backend r, s').

(** The loop over a tree's entries: every name must be its digest's text. *)
Fixpoint collect_pins (entries : list (list byte * Tree.TreeEntry)) (pins : gset Digest) :
    result LoadError (gset Digest) :=
  match entries with
  | [] => Ok pins
  | (name, entry) :: rest =>
      if bool_decide (name = to_string (Tree.te_digest entry))
      then collect_pins rest (pins ∪ {[Tree.te_digest entry]})
      else Err (Misnamed name (Tree.te_digest entry))
  end.

Section load.
(** [node.local()]: a read that asks no peer. *)
Context {Hs : Hashers} {S : Type} (local_get : Digest -> M BackendError S source).

Definition read_tree (text : list byte) :
    M LoadError S (gset Digest * option Digest) :=
  tree ← lift (map_err NotADigest (from_str (default text (strip_suffix [lf] text))));
  reader ← backend (local_get tree);
  bytes ← lift (map_err Unreadable (read_to_end reader).1);
  t ← lift (map_err Backend (Tree.from_canonical_bytes bytes));
  pins ← lift (collect_pins (Tree.entries t) ∅);
  mret (pins, Some tree).

(** The pins a node starts with: none if there is no ref yet.  [io] is how reading an
    existing ref file went. *)
Definition load (io : result io_error ()) (dir : RefDir) :
    M LoadError S (gset Digest * option Digest) :=
  match roots_file dir with
  | None => mret (∅, None)
  | Some text =>
      lift (map_err Unreadable io) ≫= fun _ =>
      text ← lift (ok_or (from_utf8 text) (Unreadable (io_other (bs "stream did not contain valid UTF-8"))));
      read_tree text
  end.
End load.

Section pins.
Context {C T : Type} {Hs : Hashers} {B : CasBackend C} {R : ReclaimableCas C}
  {Rt : ContentRouter T}.

(** ** The node *)

Record CasNode := mkNode {
  store : CasStore C T;
  registry : RootRegistry;
  refs : option RefDir;
  unsynced : bool;
}.

Inductive pin_change := PinInsert (d : Digest) | PinRemove (d : Digest).

(** [BTreeSet::insert] and [remove], and whether they changed the set. *)
Definition change_pins (c : pin_change) (pins : gset Digest) : bool * gset Digest :=
  match c with
  | PinInsert d => (negb (bool_decide (d ∈ pins)), pins ∪ {[d]})
  | PinRemove d => (bool_decide (d ∈ pins), pins ∖ {[d]})
  end.

Definition sync_error : BackendError := Internal (bs "published, durability unconfirmed").

(** [sync_refs] *)
Definition sync_refs (sync : result io_error ()) (n : CasNode) : result BackendError () * CasNode :=
  match sync with
  | Ok () => (Ok (), mkNode (store n) (registry n) (refs n) false)
  | Err _ => (Err sync_error, n)
  end.

Definition apply_pins (fault : option pub_fault) (sync : result io_error ()) (change : pin_change)
    (n : CasNode) : result BackendError () * CasNode :=
  let '(changed, new_pins) := change_pins change (pins (registry n)) in
  if negb changed then
    match refs n with
    | Some _ => if unsynced n then sync_refs sync n else (Ok (), n)
    | None => (Ok (), n)
    end
  else
    match refs n with
    | None => (Ok (), mkNode (store n) (replace new_pins None (registry n)) None (unsynced n))
    | Some dir =>
        let '(r, _, st) := put (cursor (Tree.to_canonical_bytes (root_tree new_pins))) (store n) in
        match r with
        | Err e => (Err e, mkNode st (registry n) (refs n) (unsynced n))
        | Ok tree =>
            match publish_ref fault tree dir with
            | (Err e, dir) =>
                (Err (Internal (bs "writing: " ++ ie_display e)),
                 mkNode (abandon tree st) (registry n) (Some dir) (unsynced n))
            | (Ok (), dir) =>
                sync_refs sync
                  (mkNode (commit tree st) (replace new_pins (Some tree) (registry n)) (Some dir) true)
            end
        end
    end.

Definition pin fault sync (root : Digest) : CasNode -> result BackendError () * CasNode :=
  apply_pins fault sync (PinInsert root).
Definition unpin fault sync (root : Digest) : CasNode -> result BackendError () * CasNode :=
  apply_pins fault sync (PinRemove root).

Definition set_store (st : CasStore C T) (n : CasNode) : CasNode :=
  mkNode st (registry n) (refs n) (unsynced n).

(** [CasNode::put_keyed_local], which is [put_keyed] without a mirror. *)
Definition node_put_keyed (expected : Digest) (src : source) (n : CasNode) :
    result BackendError () * CasNode :=
  let '(r, _, st) := put_keyed expected src (store n) in
  match r with
  | Ok () => (Ok (), set_store (commit expected st) n)
  | Err e => (Err e, set_store st n)
  end.

Definition node_put (src : source) (n : CasNode) : result BackendError Digest * CasNode :=
  let '(r, _, st) := put src (store n) in
  match r with
  | Ok d => (Ok d, set_store (commit d st) n)
  | Err e => (Err e, set_store st n)
  end.

(** [from_config]'s end: a node on an opened store, with the pins its ref names.  The
    node's local view is the store itself. *)
Definition open_node (io : result io_error ()) (st : CasStore C T) (dir : option RefDir) :
    result LoadError CasNode :=
  match dir with
  | None => Ok (mkNode st registry_new None false)
  | Some fs =>
      let '(r, st) := load get io fs st in
      '(pins, tree) ← r;
      Ok (mkNode st (replace pins tree registry_new) (Some fs) false)
  end.
End pins.

(** ** The tree reads back as the pins *)

Section tree.
Context {Hs : Hashers}.

Lemma to_string_utf8 d : utf8_valid (to_string d) = true.
Proof. apply utf8_valid_ascii, to_string_ascii. Qed.

Lemma bt_collect_elem {K V} {Ck : Cmp K} (l : list (K * V)) kv : kv ∈ bt_collect l -> kv ∈ l.
Proof.
  induction l as [|[k v] l IH] using rev_ind; [done|].
  unfold bt_collect in *. rewrite foldl_app. cbn [foldl fst snd].
  intros [->|Hin]%bt_insert_elem; set_solver.
Qed.

Lemma root_tree_entries pins :
  Forall (fun kv => exists d, d ∈ pins /\ kv = pin_entry d) (Tree.entries (root_tree pins)).
Proof.
  apply Forall_forall. intros kv Hin%bt_collect_elem.
  apply list_elem_of_fmap in Hin as (d & -> & Hd). exists d. split; [by apply elem_of_bt_iter|done].
Qed.

Lemma root_tree_digests pins :
  set_Forall digest_wf pins ->
  list_to_set (Tree.te_digest ∘ snd <$> Tree.entries (root_tree pins)) = pins.
Proof.
  intros Hwf. apply set_eq. intros d. rewrite elem_of_list_to_set, list_elem_of_fmap.
  pose proof (root_tree_entries pins) as Hall. rewrite Forall_forall in Hall. split.
  - intros (kv & -> & Hin). destruct (Hall kv Hin) as (d & Hd & ->). done.
  - intros Hd. assert (Hk : to_string d ∈ (Tree.entries (root_tree pins)).*1).
    { apply elem_of_bt_collect. rewrite <- list_fmap_compose, list_elem_of_fmap.
      exists d. split; [done|by apply elem_of_bt_iter]. }
    apply list_elem_of_fmap in Hk as (kv & Hk & Hin).
    destruct (Hall kv Hin) as (d' & Hd' & ->). exists (pin_entry d'). split; [|done].
    simpl in *. by apply to_string_inj in Hk; [|apply Hwf..].
Qed.

Lemma collect_pins_named es acc :
  Forall (fun kv => exists d, kv = pin_entry d) es ->
  collect_pins es acc = Ok (acc ∪ list_to_set (Tree.te_digest ∘ snd <$> es)).
Proof.
  intros Hes. revert acc. induction Hes as [|kv es [d ->] _ IH]; intros acc; csimpl.
  - f_equal. set_solver.
  - rewrite bool_decide_true by done. rewrite IH. f_equal. set_solver.
Qed.

Lemma root_tree_wf P : set_Forall digest_wf P -> Tree.wf (root_tree P).
Proof.
  intros Hwf. split; [apply bt_collect_sorted|].
  eapply Forall_impl; [apply root_tree_entries|]. intros kv (d & Hd & ->).
  split; [apply to_string_utf8|by apply Hwf].
Qed.

Lemma collect_root_tree P :
  set_Forall digest_wf P -> collect_pins (Tree.entries (root_tree P)) ∅ = Ok P.
Proof.
  intros Hwf. rewrite collect_pins_named.
  - rewrite root_tree_digests by done. f_equal. set_solver.
  - eapply Forall_impl; [apply root_tree_entries|]. naive_solver.
Qed.

Definition tree_bytes (P : gset Digest) : list byte := Tree.to_canonical_bytes (root_tree P).

(** What a tree's bytes read back as. *)
Lemma tree_bytes_pins P :
  set_Forall digest_wf P -> Tree.fits (root_tree P) ->
  Tree.from_canonical_bytes (tree_bytes P) = Ok (root_tree P).
Proof. intros Hwf Hf. apply Tree.tree_from_to_canonical; [by apply root_tree_wf|done]. Qed.

Lemma ref_line_stripped d : default (ref_line d) (strip_suffix [lf] (ref_line d)) = to_string d.
Proof.
  unfold strip_suffix, ref_line. rewrite rev_app_distr.
  change (rev [lf]) with [lf]. rewrite starts_with_app, length_app. simpl.
  replace (length (to_string d) + 1 - 1)%nat with (length (to_string d)) by lia.
  by rewrite take_app_length.
Qed.

Lemma ref_line_utf8 d : from_utf8 (ref_line d) = Some (ref_line d).
Proof.
  apply from_utf8_Some. split; [done|]. apply utf8_valid_app; [apply to_string_utf8|done].
Qed.
End tree.

(** ** What writes and passes leave of the store's content *)

Section content.
Context {C T : Type} {Hs : Hashers} {B : CasBackend C} {R : ReclaimableCas C}
  {Rt : ContentRouter T} {V : CasModel C} {L : CasLaws C}.
Implicit Types (s : CasStore C T) (n : CasNode (C := C) (T := T)).

(** Every healthy blob stays. *)
Definition only_adds (c c' : C) : Prop :=
  forall d data, held c !! d = Some data -> verify d data = true -> held c' !! d = Some data.

(** Nothing but [data] is held under [d]: no damaged copy, no collision. *)
Definition untroubled (c : C) (d : Digest) (data : list byte) : Prop :=
  forall old, held c !! d = Some old -> old = data.

Lemma same_content_adds c c' : same_content c c' -> only_adds c c'.
Proof. intros [Hh _] d data Hd _. by rewrite Hh. Qed.

Lemma only_adds_trans c1 c2 c3 : only_adds c1 c2 -> only_adds c2 c3 -> only_adds c1 c3.
Proof. intros H1 H2 d data Hd Hv. auto. Qed.

Lemma stores_adds c d data c' : stores c d data c' -> only_adds c c'.
Proof.
  intros (_ & _ & Hst) d' data' Hd' Hv'. destruct (held c !! d) as [old|] eqn:E.
  - destruct Hst as [->|[Hbad ->]]; [done|].
    destruct (decide (d = d')) as [<-|]; [congruence|by rewrite lookup_insert_ne].
  - rewrite Hst. rewrite lookup_insert_ne; [done|congruence].
Qed.

Lemma stores_held c d data c' :
  stores c d data c' -> untroubled c d data -> held c' !! d = Some data.
Proof.
  intros (_ & _ & Hst) Hu. destruct (held c !! d) as [old|] eqn:E.
  - apply Hu in E as E'. subst. destruct Hst as [->|[_ ->]]; [done|apply lookup_insert_eq].
  - rewrite Hst. apply lookup_insert_eq.
Qed.

(** The backend's write under a keyed write: what it ran on and was given to read. *)
Lemma put_keyed_ran d src s r left_ s' :
  policy_ok (policy s) -> books s -> put_keyed d src s = (r, left_, s') ->
  exists c1 src1 r1 left1,
    cas_valid c1 /\ same_content (inner s) c1 /\
    cas_put_keyed d src1 c1 = (r1, left1, inner s') /\ (r = Ok () -> r1 = Ok ()) /\
    forall data l, read_to_end src1 = (Ok data, l) -> (read_to_end src).1 = Ok data.
Proof.
  intros Hpol Hb E. unfold put_keyed in E. destruct (mode (policy s)) as [p|[cap]] eqn:Hm.
  - destruct (cas_put_keyed d src (inner s)) as [[out unread] c] eqn:Ec.
    exists (inner s), src, out, unread. split_and!; [apply Hb|done| | |by intros ? ? ->].
    + destruct out as [[]|e]; by simplify_eq.
    + destruct out as [[]|e]; by simplify_eq.
  - unfold put_keyed_write_only in E. simpl in E. destruct (already_held d s) as [b s1] eqn:Eh.
    destruct (already_held_keeps _ _ _ _ Hb Eh) as (c1 & -> & Hv1 & Hsc1 & _).
    destruct b.
    + destruct (cas_put_keyed _ _ _) as [[out unread] c] eqn:Ec. exists c1, src, out, unread.
      split_and!; [done..| | |by intros ? ? ->]; destruct out as [[]|e]; by simplify_eq.
    + destruct (cas_put_keyed _ _ _) as [[out unread] c] eqn:Ec.
      destruct (gate_after _ _ _ _ _ _ _) as [mine tripped] eqn:Eg.
      exists c1, (gate_reads cap (committed s) (pending s) 0 src), out, unread.
      split_and!; [done|done| | |].
      * simpl in Ec. rewrite Ec. f_equal.
        destruct tripped; [by simplify_eq|]. destruct out as [[]|e]; simplify_eq; [|done].
        unfold account. case_bool_decide; [done|]. by destruct (accounted _ !! d).
      * destruct tripped; [by simplify_eq|]. destruct out as [[]|e]; by simplify_eq.
      * intros data l Hread.
        destruct (gate_complete cap (committed s) (pending s) (Hpol _ Hm) src 0 false data l _
          ltac:(done) Hread eq_refl) as (_ & _ & Hr). by rewrite Hr.
Qed.
Lemma untroubled_same c c' d data : same_content c c' -> untroubled c d data -> untroubled c' d data.
Proof. intros [Hh _] Hu old. rewrite Hh. apply Hu. Qed.

Lemma put_keyed_adds d src s r left_ s' :
  policy_ok (policy s) -> books s -> put_keyed d src s = (r, left_, s') ->
  only_adds (inner s) (inner s') /\
  (r = Ok () -> is_Some (held (inner s') !! d)) /\
  forall data, r = Ok () -> (read_to_end src).1 = Ok data -> untroubled (inner s) d data ->
    held (inner s') !! d = Some data.
Proof.
  intros Hpol Hb E.
  destruct (put_keyed_ran _ _ _ _ _ _ Hpol Hb E) as (c1 & src1 & r1 & l1 & Hv & Hsc & Ec & Hr & Hsrc).
  pose proof (law_put_keyed d src1 c1 Hv) as [Hspec _]. unfold put_keyed_spec in Hspec.
  rewrite Ec in Hspec. destruct Hspec as [_ Hspec].
  destruct r1 as [[]|e].
  - destruct Hspec as [(data' & Hread & Hst)|(_ & Hsome & Hsc')].
    + split_and!.
      * eapply only_adds_trans; [by apply same_content_adds|by eapply stores_adds].
      * intros _. destruct Hst as (_ & _ & Hst). destruct (held c1 !! d) eqn:Eh.
        -- destruct Hst as [->|[_ ->]]; [by rewrite Eh|rewrite lookup_insert_eq; by eexists].
        -- rewrite Hst, lookup_insert_eq. by eexists.
      * intros data _ Hd Hu. apply Hsrc in Hread. assert (data' = data) as -> by congruence.
        eapply stores_held; [done|by eapply untroubled_same].
    + pose proof (same_content_trans _ _ _ Hsc Hsc') as Hall. split_and!.
      * by apply same_content_adds.
      * intros _. destruct Hsc' as [-> _]. done.
      * intros data _ _ Hu. destruct Hall as [Hall _]. destruct Hsc as [Hh _]. rewrite Hh in Hsome.
        destruct Hsome as [old Ho]. rewrite Hall, Ho. f_equal. by apply Hu.
  - assert (r <> Ok ()) by naive_solver. split_and!; [|naive_solver..].
    apply same_content_adds. by eapply same_content_trans.
Qed.

Lemma put_adds src s r left_ s' :
  policy_ok (policy s) -> books s -> put src s = (r, left_, s') ->
  only_adds (inner s) (inner s') /\
  forall d data, r = Ok d -> (read_to_end src).1 = Ok data ->
    d = compute data /\ (untroubled (inner s) d data -> held (inner s') !! d = Some data).
Proof.
  intros Hpol Hb E. unfold put in E. destruct (mode (policy s)) as [p|p] eqn:Hm.
  - destruct (law_put src (inner s) (proj1 Hb)) as [Hspec _]. unfold put_spec in Hspec.
    destruct (cas_put src (inner s)) as [[out unread] c] eqn:Ec.
    destruct out as [d|e]; simplify_eq; [|split; [by apply same_content_adds|by intros ?? [=]]].
    destruct Hspec as (data & Hread & -> & Hst). split; [by eapply stores_adds|].
    intros d data' [= <-]. rewrite Hread. intros [= <-]. split; [done|].
    by apply stores_held.
  - destruct (read_to_end src) as [[body|e] unread] eqn:Er;
      [|simplify_eq; split; [by apply same_content_adds|by intros ?? [=]]].
    destruct (put_keyed (compute body) (cursor body) s) as [[out l] s1] eqn:Ep. simplify_eq.
    apply put_keyed_adds in Ep as (Ha & _ & Hh); [|done..]. split; [done|].
    intros d data Hd [= <-]. destruct out as [[]|e]; [|done]. injection Hd as <-.
    split; [done|]. intros Hu. apply Hh; [done|by rewrite read_to_end_cursor|done].
Qed.
End content.

(** ** The node's invariant *)

Section node.
Context {C T : Type} {Hs : Hashers} {Hl : HasherLaws Hs} {B : CasBackend C}
  {R : ReclaimableCas C} {Rt : ContentRouter T} {V : CasModel C} {L : CasLaws C}.
Implicit Types (s : CasStore C T) (n : CasNode (C := C) (T := T)) (P : gset Digest).

(** The ref names the tree of the pins in force, and the store holds that tree; with no
    ref there are no pins. *)
Definition roots_name n : Prop :=
  match refs n with
  | None => tree (registry n) = None
  | Some dir =>
      match roots_file dir with
      | None => pins (registry n) = ∅ /\ tree (registry n) = None
      | Some text =>
          let b := tree_bytes (pins (registry n)) in
          text = ref_line (compute b) /\ tree (registry n) = Some (compute b) /\
          held (inner (store n)) !! compute b = Some b
      end
  end.

(** What a set of pins must be to be stored: digests, and a tree of at most
    [isize::MAX] bytes, as every vector is. *)
Definition storable P : Prop := set_Forall digest_wf P /\ Tree.fits (root_tree P).

Definition node_ok n : Prop :=
  policy_ok (policy (store n)) /\ books (store n) /\ storable (pins (registry n)) /\ roots_name n.

Lemma storable_empty : storable ∅.
Proof. split; [apply set_Forall_empty|by vm_compute]. Qed.

(** Reading a ref that names the tree of [P]: its pins, whatever else the store holds,
    or an error; the tree can only be missing if it is not held. *)
Lemma read_named P dir (st : CasStore C T) r st' :
  roots_file dir = Some (ref_line (compute (tree_bytes P))) ->
  cas_valid (inner st) -> storable P ->
  untroubled (inner st) (compute (tree_bytes P)) (tree_bytes P) ->
  load get (Ok ()) dir st = (r, st') ->
  r = Ok (P, Some (compute (tree_bytes P))) \/
  exists e, r = Err (Backend e) /\ forall d,
    e = BlobNotFound d -> held (inner st) !! compute (tree_bytes P) = None.
Proof.
  intros Hdir Hv [Hwf Hfit] Hu. unfold load. rewrite Hdir.
  unfold mbind, M_bind, lift, ok_or. cbn [map_err]. rewrite ref_line_utf8.
  unfold read_tree, lift, mbind, M_bind. rewrite ref_line_stripped, from_str_to_string
    by apply compute_wf. cbn [map_err]. unfold backend, get, on_inner.
  destruct (law_get (compute (tree_bytes P)) (inner st) Hv) as [Hspec _]. unfold get_spec in Hspec.
  destruct (cas_get _ (inner st)) as [[reader|e] c]; destruct Hspec as [_ Hspec]; cbn [map_err].
  - destruct Hspec as (data & Hd & _ & Hread). rewrite Hread. cbn [fst map_err].
    apply Hu in Hd as ->. rewrite tree_bytes_pins by done. cbn [map_err].
    rewrite collect_root_tree by done. cbn. intros [= <- <-]. by left.
  - intros [= <- <-]. right. exists e. split; [done|]. intros d ->. apply Hspec.
Qed.
Lemma node_ok_store n st' :
  node_ok n -> policy st' = policy (store n) -> books st' ->
  (forall t data, tree (registry n) = Some t -> held (inner (store n)) !! t = Some data ->
    verify t data = true -> held (inner st') !! t = Some data) ->
  node_ok (set_store st' n).
Proof.
  intros (Hpol & Hb & Hst & Hname) Hp Hb' Hkeep. split_and!; simpl; [by rewrite Hp|done..|].
  unfold roots_name in *. simpl. destruct (refs n) as [dir|]; [|done].
  destruct (roots_file dir); [|done]. destruct Hname as (H1 & H2 & H3). split_and!; [done..|].
  apply Hkeep; [done..|apply verify_compute].
Qed.

Lemma node_ok_adds n st' :
  node_ok n -> keeps (store n) st' -> only_adds (inner (store n)) (inner st') ->
  node_ok (set_store st' n).
Proof.
  intros Hok (Hp & Hb & _) Hadd. apply node_ok_store; [done..|]. intros t data _. apply Hadd.
Qed.

Lemma keeps_release d s s' : keeps s s' -> keeps s (release_guard d s').
Proof. intros Hk. eapply keeps_core; [exact Hk|apply release_guard_core]. Qed.

(** ** Each operation *)

Lemma node_put_keyed_step d src n r n' :
  node_ok n -> node_put_keyed d src n = (r, n') ->
  node_ok n' /\ registry n' = registry n /\ refs n' = refs n /\ unsynced n' = unsynced n /\
  only_adds (inner (store n)) (inner (store n')) /\
  forall data, r = Ok () -> (read_to_end src).1 = Ok data -> untroubled (inner (store n)) d data ->
    held (inner (store n')) !! d = Some data.
Proof.
  intros Hok E. pose proof Hok as (Hpol & Hb & _). unfold node_put_keyed in E.
  destruct (put_keyed d src (store n)) as [[out l] st] eqn:Ep.
  destruct (put_keyed_adds _ _ _ _ _ _ Hpol Hb Ep) as (Hadd & _ & Hheld).
  destruct (put_keyed_keeps _ _ _ _ _ _ Hpol Hb Ep) as [Hk _].
  destruct out as [[]|e]; simplify_eq; (split_and!; [|done|done|done|done|]); try done.
  - apply node_ok_adds; [done|by apply keeps_release|done].
  - by apply node_ok_adds.
Qed.

Lemma node_put_step src n r n' :
  node_ok n -> node_put src n = (r, n') ->
  node_ok n' /\ registry n' = registry n /\ refs n' = refs n /\
  only_adds (inner (store n)) (inner (store n')).
Proof.
  intros Hok E. pose proof Hok as (Hpol & Hb & _). unfold node_put in E.
  destruct (put src (store n)) as [[out l] st] eqn:Ep.
  destruct (put_adds _ _ _ _ _ Hpol Hb Ep) as [Hadd _].
  destruct (put_keeps _ _ _ _ _ Hpol Hb Ep) as [Hk _].
  destruct out as [d|e]; simplify_eq; (split_and!; [|done|done|done]).
  - apply node_ok_adds; [done|by apply keeps_release|done].
  - by apply node_ok_adds.
Qed.

(** What a pass may not drop. *)
Definition protected n (d : Digest) : Prop :=
  d ∈ pins (registry n) \/ tree (registry n) = Some d.

Lemma evict_keeps_protected rs orc s r s' d data :
  cas_valid (inner s) -> evict_to_budget (Ok rs) orc s = (r, s') -> d ∈ pinned rs ->
  held (inner s) !! d = Some data -> held (inner s') !! d = Some data.
Proof.
  intros Hv E Hin Hd. destruct (mode (policy s)) as [p|p] eqn:Hm.
  2:{ apply evict_not_lru in E as [_ ->]; [done|]. intros q. by rewrite Hm. }
  destruct (evict_to_budget_run _ _ p _ _ _ Hv Hm E) as
    [e s' _ [-> _] _|s' _ _ [-> _] _|local rep sole k r s' _ Hlist Hr Hev _ _]; [done..|].
  rewrite (evicts_lookup _ _ _ _ d Hev). rewrite bool_decide_false; [done|].
  intros (i & Hi & _)%elem_of_take. apply list_elem_of_lookup_2 in Hi.
  apply (ranked_candidate _ _ _ _ _ _ _ d Hr Hlist) in Hi as [Hc _].
  unfold may_evict, candidate in Hc. by rewrite bool_decide_true in Hc.
Qed.

(** The eviction pass of [maintain_once], under the pin lock. *)
Lemma evict_pass_step orc n r st :
  node_ok n -> evict_to_budget (roots (registry n)) orc (store n) = (r, st) ->
  node_ok (set_store st n) /\ policy st = policy (store n) /\ books st /\
  forall d data, protected n d -> held (inner (store n)) !! d = Some data ->
    held (inner st) !! d = Some data.
Proof.
  intros Hok E. pose proof Hok as (Hpol & Hb & _ & _).
  destruct (evict_keeps _ _ _ _ _ Hb E) as (Hp & Hb' & _).
  assert (Hkeep : forall d data, protected n d -> held (inner (store n)) !! d = Some data ->
    held (inner st) !! d = Some data).
  { intros d data Hpr. eapply evict_keeps_protected; [apply Hb|exact E|]. simpl.
    unfold protected, pins in Hpr. destruct Hpr as [|Ht]; [set_solver|]. rewrite Ht. set_solver. }
  split_and!; [|done..]. apply node_ok_store; [done..|]. intros t data Ht Hd _.
  apply Hkeep; [by right|done].
Qed.

Lemma change_unchanged ch P : (change_pins ch P).1 = false -> (change_pins ch P).2 = P.
Proof.
  destruct ch as [d|d]; simpl; intros H.
  - apply negb_false_iff, bool_decide_eq_true in H. set_solver.
  - apply bool_decide_eq_false in H. set_solver.
Qed.

Lemma publish_ref_cases fault t dir r dir' :
  publish_ref fault t dir = (r, dir') ->
  match r with
  | Ok () => fault = None /\ roots_file dir' = Some (ref_line t)
  | Err _ => fault <> None /\ roots_file dir' = roots_file dir
  end.
Proof. destruct fault as [[]|]; simpl; intros [= <- <-]; done. Qed.

(** The pins after a change, and when their tree can be stored: it fits, and nothing
    else is held under its digest. *)
Definition changed_pins ch n : gset Digest := (change_pins ch (pins (registry n))).2.

Definition can_apply ch n : Prop :=
  storable (changed_pins ch n) /\
  untroubled (inner (store n)) (compute (tree_bytes (changed_pins ch n)))
    (tree_bytes (changed_pins ch n)).

Definition ref_text n : option (option (list byte)) := roots_file <$> refs n.

(** How a change of the pins ends. *)
Definition pin_outcome (fault : option pub_fault) (sync : result io_error ()) ch n
    (r : result BackendError ()) n' : Prop :=
  match r with
  | Ok () =>
      pins (registry n') = changed_pins ch n /\ (is_Some (refs n) -> unsynced n' = false) /\
      (pins (registry n') <> pins (registry n) -> is_Some (refs n) -> fault = None /\ sync = Ok ())
  | Err e =>
      (pins (registry n') = pins (registry n) /\ ref_text n' = ref_text n /\
        unsynced n' = unsynced n) \/
      (e = sync_error /\ pins (registry n') = changed_pins ch n /\ unsynced n' = true /\
        sync <> Ok ())
  end.

Lemma unchanged_pins_step fault sync ch n r n' :
  node_ok n -> (change_pins ch (pins (registry n))).1 = false ->
  apply_pins fault sync ch n = (r, n') ->
  node_ok n' /\ store n' = store n /\ ref_text n' = ref_text n /\ pin_outcome fault sync ch n r n'.
Proof.
  intros Hok Hch E. pose proof (change_unchanged _ _ Hch) as Hsame. unfold apply_pins in E.
  destruct (change_pins ch (pins (registry n))) as [c P] eqn:Ec. simpl in Hch, Hsame. subst c P.
  assert (Heq : changed_pins ch n = pins (registry n)) by (unfold changed_pins; by rewrite Ec).
  unfold pin_outcome. rewrite Heq. simpl in E.
  destruct (refs n) as [dir|] eqn:Er; [|simplify_eq; split_and!; try done; by intros []].
  destruct (unsynced n) eqn:Eu; [|by simplify_eq].
  destruct sync as [[]|e]; simplify_eq/=.
  - by split_and!.
  - split_and!; try done. by right.
Qed.

Lemma apply_pins_step fault sync ch n r n' :
  node_ok n -> can_apply ch n -> apply_pins fault sync ch n = (r, n') ->
  node_ok n' /\ (is_Some (refs n') <-> is_Some (refs n)) /\
  only_adds (inner (store n)) (inner (store n')) /\ pin_outcome fault sync ch n r n'.
Proof.
  intros Hok [Hst Hu] E. destruct (change_pins ch (pins (registry n))).1 eqn:Hch.
  2:{ destruct (unchanged_pins_step _ _ _ _ _ _ Hok Hch E) as (H1 & H2 & H3 & H4).
      split_and!; [done| |by rewrite H2; apply same_content_adds|done]. unfold ref_text in H3.
      destruct (refs n), (refs n'); try done. }
  pose proof Hok as (Hpol & Hb & _ & _). unfold apply_pins in E. unfold pin_outcome.
  unfold changed_pins in *.
  destruct (change_pins ch (pins (registry n))) as [c P] eqn:Ec. simpl in *. subst c. simpl in E.
  destruct (refs n) as [dir|] eqn:Er.
  2:{ simplify_eq. split_and!; simpl; try done. by intros []. }
  destruct (put _ (store n)) as [[out l] st] eqn:Ep.
  destruct (put_adds _ _ _ _ _ Hpol Hb Ep) as [Hadd Hheld].
  destruct (put_keeps _ _ _ _ _ Hpol Hb Ep) as [Hk _].
  destruct out as [t|e].
  2:{ simplify_eq. rewrite <- Er. split_and!; [by apply (node_ok_adds n st)|done|done|by left]. }
  destruct (Hheld t (tree_bytes P) eq_refl) as [-> Hin]; [by rewrite read_to_end_cursor|].
  specialize (Hin Hu). destruct (publish_ref fault _ dir) as [pr dir'] eqn:Epub.
  apply publish_ref_cases in Epub. destruct pr as [[]|e].
  - destruct Epub as [-> Htext]. pose proof (keeps_release (compute (tree_bytes P)) _ _ Hk) as (Hp & Hb' & _).
    assert (Hok' : forall u, node_ok (mkNode (commit (compute (tree_bytes P)) st)
        (replace P (Some (compute (tree_bytes P))) (registry n)) (Some dir') u)).
    { intros u. split_and!; [unfold policy_ok in *; simpl in *; by rewrite Hp|exact Hb'|apply Hst..|].
      unfold roots_name. simpl. rewrite Htext. done. }
    clear Hheld. destruct sync as [[]|e]; simplify_eq/=.
    + split_and!; [apply Hok'|done..].
    + split_and!; [apply Hok'|done|done|by right].
  - destruct Epub as [_ Htext]. simplify_eq. split_and!; simpl; [|done|done|left].
    + pose proof (node_ok_adds n _ Hok (keeps_release (compute (tree_bytes P)) _ _ Hk) Hadd)
        as (H1 & H2 & H3 & H4). split_and!; [done..|].
      unfold roots_name in *. simpl in *. by rewrite Er in H4; rewrite Htext.
    + unfold ref_text. rewrite Er. simpl. by rewrite Htext.
Qed.
(** ** Restarts *)

(** A process that dies leaves the backend's content and the ref directory; the next
    one opens both.  Every point of a change at which it can die is a failed
    [publish_ref], so the state left is one that [apply_pins] leaves. *)
Lemma restart_reads n dir pol rt clk m (st : CasStore C T) r st' :
  node_ok n -> refs n = Some dir -> new (inner (store n)) pol rt clk m = Ok st ->
  load get (Ok ()) dir st = (r, st') ->
  r = Ok (pins (registry n), tree (registry n)) \/
  exists e, r = Err (Backend e) /\ forall d, e <> BlobNotFound d.
Proof.
  intros (_ & Hb & Hst & Hname) Er Enew E.
  destruct (new_spec _ _ _ _ _ _ (proj1 Hb) Enew) as ((Hv & _) & _ & [Hh _] & _).
  unfold roots_name in Hname. rewrite Er in Hname. destruct (roots_file dir) as [text|] eqn:Et.
  - destruct Hname as (-> & -> & Hheld). rewrite <- Hh in Hheld.
    destruct (read_named (pins (registry n)) dir st r st' Et Hv Hst) as [->|(e & -> & He)];
      [intros old; congruence|exact E|by left|].
    right. exists e. split; [done|]. intros d ->. specialize (He d eq_refl). congruence.
  - destruct Hname as [-> ->]. unfold load in E. rewrite Et in E. injection E as <- <-. by left.
Qed.

Lemma load_adds io dir (st : CasStore C T) r st' :
  books st -> load get io dir st = (r, st') -> keeps st st' /\ only_adds (inner st) (inner st').
Proof.
  intros Hb E.
  assert (Hget : forall d r st', get d st = (r, st') -> keeps st st' /\ only_adds (inner st) (inner st')).
  { intros d r1 st1 Eg. split; [by eapply get_keeps|]. unfold get, on_inner in Eg.
    destruct (law_get d (inner st) (proj1 Hb)) as [Hspec _]. unfold get_spec in Hspec.
    destruct (cas_get d (inner st)) as [[x|e] c]; destruct Hspec as [Hsc _]; simplify_eq;
      by apply same_content_adds. }
  assert (Hrefl : keeps st st /\ only_adds (inner st) (inner st)).
  { split; [by apply keeps_refl|by apply same_content_adds]. }
  unfold load in E. destruct (roots_file dir) as [text|]; [|by injection E as _ <-].
  unfold read_tree, mbind, M_bind, lift, backend in E.
  destruct io as [[]|e]; [|by injection E as _ <-]. simpl in E.
  destruct (from_utf8 text) as [u|]; [|by injection E as _ <-]. simpl in E.
  destruct (from_str _) as [d|e]; [|by injection E as _ <-]. simpl in E.
  destruct (get d st) as [g st1] eqn:Eg. apply Hget in Eg.
  assert (st' = st1) as ->; [|exact Eg].
  destruct g as [reader|e]; [|by injection E as _ <-]. simpl in E.
  destruct (read_to_end reader).1 as [bytes|e]; [|by injection E as _ <-]. simpl in E.
  destruct (Tree.from_canonical_bytes bytes) as [tr|e]; [|by injection E as _ <-]. simpl in E.
  destruct (collect_pins _ _) as [P|e]; by injection E as _ <-.
Qed.

Lemma restart_step n dir pol rt clk m (st : CasStore C T) io n' :
  node_ok n -> policy_ok pol -> refs n = Some dir ->
  new (inner (store n)) pol rt clk m = Ok st -> open_node io st (Some dir) = Ok n' ->
  node_ok n' /\ pins (registry n') = pins (registry n) /\ tree (registry n') = tree (registry n) /\
  only_adds (inner (store n)) (inner (store n')).
Proof.
  intros Hok Hpol Er Enew E. pose proof Hok as (_ & Hb & Hst & Hname).
  destruct (new_spec _ _ _ _ _ _ (proj1 Hb) Enew) as (Hbst & Hp & Hsc & _).
  simpl in E. destruct (load get io dir st) as [r st'] eqn:El.
  destruct r as [[P t]|e]; [|done]. injection E as <-.
  destruct (load_adds _ _ _ _ _ Hbst El) as [(Hpk & Hbk & _) Hadd].
  assert (El' : load get (Ok ()) dir st = (Ok (P, t), st')).
  { unfold load in *. destruct (roots_file dir); [|done]. by destruct io as [[]|]. }
  destruct (restart_reads _ _ _ _ _ _ _ _ _ Hok Er Enew El') as [[= -> ->]|(e & ? & _)]; [|done].
  assert (Hadd' : only_adds (inner (store n)) (inner st')).
  { eapply only_adds_trans; [by apply same_content_adds|done]. }
  split_and!; [|done..]. split_and!; simpl; [by rewrite Hpk, Hp|done|apply Hst..|].
  unfold roots_name in *. rewrite Er in Hname. simpl. destruct (roots_file dir) as [text|]; [|done].
  destruct Hname as (-> & Ht & Hheld). split_and!; [done..|].
  apply Hadd'; [done|apply verify_compute].
Qed.
(** A node that starts with an empty ref directory, or without one. *)
Lemma first_boot (st : CasStore C T) dir io :
  policy_ok (policy st) -> books st -> from_option roots_file None dir = None ->
  exists n, open_node io st dir = Ok n /\ node_ok n /\ pins (registry n) = ∅ /\ refs n = dir.
Proof.
  intros Hpol Hb Hdir. destruct dir as [dir|]; simpl in *.
  - unfold load. rewrite Hdir. simpl. eexists. split_and!; [done| |done|done].
    split_and!; simpl; [done|done|apply storable_empty..|]. unfold roots_name. simpl. by rewrite Hdir.
  - eexists. split_and!; [done| |done|done].
    split_and!; simpl; [done|done|apply storable_empty..|done].
Qed.

(** ** Properties *)

(** What the caller of [pin] and [unpin] is told is true.  On success the change is
    in force and, on a disk store, its ref is published and synced; on an error either
    nothing changed (pins, ref and pending sync), or the error is the unconfirmed sync,
    the change is in force and a retry will sync it. *)
Theorem pin_change_outcome fault sync ch n r n' :
  node_ok n -> can_apply ch n -> apply_pins fault sync ch n = (r, n') ->
  node_ok n' /\ pin_outcome fault sync ch n r n'.
Proof.
  intros Hok Hcan E. by destruct (apply_pins_step _ _ _ _ _ _ Hok Hcan E) as (H1 & _ & _ & H2).
Qed.

End node.

(** ** Witnesses *)

Module PinsExample.
Import Checksum.

Definition me : PeerId := mkPeerId (bs "me").
Definition blob : list byte := bs "pinned".
Definition d : Digest := compute blob.

Definition reopened (c : Mem.MemCas) : CasStore Mem.MemCas Swarm.MemRouter :=
  match new c (lru 0 0) (Swarm.new me) (clock_at 0) me with
  | Ok s => s
  | Err _ => mkStore c (lru 0 0) (Swarm.new me) (clock_at 0) me state_default 0 0
  end.

Lemma reopened_eq c : new c (lru 0 0) (Swarm.new me) (clock_at 0) me = Ok (reopened c).
Proof. reflexivity. Defined.

(** A cache with no budget and no grace: a pass drops whatever is not pinned. *)
Definition fresh : CasNode (C := Mem.MemCas) (T := Swarm.MemRouter) :=
  mkNode (reopened Mem.new) registry_new (Some (mkRefDir None None)) false.

Lemma fresh_ok : node_ok fresh.
Proof.
  assert (Hv : cas_valid Mem.new) by (intros d' b' H; vm_compute in H; discriminate H).
  destruct (new_spec _ _ _ _ _ _ Hv (reopened_eq Mem.new)) as (Hb & _).
  split_and!; [by intros p [=]|exact Hb|apply storable_empty..|by split].
Defined.

(** A second pin whose directory sync fails. *)
Definition unsynced_pin :=
  apply_pins None (Err (io_other (bs "dir-sync"))) (PinInsert (compute (bs "other"))) fresh.

Lemma second_can : can_apply (PinInsert (compute (bs "other"))) fresh.
Proof.
  split; [split|].
  - apply (bool_decide_unpack _). vm_compute. exact I.
  - unfold Tree.fits. apply (bool_decide_unpack _). vm_compute. exact I.
  - intros old. vm_compute. discriminate.
Defined.

Example unsynced_pin_err : unsynced_pin.1 = Err sync_error.
Proof. vm_compute. reflexivity. Qed.

Theorem pin_change_outcome_witness :
  node_ok unsynced_pin.2 /\
  pin_outcome None (Err (io_other (bs "dir-sync"))) (PinInsert (compute (bs "other"))) fresh
    unsynced_pin.1 unsynced_pin.2.
Proof.
  apply (pin_change_outcome None (Err (io_other (bs "dir-sync")))
    (PinInsert (compute (bs "other"))) fresh unsynced_pin.1 unsynced_pin.2).
  - exact fresh_ok.
  - exact second_can.
  - apply surjective_pairing.
Defined.

End PinsExample.
