(* ===== verification/Disk.v ===== *)
(** The on-disk blob store (crates/nessie-cas-disk/src/lib.rs) on a model of the file
    system it writes to.

    The file system is a finite map from paths below the store's root to nodes; an
    operation does what POSIX says or fails.  [fails] says which of the operations to come
    fail, with which error and after how much of their work: it is any function of the
    operation and of when it happens, so a crash is a disk on which everything after some
    point fails.  Symbolic links are not modelled.  The commit lock is not either: the
    operations run one at a time. *)

From Stdlib Require Import ZArith Lia.
From stdpp Require Import base option gmap list.
From S2P Require Import Prelude Text Hex Digest Errors Cas.

Local Open Scope Z_scope.

(** ** The file system *)

Abbreviation fname := (list byte).
Abbreviation path := (list fname).

(** A directory entry; [Special] is a socket, a pipe or a device. *)
Inductive node := Dir | File (contents : list byte) | Special.

#[export] Instance node_eq_dec : EqDecision node.
Proof. solve_decision. Defined.

Abbreviation fs := (gmap path node).

Definition ENOENT : io_error := mkIoError NotFound (bs "No such file or directory (os error 2)").
Definition ENOTDIR : io_error := io_other (bs "Not a directory (os error 20)").
Definition EISDIR : io_error := io_other (bs "Is a directory (os error 21)").
Definition EEXIST : io_error := io_other (bs "File exists (os error 17)").
Definition ENOTEMPTY : io_error := io_other (bs "Directory not empty (os error 39)").
Definition ENXIO : io_error := io_other (bs "No such device or address (os error 6)").

Definition is_dir (n : option node) : bool := bool_decide (n = Some Dir).

(** The proper, non-empty prefixes of a path, shortest first; the root is a directory. *)
Definition ancestors (p : path) : list path := (fun i => firstn i p) <$> seq 1 (length p - 1).

(** The error of the first ancestor that is not a directory. *)
Definition blocked (p : path) (f : fs) : option io_error :=
  q ← list_find (fun q => is_dir (f !! q) = false) (ancestors p);
  Some (match f !! q.2 with None => ENOENT | Some _ => ENOTDIR end).

Definition resolve (p : path) (f : fs) : result io_error node :=
  match blocked p f with
  | Some e => Err e
  | None => if bool_decide (p = []) then Ok Dir else ok_or (f !! p) ENOENT
  end.

(** [p] and everything below it. *)
Definition below (p q : path) : bool := bool_decide (firstn (length p) q = p).

Definition fs_read (p : path) (f : fs) : result io_error (list byte) :=
  n ← resolve p f;
  match n with File b => Ok b | Dir => Err EISDIR | Special => Err ENXIO end.

(** The entries of a directory, in some order. *)
Definition entries (p : path) (f : fs) : list (fname * node) :=
  omap (fun e => if bool_decide (removelast e.1 = p /\ e.1 <> [])
                 then Some (List.last e.1 [], e.2) else None) (map_to_list f).

Definition fs_read_dir (p : path) (f : fs) : result io_error (list (fname * node)) :=
  n ← resolve p f;
  match n with Dir => Ok (entries p f) | _ => Err ENOTDIR end.

Fixpoint fs_mkdirs (ps : list path) (f : fs) : result io_error () * fs :=
  match ps with
  | [] => (Ok (), f)
  | p :: ps =>
      match f !! p with
      | None => fs_mkdirs ps (<[p := Dir]> f)
      | Some Dir => fs_mkdirs ps f
      | Some _ => (Err EEXIST, f)
      end
  end.

Definition fs_create_dir_all (p : path) (f : fs) : result io_error () * fs :=
  if bool_decide (p = []) then (Ok (), f) else fs_mkdirs (ancestors p ++ [p]) f.

(** [File::create]: an existing file is truncated. *)
Definition fs_create (p : path) (f : fs) : result io_error () * fs :=
  match resolve p f with
  | Ok (File _) => (Ok (), <[p := File []]> f)
  | Ok Dir => (Err EISDIR, f)
  | Ok Special => (Err ENXIO, f)
  | Err e =>
      match blocked p f with Some _ => (Err e, f) | None => (Ok (), <[p := File []]> f) end
  end.

(** A write to an open file. *)
Definition fs_append (p : path) (b : list byte) (f : fs) : fs :=
  match f !! p with Some (File c) => <[p := File (c ++ b)]> f | _ => f end.

Definition fs_remove_file (p : path) (f : fs) : result io_error () * fs :=
  match resolve p f with
  | Ok Dir => (Err EISDIR, f)
  | Ok _ => (Ok (), delete p f)
  | Err e => (Err e, f)
  end.

Definition fs_remove_dir_all (p : path) (f : fs) : result io_error () * fs :=
  match resolve p f with
  | Ok Dir => (Ok (), filter (fun e => below p e.1 = false) f)
  | Ok _ => (Err ENOTDIR, f)
  | Err e => (Err e, f)
  end.

(** [k] steps of it: what a directory contains goes before the directory. *)
Definition bare_below (p : path) (f : fs) : option path :=
  fst <$> head (filter (fun e => below p e.1 = true /\ entries e.1 f = []) (map_to_list f)).

Fixpoint fs_remove_some (p : path) (k : nat) (f : fs) : fs :=
  match k with
  | O => f
  | S k => match bare_below p f with Some q => fs_remove_some p k (delete q f) | None => f end
  end.

(** A directory moves with all it contains. *)
Definition move_below (src dst : path) (f : fs) : fs :=
  list_to_map ((fun e => (if below src e.1 then dst ++ drop (length src) e.1 else e.1, e.2)) <$>
    map_to_list f).

Definition fs_rename (src dst : path) (f : fs) : result io_error () * fs :=
  match resolve src f with
  | Err e => (Err e, f)
  | Ok n =>
      match blocked dst f with
      | Some e => (Err e, f)
      | None =>
          match n, f !! dst with
          | Dir, Some Dir =>
              if bool_decide (src = dst) then (Ok (), f)
              else if bool_decide (entries dst f = []) then (Ok (), move_below src dst (delete dst f))
              else (Err ENOTEMPTY, f)
          | Dir, Some _ => (Err ENOTDIR, f)
          | Dir, None => (Ok (), move_below src dst f)
          | _, Some Dir => (Err EISDIR, f)
          | _, _ => (Ok (), <[dst := n]> (delete src f))
          end
      end
  end.

(** ** The disk *)

(** The calls that can fail. *)
Inductive fs_op :=
| OpRead (p : path) | OpStat (p : path) | OpReadDir (p : path) | OpNextEntry (p : path)
| OpFileType (p : path) | OpCreateDirs (p : path) | OpCreate (p : path) | OpWrite (p : path)
| OpSync (p : path) | OpRemoveFile (p : path) | OpRemoveDir (p : path) | OpRename (src dst : path).

(** The files below the store's root; what will fail ([fails n op] is the error of the
    [n]th call if it is [op], and how far the call got); and the process's identifier and
    counter of temporary files. *)
Record Disk := mkDisk {
  files : fs;
  fails : nat -> fs_op -> option (io_error * nat);
  calls : nat;
  pid : Z;
  tmp_counter : Z;
}.

Definition set_files (f : fs) (s : Disk) : Disk :=
  mkDisk f (fails s) (S (calls s)) (pid s) (tmp_counter s).

Abbreviation IO := (M io_error Disk).

(** A call: it fails having done [partial] of its work, or it does it. *)
Definition syscall {A : Type} (op : fs_op) (partial : nat -> fs -> fs)
    (act : fs -> result io_error A * fs) : IO A := fun s =>
  match fails s (calls s) op with
  | Some (e, k) => (Err e, set_files (partial k (files s)) s)
  | None => let '(r, f) := act (files s) in (r, set_files f s)
  end.

(** A call that only looks. *)
Definition look {A : Type} (op : fs_op) (act : fs -> result io_error A) : IO A :=
  syscall op (fun _ f => f) (fun f => (act f, f)).

Definition no_progress (_ : nat) (f : fs) : fs := f.

Definition io_read (p : path) : IO (list byte) := look (OpRead p) (fs_read p).
Definition io_read_dir (p : path) : IO (list (fname * node)) := look (OpReadDir p) (fs_read_dir p).
Definition io_next_entry (p : path) : IO () := look (OpNextEntry p) (fun _ => Ok ()).
Definition io_file_type (p : path) : IO () := look (OpFileType p) (fun _ => Ok ()).
Definition io_stat (p : path) : IO node := look (OpStat p) (resolve p).
Definition io_create_dir_all (p : path) : IO () :=
  syscall (OpCreateDirs p) (fun k f => (fs_mkdirs (firstn k (ancestors p)) f).2)
    (fs_create_dir_all p).
Definition io_create (p : path) : IO () := syscall (OpCreate p) no_progress (fs_create p).
Definition io_write_all (p : path) (b : list byte) : IO () :=
  syscall (OpWrite p) (fun k => fs_append p (firstn k b)) (fun f => (Ok (), fs_append p b f)).
Definition io_sync_all (p : path) : IO () := look (OpSync p) (fun _ => Ok ()).
Definition io_remove_file (p : path) : IO () :=
  syscall (OpRemoveFile p) no_progress (fs_remove_file p).
Definition io_remove_dir_all (p : path) : IO () :=
  syscall (OpRemoveDir p) (fs_remove_some p) (fs_remove_dir_all p).
Definition io_rename (src dst : path) : IO () :=
  syscall (OpRename src dst) no_progress (fs_rename src dst).

(** ** [DiskCas] *)

Definition ALGOS : list DigestAlgo := [Blake3; Sha256].

Definition io_err (what : list byte) (e : io_error) : BackendError :=
  Internal (bs "cas-disk " ++ what ++ bs ": " ++ ie_display e).

Abbreviation CasM := (M BackendError Disk).

(** [.map_err(|e| io_err(what, e))] *)
Definition or_io_err {A : Type} (what : list byte) (op : IO A) : CasM A := fun s =>
  let '(r, s') := op s in (map_err (io_err what) r, s').

(** [let _ = op;] *)
Definition ignore {A : Type} (op : IO A) : CasM () := fun s => (Ok (), (op s).2).

(** [match op { ... }] *)
Definition attempt {A : Type} (op : IO A) : CasM (result io_error A) := fun s =>
  let '(r, s') := op s in (Ok r, s').

Definition not_found (e : io_error) : bool := bool_decide (ie_kind e = NotFound).

(** [OsStr::to_string_lossy]: each maximal malformed piece becomes U+FFFD. *)
Definition replacement : list byte := z2b <$> [0xEF; 0xBF; 0xBD].

Fixpoint lossy_fuel (fuel : nat) (s : list byte) : list byte :=
  match fuel with
  | O => []
  | S fuel =>
      match s with
      | [] => []
      | b0 :: r0 =>
          let bad (k : nat) := replacement ++ lossy_fuel fuel (drop k s) in
          let good (k : nat) := firstn k s ++ lossy_fuel fuel (drop k s) in
          if in_range 0 127 b0 then good 1%nat
          else if in_range 194 223 b0 then
            match r0 with b1 :: _ => if is_cont b1 then good 2%nat else bad 1%nat | _ => bad 1%nat end
          else if in_range 224 239 b0 then
            match r0 with
            | b1 :: r1 =>
                if second3_ok b0 b1 then
                  match r1 with
                  | b2 :: _ => if is_cont b2 then good 3%nat else bad 2%nat
                  | _ => bad 2%nat
                  end
                else bad 1%nat
            | _ => bad 1%nat
            end
          else if in_range 240 244 b0 then
            match r0 with
            | b1 :: r1 =>
                if second4_ok b0 b1 then
                  match r1 with
                  | b2 :: r2 =>
                      if is_cont b2 then
                        match r2 with
                        | b3 :: _ => if is_cont b3 then good 4%nat else bad 3%nat
                        | _ => bad 3%nat
                        end
                      else bad 2%nat
                  | _ => bad 2%nat
                  end
                else bad 1%nat
            | _ => bad 1%nat
            end
          else bad 1%nat
      end
  end.

Definition to_string_lossy (s : list byte) : list byte := lossy_fuel (length s) s.

(** [d.to_string().split_once(':').map_or("", |(_, h)| h)] *)
Definition hex_of (d : Digest) : list byte :=
  match split_once colon (to_string d) with Some (_, h) => h | None => [] end.

(** [&hex[..2]] and [&hex[2..]]: a digest has 64 hexadecimal digits. *)
Definition blob_path (d : Digest) : path :=
  [name (algo d); firstn 2 (hex_of d); drop 2 (hex_of d)].

(** [format!("{algo}:{text}").parse::<Digest>()] *)
Definition parse_digest (a : DigestAlgo) (text : list byte) : option Digest :=
  res_ok (from_str (name a ++ bs ":" ++ text)).

Section disk_cas.
Context {Hs : Hashers}.

Definition disk_verify (d : Digest) : CasM bool :=
  r ← attempt (io_read (blob_path d));
  match r with
  | Ok bytes => mret (verify d bytes)
  | Err e => if not_found e then fail (BlobNotFound d) else fail (io_err (bs "read blob") e)
  end.

(** *** Opening *)

(** [name.rsplit_once(".reclaim")] *)
Fixpoint split_at_string (sep s : list byte) : option (list byte * list byte) :=
  match s with
  | [] => if starts_with sep s then Some ([], []) else None
  | b :: s' =>
      if starts_with sep s then Some ([], drop (length sep) s)
      else '(l, r) ← split_at_string sep s'; Some (b :: l, r)
  end.

Definition rsplit_at_string (sep s : list byte) : option (list byte * list byte) :=
  '(l, r) ← split_at_string (rev sep) (rev s); Some (rev r, rev l).

Definition is_ascii_digit (b : byte) : bool := in_range 48 57 b.

Definition settle_sibling (d : Digest) (sibling : path) : CasM () :=
  bytes ← or_io_err (bs "read sibling") (io_read sibling);
  replace ←
    (if verify d bytes then
       fun s =>
         match disk_verify d s with
         | (Ok true, s') => (Ok false, s')
         | (Ok false, s') | (Err (BlobNotFound _), s') => (Ok true, s')
         | (Err e, s') => (Err e, s')
         end
     else mret false);
  if replace : bool
  then or_io_err (bs "restore sibling") (io_rename sibling (blob_path d))
  else or_io_err (bs "drop sibling") (io_remove_file sibling).

(** The sibling a file of a shard may be, and the digest it is of. *)
Definition sibling_of (a : DigestAlgo) (shard file : fname) : option Digest :=
  '(rest, n) ← rsplit_at_string (bs ".reclaim") (to_string_lossy file);
  if bool_decide (n = []) || negb (forallb is_ascii_digit n) then None
  else parse_digest a (to_string_lossy shard ++ rest).

(** [for x in l { op(x)? }] *)
Fixpoint for_each {A : Type} (op : A -> CasM ()) (l : list A) : CasM () :=
  match l with [] => mret () | x :: l => op x ≫= fun _ => for_each op l end.

Definition settle_legacy_siblings : CasM () :=
  for_each (fun a =>
    r ← attempt (io_read_dir [name a]);
    match r with
    | Err e => if not_found e then mret () else fail (io_err (bs "list algo dir") e)
    | Ok shards =>
        for_each (fun shard : fname * node =>
          _ ← or_io_err (bs "list algo dir") (io_next_entry [name a]);
          _ ← or_io_err (bs "stat shard") (io_file_type [name a; shard.1]);
          match shard.2 with
          | Dir =>
              l ← or_io_err (bs "list shard") (io_read_dir [name a; shard.1]);
              for_each (fun file : fname * node =>
                _ ← or_io_err (bs "list shard") (io_next_entry [name a; shard.1]);
                match sibling_of a shard.1 file.1 with
                | Some d => settle_sibling d [name a; shard.1; file.1]
                | None => mret ()
                end) l
          | _ => mret ()
          end) shards
    end) ALGOS.

Definition tmp_dir : path := [bs "tmp"].

(** The root itself is given; [DiskCas::open] makes it if it is missing. *)
Definition open : CasM () :=
  r ← attempt (io_remove_dir_all tmp_dir);
  _ ← (match r with
       | Ok () => mret ()
       | Err e => if not_found e then mret () else fail (io_err (bs "sweep tmp") e)
       end : CasM ());
  _ ← or_io_err (bs "create tmp") (io_create_dir_all tmp_dir);
  settle_legacy_siblings.

(** *** Writing *)

(** The read loop: what is left of the source, and the hasher fed with what was read. *)
Fixpoint write_loop (tmp : path) (src : source) (hasher : DigestHasher) (s : Disk) :
    result BackendError DigestHasher * source * Disk :=
  match src with
  | [] | RData [] :: _ => (Ok hasher, drop 1 src, s)
  | RErr e :: src' => (Err (io_err (bs "read source") e), src', s)
  | RData b :: src' =>
      let '(r, s') := or_io_err (bs "write tmp file") (io_write_all tmp b) s in
      match r with
      | Err e => (Err e, src', s')
      | Ok () => write_loop tmp src' (hasher_update hasher b) s'
      end
  end.

(** [TMP_COUNTER.fetch_add(1)] *)
Definition next_tmp (s : Disk) : path * Disk :=
  ([bs "tmp"; dec (pid s) ++ bs "-" ++ dec (tmp_counter s)],
   mkDisk (files s) (fails s) (calls s) (pid s) (wrap64 (tmp_counter s + 1))).

Definition write_tmp (src : source) (hasher : DigestHasher) (s : Disk) :
    result BackendError (path * Digest) * source * Disk :=
  let '(tmp, s) := next_tmp s in
  let '(r, s) := or_io_err (bs "create tmp file") (io_create tmp) s in
  let '(r, left_, s) :=
    match r with
    | Err e => (Err e, src, s)
    | Ok () =>
        let '(r, left_, s) := write_loop tmp src hasher s in
        match r with
        | Err e => (Err e, left_, s)
        | Ok h => let '(r, s) := or_io_err (bs "sync tmp file") (io_sync_all tmp) s in
                  (match r with Ok () => Ok h | Err e => Err e end, left_, s)
        end
    end in
  match r with
  | Ok h => (Ok (tmp, hasher_finalize h), left_, s)
  | Err e => (Err e, left_, (io_remove_file tmp s).2)
  end.

Definition commit (tmp : path) (d : Digest) : CasM () := fun s =>
  let dest := blob_path d in
  match (_ ← io_create_dir_all (removelast dest); io_rename tmp dest) s with
  | (Ok (), s) => (Ok (), s)
  | (Err e, s) => (Err (io_err (bs "commit") e), (io_remove_file tmp s).2)
  end.

Definition disk_put (src : source) (s : Disk) : result BackendError Digest * source * Disk :=
  let '(r, left_, s) := write_tmp src (hasher_new DEFAULT) s in
  match r with
  | Err e => (Err e, left_, s)
  | Ok (tmp, d) => let '(r, s) := commit tmp d s in ((fun _ => d) <$> r, left_, s)
  end.

Definition disk_put_keyed (expected : Digest) (src : source) (s : Disk) :
    result BackendError () * source * Disk :=
  let '(r, left_, s) := write_tmp src (hasher_new (algo expected)) s in
  match r with
  | Err e => (Err e, left_, s)
  | Ok (tmp, actual) =>
      if bool_decide (actual = expected)
      then let '(r, s) := commit tmp expected s in (r, left_, s)
      else (Err (InvalidArgument (bs "put_keyed: bytes do not hash to " ++ to_string expected)),
            left_, (io_remove_file tmp s).2)
  end.

(** *** Reading *)

(** [Metadata::len]: of a directory or a special file it is whatever the system says. *)
Context (other_len : node -> Z).

Definition node_len (n : node) : Z := match n with File b => zlen b | _ => other_len n end.

Definition disk_get (d : Digest) : CasM source :=
  r ← attempt (io_read (blob_path d));
  match r with
  | Ok bytes =>
      if verify d bytes then mret (cursor bytes)
      else fail (Internal (bs "corrupt blob " ++ to_string d))
  | Err e => if not_found e then fail (BlobNotFound d) else fail (io_err (bs "read blob") e)
  end.

Definition disk_size (d : Digest) : CasM (option Z) :=
  r ← attempt (io_stat (blob_path d));
  match r with
  | Ok n => mret (Some (node_len n))
  | Err e => if not_found e then mret None else fail (io_err (bs "stat blob") e)
  end.

Definition disk_has (d : Digest) : CasM bool := n ← disk_size d; mret (bool_decide (is_Some n)).

(** *** Reclaiming *)

(** A loop that collects: [op] says what an element adds. *)
Fixpoint collect_each {A B : Type} (op : A -> CasM (list B)) (l : list A) : CasM (list B) :=
  match l with
  | [] => mret []
  | x :: l => out ← op x; rest ← collect_each op l; mret (out ++ rest)
  end.

Definition local_file (a : DigestAlgo) (shard : fname) (file : fname * node) : CasM (list LocalBlob) :=
  _ ← or_io_err (bs "list shard") (io_next_entry [name a; shard]);
  match parse_digest a (to_string_lossy shard ++ to_string_lossy file.1) with
  | None => mret []
  | Some d =>
      r ← attempt (io_stat [name a; shard; file.1]);
      match r with
      | Ok (File b) => mret [mkLocalBlob d (zlen b)]
      | Ok _ => mret []
      | Err e => if not_found e then mret [] else fail (io_err (bs "stat blob") e)
      end
  end.

Definition local_shard (a : DigestAlgo) (shard : fname * node) : CasM (list LocalBlob) :=
  _ ← or_io_err (bs "list algo dir") (io_next_entry [name a]);
  _ ← or_io_err (bs "stat shard") (io_file_type [name a; shard.1]);
  match shard.2 with
  | Dir =>
      r ← attempt (io_read_dir [name a; shard.1]);
      match r with
      | Ok l => collect_each (local_file a shard.1) l
      | Err e => if not_found e then mret [] else fail (io_err (bs "list shard") e)
      end
  | _ => mret []
  end.

Definition local_algo (a : DigestAlgo) : CasM (list LocalBlob) :=
  r ← attempt (io_read_dir [name a]);
  match r with
  | Ok l => collect_each (local_shard a) l
  | Err e => if not_found e then mret [] else fail (io_err (bs "list algo dir") e)
  end.

Definition disk_iter_local : CasM (list LocalBlob) := collect_each local_algo ALGOS.

Definition disk_reclaim (d : Digest) : CasM bool :=
  r ← attempt (io_remove_file (blob_path d));
  match r with
  | Ok () => mret true
  | Err e => if not_found e then mret false else fail (io_err (bs "reclaim") e)
  end.

Definition disk_reclaim_if_corrupt (d : Digest) : CasM bool := fun s =>
  match disk_verify d s with
  | (Ok false, s) =>
      (_ ← or_io_err (bs "remove corrupt blob") (io_remove_file (blob_path d)); mret true) s
  | (Ok true, s) | (Err (BlobNotFound _), s) => (Ok false, s)
  | (Err e, s) => (Err e, s)
  end.

(** *** Quarantine *)

Definition quarantine_dir (a : DigestAlgo) : path := [bs "quarantine"; name a].

Definition slot_name (d : Digest) (n : Z) : fname := hex_of d ++ bs "." ++ dec n.

(** [for n in 0u32..]: the lowest slot that does not exist. *)
Fixpoint quarantine_slots (fuel : nat) (d : Digest) (n : Z) : CasM (option QuarantinedBlob) :=
  match fuel with
  | O => fail (Internal (bs "u32 slots exhausted"))
  | S fuel =>
      let dest := quarantine_dir (algo d) ++ [slot_name d n] in
      r ← attempt (io_stat dest);
      if is_ok r then quarantine_slots fuel d (n + 1)
      else
        r ← attempt (io_rename (blob_path d) dest);
        match r with
        | Ok () =>
            m ← or_io_err (bs "stat quarantined blob") (io_stat dest);
            mret (Some (mkQuarantined (name (algo d) ++ bs "/" ++ slot_name d n) d (node_len m)))
        | Err e => if not_found e then mret None else fail (io_err (bs "quarantine") e)
        end
  end.

(** Enough slots are tried for one to be free: more than there are files. *)
Definition disk_quarantine (d : Digest) : CasM (option QuarantinedBlob) :=
  _ ← or_io_err (bs "create quarantine") (io_create_dir_all (quarantine_dir (algo d)));
  s ← get_state;
  quarantine_slots (S (size (files s))) d 0.

Definition quarantined_file (a : DigestAlgo) (file : fname * node) : CasM (list QuarantinedBlob) :=
  _ ← or_io_err (bs "list quarantine") (io_next_entry (quarantine_dir a));
  let nm := to_string_lossy file.1 in
  match
    '(hex, _) ← rsplit_once (z2b 46) nm;
    parse_digest a hex
  with
  | None => mret []
  | Some d =>
      m ← or_io_err (bs "stat quarantined") (io_stat (quarantine_dir a ++ [file.1]));
      match m with
      | File b => mret [mkQuarantined (name a ++ bs "/" ++ nm) d (zlen b)]
      | _ => mret []
      end
  end.

Definition quarantined_algo (a : DigestAlgo) : CasM (list QuarantinedBlob) :=
  r ← attempt (io_read_dir (quarantine_dir a));
  match r with
  | Ok l => collect_each (quarantined_file a) l
  | Err e => if not_found e then mret [] else fail (io_err (bs "list quarantine") e)
  end.

Definition disk_iter_quarantine : CasM (list QuarantinedBlob) := collect_each quarantined_algo ALGOS.

#[export] Instance disk_backend : CasBackend Disk := {|
  cas_has := disk_has;
  cas_get := disk_get;
  cas_put := disk_put;
  cas_put_keyed := disk_put_keyed;
  cas_ensure_replicated := default_ensure_replicated;
  cas_size := disk_size;
|}.

#[export] Instance disk_reclaimable : ReclaimableCas Disk := {|
  iter_local := disk_iter_local;
  reclaim := disk_reclaim;
  cas_verify := disk_verify;
  reclaim_if_corrupt := disk_reclaim_if_corrupt;
  cas_quarantine := disk_quarantine;
  iter_quarantine := disk_iter_quarantine;
|}.
End disk_cas.
