(* ===== verification/DiskLaws.v ===== *)
(** The on-disk store keeps the backend contract of Cas.v, whatever fails.

    [held] is what a directory listing says; [disk_ok] is what the store relies on of its
    disk: errors of kind [NotFound] are not lies, the files in its shards are where their
    digests put them, and the sizes of quarantined files can be read. *)

From Stdlib Require Import ZArith Lia.
From stdpp Require Import base option gmap fin_map_dom list.
From S2P Require Import Prelude Text Hex Digest Errors Cas Disk.

Local Open Scope Z_scope.

(** ** Paths *)

Lemma hex_of_encode d : hex_of d = Hex.encode (bytes d).
Proof.
  unfold hex_of, to_string. change (bs ":" ++ Hex.encode (bytes d)) with (colon :: Hex.encode (bytes d)).
  by rewrite split_once_app by apply name_no_colon.
Qed.

Lemma blob_path_text d : firstn 2 (hex_of d) ++ drop 2 (hex_of d) = Hex.encode (bytes d).
Proof. rewrite hex_of_encode. apply take_drop. Qed.

Lemma parse_encode d : digest_wf d -> parse_digest (algo d) (Hex.encode (bytes d)) = Some d.
Proof.
  intros Hd%from_str_to_string. unfold to_string in Hd. unfold parse_digest. by rewrite Hd.
Qed.

Lemma name_inj a b : name a = name b -> a = b.
Proof. by destruct a, b. Qed.

Lemma blob_path_inj d1 d2 : digest_wf d1 -> digest_wf d2 -> blob_path d1 = blob_path d2 -> d1 = d2.
Proof.
  intros H1 H2 [= Ha Hs Hr]. apply name_inj in Ha.
  pose proof (parse_encode d1 H1) as E1. pose proof (parse_encode d2 H2) as E2.
  rewrite <- blob_path_text in E1, E2. rewrite Ha, Hs, Hr in E1. congruence.
Qed.

Lemma parse_digest_wf a t d : parse_digest a t = Some d -> digest_wf d /\ algo d = a.
Proof.
  unfold parse_digest. destruct (from_str _) as [d'|] eqn:E; [|done]. intros [= ->].
  pose proof (from_str_Ok _ _ E) as (Hwf & hex & Heq & _). split; [done|].
  change (bs ":" ++ t) with (colon :: t) in Heq.
  assert (Hn : split_once colon (name a ++ colon :: t) = split_once colon (name (algo d) ++ colon :: hex))
    by (by rewrite Heq).
  rewrite !split_once_app in Hn by apply name_no_colon. injection Hn as Hn _. symmetry. by apply name_inj.
Qed.

(** A valid text is its own lossy form. *)
Lemma lossy_fuel_valid fuel s : (length s <= fuel)%nat -> utf8_valid s = true -> lossy_fuel fuel s = s.
Proof.
  revert s. induction fuel as [|fuel IH]; intros s Hl Hv; [by destruct s; [|simpl in Hl; lia]|].
  destruct s as [|b0 r0]; [done|]. cbn [lossy_fuel utf8_valid] in *. simpl in Hl.
  destruct (in_range 0 127 b0) eqn:E1; [cbn; by rewrite drop_0, IH by (done || lia)|].
  destruct r0 as [|b1 r1]; [done|]. simpl in Hl.
  destruct (in_range 194 223 b0) eqn:E2.
  { apply andb_true_iff in Hv as [-> Hv]. cbn. by rewrite drop_0, IH by (done || lia). }
  destruct r1 as [|b2 r2]; [done|]. simpl in Hl.
  destruct (in_range 224 239 b0) eqn:E3.
  { apply andb_true_iff in Hv as [[-> ->]%andb_true_iff Hv]. cbn. by rewrite drop_0, IH by (done || lia). }
  destruct r2 as [|b3 r3]; [done|]. simpl in Hl.
  apply andb_true_iff in Hv as [[[[-> ->]%andb_true_iff ->]%andb_true_iff ->]%andb_true_iff Hv].
  cbn. by rewrite drop_0, IH by (done || lia).
Qed.

Lemma lossy_valid s : utf8_valid s = true -> to_string_lossy s = s.
Proof. by apply lossy_fuel_valid. Qed.

(** ** Maps read off a listing *)

Section listing.
Context {K1 K2 V1 V2 : Type} `{Countable K1, Countable K2}.
Implicit Type g : K1 * V1 -> option (K2 * V2).

(** Different keys give different entries. *)
Definition separates g : Prop :=
  forall k1 v1 k2 v2 x y1 y2,
    g (k1, v1) = Some (x, y1) -> g (k2, v2) = Some (x, y2) -> k1 = k2.

Lemma separates_NoDup g l : separates g -> NoDup l.*1 -> NoDup (omap g l).*1.
Proof.
  intros Hg. induction l as [|[k v] l IH]; [constructor|]. cbn [fmap list_fmap fst].
  intros [Hk Hl]%NoDup_cons. cbn [omap list_omap]. destruct (g (k, v)) as [[x y]|] eqn:E; [|by apply IH].
  cbn [fmap list_fmap fst]. apply NoDup_cons. split; [|by apply IH].
  intros ([x' y'] & -> & Hin)%list_elem_of_fmap. apply list_elem_of_omap in Hin as ([k' v'] & Hin & E').
  apply Hk. assert (k = k') as -> by (by eapply Hg). by apply (list_elem_of_fmap_2 fst _ (k', v')).
Qed.

Lemma listing_lookup g (m : gmap K1 V1) x y :
  separates g ->
  (list_to_map (omap g (map_to_list m)) : gmap K2 V2) !! x = Some y <->
  exists k v, m !! k = Some v /\ g (k, v) = Some (x, y).
Proof.
  intros Hg. rewrite <- elem_of_list_to_map by (apply separates_NoDup; [done|apply NoDup_fst_map_to_list]).
  rewrite list_elem_of_omap. split.
  - intros ([k v] & Hin%elem_of_map_to_list & E). eauto.
  - intros (k & v & Hm & E). exists (k, v). by rewrite elem_of_map_to_list.
Qed.

Lemma listing_perm g (m : gmap K1 V1) :
  separates g -> map_to_list (list_to_map (omap g (map_to_list m)) : gmap K2 V2) ≡ₚ omap g (map_to_list m).
Proof.
  intros Hg. apply map_to_list_to_map, separates_NoDup; [done|apply NoDup_fst_map_to_list].
Qed.
End listing.

(** ** What a disk holds *)

Definition blob_at (e : path * node) : option (Digest * list byte) :=
  match e with
  | ([a; shard; rest], File b) =>
      a ← from_name a;
      d ← parse_digest a (shard ++ rest);
      if bool_decide (blob_path d = e.1) then Some (d, b) else None
  | _ => None
  end.

Definition slash : byte := z2b 47.

(** The quarantined copy a file is, by the text before its last dot. *)
Definition copy_of (a : DigestAlgo) (nm : fname) : option Digest :=
  '(hex, _) ← rsplit_once (z2b 46) (to_string_lossy nm); parse_digest a hex.

Definition copy_at (e : path * node) : option (list byte * Z) :=
  match e with
  | ([q; a; nm], File b) =>
      if bool_decide (q = bs "quarantine") then
        al ← from_name a;
        _ ← copy_of al nm;
        if utf8_valid nm then Some (a ++ slash :: nm, zlen b) else None
      else None
  | _ => None
  end.

Definition disk_held (f : fs) : gmap Digest (list byte) := list_to_map (omap blob_at (map_to_list f)).
Definition disk_copies (f : fs) : gmap (list byte) Z := list_to_map (omap copy_at (map_to_list f)).

Lemma blob_at_Some p n d b :
  blob_at (p, n) = Some (d, b) <-> digest_wf d /\ p = blob_path d /\ n = File b.
Proof.
  split.
  - destruct p as [|a [|shard [|rest [|? ?]]]]; try done. destruct n as [|c|]; try done. simpl.
    destruct (from_name a) as [al|] eqn:Ea; [|done]. cbn [mbind option_bind].
    destruct (parse_digest al _) as [d'|] eqn:Ed; [|done]. cbn [mbind option_bind].
    case_bool_decide as Hp; [|done]. intros [= <- <-]. apply parse_digest_wf in Ed as [Hwf _]. auto.
  - intros (Hwf & -> & ->). unfold blob_path. cbn [blob_at]. rewrite from_name_name.
    cbn [mbind option_bind]. rewrite blob_path_text, (parse_encode d Hwf). cbn [mbind option_bind fst].
    by rewrite bool_decide_true.
Qed.

Lemma blob_at_separates : separates blob_at.
Proof. intros k1 v1 k2 v2 x y1 y2 (_ & -> & _)%blob_at_Some (_ & -> & _)%blob_at_Some. done. Qed.

Lemma copy_at_Some p n id z :
  copy_at (p, n) = Some (id, z) <->
  exists a nm b, p = [bs "quarantine"; name a; nm] /\ n = File b /\ id = name a ++ slash :: nm /\
    z = zlen b /\ is_Some (copy_of a nm) /\ utf8_valid nm = true.
Proof.
  split.
  - destruct p as [|q [|a [|nm [|? ?]]]]; try done. destruct n as [|c|]; try done. cbn [copy_at].
    case_bool_decide as Hq; [|done]. subst q. destruct (from_name a) as [al|] eqn:Ea; [|done].
    cbn [mbind option_bind]. apply from_name_Some in Ea as ->.
    destruct (copy_of al nm) as [d|] eqn:Ec; [|done]. cbn [mbind option_bind].
    destruct (utf8_valid nm) eqn:Eu; [|done]. intros [= <- <-]. exists al, nm, c. eauto 10.
  - intros (a & nm & b & -> & -> & -> & -> & [d Hd] & Hu). cbn [copy_at].
    rewrite bool_decide_true, from_name_name by done. cbn [mbind option_bind]. rewrite Hd.
    cbn [mbind option_bind]. by rewrite Hu.
Qed.

Lemma name_no_slash a : slash ∉ name a.
Proof. destruct a; apply (bool_decide_unpack _); vm_compute; exact I. Qed.

Lemma copy_id_inj a1 n1 a2 n2 :
  name a1 ++ slash :: n1 = name a2 ++ slash :: n2 -> a1 = a2 /\ n1 = n2.
Proof.
  intros E. apply (f_equal (split_once slash)) in E.
  rewrite !split_once_app in E by apply name_no_slash. injection E as E ->. split; [by apply name_inj|done].
Qed.

Lemma copy_at_separates : separates copy_at.
Proof.
  intros k1 v1 k2 v2 x y1 y2 (a1 & n1 & b1 & -> & _ & -> & _)%copy_at_Some
    (a2 & n2 & b2 & -> & _ & E & _)%copy_at_Some. by apply copy_id_inj in E as [-> ->].
Qed.

(** A blob is held when its file is where its digest says. *)
Lemma disk_held_lookup f d b :
  disk_held f !! d = Some b <-> digest_wf d /\ f !! blob_path d = Some (File b).
Proof.
  unfold disk_held. rewrite (listing_lookup _ _ _ _ blob_at_separates). split.
  - intros (p & n & Hp & (Hwf & -> & ->)%blob_at_Some). done.
  - intros [Hwf Hp]. exists (blob_path d), (File b). by rewrite blob_at_Some.
Qed.

Lemma disk_copies_lookup f id z :
  disk_copies f !! id = Some z <->
  exists a nm b, f !! [bs "quarantine"; name a; nm] = Some (File b) /\
    id = name a ++ slash :: nm /\ z = zlen b /\ is_Some (copy_of a nm) /\ utf8_valid nm = true.
Proof.
  unfold disk_copies. rewrite (listing_lookup _ _ _ _ copy_at_separates). split.
  - intros (p & n & Hp & (a & nm & b & -> & -> & -> & -> & Hc & Hu)%copy_at_Some). exists a, nm, b. auto.
  - intros (a & nm & b & Hf & -> & -> & Hc & Hu). exists [bs "quarantine"; name a; nm], (File b).
    split; [done|]. apply copy_at_Some. exists a, nm, b. auto 10.
Qed.

(** ** Well-formed trees and quiet steps *)

Definition tree_wf (f : fs) : Prop :=
  forall p n, f !! p = Some n -> p <> [] /\ forall q, q ∈ ancestors p -> f !! q = Some Dir.

(** The paths the store's contents are read from: three names, not in [tmp]. *)
Definition content_path (p : path) : Prop := exists a b c, p = [a; b; c] /\ a <> bs "tmp".

Definition agree (f f' : fs) : Prop := forall p, content_path p -> f' !! p = f !! p.

Lemma blob_path_content d : content_path (blob_path d).
Proof. unfold blob_path. eexists _, _, _. split; [done|]. by destruct (algo d). Qed.

Lemma copy_path_content a nm : content_path [bs "quarantine"; name a; nm].
Proof. by eexists _, _, _. Qed.

Lemma agree_held f f' : agree f f' -> disk_held f' = disk_held f.
Proof.
  intros Ha. apply map_eq. intros d. apply option_eq. intros b.
  rewrite !disk_held_lookup, (Ha _ (blob_path_content d)). done.
Qed.

Lemma agree_copies f f' : agree f f' -> disk_copies f' = disk_copies f.
Proof.
  intros Ha. apply map_eq. intros id. apply option_eq. intros z. rewrite !disk_copies_lookup.
  by setoid_rewrite (Ha _ (copy_path_content _ _)).
Qed.

(** One blob's file is written, or goes away. *)
Lemma held_insert f f' d b :
  digest_wf d -> agree (<[blob_path d := File b]> f) f' -> disk_held f' = <[d := b]> (disk_held f).
Proof.
  intros Hd Ha. apply map_eq. intros d'. apply option_eq. intros b'.
  rewrite lookup_insert_Some, !disk_held_lookup, (Ha _ (blob_path_content d')).
  destruct (decide (d = d')) as [<-|Hne].
  - rewrite lookup_insert_eq. naive_solver.
  - split.
    + intros [Hwf Hl]. rewrite lookup_insert_ne in Hl; [by right|].
      intros E. apply Hne. by apply blob_path_inj.
    + intros [[? _]|(_ & Hwf & Hl)]; [done|]. split; [done|]. rewrite lookup_insert_ne; [done|].
      intros E. apply Hne. by apply blob_path_inj.
Qed.

Lemma held_delete f f' d :
  digest_wf d -> agree (delete (blob_path d) f) f' -> disk_held f' = delete d (disk_held f).
Proof.
  intros Hd Ha. apply map_eq. intros d'. apply option_eq. intros b'.
  rewrite lookup_delete_Some, !disk_held_lookup, (Ha _ (blob_path_content d')), lookup_delete_Some.
  split.
  - intros (Hwf & Hne & Hl). split; [congruence|done].
  - intros (Hne & Hwf & Hl). split; [done|]. split; [|done]. intros E. by apply Hne, blob_path_inj.
Qed.

Lemma blob_not_copy d a nm : blob_path d <> [bs "quarantine"; name a; nm].
Proof. unfold blob_path. by destruct (algo d). Qed.

Lemma blob_change_copies f f' d g :
  agree (partial_alter g (blob_path d) f) f' -> disk_copies f' = disk_copies f.
Proof.
  intros Ha. apply map_eq. intros id. apply option_eq. intros z. rewrite !disk_copies_lookup.
  setoid_rewrite (Ha _ (copy_path_content _ _)).
  by setoid_rewrite (lookup_partial_alter_ne _ _ _ _ (blob_not_copy _ _ _)).
Qed.

Lemma elem_of_ancestors q p :
  q ∈ ancestors p <-> exists i, (1 <= i < length p)%nat /\ q = firstn i p.
Proof.
  unfold ancestors. rewrite list_elem_of_fmap. setoid_rewrite elem_of_seq. split.
  - intros (i & -> & Hi). exists i. split; [lia|done].
  - intros (i & Hi & ->). exists i. split; [done|lia].
Qed.

Lemma ancestors_ne q p : q ∈ ancestors p -> q <> p.
Proof.
  intros (i & Hi & ->)%elem_of_ancestors E. apply (f_equal length) in E. rewrite length_take in E. lia.
Qed.

Lemma blocked_None p f : blocked p f = None <-> forall q, q ∈ ancestors p -> f !! q = Some Dir.
Proof.
  unfold blocked. split.
  - destruct (list_find _ _) as [[i q]|] eqn:E; [done|]. intros _ q Hq.
    apply list_find_None in E. rewrite Forall_forall in E. specialize (E q Hq).
    unfold is_dir in E. by destruct (bool_decide_reflect (f !! q = Some Dir)).
  - intros H. replace (list_find _ _) with (@None (nat * path)); [done|]. symmetry.
    apply list_find_None, Forall_forall. intros q Hq. unfold is_dir. by rewrite bool_decide_true by auto.
Qed.

Lemma blocked_NotFound p f e :
  tree_wf f -> blocked p f = Some e -> not_found e = true -> f !! p = None.
Proof.
  intros Hwf He _. destruct (f !! p) as [n|] eqn:E; [|done]. destruct (Hwf p n E) as [_ Ha].
  apply blocked_None in Ha. congruence.
Qed.

Lemma resolve_Ok p f n : p <> [] -> resolve p f = Ok n -> f !! p = Some n /\ blocked p f = None.
Proof.
  intros Hp. unfold resolve. destruct (blocked p f); [done|]. rewrite bool_decide_false by done.
  destruct (f !! p); [|done]. by intros [= ->].
Qed.

Lemma resolve_NotFound p f e :
  tree_wf f -> p <> [] -> resolve p f = Err e -> not_found e = true -> f !! p = None.
Proof.
  intros Hwf Hp. unfold resolve. destruct (blocked p f) as [e'|] eqn:E.
  - intros [= ->]. by eapply blocked_NotFound.
  - rewrite bool_decide_false by done. by destruct (f !! p).
Qed.

Lemma wf_delete_file f p n : tree_wf f -> f !! p = Some n -> n <> Dir -> tree_wf (delete p f).
Proof.
  intros Hwf Hp Hn q m [Hne Hq]%lookup_delete_Some. destruct (Hwf q m Hq) as [Hq0 Ha]. split; [done|].
  intros a Hin. specialize (Ha a Hin). rewrite lookup_delete_ne; [done|congruence].
Qed.

Lemma wf_insert f p n :
  tree_wf f -> p <> [] -> blocked p f = None -> (n = Dir \/ f !! p <> Some Dir) ->
  tree_wf (<[p := n]> f).
Proof.
  intros Hwf Hp Hb Hn q m Hq. rewrite blocked_None in Hb.
  assert (Hkeep : forall a, f !! a = Some Dir -> <[p := n]> f !! a = Some Dir).
  { intros a Ha. destruct (decide (p = a)) as [<-|]; [|by rewrite lookup_insert_ne].
    rewrite lookup_insert_eq. destruct Hn as [->|]; [done|congruence]. }
  apply lookup_insert_Some in Hq as [[<- _]|[_ Hq]]; [by auto|].
  destruct (Hwf q m Hq) as [Hq0 Ha]. auto.
Qed.

(** ** What the store relies on *)

Definition honest (s : Disk) : Prop :=
  forall t op e k, fails s t op = Some (e, k) -> not_found e = false.

Definition copies_stat (s : Disk) : Prop :=
  forall t a nm, fails s t (OpStat [bs "quarantine"; a; nm]) = None.

Definition placed (f : fs) : Prop :=
  (forall a shard rest n d, f !! [name a; shard; rest] = Some n ->
   parse_digest a (to_string_lossy shard ++ to_string_lossy rest) = Some d ->
   blob_path d = [name a; shard; rest]) /\
  (forall d n, digest_wf d -> f !! blob_path d = Some n -> exists b, n = File b) /\
  (forall a nm b, f !! [bs "quarantine"; name a; nm] = Some (File b) ->
   is_Some (copy_of a nm) -> utf8_valid nm = true).

Definition disk_ok (s : Disk) : Prop :=
  honest s /\ copies_stat s /\ tree_wf (files s) /\ placed (files s).

#[export] Instance disk_model : CasModel Disk := {|
  held s := disk_held (files s);
  quarantined_at s := disk_copies (files s);
  cas_valid := disk_ok;
|}.

(** Nothing the store's contents are read from has changed. *)
Definition quiet (s s' : Disk) : Prop :=
  fails s' = fails s /\ (tree_wf (files s) -> tree_wf (files s')) /\ agree (files s) (files s').

Lemma quiet_refl s : quiet s s.
Proof. by split. Qed.

Lemma quiet_trans s1 s2 s3 : quiet s1 s2 -> quiet s2 s3 -> quiet s1 s3.
Proof.
  intros (H1 & H2 & H3) (H4 & H5 & H6). split; [congruence|]. split; [auto|].
  intros p Hp. rewrite H6, H3; done.
Qed.

Lemma quiet_same s s' : quiet s s' -> same_content s s'.
Proof. intros (_ & _ & Ha). split; simpl; [by apply agree_held|by apply agree_copies]. Qed.

Lemma placed_agree f f' : agree f f' -> placed f -> placed f'.
Proof.
  intros Ha (H1 & H2 & H3). split_and!.
  - intros a shard rest n d. rewrite Ha by (eexists _, _, _; split; [done|by destruct a]). apply H1.
  - intros d n. rewrite (Ha _ (blob_path_content d)). apply H2.
  - intros a nm b. rewrite (Ha _ (copy_path_content a nm)). apply H3.
Qed.

Lemma placed_delete f p : placed f -> placed (delete p f).
Proof.
  intros (H1 & H2 & H3). split_and!.
  - intros a sh rest n d [_ Hn]%lookup_delete_Some. by eapply H1.
  - intros d n Hd [_ Hn]%lookup_delete_Some. by eapply H2.
  - intros a nm c [_ Hn]%lookup_delete_Some. by eapply H3.
Qed.

Lemma quiet_ok s s' : quiet s s' -> disk_ok s -> disk_ok s'.
Proof.
  intros (Hf & Hw & Ha) (H1 & H2 & H3 & H4). unfold disk_ok, honest, copies_stat. rewrite Hf.
  split_and!; [done..|by auto|by eapply placed_agree].
Qed.

(** ** Calls *)

Lemma syscall_inv {A : Type} (op : fs_op) (part : nat -> fs -> fs) (act : fs -> result io_error A * fs) s r s' :
  honest s -> syscall op part act s = (r, s') ->
  (exists e k, r = Err e /\ not_found e = false /\ s' = set_files (part k (files s)) s) \/
  r = (act (files s)).1 /\ s' = set_files (act (files s)).2 s.
Proof.
  intros Hh. unfold syscall. destruct (fails s (calls s) op) as [[e k]|] eqn:E.
  - intros [= <- <-]. left. exists e, k. split; [done|]. split; [by eapply Hh|done].
  - destruct (act (files s)). intros [= <- <-]. by right.
Qed.

Lemma quiet_files f s : (tree_wf (files s) -> tree_wf f) -> agree (files s) f -> quiet s (set_files f s).
Proof. by intros. Qed.

Lemma agree_refl f : agree f f.
Proof. by intros p. Qed.

Lemma look_inv {A : Type} (op : fs_op) (act : fs -> result io_error A) s r s' :
  honest s -> look op act s = (r, s') ->
  quiet s s' /\ files s' = files s /\
  (r = act (files s) \/ exists e, r = Err e /\ not_found e = false).
Proof.
  intros Hh [(e & k & -> & He & ->)|[-> ->]]%syscall_inv; [| |done];
    (split; [by apply quiet_files|]; split; [done|]); eauto.
Qed.

Lemma attempt_inv {A : Type} (op : IO A) s r s' :
  attempt op s = (r, s') -> exists r0, r = Ok r0 /\ op s = (r0, s').
Proof. unfold attempt. destruct (op s) as [r0 s0]. intros [= <- <-]. eauto. Qed.

Lemma or_io_err_inv {A : Type} what (op : IO A) s r s' :
  or_io_err what op s = (r, s') -> exists r0, r = map_err (io_err what) r0 /\ op s = (r0, s').
Proof. unfold or_io_err. destruct (op s) as [r0 s0]. intros [= <- <-]. eauto. Qed.

Section blobs.
Context (d : Digest) (Hd : digest_wf d).
Implicit Types s : Disk.

Lemma held_none s : files s !! blob_path d = None -> held s !! d = None.
Proof.
  intros Hn. simpl. destruct (disk_held (files s) !! d) eqn:E; [|done].
  apply disk_held_lookup in E as [_ E]. congruence.
Qed.

(** Looking up the blob's file finds what the store holds. *)
Lemma resolve_blob s :
  disk_ok s ->
  match resolve (blob_path d) (files s) with
  | Ok n => exists b, n = File b /\ held s !! d = Some b
  | Err e => not_found e = true -> held s !! d = None
  end.
Proof.
  intros (_ & _ & Hwf & Hp). destruct (resolve _ _) as [n|e] eqn:E.
  - apply resolve_Ok in E as [Hf _]; [|done]. destruct Hp as (_ & Hp & _).
    destruct (Hp d n Hd Hf) as [b ->]. exists b. split; [done|]. apply disk_held_lookup. by split.
  - intros He. apply held_none. by eapply resolve_NotFound.
Qed.

Lemma stat_blob s r s' :
  disk_ok s -> io_stat (blob_path d) s = (r, s') ->
  quiet s s' /\
  match r with
  | Ok n => exists b, n = File b /\ held s !! d = Some b
  | Err e => not_found e = true -> held s !! d = None
  end.
Proof.
  intros Hok H. apply look_inv in H as (Hq & _ & Hr); [|apply Hok]. split; [done|].
  destruct Hr as [->|(e & -> & He)]; [by apply resolve_blob|congruence].
Qed.

Lemma read_blob s r s' :
  disk_ok s -> io_read (blob_path d) s = (r, s') ->
  quiet s s' /\
  match r with
  | Ok b => held s !! d = Some b
  | Err e => not_found e = true -> held s !! d = None
  end.
Proof.
  intros Hok H. apply look_inv in H as (Hq & _ & Hr); [|apply Hok]. split; [done|].
  destruct Hr as [->|(e & -> & He)]; [|congruence].
  pose proof (resolve_blob s Hok) as Hb. unfold fs_read.
  destruct (resolve _ _) as [n|e]; simpl; [|done]. by destruct Hb as (b & -> & Hb).
Qed.

(** Unlinking the blob's file removes the blob. *)
Lemma unlink_blob s r s' :
  disk_ok s -> io_remove_file (blob_path d) s = (r, s') ->
  disk_ok s' /\
  match r with
  | Ok () => is_Some (held s !! d) /\ removes s d true s'
  | Err e => same_content s s' /\ (not_found e = true -> held s !! d = None)
  end.
Proof.
  intros Hok H. pose proof Hok as (Hh & Hc & Hwf & Hp). apply syscall_inv in H as [H|[-> ->]]; [| |done].
  - destruct H as (e & k & -> & He & ->).
    assert (Hq : quiet s (set_files (no_progress k (files s)) s)) by by apply quiet_files.
    split; [by eapply quiet_ok|]. split; [by apply quiet_same|congruence].
  - pose proof (resolve_blob s Hok) as Hb. unfold fs_remove_file.
    destruct (resolve _ _) as [n|e] eqn:E.
    + destruct Hb as (b & -> & Hb). apply resolve_Ok in E as [Hf _]; [|done]. cbn [fst snd].
      assert (Hdel : agree (delete (blob_path d) (files s)) (delete (blob_path d) (files s))) by done.
      split.
      * split_and!; [done|done|by eapply wf_delete_file|].
        by apply placed_delete.
      * split; [by eexists|]. split; simpl.
        -- by eapply blob_change_copies.
        -- by eapply held_delete.
    + cbn [fst snd]. assert (Hq : quiet s (set_files (files s) s)) by by apply quiet_files.
      split; [by eapply quiet_ok|]. split; [by apply quiet_same|done].
Qed.
End blobs.

(** ** Operations on one blob *)

Section operations.
Context {Hs : Hashers} (other_len : node -> Z).
#[local] Instance the_backend : CasBackend Disk := disk_backend other_len.
#[local] Instance the_reclaimable : ReclaimableCas Disk := disk_reclaimable other_len.

Section blob.
Context (d : Digest) (Hd : digest_wf d).
Implicit Types s : Disk.

Lemma disk_verify_spec s r s' :
  disk_ok s -> disk_verify d s = (r, s') ->
  quiet s s' /\
  match r with
  | Ok b => exists data, held s !! d = Some data /\ b = verify d data
  | Err (BlobNotFound _) => held s !! d = None
  | Err _ => True
  end.
Proof.
  intros Hok H. unfold disk_verify, mbind, M_bind in H.
  destruct (attempt _ s) as [r1 s1] eqn:E. apply attempt_inv in E as (r0 & -> & E).
  apply (read_blob d Hd) in E as [Hq Hr]; [|done].
  destruct r0 as [b|e].
  - injection H as <- <-. eauto.
  - destruct (not_found e) eqn:He; injection H as <- <-; (split; [done|]); [by apply Hr|done].
Qed.

Lemma disk_get_spec s : disk_ok s -> get_spec d s /\ disk_ok (cas_get d s).2.
Proof.
  intros Hok. unfold get_spec. destruct (cas_get d s) as [r s'] eqn:H.
  cbn [cas_get the_backend disk_backend] in H. unfold disk_get, mbind, M_bind in H.
  destruct (attempt _ s) as [r1 s1] eqn:E. apply attempt_inv in E as (r0 & -> & E).
  apply (read_blob d Hd) in E as [Hq Hr]; [|done].
  assert (Hs1 : s' = s1).
  { destruct r0 as [b|e]; [destruct (verify d b)|destruct (not_found e)]; by injection H as _ <-. }
  subst s'. split; [|by eapply quiet_ok]. split; [by apply quiet_same|].
  destruct r0 as [b|e].
  - destruct (verify d b) eqn:Ev; injection H as <-; [|done]. exists b. split_and!; [done|done|].
    apply read_to_end_cursor.
  - destruct (not_found e) eqn:He; injection H as <-; [|done]. split; [done|by apply Hr].
Qed.

Lemma size_cases s r s' :
  disk_ok s -> disk_size other_len d s = (r, s') ->
  quiet s s' /\ match r with Ok n => n = zlen <$> held s !! d | Err _ => True end.
Proof.
  intros Hok H. unfold disk_size, mbind, M_bind in H.
  destruct (attempt _ s) as [r1 s1] eqn:E. apply attempt_inv in E as (r0 & -> & E).
  apply (stat_blob d Hd) in E as [Hq Hr]; [|done]. destruct r0 as [n|e].
  - destruct Hr as (b & -> & Hb). injection H as <- <-. by rewrite Hb.
  - destruct (not_found e) eqn:He; injection H as <- <-; [|done]. by rewrite (Hr eq_refl).
Qed.

Lemma disk_size_spec s : disk_ok s -> size_spec d s /\ disk_ok (cas_size d s).2.
Proof.
  intros Hok. unfold size_spec. cbn [cas_size the_backend disk_backend].
  destruct (disk_size other_len d s) as [r s'] eqn:H. apply size_cases in H as [Hq Hr]; [|done].
  split; [|by eapply quiet_ok]. split; [by apply quiet_same|done].
Qed.

Lemma disk_has_spec s : disk_ok s -> has_spec d s /\ disk_ok (cas_has d s).2.
Proof.
  intros Hok. unfold has_spec. cbn [cas_has the_backend disk_backend].
  unfold disk_has, mbind, M_bind. destruct (disk_size other_len d s) as [r s'] eqn:H.
  apply size_cases in H as [Hq Hr]; [|done]. destruct r as [n|e].
  - split; [|by eapply quiet_ok]. split; [by apply quiet_same|]. subst n.
    apply bool_decide_ext. by rewrite fmap_is_Some.
  - split; [|by eapply quiet_ok]. split; [by apply quiet_same|done].
Qed.

Lemma disk_reclaim_spec s : disk_ok s -> reclaim_spec d s /\ disk_ok (reclaim d s).2.
Proof.
  intros Hok. unfold reclaim_spec. cbn [reclaim the_reclaimable disk_reclaimable].
  unfold disk_reclaim, mbind, M_bind. destruct (attempt _ s) as [r1 s1] eqn:E.
  apply attempt_inv in E as (r0 & -> & E). apply (unlink_blob d Hd) in E as [Hok1 Hr]; [|done].
  destruct r0 as [[]|e].
  - destruct Hr as [Hheld Hrem]. split; [|done]. split; [|done]. by rewrite bool_decide_true.
  - destruct Hr as [Hsame Hn]. destruct (not_found e); [|done]. specialize (Hn eq_refl).
    split; [|done]. split; [|split; apply Hsame].
    symmetry. apply bool_decide_false. rewrite Hn. by intros [].
Qed.

Lemma disk_reclaim_if_corrupt_spec s :
  disk_ok s -> reclaim_if_corrupt_spec d s /\ disk_ok (reclaim_if_corrupt d s).2.
Proof.
  intros Hok. unfold reclaim_if_corrupt_spec. cbn [reclaim_if_corrupt the_reclaimable disk_reclaimable].
  unfold disk_reclaim_if_corrupt. destruct (disk_verify d s) as [r1 s1] eqn:E.
  apply disk_verify_spec in E as [Hq Hr]; [|done]. pose proof (quiet_ok _ _ Hq Hok) as Hok1.
  pose proof (quiet_same _ _ Hq) as [Hh Hc].
  destruct r1 as [[|]|[]]; try (by split; [split|]).
  - destruct Hr as (data & Hdata & Hv). split; [|done]. split; [|by split].
    split; [done|]. intros (data' & Hd' & Hbad). congruence.
  - destruct Hr as (data & Hdata & Hv). unfold mbind, M_bind.
    destruct (or_io_err _ _ s1) as [r2 s2] eqn:E. apply or_io_err_inv in E as (r0 & -> & E).
    apply (unlink_blob d Hd) in E as [Hok2 Hrm]; [|done]. destruct r0 as [[]|e]; cbn [map_err].
    + split; [|done]. destruct Hrm as [_ [Hq2 Hh2]]. split; [by split; eauto|].
      split; [by rewrite Hq2|]. by rewrite Hh2, Hh.
    + split; [|done]. destruct Hrm as [[Hh2 Hq2] _]. split; congruence.
  - split; [|done]. split; [|by split]. split; [done|]. intros (data & Hd' & _). congruence.
Qed.
End blob.
End operations.

(** ** Writing *)

Lemma resolve_present p f n : tree_wf f -> f !! p = Some n -> resolve p f = Ok n.
Proof.
  intros Hwf Hp. destruct (Hwf p n Hp) as [Hne Ha]. apply blocked_None in Ha. unfold resolve.
  by rewrite Ha, bool_decide_false, Hp by done.
Qed.

Lemma agree_short f p n : (length p <> 3)%nat -> agree f (<[p := n]> f).
Proof. intros Hp q (a & b & c & -> & _). apply lookup_insert_ne. by intros ->. Qed.

Lemma agree_delete_short f p : (length p <> 3)%nat -> agree f (delete p f).
Proof. intros Hp q (a & b & c & -> & _). apply lookup_delete_ne. by intros ->. Qed.

(** A directory of at most two names is made. *)
Lemma mkdirs_quiet ps f :
  tree_wf f -> (forall p, p ∈ ps -> p <> [] /\ (length p <= 2)%nat) ->
  (forall l p r, ps = l ++ p :: r -> forall q, q ∈ ancestors p -> q ∈ l \/ f !! q = Some Dir) ->
  let '(r, f') := fs_mkdirs ps f in
  tree_wf f' /\ agree f f' /\ (forall p n, f !! p = Some n -> f' !! p = Some n) /\
  (r = Ok () -> forall p, p ∈ ps -> f' !! p = Some Dir).
Proof.
  revert f. induction ps as [|p ps IH]; intros f Hwf Hshort Hanc; cbn [fs_mkdirs].
  { split_and!; try done. intros _ p Hp. by apply elem_of_nil in Hp. }
  destruct (Hshort p) as [Hne Hlen]; [apply elem_of_cons; by left|].
  assert (Hb : blocked p f = None).
  { apply blocked_None. intros q Hq. destruct (Hanc [] p ps eq_refl q Hq) as [Hin|]; [|done].
    by apply elem_of_nil in Hin. }
  assert (Hnext : forall g : fs, (forall q n, f !! q = Some n -> g !! q = Some n) -> g !! p = Some Dir ->
    forall l q r, ps = l ++ q :: r -> forall a, a ∈ ancestors q -> a ∈ l \/ g !! a = Some Dir).
  { intros g Hg Hgp l q r -> a Ha. destruct (Hanc (p :: l) q r eq_refl a Ha) as [Hin|]; [|auto].
    apply elem_of_cons in Hin as [->|]; auto. }
  assert (Hshort' : forall q, q ∈ ps -> q <> [] /\ (length q <= 2)%nat).
  { intros q Hq. apply Hshort. apply elem_of_cons. by right. }
  destruct (f !! p) as [[| |]|] eqn:Ep.
  - pose proof (IH f Hwf Hshort' (Hnext f (fun _ _ H => H) Ep)) as H.
    destruct (fs_mkdirs ps f) as [r f']. destruct H as (H1 & H2 & H3 & H4). split_and!; [done..|].
    intros Hr q [->|Hq]%elem_of_cons; [by apply H3|by apply H4].
  - split_and!; try done.
  - split_and!; try done.
  - assert (Hk : forall q n, f !! q = Some n -> <[p := Dir]> f !! q = Some n).
    { intros q n Hq. rewrite lookup_insert_ne; [done|congruence]. }
    pose proof (IH (<[p := Dir]> f)) as H. destruct (fs_mkdirs ps _) as [r f'].
    destruct H as (H1 & H2 & H3 & H4).
    + apply wf_insert; [done|done|done|by left].
    + done.
    + apply Hnext; [done|apply lookup_insert_eq].
    + split_and!; [done| |by auto|].
      * intros q Hq. rewrite H2 by done. apply agree_short; [lia|done].
      * intros Hr q [->|Hq]%elem_of_cons; [apply H3, lookup_insert_eq|by apply H4].
Qed.

Lemma mkdirs_chain a b k f :
  tree_wf f ->
  let '(r, f') := fs_mkdirs (firstn k [[a]; [a; b]]) f in
  tree_wf f' /\ agree f f' /\ (forall p n, f !! p = Some n -> f' !! p = Some n) /\
  (r = Ok () -> forall p, p ∈ firstn k [[a]; [a; b]] -> f' !! p = Some Dir).
Proof.
  intros Hwf. apply mkdirs_quiet; [done| |].
  - intros p Hp. assert (Hin : p ∈ [[a]; [a; b]]).
    { rewrite <- (firstn_skipn k). apply elem_of_app. by left. }
    apply elem_of_cons in Hin as [->|Hin]; [simpl; split; [done|lia]|].
    apply list_elem_of_singleton in Hin as ->. simpl. split; [done|lia].
  - intros l p r Hl q (i & Hi & ->)%elem_of_ancestors.
    destruct k as [|[|k]]; destruct l as [|x [|y [|]]]; simplify_eq/=; try lia.
    1: left; assert (i = 1%nat) as -> by lia; apply elem_of_cons; by left.
    all: by destruct k.
Qed.

(** [create_dir_all] of a path of at most two names, done or not. *)
Lemma create_dirs_quiet p s r s' :
  disk_ok s -> p <> [] -> (length p <= 2)%nat -> io_create_dir_all p s = (r, s') ->
  quiet s s' /\ (forall q n, files s !! q = Some n -> files s' !! q = Some n) /\
  (r = Ok () -> files s' !! p = Some Dir /\ forall q, q ∈ ancestors p -> files s' !! q = Some Dir).
Proof.
  intros (Hh & _ & Hwf & _) Hp Hlen H.
  assert (Hgo : exists a b n, (n = 1%nat \/ n = 2%nat) /\ p = firstn n [a; b] /\
    ancestors p ++ [p] = firstn n [[a]; [a; b]] /\ forall k, firstn k (ancestors p) = firstn (k `min` (n - 1)) [[a]; [a; b]]).
  { destruct p as [|a [|b [|]]]; [done| | |simpl in Hlen; lia].
    - exists a, a, 1%nat. split_and!; [by left|done|done|]. intros k. rewrite Nat.min_0_r. by destruct k.
    - exists a, b, 2%nat. split_and!; [by right|done|done|]. intros [|[|k]]; done. }
  destruct Hgo as (a & b & n & Hn & Hpn & Hall & Hpart).
  apply syscall_inv in H as [(e & k & -> & _ & ->)|[-> ->]]; [| |done].
  - rewrite Hpart. pose proof (mkdirs_chain a b (k `min` (n - 1)) (files s) Hwf) as Hgo.
    destruct (fs_mkdirs _ _) as [r f']. destruct Hgo as (H1 & H2 & H3 & _).
    split; [by apply quiet_files|]. split; [done|done].
  - unfold fs_create_dir_all. rewrite bool_decide_false, Hall by done.
    pose proof (mkdirs_chain a b n (files s) Hwf) as Hgo.
    destruct (fs_mkdirs _ _) as [r f']. destruct Hgo as (H1 & H2 & H3 & H4).
    split; [by apply quiet_files|]. split; [done|]. intros Hr. cbn [fst] in Hr.
    rewrite <- Hall in H4. split.
    + apply H4; [done|]. apply elem_of_app. right. by apply list_elem_of_singleton.
    + intros q Hq. apply H4; [done|]. apply elem_of_app. by left.
Qed.

Section tmp.
Context (nm : fname).
Let tmp : path := [bs "tmp"; nm].
Implicit Types s : Disk.

Lemma quiet_put_file s n :
  (tree_wf (files s) -> blocked tmp (files s) = None) -> files s !! tmp <> Some Dir ->
  quiet s (set_files (<[tmp := n]> (files s)) s).
Proof.
  intros Hb Hd. apply quiet_files; [|by apply agree_short].
  intros Hwf. apply wf_insert; auto.
Qed.

Lemma create_tmp s r s' :
  disk_ok s -> io_create tmp s = (r, s') ->
  quiet s s' /\ (r = Ok () -> files s' !! tmp = Some (File [])).
Proof.
  intros (Hh & _ & Hwf & _) H. apply syscall_inv in H as [(e & k & -> & _ & ->)|[-> ->]]; [| |done].
  { split; [by apply quiet_files|done]. }
  unfold fs_create. destruct (resolve tmp (files s)) as [[|c|]|e] eqn:E; cbn [fst snd];
    try (by split; [apply quiet_files|]).
  - apply resolve_Ok in E as [E Hb]; [|done]. split; [|intros _; apply lookup_insert_eq].
    apply quiet_put_file; [done|congruence].
  - destruct (blocked tmp (files s)) eqn:Hb; cbn [fst snd]; [by split; [apply quiet_files|]|].
    split; [|intros _; apply lookup_insert_eq]. apply quiet_put_file; [done|].
    intros Hd. by rewrite (resolve_present _ _ _ Hwf Hd) in E.
Qed.

Lemma append_quiet s b c k :
  files s !! tmp = Some (File c) -> quiet s (set_files (fs_append tmp (firstn k b) (files s)) s).
Proof.
  intros Hf. unfold fs_append. rewrite Hf. apply quiet_put_file; [|congruence].
  intros Hwf. apply blocked_None. by eapply Hwf.
Qed.

Lemma write_tmp_chunk s b c r s' :
  disk_ok s -> files s !! tmp = Some (File c) -> io_write_all tmp b s = (r, s') ->
  quiet s s' /\ (r = Ok () -> files s' !! tmp = Some (File (c ++ b))).
Proof.
  intros (Hh & _ & Hwf & _) Hf H. apply syscall_inv in H as [(e & k & -> & _ & ->)|[-> ->]]; [| |done].
  { split; [by eapply append_quiet|done]. }
  cbn [fst snd]. split.
  - rewrite <- (firstn_all b) at 1. by eapply append_quiet.
  - intros _. unfold fs_append. rewrite Hf. apply lookup_insert_eq.
Qed.

Lemma remove_tmp s : disk_ok s -> quiet s (io_remove_file tmp s).2.
Proof.
  intros (Hh & _ & Hwf & _). destruct (io_remove_file tmp s) as [r s'] eqn:H.
  apply syscall_inv in H as [(e & k & -> & _ & ->)|[-> ->]]; [by apply quiet_files| |done].
  unfold fs_remove_file. destruct (resolve tmp (files s)) as [[|c|]|e] eqn:E; cbn [fst snd];
    try by apply quiet_files.
  all: apply resolve_Ok in E as [E _]; [|done]; apply quiet_files; [|by apply agree_delete_short];
    intros _; by eapply wf_delete_file.
Qed.

(** The loop writes what it reads, and feeds the hasher with it. *)
Lemma write_loop_spec {Hs : Hashers} src (h : DigestHasher) c s r left_ s' :
  disk_ok s -> files s !! tmp = Some (File c) ->
  write_loop tmp src h s = (r, left_, s') ->
  quiet s s' /\ (exists pre, src = pre ++ left_) /\
  match r with
  | Ok h' => exists chunks, read_loop src = (chunks, Ok (), left_) /\ h' = hasher_feed h chunks /\
      files s' !! tmp = Some (File (c ++ concat chunks))
  | Err _ => True
  end.
Proof.
  revert h c s. induction src as [|[[|x b]|e] src IH]; intros h c s Hok Hf H; cbn [write_loop] in H.
  - injection H as <- <- <-. split; [apply quiet_refl|]. split; [by exists []|].
    exists []. by rewrite app_nil_r.
  - injection H as <- <- <-. split; [apply quiet_refl|]. split; [by exists [RData []]|].
    exists []. by rewrite app_nil_r.
  - destruct (or_io_err _ _ s) as [r1 s1] eqn:E. apply or_io_err_inv in E as (r0 & -> & E).
    apply (write_tmp_chunk s _ c) in E as [Hq1 Hf1]; [|done|done].
    destruct r0 as [[]|e]; cbn [map_err] in H.
    + apply (IH _ (c ++ x :: b)) in H as (Hq & [pre ->] & Hr); [|by eapply quiet_ok|by apply Hf1].
      split; [by eapply quiet_trans|]. split; [by exists (RData (x :: b) :: pre)|].
      destruct r as [h'|]; [|done]. destruct Hr as (cs & Hl & -> & Hf').
      exists ((x :: b) :: cs). cbn [read_loop]. rewrite Hl. split_and!; [done|done|].
      cbn [concat]. by rewrite app_assoc.
    + injection H as <- <- <-. split; [done|]. split; [by exists [RData (x :: b)]|done].
  - injection H as <- <- <-. split; [apply quiet_refl|]. split; [by exists [RErr e]|done].
Qed.
End tmp.

Section write.
Context {Hs : Hashers}.
Implicit Types s : Disk.

(** A finished temporary file holds what was read, and the digest is of that. *)
Lemma write_tmp_spec src h s r left_ s' :
  disk_ok s -> write_tmp src h s = (r, left_, s') ->
  quiet s s' /\ (exists pre, src = pre ++ left_) /\
  match r with
  | Ok (tmp, d) => exists nm chunks, tmp = [bs "tmp"; nm] /\
      read_loop src = (chunks, Ok (), left_) /\ d = hasher_finalize (hasher_feed h chunks) /\
      files s' !! tmp = Some (File (concat chunks))
  | Err _ => True
  end.
Proof.
  intros Hok H. unfold write_tmp, next_tmp in H.
  set (nm := dec (pid s) ++ bs "-" ++ dec (tmp_counter s)) in *.
  set (s0 := mkDisk (files s) _ _ _ _) in *.
  assert (Hq0 : quiet s s0) by (split; [done|]; split; done).
  pose proof (quiet_ok _ _ Hq0 Hok) as Hok0.
  destruct (or_io_err _ (io_create _) s0) as [r1 s1] eqn:E. apply or_io_err_inv in E as (r0 & -> & E).
  apply (create_tmp nm) in E as [Hq1 Hf1]; [|done]. pose proof (quiet_ok _ _ Hq1 Hok0) as Hok1.
  assert (Hend : forall left1 s2 (e : BackendError), quiet s s2 -> (exists pre, src = pre ++ left1) ->
    (Err e, left1, (io_remove_file [bs "tmp"; nm] s2).2) = (r, left_, s') ->
    quiet s s' /\ (exists pre, src = pre ++ left_) /\ match r with Ok _ => False | _ => True end).
  { intros left1 s2 e Hq2 Hpre [= <- <- <-]. split; [|done].
    eapply quiet_trans; [exact Hq2|]. apply remove_tmp. by eapply quiet_ok. }
  assert (Hno : quiet s s' /\ (exists pre, src = pre ++ left_) /\
      match r with Ok _ => False | Err _ => True end ->
    quiet s s' /\ (exists pre, src = pre ++ left_) /\
      match r with
      | Ok (tmp, d) => exists nm chunks, tmp = [bs "tmp"; nm] /\
          read_loop src = (chunks, Ok (), left_) /\ d = hasher_finalize (hasher_feed h chunks) /\
          files s' !! tmp = Some (File (concat chunks))
      | Err _ => True
      end) by (intros (? & ? & ?); split_and!; [done|done|by destruct r]).
  destruct r0 as [[]|e]; cbn [map_err] in H.
  2: { apply Hno. apply (Hend src s1 (io_err (bs "create tmp file") e));
      [by apply (quiet_trans _ s0)|by exists []|exact H]. }
  destruct (write_loop _ src h s1) as [[r2 left2] s2] eqn:E.
  apply (write_loop_spec nm src h []) in E as (Hq2 & Hpre & Hr2); [|done|by apply Hf1].
  assert (Hqs2 : quiet s s2) by (eapply quiet_trans; [|exact Hq2]; by eapply quiet_trans).
  destruct r2 as [h'|e]; [|by apply Hno, (Hend left2 s2 e)].
  destruct (or_io_err _ (io_sync_all _) s2) as [r3 s3] eqn:E. apply or_io_err_inv in E as (r0 & -> & E).
  apply look_inv in E as (Hq3 & Hf3 & _); [|by eapply quiet_ok].
  assert (Hqs3 : quiet s s3) by by eapply quiet_trans.
  destruct r0 as [[]|e]; cbn [map_err] in H; [|by eapply Hno, (Hend left2 s3)].
  injection H as <- <- <-. destruct Hr2 as (chunks & Hl & -> & Hf). split_and!; [done|done|].
  exists nm, chunks. split_and!; [done..|]. by rewrite Hf3, Hf.
Qed.

Lemma placed_insert f d b : digest_wf d -> placed f -> placed (<[blob_path d := File b]> f).
Proof.
  intros Hd (H1 & H2 & H3). split_and!.
  - intros a sh rest n d' [[E _]|[_ Hn]]%lookup_insert_Some Hpar; [|by eapply H1].
    rewrite <- E. f_equal. unfold blob_path in E. injection E as Ea <- <-. apply name_inj in Ea.
    assert (Hasc : forall k, utf8_valid (firstn k (hex_of d)) = true /\ utf8_valid (drop k (hex_of d)) = true).
    { intros k. rewrite hex_of_encode. pose proof (encode_ascii (bytes d)) as Hasc.
      split; apply utf8_valid_ascii; [by apply Forall_take|by apply Forall_drop]. }
    rewrite !lossy_valid in Hpar by apply Hasc. rewrite blob_path_text, <- Ea, parse_encode in Hpar by done.
    congruence.
  - intros d' n Hd' [[_ <-]|[_ Hn]]%lookup_insert_Some; [eauto|by eapply H2].
  - intros a nm c [[E _]|[_ Hn]]%lookup_insert_Some; [by apply blob_not_copy in E|by eapply H3].
Qed.

(** A file that is neither a blob nor a quarantined copy. *)
Definition spare (p : path) : Prop :=
  (forall d, digest_wf d -> blob_path d <> p) /\ forall a nm, p <> [bs "quarantine"; name a; nm].

Lemma tmp_spare nm : spare [bs "tmp"; nm].
Proof. by split. Qed.

Lemma held_spare f p : spare p -> disk_held (delete p f) = disk_held f.
Proof.
  intros [Hp _]. apply map_eq. intros d. apply option_eq. intros b. rewrite !disk_held_lookup.
  split; intros [Hd Hl]; (split; [done|]).
  - by rewrite lookup_delete_ne in Hl by (apply not_eq_sym; auto).
  - by rewrite lookup_delete_ne by (apply not_eq_sym; auto).
Qed.

Lemma copies_spare f p : spare p -> disk_copies (delete p f) = disk_copies f.
Proof.
  intros [_ Hp]. apply map_eq. intros id. apply option_eq. intros z. rewrite !disk_copies_lookup.
  by setoid_rewrite (lookup_delete_ne f p _ (Hp _ _)).
Qed.

(** The rename that lands a file in a blob's place. *)
Lemma land_spec src d data s r s' :
  disk_ok s -> digest_wf d -> spare src -> src <> [] -> files s !! src = Some (File data) ->
  io_rename src (blob_path d) s = (r, s') ->
  disk_ok s' /\
  match r with
  | Ok () => held s' = <[d := data]> (held s) /\ quarantined_at s' = quarantined_at s
  | Err _ => same_content s s'
  end.
Proof.
  intros Hok Hd Hsrc Hne0 Hf H. pose proof Hok as (Hh & Hc & Hwf & Hp). set (f := files s) in *.
  assert (Hstay : forall f', f' = f -> disk_ok (set_files f' s) /\ same_content s (set_files f' s)).
  { intros f' ->. assert (Hq : quiet s (set_files f s)) by by apply quiet_files.
    split; [by eapply quiet_ok|by apply quiet_same]. }
  apply syscall_inv in H as [(e & k & -> & _ & ->)|[-> ->]]; [by apply Hstay| |done].
  unfold fs_rename. fold f. rewrite (resolve_present _ _ _ Hwf Hf).
  destruct (blocked (blob_path d) f) as [e|] eqn:Hb; [by apply Hstay|].
  assert (Hnot : f !! blob_path d <> Some Dir).
  { intros E. destruct Hp as (_ & Hp & _). by destruct (Hp d Dir Hd E). }
  assert (Hgo : disk_ok (set_files (<[blob_path d := File data]> (delete src f)) s) /\
    held (set_files (<[blob_path d := File data]> (delete src f)) s) = <[d := data]> (held s) /\
    quarantined_at (set_files (<[blob_path d := File data]> (delete src f)) s) = quarantined_at s).
  { split; [split_and!; [done|done| |by apply placed_insert, placed_delete]|split; simpl].
    - apply wf_insert; [by eapply wf_delete_file|done| |].
      + rewrite blocked_None in Hb. apply blocked_None. intros q Hq.
        rewrite lookup_delete_ne; [by apply Hb|]. intros ->. rewrite (Hb q Hq) in Hf. done.
      + right. intros [_ E]%lookup_delete_Some. done.
    - etrans; [by apply (held_insert (delete src f))|]. by rewrite held_spare.
    - etrans; [by apply (blob_change_copies (delete src f) _ d (fun _ => Some (File data)))|].
      by apply copies_spare. }
  destruct (f !! blob_path d) as [[]|]; [done|exact Hgo..].
Qed.

Lemma commit_spec nm d data s r s' :
  disk_ok s -> digest_wf d -> files s !! [bs "tmp"; nm] = Some (File data) ->
  commit [bs "tmp"; nm] d s = (r, s') ->
  disk_ok s' /\
  match r with
  | Ok () => held s' = <[d := data]> (held s) /\ quarantined_at s' = quarantined_at s
  | Err _ => same_content s s'
  end.
Proof.
  intros Hok Hd Hf H. unfold commit, mbind, M_bind in H.
  change (removelast (blob_path d)) with [name (algo d); firstn 2 (hex_of d)] in H.
  destruct (io_create_dir_all _ s) as [r1 s1] eqn:E.
  apply create_dirs_quiet in E as (Hq1 & Hkeep & _); [|done|done|simpl; lia].
  pose proof (quiet_ok _ _ Hq1 Hok) as Hok1.
  assert (Hclean : forall s2, disk_ok s2 -> same_content s s2 ->
    disk_ok (io_remove_file [bs "tmp"; nm] s2).2 /\
    same_content s (io_remove_file [bs "tmp"; nm] s2).2).
  { intros s2 Hok2 [Hh2 Hc2]. pose proof (remove_tmp nm s2 Hok2) as Hq.
    split; [by eapply quiet_ok|]. destruct (quiet_same _ _ Hq). split; congruence. }
  destruct r1 as [[]|e].
  2: { injection H as <- <-. apply Hclean; [done|by apply quiet_same]. }
  destruct (io_rename _ _ s1) as [r2 s2] eqn:E.
  apply (land_spec [bs "tmp"; nm] d data) in E as [Hok2 Hr2];
    [|done|done|apply tmp_spare|done|by apply Hkeep].
  destruct (quiet_same _ _ Hq1) as [Hh1 Hc1]. destruct r2 as [[]|e]; injection H as <- <-.
  - split; [done|]. destruct Hr2 as [-> ->]. by rewrite Hh1, Hc1.
  - apply Hclean; [done|]. destruct Hr2. split; congruence.
Qed.

Context {Hl : HasherLaws Hs}.

(** A write lands all it read under its digest, in the place of whatever was there, or
    changes nothing. *)
Lemma disk_put_spec src s r left_ s' :
  disk_ok s -> disk_put src s = (r, left_, s') ->
  disk_ok s' /\
  match r with
  | Ok d => exists data, read_to_end src = (Ok data, left_) /\ d = compute data /\
      held s' = <[d := data]> (held s) /\ quarantined_at s' = quarantined_at s
  | Err _ => same_content s s'
  end.
Proof.
  intros Hok H. unfold disk_put in H. destruct (write_tmp _ _ s) as [[r1 l1] s1] eqn:E.
  apply write_tmp_spec in E as (Hq1 & _ & Hr1); [|done]. pose proof (quiet_ok _ _ Hq1 Hok) as Hok1.
  destruct (quiet_same _ _ Hq1) as [Hh1 Hc1]. destruct r1 as [[tmp d]|e].
  2: { injection H as <- <- <-. done. }
  destruct Hr1 as (nm & cs & -> & Hl1 & -> & Hf). rewrite feed_concat in *. fold (compute (concat cs)) in *.
  destruct (commit _ _ s1) as [r2 s2] eqn:E. injection H as <- <- <-.
  apply (commit_spec nm _ (concat cs)) in E as [Hok2 Hr2]; [|done|apply compute_wf|done].
  split; [done|]. destruct r2 as [[]|e]; cbn [fmap result_fmap].
  - exists (concat cs). split; [by apply read_loop_to_end|]. rewrite <- Hh1, <- Hc1. done.
  - destruct Hr2. split; congruence.
Qed.

Lemma disk_put_keyed_spec d src s r left_ s' :
  disk_ok s -> digest_wf d -> disk_put_keyed d src s = (r, left_, s') ->
  disk_ok s' /\ (exists pre, src = pre ++ left_) /\
  match r with
  | Ok () => exists data, read_to_end src = (Ok data, left_) /\ verify d data = true /\
      held s' = <[d := data]> (held s) /\ quarantined_at s' = quarantined_at s
  | Err _ => same_content s s'
  end.
Proof.
  intros Hok Hd H. unfold disk_put_keyed in H. destruct (write_tmp _ _ s) as [[r1 l1] s1] eqn:E.
  apply write_tmp_spec in E as (Hq1 & Hpre & Hr1); [|done]. pose proof (quiet_ok _ _ Hq1 Hok) as Hok1.
  destruct (quiet_same _ _ Hq1) as [Hh1 Hc1]. destruct r1 as [[tmp d']|e].
  2: { injection H as <- <- <-. done. }
  destruct Hr1 as (nm & cs & -> & Hl1 & -> & Hf). rewrite feed_concat in H.
  case_bool_decide as Hv.
  - destruct (commit _ _ s1) as [r2 s2] eqn:E. injection H as <- <- <-.
    apply (commit_spec nm _ (concat cs)) in E as [Hok2 Hr2]; [|done..].
    split; [done|]. split; [done|]. destruct r2 as [[]|e].
    + exists (concat cs). split; [by apply read_loop_to_end|].
      split; [by apply bool_decide_eq_true|]. rewrite <- Hh1, <- Hc1. done.
    + destruct Hr2. split; congruence.
  - injection H as <- <- <-. pose proof (remove_tmp nm s1 Hok1) as Hq2.
    split; [by eapply quiet_ok|]. split; [done|]. apply quiet_same. by eapply quiet_trans.
Qed.
End write.

(** ** Listing *)

(** Running [m] leaves the contents alone, and a success is as [P] says. *)
Definition reads {A : Type} (m : CasM A) (P : fs -> A -> Prop) : Prop :=
  forall s r s', disk_ok s -> m s = (r, s') ->
  quiet s s' /\ files s' = files s /\ forall a, r = Ok a -> P (files s) a.

Lemma looks_ret {A : Type} (a : A) (P : fs -> A -> Prop) : (forall f, P f a) -> reads (mret a) P.
Proof.
  intros Ha s r s' _ [= <- <-]. split; [apply quiet_refl|]. split; [done|]. by intros ? [= <-].
Qed.

Lemma reads_fail {A : Type} (e : BackendError) (P : fs -> A -> Prop) : reads (fail e) P.
Proof. intros s r s' _ [= <- <-]. split; [apply quiet_refl|]. done. Qed.

Lemma looks_bind {A B : Type} (m : CasM A) (k : A -> CasM B) (P : fs -> A -> Prop) (Q : fs -> B -> Prop) :
  reads m P -> (forall a, reads (k a) (fun f b => P f a -> Q f b)) -> reads (m ≫= k) Q.
Proof.
  intros Hm Hk s r s' Hok H. unfold mbind, M_bind in H. destruct (m s) as [[a|e] s1] eqn:E.
  - destruct (Hm _ _ _ Hok E) as (Hq1 & Hf1 & Ha).
    destruct (Hk a s1 r s') as (Hq2 & Hf2 & Hb); [by eapply quiet_ok|done|].
    split; [by eapply quiet_trans|]. split; [congruence|]. intros b Hr. rewrite <- Hf1.
    apply (Hb b Hr). rewrite Hf1. by apply Ha.
  - injection H as <- <-. destruct (Hm _ _ _ Hok E) as (Hq1 & Hf1 & _). done.
Qed.

Lemma reads_or_io_err {A : Type} (what : list byte) (op : fs_op) (act : fs -> result io_error A) :
  reads (or_io_err what (look op act)) (fun f a => act f = Ok a).
Proof.
  intros s r s' Hok H. apply or_io_err_inv in H as (r0 & -> & H).
  apply look_inv in H as (Hq & Hf & Hr); [|apply Hok]. split; [done|]. split; [done|].
  intros a Ha. destruct Hr as [<-|(e & -> & _)]; [|done]. destruct r0; [|done]. by injection Ha as ->.
Qed.

Lemma reads_attempt {A : Type} (op : fs_op) (act : fs -> result io_error A) :
  reads (attempt (look op act)) (fun f r => r = act f \/ exists e, r = Err e /\ not_found e = false).
Proof.
  intros s r s' Hok H. apply attempt_inv in H as (r0 & -> & H).
  apply look_inv in H as (Hq & Hf & Hr); [|apply Hok]. split; [done|]. split; [done|].
  by intros a [= <-].
Qed.

Lemma reads_weaken {A : Type} (m : CasM A) (P Q : fs -> A -> Prop) :
  reads m P -> (forall f a, P f a -> Q f a) -> reads m Q.
Proof.
  intros Hm HPQ s r s' Hok H. destruct (Hm s r s' Hok H) as (Hq & Hf & Ha). auto.
Qed.

(** A collecting loop gathers what its elements add. *)
Lemma reads_collect {A B : Type} (op : A -> CasM (list B)) (l : list A) (out : fs -> A -> list B) :
  (forall x, x ∈ l -> reads (op x) (fun f bs => bs = out f x)) ->
  reads (collect_each op l) (fun f bs => bs = l ≫= out f).
Proof.
  induction l as [|x l IH]; intros Hop; cbn [collect_each].
  - by apply looks_ret.
  - eapply looks_bind; [apply Hop, elem_of_cons; by left|]. intros b1. eapply looks_bind.
    + apply IH. intros y Hy. apply Hop, elem_of_cons. by right.
    + intros b2. apply looks_ret. intros f -> ->. done.
Qed.

Lemma elem_of_entries p f nm n : (nm, n) ∈ entries p f <-> f !! (p ++ [nm]) = Some n.
Proof.
  unfold entries. rewrite list_elem_of_omap. split.
  - intros ([q m] & Hin%elem_of_map_to_list & E). simpl in E. case_bool_decide as Hq; [|done].
    destruct Hq as [<- Hne]. injection E as <- <-. by rewrite <- app_removelast_last.
  - intros Hf. exists (p ++ [nm], n). split; [by apply elem_of_map_to_list|]. simpl.
    rewrite bool_decide_true by (split; [by rewrite removelast_last|by destruct p]).
    by rewrite last_last.
Qed.

Lemma entries_NoDup p f : NoDup (entries p f).
Proof.
  apply (NoDup_fmap_1 fst). unfold entries.
  apply (separates_NoDup (fun e => if bool_decide (removelast e.1 = p /\ e.1 <> [])
    then Some (List.last e.1 [], e.2) else None)); [|apply NoDup_fst_map_to_list].
  intros k1 v1 k2 v2 x y1 y2. simpl. case_bool_decide as H1; [|done]. case_bool_decide as H2; [|done].
  destruct H1 as [H1 N1], H2 as [H2 N2]. intros [= E1 _] [= E2 _].
  rewrite (app_removelast_last [] N1), (app_removelast_last [] N2). congruence.
Qed.

Lemma read_dir_Ok p f l : fs_read_dir p f = Ok l -> l = entries p f.
Proof. unfold fs_read_dir. destruct (resolve p f) as [[]|]; simpl; try done. by intros [= <-]. Qed.

Section listings.
Context {Hs : Hashers} (other_len : node -> Z).
Implicit Types (f : fs) (a : DigestAlgo).

(** What a file of a shard adds to the list. *)
Definition file_out f a (shard : fname) (file : fname * node) : list LocalBlob :=
  match parse_digest a (to_string_lossy shard ++ to_string_lossy file.1),
    resolve [name a; shard; file.1] f with
  | Some d, Ok (File b) => [mkLocalBlob d (zlen b)]
  | _, _ => []
  end.

Definition shard_out f a (shard : fname * node) : list LocalBlob :=
  match shard.2, fs_read_dir [name a; shard.1] f with
  | Dir, Ok l => l ≫= file_out f a shard.1
  | _, _ => []
  end.

Definition algo_out f a : list LocalBlob :=
  match fs_read_dir [name a] f with Ok l => l ≫= shard_out f a | Err _ => [] end.

Lemma local_file_reads a shard file :
  reads (local_file a shard file) (fun f out => out = file_out f a shard file).
Proof.
  unfold local_file. eapply looks_bind; [apply reads_or_io_err|]. intros []. unfold file_out.
  destruct (parse_digest _ _) as [d|]; [|by apply looks_ret].
  eapply looks_bind; [apply reads_attempt|]. intros [n|e].
  - destruct n; apply looks_ret; intros f [<-|(? & ? & _)]; done.
  - destruct (not_found e) eqn:He; [|apply reads_fail]. apply looks_ret.
    intros f [<-|(e' & [= <-] & He')]; [done|congruence].
Qed.

Lemma local_shard_reads a shard : reads (local_shard a shard) (fun f out => out = shard_out f a shard).
Proof.
  unfold local_shard. eapply looks_bind; [apply reads_or_io_err|]. intros [].
  eapply looks_bind; [apply reads_or_io_err|]. intros []. unfold shard_out.
  destruct shard.2; [|by apply looks_ret..].
  eapply looks_bind; [apply reads_attempt|]. intros [l|e].
  - eapply reads_weaken; [apply reads_collect; intros x _; apply local_file_reads|].
    intros f out -> [<-|(? & ? & _)]; done.
  - destruct (not_found e) eqn:He; [|apply reads_fail]. apply looks_ret.
    intros f [<-|(e' & [= <-] & He')]; [done|congruence].
Qed.

Lemma local_algo_reads a : reads (local_algo a) (fun f out => out = algo_out f a).
Proof.
  unfold local_algo. eapply looks_bind; [apply reads_attempt|]. unfold algo_out. intros [l|e].
  - eapply reads_weaken; [apply reads_collect; intros x _; apply local_shard_reads|].
    intros f out -> [<-|(? & ? & _)]; done.
  - destruct (not_found e) eqn:He; [|apply reads_fail]. apply looks_ret.
    intros f [<-|(e' & [= <-] & He')]; [done|congruence].
Qed.

Lemma elem_of_algo_out f a x :
  tree_wf f -> x ∈ algo_out f a <->
  exists shard rest b d, f !! [name a; shard; rest] = Some (File b) /\
    parse_digest a (to_string_lossy shard ++ to_string_lossy rest) = Some d /\
    x = mkLocalBlob d (zlen b).
Proof.
  intros Hwf. unfold algo_out. split.
  - destruct (fs_read_dir [name a] f) as [l|] eqn:El; [|by intros ?%elem_of_nil].
    apply read_dir_Ok in El as ->. intros ([shard n] & Hx & _)%list_elem_of_bind.
    unfold shard_out in Hx. cbn [fst snd] in Hx. destruct n; try by apply elem_of_nil in Hx.
    destruct (fs_read_dir _ f) as [l|] eqn:El; [|by apply elem_of_nil in Hx].
    apply read_dir_Ok in El as ->. apply list_elem_of_bind in Hx as ([rest n] & Hx & _).
    unfold file_out in Hx. cbn [fst] in Hx. destruct (parse_digest _ _) as [d|] eqn:Ed;
      [|by apply elem_of_nil in Hx].
    destruct (resolve _ f) as [[|b|]|] eqn:Er; try by apply elem_of_nil in Hx.
    apply list_elem_of_singleton in Hx as ->. apply resolve_Ok in Er as [Er _]; [|done]. eauto 10.
  - intros (shard & rest & b & d & Hf & Hd & ->). pose proof (Hwf _ _ Hf) as [_ Hanc].
    assert (H1 : f !! [name a] = Some Dir).
    { apply Hanc, elem_of_ancestors. exists 1%nat. split; [simpl; lia|done]. }
    assert (H2 : f !! [name a; shard] = Some Dir).
    { apply Hanc, elem_of_ancestors. exists 2%nat. split; [simpl; lia|done]. }
    unfold fs_read_dir. rewrite (resolve_present _ _ _ Hwf H1). cbn [mbind result_bind].
    apply list_elem_of_bind. exists (shard, Dir). split; [|by apply elem_of_entries].
    unfold shard_out, fs_read_dir. cbn [fst snd]. rewrite (resolve_present _ _ _ Hwf H2).
    cbn [mbind result_bind]. apply list_elem_of_bind. exists (rest, File b).
    split; [|by apply elem_of_entries]. unfold file_out. cbn [fst].
    rewrite Hd, (resolve_present _ _ _ Hwf Hf). by apply list_elem_of_singleton.
Qed.

Lemma algo_out_NoDup f a : placed f -> NoDup (algo_out f a).
Proof.
  intros (Hp & _). unfold algo_out. destruct (fs_read_dir [name a] f) as [l|] eqn:El; [|constructor].
  apply read_dir_Ok in El as ->.
  assert (Hfile : forall shard n x, x ∈ file_out f a shard n ->
    blob_path (lb_digest x) = [name a; shard; n.1]).
  { intros shard n x Hx. unfold file_out in Hx. destruct (parse_digest _ _) as [d|] eqn:Ed;
      [|by apply elem_of_nil in Hx].
    destruct (resolve _ f) as [[|b|]|] eqn:Er; try by apply elem_of_nil in Hx.
    apply list_elem_of_singleton in Hx as ->. apply resolve_Ok in Er as [Er _]; [|done]. by eapply Hp. }
  apply NoDup_bind; [| |apply entries_NoDup].
  - intros [s1 n1] [s2 n2] x _ _. unfold shard_out. cbn [fst snd].
    destruct n1; try by intros ?%elem_of_nil. destruct n2; try by intros _ ?%elem_of_nil.
    destruct (fs_read_dir [name a; s1] f); [|by intros ?%elem_of_nil].
    destruct (fs_read_dir [name a; s2] f); [|by intros _ ?%elem_of_nil].
    intros (e1 & H1%Hfile & _)%list_elem_of_bind (e2 & H2%Hfile & _)%list_elem_of_bind. congruence.
  - intros [s n] _. unfold shard_out. cbn [fst snd]. destruct n; [|constructor..].
    destruct (fs_read_dir _ f) as [l|] eqn:El; [|constructor]. apply read_dir_Ok in El as ->.
    apply NoDup_bind; [| |apply entries_NoDup].
    + intros [r1 n1] [r2 n2] x Hin1%elem_of_entries Hin2%elem_of_entries H1%Hfile H2%Hfile.
      cbn [fst] in *. assert (r1 = r2) as -> by congruence. congruence.
    + intros [r n] _. unfold file_out. destruct (parse_digest _ _); [|constructor].
      destruct (resolve _ f) as [[|b|]|]; [constructor|apply NoDup_singleton|constructor..].
Qed.

Lemma algo_out_algo f a x : x ∈ algo_out f a -> algo (lb_digest x) = a.
Proof.
  unfold algo_out. destruct (fs_read_dir [name a] f) as [l|] eqn:El; [|by intros ?%elem_of_nil].
  intros ([s n] & Hx & _)%list_elem_of_bind. unfold shard_out in Hx. cbn [fst snd] in Hx.
  destruct n; try by apply elem_of_nil in Hx.
  destruct (fs_read_dir [name a; s] f); [|by apply elem_of_nil in Hx].
  apply list_elem_of_bind in Hx as ([r n] & Hx & _). unfold file_out in Hx.
  destruct (parse_digest _ _) as [d|] eqn:Ed; [|by apply elem_of_nil in Hx].
  destruct (resolve _ f) as [[|b|]|]; try by apply elem_of_nil in Hx.
  apply list_elem_of_singleton in Hx as ->. by apply parse_digest_wf in Ed as [_ ?].
Qed.

Lemma held_listing f :
  tree_wf f -> placed f ->
  ALGOS ≫= algo_out f ≡ₚ (fun kv => mkLocalBlob kv.1 (zlen kv.2)) <$> map_to_list (disk_held f).
Proof.
  intros Hwf Hp. apply NoDup_Permutation.
  - apply NoDup_bind.
    + intros a1 a2 x _ _ H1%algo_out_algo H2%algo_out_algo. congruence.
    + intros a _. by apply algo_out_NoDup.
    + apply (bool_decide_unpack _). vm_compute. exact I.
  - apply (NoDup_fmap_1 lb_digest). rewrite <- list_fmap_compose.
    apply (NoDup_fst_map_to_list (disk_held f)).
  - intros x. rewrite list_elem_of_bind, list_elem_of_fmap. split.
    + intros (a & Hx & _). apply elem_of_algo_out in Hx as (sh & r & b & d & Hf & Hd & ->); [|done].
      exists (d, b). split; [done|]. apply elem_of_map_to_list, disk_held_lookup.
      split; [by apply parse_digest_wf in Hd as [Hd _]|]. destruct Hp as (Hp & _). by rewrite (Hp a sh r _ d Hf Hd).
    + intros ([d b] & -> & Hin%elem_of_map_to_list%disk_held_lookup). destruct Hin as [Hd Hf].
      exists (algo d). split; [|by destruct (algo d); apply (bool_decide_unpack _); vm_compute].
      apply elem_of_algo_out; [done|]. unfold blob_path in Hf. eexists _, _, b, d.
      split; [exact Hf|]. split; [|done].
      rewrite !lossy_valid, blob_path_text, parse_encode; [done|done|..];
        rewrite hex_of_encode; apply utf8_valid_ascii;
        [apply Forall_drop|apply Forall_take]; apply encode_ascii.
Qed.

Lemma disk_iter_local_spec s r s' :
  disk_ok s -> disk_iter_local s = (r, s') ->
  quiet s s' /\
  match r with
  | Ok l => l ≡ₚ (fun kv => mkLocalBlob kv.1 (zlen kv.2)) <$> map_to_list (held s)
  | Err _ => True
  end.
Proof.
  intros Hok H. destruct (reads_collect local_algo ALGOS algo_out (fun a _ => local_algo_reads a)
    s r s' Hok H) as (Hq & _ & Hr).
  split; [done|]. destruct r as [l|]; [|done]. rewrite (Hr l eq_refl).
  apply held_listing; apply Hok.
Qed.

(** *** Quarantined copies *)

Definition copy_out f a (file : fname * node) : list QuarantinedBlob :=
  match copy_of a file.1, resolve (quarantine_dir a ++ [file.1]) f with
  | Some d, Ok (File b) =>
      [mkQuarantined (name a ++ bs "/" ++ to_string_lossy file.1) d (zlen b)]
  | _, _ => []
  end.

Definition copies_out f a : list QuarantinedBlob :=
  match fs_read_dir (quarantine_dir a) f with Ok l => l ≫= copy_out f a | Err _ => [] end.

Lemma quarantined_file_reads a file :
  reads (quarantined_file a file) (fun f out => out = copy_out f a file).
Proof.
  unfold quarantined_file. eapply looks_bind; [apply reads_or_io_err|]. intros []. cbn zeta.
  unfold copy_out. change (rsplit_once (z2b 46) (to_string_lossy file.1) ≫= _) with (copy_of a file.1).
  destruct (copy_of a file.1) as [d|]; [|by apply looks_ret].
  eapply looks_bind; [apply reads_or_io_err|]. intros m. destruct m; apply looks_ret; by intros f ->.
Qed.

Lemma quarantined_algo_reads a : reads (quarantined_algo a) (fun f out => out = copies_out f a).
Proof.
  unfold quarantined_algo. eapply looks_bind; [apply reads_attempt|]. unfold copies_out. intros [l|e].
  - eapply reads_weaken; [apply reads_collect; intros x _; apply quarantined_file_reads|].
    intros f out -> [<-|(? & ? & _)]; done.
  - destruct (not_found e) eqn:He; [|apply reads_fail]. apply looks_ret.
    intros f [<-|(e' & [= <-] & He')]; [done|congruence].
Qed.

Lemma elem_of_copies_out f a x :
  tree_wf f -> x ∈ copies_out f a <->
  exists nm b d, f !! [bs "quarantine"; name a; nm] = Some (File b) /\ copy_of a nm = Some d /\
    x = mkQuarantined (name a ++ bs "/" ++ to_string_lossy nm) d (zlen b).
Proof.
  intros Hwf. unfold copies_out. split.
  - destruct (fs_read_dir _ f) as [l|] eqn:El; [|by intros ?%elem_of_nil].
    apply read_dir_Ok in El as ->. intros ([nm n] & Hx & _)%list_elem_of_bind.
    unfold copy_out in Hx. cbn [fst] in Hx.
    destruct (copy_of a nm) as [d|] eqn:Ed; [|by apply elem_of_nil in Hx].
    destruct (resolve _ f) as [[|b|]|] eqn:Er; try by apply elem_of_nil in Hx.
    apply list_elem_of_singleton in Hx as ->. apply resolve_Ok in Er as [Er _]; [|done].
    by exists nm, b, d.
  - intros (nm & b & d & Hf & Hd & ->). pose proof (Hwf _ _ Hf) as [_ Hanc].
    assert (H2 : f !! quarantine_dir a = Some Dir).
    { apply Hanc, elem_of_ancestors. exists 2%nat. split; [simpl; lia|done]. }
    unfold fs_read_dir. rewrite (resolve_present _ _ _ Hwf H2). cbn [mbind result_bind].
    apply list_elem_of_bind. exists (nm, File b). split; [|by apply elem_of_entries].
    unfold copy_out. cbn [fst]. change (quarantine_dir a ++ [nm]) with [bs "quarantine"; name a; nm].
    rewrite Hd, (resolve_present _ _ _ Hwf Hf). by apply list_elem_of_singleton.
Qed.

(** The identifier of a listed copy says which file it is. *)
Lemma copies_listing f :
  tree_wf f -> placed f ->
  (fun q => (q_id q, q_size q)) <$> (ALGOS ≫= copies_out f) ≡ₚ map_to_list (disk_copies f).
Proof.
  intros Hwf (_ & _ & Hutf).
  assert (Hin : forall q, q ∈ ALGOS ≫= copies_out f -> exists a nm b d,
    f !! [bs "quarantine"; name a; nm] = Some (File b) /\ copy_of a nm = Some d /\
    utf8_valid nm = true /\ q = mkQuarantined (name a ++ slash :: nm) d (zlen b)).
  { intros q (a & Hq & _)%list_elem_of_bind. apply elem_of_copies_out in Hq as (nm & b & d & Hf & Hd & ->); [|done].
    assert (Hu : utf8_valid nm = true) by (apply (Hutf a nm b Hf); by exists d).
    exists a, nm, b, d. rewrite (lossy_valid nm Hu). done. }
  apply NoDup_Permutation.
  - apply NoDup_fmap_2_strong.
    + intros q1 q2 (a1 & n1 & b1 & d1 & H1 & C1 & _ & ->)%Hin
        (a2 & n2 & b2 & d2 & H2 & C2 & _ & ->)%Hin. cbn [q_id q_size].
      intros [= E _]. apply copy_id_inj in E as [-> ->]. congruence.
    + apply NoDup_bind.
      * intros a1 a2 q _ _ Hq1 Hq2.
        apply elem_of_copies_out in Hq1 as (n1 & b1 & d1 & _ & C1 & ->); [|done].
        apply elem_of_copies_out in Hq2 as (n2 & b2 & d2 & _ & C2 & E); [|done]. injection E as E _ _.
        change (bs "/" ++ ?x) with (slash :: x) in E. by apply copy_id_inj in E as [-> _].
      * intros a _. unfold copies_out. destruct (fs_read_dir _ f) as [l|] eqn:El; [|constructor].
        apply read_dir_Ok in El as ->. apply NoDup_bind; [| |apply entries_NoDup].
        -- intros [n1 m1] [n2 m2] q Hn1%elem_of_entries Hn2%elem_of_entries Hq1 Hq2.
           assert (Hname : forall nm m, f !! (quarantine_dir a ++ [nm]) = Some m -> q ∈ copy_out f a (nm, m) ->
             q_id q = name a ++ slash :: nm).
           { intros nm m Hm Hq. unfold copy_out in Hq. cbn [fst] in Hq.
             destruct (copy_of a nm) as [d|] eqn:Ed; [|by apply elem_of_nil in Hq].
             destruct (resolve _ f) as [[|b|]|] eqn:Er; try by apply elem_of_nil in Hq.
             apply list_elem_of_singleton in Hq as ->. apply resolve_Ok in Er as [Er _]; [|done].
             cbn [q_id]. rewrite lossy_valid; [done|]. apply (Hutf a nm b Er). by exists d. }
           apply Hname in Hq1; [|done]. apply Hname in Hq2; [|done]. rewrite Hq1 in Hq2.
           apply copy_id_inj in Hq2 as [_ ->]. congruence.
        -- intros [nm m] _. unfold copy_out. destruct (copy_of a _); [|constructor].
           destruct (resolve _ f) as [[|b|]|]; [constructor|apply NoDup_singleton|constructor..].
      * apply (bool_decide_unpack _). vm_compute. exact I.
  - apply (NoDup_fmap_1 fst), NoDup_fst_map_to_list.
  - intros [id z]. rewrite list_elem_of_fmap, elem_of_map_to_list, disk_copies_lookup. split.
    + intros (q & E & (a & nm & b & d & Hf & Hd & Hu & ->)%Hin). injection E as -> ->.
      exists a, nm, b. split_and!; [done..|by eexists|done].
    + intros (a & nm & b & Hf & -> & -> & [d Hd] & Hu).
      exists (mkQuarantined (name a ++ slash :: nm) d (zlen b)). split; [done|].
      apply list_elem_of_bind. exists a.
      split; [|by destruct a; apply (bool_decide_unpack _); vm_compute].
      apply elem_of_copies_out; [done|]. exists nm, b, d. by rewrite (lossy_valid nm Hu).
Qed.

Lemma disk_iter_quarantine_spec s r s' :
  disk_ok s -> disk_iter_quarantine s = (r, s') ->
  quiet s s' /\
  match r with
  | Ok l =>
      (fun q => (q_id q, q_size q)) <$> l ≡ₚ map_to_list (quarantined_at s) /\
      Forall (fun q => 0 <= q_size q) l
  | Err _ => True
  end.
Proof.
  intros Hok H. destruct (reads_collect quarantined_algo ALGOS copies_out (fun a _ => quarantined_algo_reads a)
    s r s' Hok H) as (Hq & _ & Hr).
  split; [done|]. destruct r as [l|]; [|done]. rewrite (Hr l eq_refl). split.
  - apply copies_listing; apply Hok.
  - apply Forall_forall. intros q (a & Hx & _)%list_elem_of_bind.
    apply elem_of_copies_out in Hx as (nm & b & d & _ & _ & ->); [|apply Hok]. apply zlen_nonneg.
Qed.
End listings.

(** ** Quarantine *)

Lemma held_copy f a nm n : disk_held (<[[bs "quarantine"; name a; nm] := n]> f) = disk_held f.
Proof.
  apply map_eq. intros d. apply option_eq. intros b. rewrite !disk_held_lookup.
  rewrite lookup_insert_ne; [done|]. intros E. by apply (blob_not_copy d a nm).
Qed.

Lemma copies_insert f a nm b :
  is_Some (copy_of a nm) -> utf8_valid nm = true ->
  disk_copies (<[[bs "quarantine"; name a; nm] := File b]> f) =
    <[name a ++ slash :: nm := zlen b]> (disk_copies f).
Proof.
  intros Hc Hu. apply map_eq. intros id. apply option_eq. intros z.
  rewrite lookup_insert_Some, !disk_copies_lookup. split.
  - intros (a' & nm' & b' & [[E [= <-]]|[Hne Hf]]%lookup_insert_Some & -> & -> & Hc' & Hu').
    + injection E as E <-. apply name_inj in E as <-. by left.
    + right. split; [|by exists a', nm', b']. intros [-> ->]%copy_id_inj. by apply Hne.
  - intros [[<- <-]|(Hne & a' & nm' & b' & Hf & -> & -> & Hc' & Hu')].
    + exists a, nm, b. split_and!; [apply lookup_insert_eq|done..].
    + exists a', nm', b'. split_and!; [|done..]. rewrite lookup_insert_ne; [done|].
      intros [= E ->]. apply name_inj in E as ->. by apply Hne.
Qed.

Lemma dec_ascii n : 0 <= n -> Forall (fun b => in_range 0 127 b = true /\ b <> z2b 46) (dec n).
Proof.
  intros Hn. eapply Forall_impl; [by apply dec_digits|].
  intros b. by destruct b; intros [? ?]; split.
Qed.

Lemma slot_name_ascii d n : 0 <= n -> utf8_valid (slot_name d n) = true.
Proof.
  intros Hn. unfold slot_name. rewrite hex_of_encode. apply utf8_valid_ascii.
  apply Forall_app. split; [apply encode_ascii|]. apply Forall_app. split; [by repeat constructor|].
  eapply Forall_impl; [by apply dec_ascii|]. by intros b [? _].
Qed.

Lemma slot_name_inj d m n : 0 <= m -> 0 <= n -> slot_name d m = slot_name d n -> m = n.
Proof. intros Hm Hn E%app_inv_head%app_inv_head. by apply dec_inj. Qed.

(** A slot's name says which blob it keeps. *)
Lemma copy_of_slot d n : digest_wf d -> 0 <= n -> copy_of (algo d) (slot_name d n) = Some d.
Proof.
  intros Hd Hn. unfold copy_of. rewrite lossy_valid by by apply slot_name_ascii.
  unfold slot_name, rsplit_once. change (bs "." ++ dec n) with (z2b 46 :: dec n).
  rewrite rev_app_distr. cbn [rev]. rewrite <- app_assoc. cbn [app].
  rewrite split_once_app.
  - cbn [mbind option_bind]. rewrite rev_involutive, hex_of_encode. by apply parse_encode.
  - rewrite list_elem_of_In, <- in_rev. intros Hin. pose proof (dec_ascii n Hn) as Hall.
    rewrite List.Forall_forall in Hall. by destruct (Hall _ Hin).
Qed.

(** Slots are tried in turn, and a file in the way of each is one of the [k] files. *)
Definition slots_taken (f : fs) (d : Digest) (n : Z) : Prop :=
  forall m, 0 <= m < n -> is_Some (f !! (quarantine_dir (algo d) ++ [slot_name d m])).

Lemma slots_bounded f d (n : nat) : slots_taken f d (Z.of_nat n) -> (n <= size f)%nat.
Proof.
  intros Ht.
  set (paths := (fun i => quarantine_dir (algo d) ++ [slot_name d (Z.of_nat i)]) <$> seq 0 n).
  assert (Hnd : NoDup paths).
  { apply NoDup_fmap_2_strong; [|apply NoDup_seq]. intros i j _ _ E%app_inv_head.
    injection E as E%slot_name_inj; lia. }
  assert (Hsub : (list_to_set paths : gset path) ⊆ dom f).
  { intros p (i & -> & Hi)%elem_of_list_to_set%list_elem_of_fmap. apply elem_of_seq in Hi.
    apply elem_of_dom, Ht. lia. }
  apply subseteq_size in Hsub. rewrite size_list_to_set, size_dom in Hsub by done.
  unfold paths in Hsub. by rewrite length_fmap, length_seq in Hsub.
Qed.

Section quarantine.
Context {Hs : Hashers} (other_len : node -> Z) (d : Digest) (Hd : digest_wf d).
Implicit Types s : Disk.

Let slot (n : Z) : path := quarantine_dir (algo d) ++ [slot_name d n].

Lemma stat_slot s n :
  disk_ok s -> io_stat (slot n) s = (resolve (slot n) (files s), set_files (files s) s).
Proof.
  intros (_ & Hc & _). unfold io_stat, look, syscall.
  by assert (fails s (calls s) (OpStat (slot n)) = None) as -> by apply Hc.
Qed.

Lemma slot_unblocked f n :
  tree_wf f -> f !! quarantine_dir (algo d) = Some Dir -> blocked (slot n) f = None.
Proof.
  intros Hwf Hf. apply blocked_None. intros q (i & Hi & ->)%elem_of_ancestors. simpl in Hi.
  destruct i as [|[|[|i]]]; try lia; [|exact Hf].
  apply (Hwf _ _ Hf), elem_of_ancestors. exists 1%nat. split; [simpl; lia|done].
Qed.

(** The rename that sets a blob aside, into a free slot. *)
Lemma aside_spec n s r s' :
  disk_ok s -> 0 <= n -> files s !! quarantine_dir (algo d) = Some Dir -> files s !! slot n = None ->
  io_rename (blob_path d) (slot n) s = (r, s') ->
  disk_ok s' /\
  match r with
  | Ok () => exists data, held s !! d = Some data /\ held s' = delete d (held s) /\
      quarantined_at s' = <[name (algo d) ++ slash :: slot_name d n := zlen data]> (quarantined_at s) /\
      files s' !! slot n = Some (File data)
  | Err e => same_content s s' /\ (not_found e = true -> held s !! d = None)
  end.
Proof.
  intros Hok Hn Hdir Hfree H. pose proof Hok as (Hh & Hc & Hwf & Hp). set (f := files s) in *.
  apply syscall_inv in H as [(e & k & -> & He & ->)|[-> ->]]; [| |done].
  { assert (Hq : quiet s (set_files (no_progress k f) s)) by by apply quiet_files.
    split; [by eapply quiet_ok|]. split; [by apply quiet_same|congruence]. }
  unfold fs_rename. fold f. pose proof (resolve_blob d Hd s Hok) as Hb. fold f in Hb.
  destruct (resolve (blob_path d) f) as [m|e] eqn:Er.
  2: { cbn [fst snd]. assert (Hq : quiet s (set_files f s)) by by apply quiet_files.
       split; [by eapply quiet_ok|]. split; [by apply quiet_same|done]. }
  destruct Hb as (data & -> & Hheld). apply resolve_Ok in Er as [Ef _]; [|done].
  rewrite (slot_unblocked f n Hwf Hdir), Hfree. cbn [fst snd].
  assert (Hdelwf : tree_wf (delete (blob_path d) f)) by by eapply wf_delete_file.
  assert (Hdirne : blob_path d <> quarantine_dir (algo d)) by by unfold blob_path.
  assert (Hslotne : blob_path d <> slot n) by apply blob_not_copy.
  split.
  - split_and!; [done|done| |].
    + apply wf_insert; [done|done| |].
      * apply slot_unblocked; [done|]. by rewrite lookup_delete_ne.
      * right. rewrite lookup_delete_ne by done. congruence.
    + apply (placed_delete _ (blob_path d)) in Hp as (H1 & H2 & H3). cbn [files set_files]. split_and!.
      * intros a sh rest x d' [[E _]|[_ Hl]]%lookup_insert_Some; [|by eapply H1]. by destruct a.
      * intros d' x Hd' [[E _]|[_ Hl]]%lookup_insert_Some; [|by eapply H2].
        by apply symmetry, blob_not_copy in E.
      * intros a nm c [[E _]|[_ Hl]]%lookup_insert_Some; [|by eapply H3].
        injection E as _ <-. intros _. by apply slot_name_ascii.
  - exists data. split_and!; [done|..|apply lookup_insert_eq].
    + etrans; [apply held_copy|]. by eapply held_delete.
    + etrans; [apply copies_insert; [by rewrite copy_of_slot|by apply slot_name_ascii]|].
      f_equal. by eapply blob_change_copies.
Qed.

Lemma quarantine_slots_spec fuel (n : nat) s r s' :
  disk_ok s -> files s !! quarantine_dir (algo d) = Some Dir ->
  slots_taken (files s) d (Z.of_nat n) -> (size (files s) < n + fuel)%nat ->
  quarantine_slots other_len fuel d (Z.of_nat n) s = (r, s') ->
  disk_ok s' /\ r <> Err (Internal (bs "u32 slots exhausted")) /\
  match r with
  | Ok (Some q) => exists data,
      held s !! d = Some data /\ held s' = delete d (held s) /\
      q_digest q = d /\ q_size q = zlen data /\ quarantined_at s !! q_id q = None /\
      quarantined_at s' = <[q_id q := q_size q]> (quarantined_at s)
  | Ok None => same_content s s' /\ held s !! d = None
  | Err _ => same_content s s'
  end.
Proof.
  revert n s. induction fuel as [|fuel IH]; intros n s Hok Hdir Htaken Hsize H.
  { apply slots_bounded in Htaken. lia. }
  cbn [quarantine_slots] in H. fold (slot (Z.of_nat n)) in H. unfold mbind at 1, M_bind at 1 in H.
  unfold attempt at 1 in H. rewrite stat_slot in H by done.
  assert (Hq1 : quiet s (set_files (files s) s)) by by apply quiet_files.
  pose proof (quiet_ok _ _ Hq1 Hok) as Hok1. set (s1 := set_files (files s) s) in *.
  assert (Hsame1 : same_content s s1) by by apply quiet_same. destruct Hsame1 as [Hh1 Hc1].
  destruct (resolve (slot (Z.of_nat n)) (files s)) as [m|e] eqn:Er; cbn [is_ok] in H.
  - apply resolve_Ok in Er as [Er _]; [|done]. replace (Z.of_nat n + 1) with (Z.of_nat (S n)) in H by lia.
    apply IH in H as (Hok' & Hne & Hr); [|done|done| |simpl; lia].
    + split; [done|]. split; [done|]. rewrite <- Hh1, <- Hc1.
      destruct r as [[q|]|]; [done|destruct Hr as [[] ?]|destruct Hr]; split_and?; try split; congruence.
    + intros m' Hm'. destruct (decide (m' = Z.of_nat n)) as [->|]; [by eexists|]. apply Htaken. lia.
  - assert (Hfree : files s1 !! slot (Z.of_nat n) = None).
    { destruct (files s !! slot (Z.of_nat n)) as [x|] eqn:E; [|done].
      by rewrite (resolve_present _ _ _ (proj1 (proj2 (proj2 Hok))) E) in Er. }
    unfold mbind at 1, M_bind at 1 in H. destruct (attempt _ s1) as [r2 s2] eqn:E2.
    apply attempt_inv in E2 as (r0 & -> & E2). apply aside_spec in E2 as [Hok2 Hr2]; [|done|lia|done|done].
    destruct r0 as [[]|e2].
    + destruct Hr2 as (data & Hdata & Hheld & Hquar & Hfile).
      unfold mbind, M_bind, or_io_err in H. rewrite stat_slot in H by done.
      rewrite (resolve_present _ _ _ (proj1 (proj2 (proj2 Hok2))) Hfile) in H. injection H as <- <-.
      assert (Hq3 : quiet s2 (set_files (files s2) s2)) by by apply quiet_files.
      split; [by eapply quiet_ok|]. split; [done|]. exists data. rewrite <- Hh1, <- Hc1.
      destruct (quiet_same _ _ Hq3) as [-> ->].
      split_and!; [done|done|done|done| |done]. cbn [q_id].
      apply eq_None_not_Some. intros [z (a & nm & b & Hb & E & _)%disk_copies_lookup].
      apply copy_id_inj in E as [<- <-]. discriminate (eq_trans (eq_sym Hb) Hfree).
    + destruct Hr2 as [[Hh2 Hc2] Hnone]. destruct (not_found e2); injection H as <- <-.
      * split; [done|]. split; [done|]. split; [split; congruence|]. rewrite <- Hh1. by apply Hnone.
      * split; [done|]. split; [done|]. split; congruence.
Qed.

(** Quarantine sets the blob aside under a fresh identifier, and always finds a slot. *)
Lemma disk_quarantine_spec s r s' :
  disk_ok s -> disk_quarantine other_len d s = (r, s') ->
  disk_ok s' /\ r <> Err (Internal (bs "u32 slots exhausted")) /\
  match r with
  | Ok (Some q) => exists data,
      held s !! d = Some data /\ held s' = delete d (held s) /\
      q_digest q = d /\ q_size q = zlen data /\ quarantined_at s !! q_id q = None /\
      quarantined_at s' = <[q_id q := q_size q]> (quarantined_at s)
  | Ok None => same_content s s' /\ held s !! d = None
  | Err _ => same_content s s'
  end.
Proof.
  intros Hok H. unfold disk_quarantine in H. unfold mbind at 1, M_bind at 1 in H.
  destruct (or_io_err _ _ s) as [r1 s1] eqn:E1. apply or_io_err_inv in E1 as (r0 & -> & E1).
  apply create_dirs_quiet in E1 as (Hq1 & _ & Hdir); [|done|done|simpl; lia].
  pose proof (quiet_ok _ _ Hq1 Hok) as Hok1. pose proof (quiet_same _ _ Hq1) as Hsame1.
  destruct r0 as [[]|e]; cbn [map_err] in H.
  2: { injection H as <- <-. split; [done|]. by split. }
  unfold mbind, M_bind, get_state in H. destruct Hsame1 as [Hh1 Hc1].
  apply (quarantine_slots_spec _ 0) in H as (Hok' & Hne & Hr); [|done|exact (proj1 (Hdir eq_refl))| |lia].
  - split; [done|]. split; [done|]. rewrite <- Hh1, <- Hc1.
    destruct r as [[q|]|]; [done|destruct Hr as [[] ?]|destruct Hr]; split_and?; try split; congruence.
  - intros m Hm. lia.
Qed.
End quarantine.
