(* ===== verification/DiskRefine.v ===== *)
(** Opening a disk, and the on-disk store as a refinement of a plain blob store.

    Opening sweeps what was being written and settles the siblings an older version left;
    it loses no healthy blob.  Whatever fails along the way, a run of the store answers as
    a finite map of blobs would ([blob_store_step]), errors included; and when nothing
    fails, what was put is served. *)

From Stdlib Require Import ZArith Lia.
From stdpp Require Import base option gmap fin_map_dom list.
From S2P Require Import Prelude Text Hex Digest Errors Cas Disk DiskLaws.

Local Open Scope Z_scope.

(** ** Sweeping the temporary files *)

Lemma below_content p q : below tmp_dir p = true -> content_path q -> p <> q.
Proof.
  unfold below. rewrite bool_decide_eq_true. intros Hp (a & b & c & -> & Ha) ->.
  simpl in Hp. by injection Hp as ->.
Qed.

Lemma remove_all_quiet f :
  tree_wf f -> tree_wf (fs_remove_dir_all tmp_dir f).2 /\ agree f (fs_remove_dir_all tmp_dir f).2.
Proof.
  intros Hwf. unfold fs_remove_dir_all. destruct (resolve tmp_dir f) as [[]|]; try by split.
  cbn [snd]. split.
  - intros p n [Hp Hb]%map_lookup_filter_Some. simpl in Hb. destruct (Hwf p n Hp) as [Hne Ha].
    split; [done|]. intros q Hq. apply map_lookup_filter_Some. split; [by apply Ha|]. simpl.
    apply not_true_iff_false. intros Hbq. apply not_true_iff_false in Hb. apply Hb.
    unfold below in *. rewrite bool_decide_eq_true in *. apply elem_of_ancestors in Hq as (i & Hi & ->).
    destruct i as [|i]; [lia|]. destruct p as [|x p]; [done|]. by simpl in *.
  - intros q Hq. destruct (f !! q) as [n|] eqn:E.
    + apply map_lookup_filter_Some. split; [done|]. simpl. apply not_true_iff_false. intros Hb.
      by apply (below_content q q Hb Hq).
    + apply map_lookup_filter_None. by left.
Qed.

(** A bare entry is nobody's ancestor. *)
Lemma bare_not_ancestor f p q n :
  tree_wf f -> entries q f = [] -> f !! p = Some n -> q ∉ ancestors p.
Proof.
  intros Hwf Hbare Hp (i & Hi & ->)%elem_of_ancestors. destruct (Hwf p n Hp) as [_ Ha].
  destruct (lookup_lt_is_Some_2 p i) as [x Hx]; [lia|].
  assert (Hnext : exists m, f !! (firstn i p ++ [x]) = Some m).
  { rewrite <- (take_S_r p i x Hx). destruct (decide (S i = length p)) as [E|].
    - rewrite take_ge by lia. eauto.
    - exists Dir. apply Ha, elem_of_ancestors. exists (S i). split; [lia|done]. }
  destruct Hnext as [m Hm]. apply elem_of_entries in Hm. rewrite Hbare in Hm. by apply elem_of_nil in Hm.
Qed.

Lemma remove_some_quiet k f :
  tree_wf f -> tree_wf (fs_remove_some tmp_dir k f) /\ agree f (fs_remove_some tmp_dir k f).
Proof.
  revert f. induction k as [|k IH]; intros f Hwf; cbn [fs_remove_some]; [by split|].
  destruct (bare_below tmp_dir f) as [q|] eqn:Eq; [|by split].
  unfold bare_below in Eq. apply fmap_Some in Eq as ([q' m] & Hhd & ->). simpl.
  assert (Hin : (q', m) ∈ filter (fun e => below tmp_dir e.1 = true /\ entries e.1 f = []) (map_to_list f)).
  { destruct (filter _ _); [done|]. injection Hhd as ->. apply elem_of_cons. by left. }
  apply list_elem_of_filter in Hin as [[Hb He] _]. simpl in Hb, He.
  destruct (IH (delete q' f)) as [Hwf' Ha'].
  { intros p n [Hne Hp]%lookup_delete_Some. destruct (Hwf p n Hp) as [Hp0 Ha]. split; [done|].
    intros a Hin. rewrite lookup_delete_ne; [by apply Ha|]. intros ->.
    by apply (bare_not_ancestor f p a n) in Hin. }
  split; [done|]. intros p Hp. rewrite Ha' by done. apply lookup_delete_ne.
  by apply below_content.
Qed.

Lemma sweep_quiet s r s' : disk_ok s -> io_remove_dir_all tmp_dir s = (r, s') -> quiet s s'.
Proof.
  intros (Hh & _ & Hwf & _) H. apply syscall_inv in H as [(e & k & -> & _ & ->)|[-> ->]]; [| |done].
  - by destruct (remove_some_quiet k (files s) Hwf); apply quiet_files.
  - by destruct (remove_all_quiet (files s) Hwf); apply quiet_files.
Qed.

(** ** Settling the siblings *)

Lemma starts_with_split p s : starts_with p s = true -> s = p ++ drop (length p) s.
Proof.
  revert s. induction p as [|a p IH]; intros [|b s]; simpl; try done; try by rewrite drop_0.
  intros [->%bool_decide_eq_true Hs]%andb_true_iff. f_equal. by apply IH.
Qed.

Lemma split_at_string_Some sep s l r : split_at_string sep s = Some (l, r) -> s = l ++ sep ++ r.
Proof.
  revert l r. induction s as [|b s IH]; intros l r; cbn [split_at_string];
    destruct (starts_with sep _) eqn:E; try done.
  - intros [= <- <-]. apply starts_with_split in E. by destruct sep.
  - intros [= <- <-]. by apply starts_with_split.
  - destruct (split_at_string sep s) as [[l' r']|] eqn:E'; [|done]. intros [= <- <-].
    simpl. f_equal. by apply IH.
Qed.

Lemma rsplit_at_string_Some sep s l r : rsplit_at_string sep s = Some (l, r) -> s = l ++ sep ++ r.
Proof.
  unfold rsplit_at_string. destruct (split_at_string _ _) as [[l' r']|] eqn:E; [|done].
  intros [= <- <-]. apply split_at_string_Some in E. apply (f_equal (@rev byte)) in E.
  rewrite rev_involutive, !rev_app_distr, rev_involutive, <- app_assoc in E. exact E.
Qed.

Section settle.
Context {Hs : Hashers}.
Implicit Types s : Disk.

(** A sibling is no blob: its name has a dot. *)
Lemma sibling_spare a shard file d :
  sibling_of a shard file = Some d -> digest_wf d /\ spare [name a; shard; file].
Proof.
  unfold sibling_of. destruct (rsplit_at_string _ _) as [[rest n]|] eqn:E; [|done]. simpl.
  destruct (_ || _); [done|]. intros [Hd _]%parse_digest_wf. split; [done|]. split.
  - intros d' _ [= _ _ Hfile]. apply rsplit_at_string_Some in E.
    assert (Hhex : Forall (fun b => Hex.is_lower_hex b = true) file).
    { rewrite <- Hfile, hex_of_encode. apply Forall_drop, Hex.encode_lower. }
    rewrite lossy_valid in E.
    + rewrite E in Hhex. apply Forall_app in Hhex as [_ Hhex]. by inversion Hhex.
    + apply utf8_valid_ascii. eapply Forall_impl; [exact Hhex|]. apply lower_hex_ascii.
  - intros a' nm. by destruct a.
Qed.

(** No healthy blob is lost; a blob that was missing or corrupt may be restored. *)
Definition repaired (held1 held2 : gmap Digest (list byte)) : Prop :=
  forall d, held2 !! d = held1 !! d \/
    (forall data, held1 !! d = Some data -> verify d data = false) /\
    exists data, held2 !! d = Some data /\ verify d data = true.

Definition mended s s' : Prop :=
  disk_ok s' /\ repaired (held s) (held s') /\ quarantined_at s' = quarantined_at s.

Lemma repaired_refl h : repaired h h.
Proof. intros d. by left. Qed.

Lemma repaired_trans h1 h2 h3 : repaired h1 h2 -> repaired h2 h3 -> repaired h1 h3.
Proof.
  intros H12 H23 d. destruct (H23 d) as [->|[Hbad Hgood]]; [apply H12|].
  destruct (H12 d) as [<-|[Hbad' _]]; right; by split.
Qed.

Lemma mended_quiet s s' : disk_ok s -> quiet s s' -> mended s s'.
Proof.
  intros Hok Hq. split; [by eapply quiet_ok|]. destruct (quiet_same _ _ Hq) as [-> ->].
  split; [apply repaired_refl|done].
Qed.

Lemma mended_trans s1 s2 s3 : mended s1 s2 -> mended s2 s3 -> mended s1 s3.
Proof.
  intros (_ & H1 & Q1) (Hok & H2 & Q2). split; [done|]. split; [by eapply repaired_trans|congruence].
Qed.

Lemma drop_sibling p s r s' :
  disk_ok s -> p <> [] -> spare p -> io_remove_file p s = (r, s') -> mended s s'.
Proof.
  intros Hok Hp Hsp H. pose proof Hok as (Hh & Hc & Hwf & Hpl).
  assert (Hstay : forall f', f' = files s -> mended s (set_files f' s)).
  { intros f' ->. apply mended_quiet; [done|]. by apply quiet_files. }
  apply syscall_inv in H as [(e & k & -> & _ & ->)|[-> ->]]; [by apply Hstay| |done].
  unfold fs_remove_file. destruct (resolve p (files s)) as [n|e] eqn:E; [|by apply Hstay].
  apply resolve_Ok in E as [E _]; [|done].
  assert (Hgo : n <> Dir -> mended s (set_files (delete p (files s)) s)).
  { intros Hn. split.
    - split_and!; [done|done|by eapply wf_delete_file|by apply placed_delete].
    - simpl. rewrite held_spare, copies_spare by done. split; [apply repaired_refl|done]. }
  destruct n; [by apply Hstay|by apply Hgo..].
Qed.

Lemma disk_verify_reads d : reads (disk_verify d) (fun _ _ => True).
Proof.
  unfold disk_verify. eapply looks_bind; [apply reads_attempt|].
  intros [b|e]; [by apply looks_ret|]. destruct (not_found e); apply reads_fail.
Qed.

Lemma settle_sibling_mends d p s r s' :
  disk_ok s -> digest_wf d -> p <> [] -> spare p -> settle_sibling d p s = (r, s') -> mended s s'.
Proof.
  intros Hok Hd Hp Hsp H. unfold settle_sibling in H. unfold mbind at 1, M_bind at 1 in H.
  destruct (or_io_err _ (io_read p) s) as [r1 s1] eqn:E. apply or_io_err_inv in E as (r0 & -> & E).
  apply look_inv in E as (Hq1 & Hf1 & Hr0); [|apply Hok].
  pose proof (mended_quiet _ _ Hok Hq1) as Hm1. destruct r0 as [b|e]; cbn [map_err] in H.
  2: { by injection H as _ <-. }
  assert (Hfile : files s1 !! p = Some (File b)).
  { destruct Hr0 as [Hr0|(? & ? & _)]; [|done]. unfold fs_read in Hr0.
    destruct (resolve p (files s)) as [[]|] eqn:E; try done. injection Hr0 as ->.
    apply resolve_Ok in E as [E _]; [|done]. by rewrite Hf1. }
  pose proof Hm1 as (Hok1 & _ & _).
  unfold mbind, M_bind in H. destruct (verify d b) eqn:Hv.
  - destruct (disk_verify d s1) as [r2 s2] eqn:E2.
    destruct (disk_verify_reads d s1 r2 s2 Hok1 E2) as (Hq2 & Hf2 & _).
    apply (disk_verify_spec d Hd) in E2 as [_ Hr2]; [|done].
    pose proof (mended_trans _ _ _ Hm1 (mended_quiet _ _ Hok1 Hq2)) as Hm2.
    destruct (quiet_same _ _ Hq2) as [Hh2 Hc2]. pose proof Hm2 as (Hok2 & _ & _).
    assert (Hswap : (forall data, held s2 !! d = Some data -> verify d data = false) ->
      or_io_err (bs "restore sibling") (io_rename p (blob_path d)) s2 = (r, s') -> mended s s').
    { intros Hbad E. apply or_io_err_inv in E as (r0 & _ & E).
      apply (land_spec p d b) in E as [Hok3 Hr3]; [|done..|by rewrite Hf2].
      eapply mended_trans; [exact Hm2|]. split; [done|]. destruct r0 as [[]|e].
      - destruct Hr3 as [-> ->]. split; [|done]. intros d'. destruct (decide (d = d')) as [<-|].
        + right. split; [done|]. exists b. split; [apply lookup_insert_eq|done].
        + left. by apply lookup_insert_ne.
      - destruct Hr3 as [-> ->]. split; [apply repaired_refl|done]. }
    rewrite <- Hh2 in Hr2. destruct r2 as [[|]|[]]; cbn in H; try (by injection H as _ <-).
    + apply or_io_err_inv in H as (r0 & _ & H). eapply mended_trans; [exact Hm2|].
      by eapply drop_sibling.
    + apply Hswap; [|exact H]. destruct Hr2 as (data & Hdata & Hbad). intros data' Hd'. congruence.
    + apply Hswap; [|exact H]. intros data' Hd'. congruence.
  - cbn in H. apply or_io_err_inv in H as (r0 & _ & H). eapply mended_trans; [exact Hm1|].
    by eapply drop_sibling.
Qed.

(** What a loop of mending steps does. *)
Lemma for_each_mends {A : Type} (op : A -> CasM ()) (l : list A) s r s' :
  (forall x s r s', x ∈ l -> disk_ok s -> op x s = (r, s') -> mended s s') ->
  disk_ok s -> for_each op l s = (r, s') -> mended s s'.
Proof.
  revert s. induction l as [|x l IH]; intros s Hop Hok H; cbn [for_each] in H.
  - injection H as <- <-. apply mended_quiet; [done|apply quiet_refl].
  - unfold mbind, M_bind in H. destruct (op x s) as [r1 s1] eqn:E.
    apply Hop in E; [|apply elem_of_cons; by left|done]. destruct r1 as [u|e].
    + eapply mended_trans; [exact E|]. apply IH in H; [done| |apply E].
      intros y s2 r2 s2' Hy. apply Hop, elem_of_cons. by right.
    + by injection H as <- <-.
Qed.

Lemma mends_bind {A B : Type} (m : CasM A) (k : A -> CasM B) s r s' :
  (forall s r s', disk_ok s -> m s = (r, s') -> mended s s') ->
  (forall a s r s', disk_ok s -> k a s = (r, s') -> mended s s') ->
  disk_ok s -> (m ≫= k) s = (r, s') -> mended s s'.
Proof.
  intros Hm Hk Hok H. unfold mbind, M_bind in H. destruct (m s) as [[a|e] s1] eqn:E.
  - apply Hm in E; [|done]. eapply mended_trans; [exact E|]. eapply Hk; [apply E|exact H].
  - injection H as <- <-. by eapply Hm.
Qed.

(** A call that changes nothing, with its error made one of the store's or looked at. *)
Lemma mends_or_io_err {A : Type} (what : list byte) (op : IO A) s r s' :
  (forall s r s', disk_ok s -> op s = (r, s') -> quiet s s') ->
  disk_ok s -> or_io_err what op s = (r, s') -> mended s s'.
Proof. intros Hop Hok (r0 & _ & H)%or_io_err_inv. by eapply mended_quiet, Hop. Qed.

Lemma mends_attempt {A : Type} (op : IO A) s r s' :
  (forall s r s', disk_ok s -> op s = (r, s') -> quiet s s') ->
  disk_ok s -> attempt op s = (r, s') -> mended s s'.
Proof. intros Hop Hok (r0 & _ & H)%attempt_inv. by eapply mended_quiet, Hop. Qed.

Lemma look_quiet {A : Type} (op : fs_op) (act : fs -> result io_error A) s r s' :
  disk_ok s -> look op act s = (r, s') -> quiet s s'.
Proof. intros Hok H. by apply look_inv in H as [Hq _]; [|apply Hok]. Qed.

Lemma mends_ret {A : Type} (x : result BackendError A) s r s' :
  disk_ok s -> (x, s) = (r, s') -> mended s s'.
Proof. intros Hok [= _ <-]. apply mended_quiet; [done|apply quiet_refl]. Qed.

Lemma settle_siblings_mends s r s' : disk_ok s -> settle_legacy_siblings s = (r, s') -> mended s s'.
Proof.
  apply for_each_mends. clear s r s'. intros a s r s' _. apply mends_bind.
  { intros ? ? ?. apply mends_attempt, look_quiet. }
  clear s r s'. intros [shards|e] s r s'; [|destruct (not_found e); apply mends_ret].
  apply for_each_mends. clear s r s'. intros shard s r s' _. apply mends_bind.
  { intros ? ? ?. apply mends_or_io_err, look_quiet. }
  clear s r s'. intros [] s r s'. apply mends_bind.
  { intros ? ? ?. apply mends_or_io_err, look_quiet. }
  clear s r s'. intros [] s r s'. destruct shard.2; [|apply mends_ret..]. apply mends_bind.
  { intros ? ? ?. apply mends_or_io_err, look_quiet. }
  clear s r s'. intros l s r s'. apply for_each_mends. clear s r s'. intros file s r s' _.
  apply mends_bind.
  { intros ? ? ?. apply mends_or_io_err, look_quiet. }
  clear s r s'. intros [] s r s'. destruct (sibling_of a shard.1 file.1) as [d|] eqn:E; [|apply mends_ret].
  apply sibling_spare in E as [Hd Hsp]. intros Hok. by apply settle_sibling_mends.
Qed.

(** Opening, however far it gets, loses no healthy blob and no quarantined copy. *)
Lemma open_mends s r s' : disk_ok s -> open s = (r, s') -> mended s s'.
Proof.
  apply mends_bind.
  { intros ? ? ?. apply mends_attempt, sweep_quiet. }
  clear s r s'. intros x s r s'. apply mends_bind.
  { clear s r s'. intros s r s'. destruct x as [[]|e]; [|destruct (not_found e)]; apply mends_ret. }
  clear s r s'. intros [] s r s'. apply mends_bind.
  { intros ? ? ?. apply mends_or_io_err. clear s r s'. intros s r s' Hok H.
    by apply create_dirs_quiet in H as [Hq _]; [|done|done|simpl; lia]. }
  clear s r s'. intros [] s r s'. apply settle_siblings_mends.
Qed.
End settle.

(** ** A plain blob store *)

(** What a store holds: the blobs, and the quarantined copies with their sizes. *)
Record contents := mkContents {
  blobs_of : gmap Digest (list byte);
  copies_of : gmap (list byte) Z;
}.

(** The requests; [ReqOpen] is a process starting, with its identifier. *)
Inductive request :=
| ReqHas (d : Digest) | ReqGet (d : Digest) | ReqSize (d : Digest) | ReqVerify (d : Digest)
| ReqPut (src : source) | ReqPutKeyed (d : Digest) (src : source)
| ReqList | ReqReclaim (d : Digest) | ReqReclaimIfCorrupt (d : Digest)
| ReqQuarantine (d : Digest) | ReqListQuarantine
| ReqOpen (process : Z).

Inductive answer :=
| AnsBool (b : bool) | AnsBytes (src : source) | AnsSize (n : option Z)
| AnsPut (d : Digest) (left_ : source) | AnsPutKeyed (left_ : source)
| AnsList (l : list LocalBlob) | AnsQuarantined (q : option QuarantinedBlob)
| AnsCopies (l : list QuarantinedBlob) | AnsOpen.

(** The requests that name a blob name it by a digest of the right length. *)
Definition request_wf (q : request) : Prop :=
  match q with
  | ReqHas d | ReqGet d | ReqSize d | ReqVerify d | ReqPutKeyed d _ | ReqReclaim d
  | ReqReclaimIfCorrupt d | ReqQuarantine d => digest_wf d
  | _ => True
  end.

Section refinement.
Context {Hs : Hashers}.

(** A blob is only said to be missing when it is. *)
Definition error_honest (q : request) (c : contents) (e : BackendError) : Prop :=
  match q, e with
  | (ReqGet d | ReqVerify d), BlobNotFound _ => blobs_of c !! d = None
  | _, _ => True
  end.

(** How a blob store may answer: it fails and changes nothing, or it does what it is asked. *)
Inductive blob_store_step (c : contents) : request -> result BackendError answer -> contents -> Prop :=
| step_error q e :
    (forall p, q <> ReqOpen p) -> error_honest q c e -> blob_store_step c q (Err e) c
| step_has d :
    blob_store_step c (ReqHas d) (Ok (AnsBool (bool_decide (is_Some (blobs_of c !! d))))) c
| step_get d data src :
    blobs_of c !! d = Some data -> verify d data = true -> read_to_end src = (Ok data, []) ->
    blob_store_step c (ReqGet d) (Ok (AnsBytes src)) c
| step_size d :
    blob_store_step c (ReqSize d) (Ok (AnsSize (zlen <$> blobs_of c !! d))) c
| step_verify d data :
    blobs_of c !! d = Some data ->
    blob_store_step c (ReqVerify d) (Ok (AnsBool (verify d data))) c
| step_put src data left_ :
    read_to_end src = (Ok data, left_) ->
    blob_store_step c (ReqPut src) (Ok (AnsPut (compute data) left_))
      (mkContents (<[compute data := data]> (blobs_of c)) (copies_of c))
| step_put_keyed d src data left_ :
    read_to_end src = (Ok data, left_) -> verify d data = true ->
    blob_store_step c (ReqPutKeyed d src) (Ok (AnsPutKeyed left_))
      (mkContents (<[d := data]> (blobs_of c)) (copies_of c))
| step_list l :
    l ≡ₚ (fun kv => mkLocalBlob kv.1 (zlen kv.2)) <$> map_to_list (blobs_of c) ->
    blob_store_step c ReqList (Ok (AnsList l)) c
| step_reclaim d :
    blob_store_step c (ReqReclaim d) (Ok (AnsBool (bool_decide (is_Some (blobs_of c !! d)))))
      (mkContents (delete d (blobs_of c)) (copies_of c))
| step_reclaim_corrupt d data :
    blobs_of c !! d = Some data -> verify d data = false ->
    blob_store_step c (ReqReclaimIfCorrupt d) (Ok (AnsBool true))
      (mkContents (delete d (blobs_of c)) (copies_of c))
| step_reclaim_not_corrupt d :
    (forall data, blobs_of c !! d = Some data -> verify d data = true) ->
    blob_store_step c (ReqReclaimIfCorrupt d) (Ok (AnsBool false)) c
| step_quarantine d data id :
    blobs_of c !! d = Some data -> copies_of c !! id = None ->
    blob_store_step c (ReqQuarantine d) (Ok (AnsQuarantined (Some (mkQuarantined id d (zlen data)))))
      (mkContents (delete d (blobs_of c)) (<[id := zlen data]> (copies_of c)))
| step_quarantine_none d :
    blobs_of c !! d = None -> blob_store_step c (ReqQuarantine d) (Ok (AnsQuarantined None)) c
| step_list_quarantine l :
    (fun q => (q_id q, q_size q)) <$> l ≡ₚ map_to_list (copies_of c) ->
    blob_store_step c ReqListQuarantine (Ok (AnsCopies l)) c
| step_open p r blobs :
    repaired (blobs_of c) blobs -> blob_store_step c (ReqOpen p) r (mkContents blobs (copies_of c)).

Inductive blob_store_run : contents -> list request -> list (result BackendError answer) -> contents -> Prop :=
| run_nil c : blob_store_run c [] [] c
| run_cons c q r c1 qs rs c2 :
    blob_store_step c q r c1 -> blob_store_run c1 qs rs c2 -> blob_store_run c (q :: qs) (r :: rs) c2.

(** The on-disk store answering. *)
Context (other_len : node -> Z).
#[local] Instance a_backend : CasBackend Disk := disk_backend other_len.
#[local] Instance a_reclaimable : ReclaimableCas Disk := disk_reclaimable other_len.

(** A process starts on what is on the disk. *)
Definition started (process : Z) (s : Disk) : Disk := mkDisk (files s) (fails s) (calls s) process 0.

Definition disk_answer (q : request) (s : Disk) : result BackendError answer * Disk :=
  match q with
  | ReqHas d => (b ← cas_has d; mret (AnsBool b)) s
  | ReqGet d => (src ← cas_get d; mret (AnsBytes src)) s
  | ReqSize d => (n ← cas_size d; mret (AnsSize n)) s
  | ReqVerify d => (b ← cas_verify d; mret (AnsBool b)) s
  | ReqPut src => let '(r, left_, s) := cas_put src s in ((fun d => AnsPut d left_) <$> r, s)
  | ReqPutKeyed d src =>
      let '(r, left_, s) := cas_put_keyed d src s in ((fun _ => AnsPutKeyed left_) <$> r, s)
  | ReqList => (l ← iter_local; mret (AnsList l)) s
  | ReqReclaim d => (b ← reclaim d; mret (AnsBool b)) s
  | ReqReclaimIfCorrupt d => (b ← reclaim_if_corrupt d; mret (AnsBool b)) s
  | ReqQuarantine d => (q ← cas_quarantine d; mret (AnsQuarantined q)) s
  | ReqListQuarantine => (l ← iter_quarantine; mret (AnsCopies l)) s
  | ReqOpen p => (_ ← open; mret AnsOpen) (started p s)
  end.

Fixpoint disk_answers (qs : list request) (s : Disk) : list (result BackendError answer) * Disk :=
  match qs with
  | [] => ([], s)
  | q :: qs =>
      let '(r, s) := disk_answer q s in
      let '(rs, s) := disk_answers qs s in (r :: rs, s)
  end.

Definition contents_of (s : Disk) : contents := mkContents (held s) (quarantined_at s).
Context {Hl : HasherLaws Hs}.

Lemma same_contents_of s s' : same_content s s' -> contents_of s' = contents_of s.
Proof. intros [H1 H2]. unfold contents_of. by rewrite H1, H2. Qed.

Lemma contents_of_eq s h q :
  held s = h -> quarantined_at s = q -> contents_of s = mkContents h q.
Proof. by intros <- <-. Qed.

Lemma bind_answer {A : Type} (m : CasM A) (k : A -> answer) s :
  (x ← m; mret (k x)) s = (k <$> (m s).1, (m s).2).
Proof. unfold mbind, M_bind. by destruct (m s) as [[] ?]. Qed.

(** Looking at one blob. *)
Lemma blob_looks_step q d s r s' :
  disk_ok s -> digest_wf d ->
  q = ReqHas d \/ q = ReqGet d \/ q = ReqSize d \/ q = ReqVerify d ->
  disk_answer q s = (r, s') ->
  blob_store_step (contents_of s) q r (contents_of s') /\ disk_ok s'.
Proof.
  intros Hok Hd Hq. unfold disk_answer. destruct Hq as [->|[->|[->| ->]]]; rewrite bind_answer.
  - pose proof (disk_has_spec other_len d Hd s Hok) as [Hsp Hok']. unfold has_spec in Hsp.
    destruct (cas_has d s) as [r0 s0]. destruct Hsp as [Hc Hr]. intros [= <- <-]. split; [|done].
    rewrite (same_contents_of _ _ Hc). destruct r0 as [b|e]; [subst b; apply step_has|by apply step_error].
  - pose proof (disk_get_spec other_len d Hd s Hok) as [Hsp Hok']. unfold get_spec in Hsp.
    destruct (cas_get d s) as [r0 s0]. destruct Hsp as [Hc Hr]. intros [= <- <-]. split; [|done].
    rewrite (same_contents_of _ _ Hc). destruct r0 as [src|e].
    + destruct Hr as (data & H1 & H2 & H3). by eapply step_get.
    + apply step_error; [done|]. destruct e; try done. by destruct Hr.
  - pose proof (disk_size_spec other_len d Hd s Hok) as [Hsp Hok']. unfold size_spec in Hsp.
    destruct (cas_size d s) as [r0 s0]. destruct Hsp as [Hc Hr]. intros [= <- <-]. split; [|done].
    rewrite (same_contents_of _ _ Hc). destruct r0 as [n|e]; [subst n; apply step_size|by apply step_error].
  - destruct (cas_verify d s) as [r0 s0] eqn:E. apply (disk_verify_spec d Hd) in E as [Hc Hr]; [|done].
    intros [= <- <-]. split; [|by eapply quiet_ok].
    rewrite (same_contents_of _ _ (quiet_same _ _ Hc)). destruct r0 as [b|e].
    + destruct Hr as (data & H1 & ->). by apply step_verify.
    + apply step_error; [done|]. by destruct e.
Qed.

(** Writing. *)
Lemma put_step src s r s' :
  disk_ok s -> disk_answer (ReqPut src) s = (r, s') ->
  blob_store_step (contents_of s) (ReqPut src) r (contents_of s') /\ disk_ok s'.
Proof.
  intros Hok. unfold disk_answer. destruct (cas_put src s) as [[r0 left_] s0] eqn:E.
  apply disk_put_spec in E as [Hok' Hr]; [|done]. intros [= <- <-]. split; [|done].
  destruct r0 as [d|e].
  - destruct Hr as (data & H1 & -> & H3 & H4). rewrite (contents_of_eq _ _ _ H3 H4). by apply step_put.
  - rewrite (same_contents_of _ _ Hr). by apply step_error.
Qed.

Lemma put_keyed_step d src s r s' :
  disk_ok s -> digest_wf d -> disk_answer (ReqPutKeyed d src) s = (r, s') ->
  blob_store_step (contents_of s) (ReqPutKeyed d src) r (contents_of s') /\ disk_ok s'.
Proof.
  intros Hok Hd. unfold disk_answer. destruct (cas_put_keyed d src s) as [[r0 left_] s0] eqn:E.
  apply disk_put_keyed_spec in E as (Hok' & _ & Hr); [|done..]. intros [= <- <-]. split; [|done].
  destruct r0 as [[]|e].
  - destruct Hr as (data & H1 & H2 & H3 & H4). rewrite (contents_of_eq _ _ _ H3 H4). by apply step_put_keyed.
  - rewrite (same_contents_of _ _ Hr). by apply step_error.
Qed.

(** Listing. *)
Lemma list_step q s r s' :
  disk_ok s -> q = ReqList \/ q = ReqListQuarantine -> disk_answer q s = (r, s') ->
  blob_store_step (contents_of s) q r (contents_of s') /\ disk_ok s'.
Proof.
  intros Hok Hq. unfold disk_answer. destruct Hq as [->| ->]; rewrite bind_answer.
  - destruct (iter_local s) as [r0 s0] eqn:E. apply disk_iter_local_spec in E as [Hc Hr]; [|done].
    intros [= <- <-]. split; [|by eapply quiet_ok]. rewrite (same_contents_of _ _ (quiet_same _ _ Hc)).
    destruct r0; [by apply step_list|by apply step_error].
  - destruct (iter_quarantine s) as [r0 s0] eqn:E. apply disk_iter_quarantine_spec in E as [Hc Hr]; [|done].
    intros [= <- <-]. split; [|by eapply quiet_ok]. rewrite (same_contents_of _ _ (quiet_same _ _ Hc)).
    destruct r0; [apply step_list_quarantine, Hr|by apply step_error].
Qed.

(** Taking blobs away. *)
Lemma take_step q d s r s' :
  disk_ok s -> digest_wf d ->
  q = ReqReclaim d \/ q = ReqReclaimIfCorrupt d \/ q = ReqQuarantine d ->
  disk_answer q s = (r, s') ->
  blob_store_step (contents_of s) q r (contents_of s') /\ disk_ok s'.
Proof.
  intros Hok Hd Hq. unfold disk_answer. destruct Hq as [->|[->| ->]]; rewrite bind_answer.
  - pose proof (disk_reclaim_spec other_len d Hd s Hok) as [Hsp Hok']. unfold reclaim_spec in Hsp.
    destruct (reclaim d s) as [r0 s0]. intros [= <- <-]. split; [|done]. destruct r0 as [b|e].
    + destruct Hsp as (-> & Hq & Hh). rewrite (contents_of_eq _ _ _ Hh Hq).
      destruct (held s !! d) eqn:E; rewrite ?bool_decide_true, ?bool_decide_false by (by eexists || by intros []).
      * pose proof (step_reclaim (contents_of s) d) as H. unfold contents_of in *. cbn in *.
        by rewrite E in H.
      * pose proof (step_reclaim (contents_of s) d) as H. unfold contents_of in *. cbn in *.
        by rewrite E, (delete_id _ _ E) in H.
    + rewrite (same_contents_of _ _ Hsp). by apply step_error.
  - pose proof (disk_reclaim_if_corrupt_spec other_len d Hd s Hok) as [Hsp Hok'].
    unfold reclaim_if_corrupt_spec in Hsp.
    destruct (reclaim_if_corrupt d s) as [r0 s0]. intros [= <- <-]. split; [|done]. destruct r0 as [[]|e].
    + destruct Hsp as [[Hb _] [Hq Hh]]. rewrite (contents_of_eq _ _ _ Hh Hq).
      destruct (Hb eq_refl) as (data & H1 & H2). by apply (step_reclaim_corrupt (contents_of s) d data).
    + destruct Hsp as [[_ Hb] [Hq Hh]]. rewrite (same_contents_of s s0) by (by split).
      apply step_reclaim_not_corrupt. intros data Hdata. apply not_false_iff_true. intros Hv.
      by discriminate Hb; exists data.
    + rewrite (same_contents_of _ _ Hsp). by apply step_error.
  - destruct (cas_quarantine d s) as [r0 s0] eqn:E.
    apply (disk_quarantine_spec other_len d Hd) in E as (Hok' & _ & Hr); [|done].
    intros [= <- <-]. split; [|done]. destruct r0 as [[[id d' z]|]|e]; cbn in Hr.
    + destruct Hr as (data & H1 & H2 & -> & -> & H5 & H6). rewrite (contents_of_eq _ _ _ H2 H6).
      by apply (step_quarantine (contents_of s) d data id).
    + destruct Hr as [Hc Hn]. rewrite (same_contents_of _ _ Hc). by apply step_quarantine_none.
    + rewrite (same_contents_of _ _ Hr). by apply step_error.
Qed.

Lemma open_step p s r s' :
  disk_ok s -> disk_answer (ReqOpen p) s = (r, s') ->
  blob_store_step (contents_of s) (ReqOpen p) r (contents_of s') /\ disk_ok s'.
Proof.
  intros Hok. unfold disk_answer. rewrite bind_answer. destruct (open (started p s)) as [r0 s0] eqn:E.
  apply open_mends in E as (Hok' & Hrep & Hq); [|exact Hok]. intros [= <- <-]. split; [|done].
  rewrite (contents_of_eq s0 _ _ eq_refl Hq). by apply step_open.
Qed.

Lemma disk_answer_step q s r s' :
  disk_ok s -> request_wf q -> disk_answer q s = (r, s') ->
  blob_store_step (contents_of s) q r (contents_of s') /\ disk_ok s'.
Proof.
  intros Hok Hq. destruct q; simpl in Hq.
  1-4: by apply (blob_looks_step _ d); auto.
  - by apply put_step.
  - by apply put_keyed_step.
  - apply list_step; auto.
  - apply (take_step _ d); auto.
  - apply (take_step _ d); auto.
  - apply (take_step _ d); auto.
  - apply list_step; auto.
  - by apply open_step.
Qed.

Lemma disk_answers_run qs s rs s' :
  disk_ok s -> Forall request_wf qs -> disk_answers qs s = (rs, s') ->
  blob_store_run (contents_of s) qs rs (contents_of s') /\ disk_ok s'.
Proof.
  revert s rs. induction qs as [|q qs IH]; intros s rs Hok Hqs H; cbn [disk_answers] in H.
  - injection H as <- <-. split; [constructor|done].
  - apply Forall_cons in Hqs as [Hq Hqs]. destruct (disk_answer q s) as [r s1] eqn:E1.
    destruct (disk_answers qs s1) as [rs1 s2] eqn:E2. injection H as <- <-.
    destruct (disk_answer_step q s r s1 Hok Hq E1) as [Hstep Hok1].
    destruct (IH s1 rs1 Hok1 Hqs E2) as [Hrun Hok2]. split; [by econstructor|done].
Qed.

Lemma disk_answers_ok qs s :
  disk_ok s -> Forall request_wf qs -> disk_ok (disk_answers qs s).2.
Proof.
  intros Hok Hqs. destruct (disk_answers qs s) as [rs s'] eqn:E. by eapply disk_answers_run.
Qed.

(** C6. The on-disk store refines a plain blob store.  The disk starts laid out as the
    store leaves one (a blank disk is).  Any call of the file system may fail,
    at any time, except the stat of a quarantine slot, and no failure claims that something
    is not there; however often the process starts again, any sequence of requests is
    answered as a finite map of blobs and quarantined copies would answer it, where a failed
    request changes nothing (a write lands whole or not at all) and only opening may put a
    healthy copy in the place of a missing or corrupt one; and the disk stays one the store
    can rely on.  The exception is needed: [stat_error_replaces_copy] and
    [late_stat_error_moves_blob] below show what a failing stat of a slot does. *)
Theorem disk_refines_blob_store qs s rs s' :
  disk_ok s -> Forall request_wf qs -> disk_answers qs s = (rs, s') ->
  blob_store_run (contents_of s) qs rs (contents_of s') /\ disk_ok s'.
Proof. apply disk_answers_run. Qed.
End refinement.

(** Quarantining ends: a free slot is found among the first ones, as many as there are
    files and one more, whatever the disk holds and whatever fails. *)
Theorem quarantine_finds_a_slot {Hs : Hashers} (other_len : node -> Z) (d : Digest) (s : Disk) r s' :
  disk_ok s -> digest_wf d -> disk_quarantine other_len d s = (r, s') ->
  r <> Err (Internal (bs "u32 slots exhausted")).
Proof.
  intros Hok Hd E. by apply (disk_quarantine_spec other_len d Hd) in E as (_ & Hr & _).
Qed.

(** ** When nothing fails *)

Definition fault_free (s : Disk) : Prop := forall t op, fails s t op = None.

(** Nothing but the store's own directories is where it makes files. *)
Definition dir_or_free (f : fs) (p : path) : Prop := f !! p = None \/ f !! p = Some Dir.

Definition ready (s : Disk) (d : Digest) : Prop :=
  files s !! tmp_dir = Some Dir /\
  (forall nm n, files s !! [bs "tmp"; nm] = Some n -> exists b, n = File b) /\
  dir_or_free (files s) [name (algo d)] /\
  dir_or_free (files s) [name (algo d); firstn 2 (hex_of d)].

Lemma syscall_free {A : Type} (op : fs_op) (part : nat -> fs -> fs) (act : fs -> result io_error A * fs) s :
  fault_free s -> syscall op part act s = ((act (files s)).1, set_files (act (files s)).2 s).
Proof. intros Hf. unfold syscall. rewrite Hf. by destruct (act (files s)). Qed.

Lemma free_set_files f s : fault_free s -> fault_free (set_files f s).
Proof. done. Qed.

Lemma mkdirs_free ps f :
  (forall p, p ∈ ps -> dir_or_free f p) -> (fs_mkdirs ps f).1 = Ok () /\
  (forall p n, f !! p = Some n -> (fs_mkdirs ps f).2 !! p = Some n).
Proof.
  revert f. induction ps as [|p ps IH]; intros f Hp; cbn [fs_mkdirs]; [done|].
  assert (Hps : forall q, q ∈ ps -> dir_or_free f q) by (intros q Hq; apply Hp, elem_of_cons; by right).
  destruct (Hp p) as [E|E]; [apply elem_of_cons; by left|..]; rewrite E; [|by apply IH].
  destruct (IH (<[p := Dir]> f)) as [H1 H2].
  - intros q Hq. destruct (decide (p = q)) as [<-|]; [right; apply lookup_insert_eq|].
    unfold dir_or_free. rewrite lookup_insert_ne by done. by apply Hps.
  - split; [done|]. intros q n Hq. apply H2. rewrite lookup_insert_ne; [done|congruence].
Qed.

Section progress.
Context {Hs : Hashers} {Hl : HasherLaws Hs} (other_len : node -> Z).
Implicit Types s : Disk.

Lemma write_loop_free nm src h c s cs left_ :
  fault_free s -> files s !! [bs "tmp"; nm] = Some (File c) ->
  read_loop src = (cs, Ok (), left_) ->
  exists s', write_loop [bs "tmp"; nm] src h s = (Ok (hasher_feed h cs), left_, s') /\ fault_free s' /\
    files s' = <[[bs "tmp"; nm] := File (c ++ concat cs)]> (files s).
Proof.
  revert h c s cs left_. induction src as [|[[|x b]|e] src IH]; intros h c s cs left_ Hf Hc Hr;
    cbn [read_loop] in Hr; cbn [write_loop]; try done.
  1,2: injection Hr as <- <-; exists s; rewrite app_nil_r, insert_id by done; done.
  destruct (read_loop src) as [[cs1 r1] l1]. injection Hr as <- -> <-.
  unfold or_io_err, io_write_all. rewrite syscall_free by done. cbn [fst snd map_err].
  unfold fs_append. rewrite Hc.
  destruct (IH (hasher_update h (x :: b)) (c ++ x :: b) (set_files (<[[bs "tmp"; nm] := File (c ++ x :: b)]> (files s)) s)
    cs1 l1 ltac:(by apply free_set_files) ltac:(apply lookup_insert_eq) eq_refl) as (s' & H1 & H2 & H3).
  exists s'. split; [done|]. split; [done|]. rewrite H3. cbn [files set_files concat].
  by rewrite insert_insert_eq, <- app_assoc.
Qed.

Lemma write_tmp_free src h s d cs left_ :
  disk_ok s -> fault_free s -> ready s d -> read_loop src = (cs, Ok (), left_) ->
  exists nm s', write_tmp src h s = (Ok ([bs "tmp"; nm], hasher_finalize (hasher_feed h cs)), left_, s') /\
    fault_free s' /\ files s' = <[[bs "tmp"; nm] := File (concat cs)]> (files s).
Proof.
  intros (_ & _ & Hwf & _) Hf (Htmp & Hnm & _ & _) Hr. unfold write_tmp, next_tmp.
  set (nm := dec (pid s) ++ bs "-" ++ dec (tmp_counter s)). set (s0 := mkDisk _ _ _ _ _).
  assert (Hf0 : fault_free s0) by done.
  unfold or_io_err, io_create. rewrite syscall_free by done.
  assert (Hc : fs_create [bs "tmp"; nm] (files s0) = (Ok (), <[[bs "tmp"; nm] := File []]> (files s))).
  { change (files s0) with (files s). unfold fs_create, resolve.
    assert (blocked [bs "tmp"; nm] (files s) = None) as ->.
    { apply blocked_None. intros q (i & Hi & ->)%elem_of_ancestors. simpl in Hi.
      by assert (i = 1%nat) as -> by lia. }
    rewrite bool_decide_false by done. destruct (files s !! [bs "tmp"; nm]) as [n|] eqn:E; [|done].
    by destruct (Hnm nm n E) as [b ->]. }
  rewrite Hc. cbn [fst snd map_err].
  destruct (write_loop_free nm src h [] (set_files (<[[bs "tmp"; nm] := File []]> (files s)) s0) cs left_)
    as (s1 & H1 & H2 & H3); [done|apply lookup_insert_eq|done|].
  rewrite H1. unfold io_sync_all, look. rewrite syscall_free by done. cbn [fst snd map_err].
  exists nm. eexists. split; [reflexivity|]. split; [done|]. cbn [files set_files]. rewrite H3.
  cbn [files set_files]. by rewrite insert_insert_eq.
Qed.

Lemma commit_free nm d b s :
  disk_ok s -> digest_wf d -> fault_free s -> ready s d -> files s !! [bs "tmp"; nm] = Some (File b) ->
  exists s', commit [bs "tmp"; nm] d s = (Ok (), s') /\ fault_free s'.
Proof.
  intros Hok Hd Hf (_ & _ & Ha & Hsh) Hfile. pose proof Hok as (_ & _ & Hwf & Hp).
  unfold commit, mbind, M_bind.
  change (removelast (blob_path d)) with [name (algo d); firstn 2 (hex_of d)].
  destruct (io_create_dir_all _ s) as [r1 s1] eqn:E1. pose proof E1 as E1'.
  apply create_dirs_quiet in E1' as (Hq1 & Hkeep & Hdirs); [|done|done|simpl; lia].
  pose proof (quiet_ok _ _ Hq1 Hok) as Hok1.
  unfold io_create_dir_all in E1. rewrite syscall_free in E1 by done. injection E1 as <- <-.
  unfold fs_create_dir_all in *. rewrite bool_decide_false in * by done.
  destruct (mkdirs_free (ancestors [name (algo d); firstn 2 (hex_of d)] ++ [[name (algo d); firstn 2 (hex_of d)]])
    (files s)) as [Hr1 _].
  { intros p [Hp'|Hp']%elem_of_cons; [by subst p|]. apply list_elem_of_singleton in Hp' as ->. done. }
  rewrite Hr1 in *. destruct (Hdirs eq_refl) as [Hdir Hanc]. set (s1 := set_files _ s) in *.
  unfold io_rename. rewrite syscall_free by done. unfold fs_rename.
  pose proof Hok1 as (_ & _ & Hwf1 & _ & Hp1 & _).
  rewrite (resolve_present _ _ _ Hwf1 (Hkeep _ _ Hfile)).
  assert (blocked (blob_path d) (files s1) = None) as ->.
  { apply blocked_None. intros q (i & Hi & ->)%elem_of_ancestors. unfold blob_path in *.
    destruct i as [|[|[|]]]; simpl in Hi; try lia; [|done].
    apply (Hanc [name (algo d)]). apply elem_of_ancestors. exists 1%nat. split; [simpl; lia|done]. }
  destruct (files s1 !! blob_path d) as [n|] eqn:E; [destruct (Hp1 d n Hd E) as [c ->]|];
    cbn [fst snd]; eexists; (split; [reflexivity|done]).
Qed.

(** When no call fails and nothing foreign stands where the store makes its files, a
    [put] of a source that reads to its end returns the digest of all that was read, and a
    [get] of that digest then serves exactly those bytes. *)
Theorem disk_put_then_get src cs left_ s :
  disk_ok s -> fault_free s -> ready s (compute (concat cs)) ->
  read_loop src = (cs, Ok (), left_) ->
  exists s1 s2,
    disk_put src s = (Ok (compute (concat cs)), left_, s1) /\
    disk_get (compute (concat cs)) s1 = (Ok (cursor (concat cs)), s2).
Proof.
  intros Hok Hf Hready Hr. set (d := compute (concat cs)) in *.
  assert (Hd : digest_wf d) by apply compute_wf.
  destruct (write_tmp_free src (hasher_new DEFAULT) s d cs left_ Hok Hf Hready Hr) as (nm & s1 & Hw & Hf1 & Hfiles).
  rewrite feed_concat in Hw. fold (compute (concat cs)) in Hw. fold d in Hw.
  pose proof (write_tmp_spec _ _ _ _ _ _ Hok Hw) as (Hq1 & _ & _).
  pose proof (quiet_ok _ _ Hq1 Hok) as Hok1.
  assert (Hfile : files s1 !! [bs "tmp"; nm] = Some (File (concat cs))) by (rewrite Hfiles; apply lookup_insert_eq).
  destruct (commit_free nm d (concat cs) s1 Hok1 Hd Hf1) as (s2 & Hcommit & Hf2); [|done|].
  { unfold ready, dir_or_free in *. rewrite Hfiles. rewrite !lookup_insert_ne by (by destruct d as [[] ?]).
    destruct Hready as (H1 & H2 & H3 & H4). split_and!; [done| |done..].
    intros nm' n [[_ <-]|[_ E]]%lookup_insert_Some; [eauto|by eapply H2]. }
  assert (Hput : disk_put src s = (Ok d, left_, s2)) by (unfold disk_put; by rewrite Hw, Hcommit).
  pose proof (disk_put_spec _ _ _ _ _ Hok Hput) as (Hok2 & data & Hdata & _ & Hheld & _).
  rewrite (read_loop_to_end _ _ _ Hr) in Hdata. injection Hdata as <-.
  exists s2. eexists. split; [exact Hput|].
  assert (Hb : files s2 !! blob_path d = Some (File (concat cs))).
  { apply disk_held_lookup. change (held s2 !! d = Some (concat cs)). rewrite Hheld. apply lookup_insert_eq. }
  unfold disk_get, mbind, M_bind, attempt, io_read, look. rewrite syscall_free by done. cbn [fst snd].
  unfold fs_read. rewrite (resolve_present _ _ _ (proj1 (proj2 (proj2 Hok2))) Hb). cbn [mbind result_bind].
  by assert (verify d (concat cs) = true) as -> by apply verify_compute.
Qed.
End progress.

(** ** A run on a flaky disk *)

Module DiskExample.
Import Checksum.

Definition full : io_error := io_other (bs "No space left on device (os error 28)").

(** The call with number 11 writes one byte and runs out of room; so does a later rename. *)
Definition flaky (t : nat) (op : fs_op) : option (io_error * nat) :=
  match op with
  | OpWrite _ => if bool_decide (t = 11%nat) then Some (full, 1%nat) else None
  | OpRename _ _ => if bool_decide (t = 17%nat) then Some (full, 0%nat) else None
  | _ => None
  end.

Definition blank (f : nat -> fs_op -> option (io_error * nat)) : Disk := mkDisk ∅ f 0 7 0.

Definition no_len (_ : node) : Z := 0.

Lemma blank_ok f :
  honest (blank f) -> copies_stat (blank f) -> disk_ok (blank f).
Proof.
  intros H1 H2. split_and!; [done|done|..].
  - intros p n Hp. discriminate Hp.
  - split_and!; [intros a sh rest n d Hp|intros d n _ Hp|intros a nm b Hp]; discriminate Hp.
Qed.

Lemma flaky_ok : disk_ok (blank flaky).
Proof.
  apply blank_ok.
  - intros t op e k. destruct op; simpl; try done; case_bool_decide; try done; by intros [= <- _].
  - done.
Qed.

Definition abc : Digest := compute (bs "abc").

Definition day : list request :=
  [ReqOpen 7; ReqPut [RData (bs "ab"); RData (bs "c")]; ReqPut [RData (bs "xyz")];
   ReqPutKeyed abc [RData (bs "abc")]; ReqOpen 8; ReqGet abc; ReqQuarantine abc; ReqGet abc;
   ReqListQuarantine; ReqPutKeyed abc [RData (bs "other")]; ReqList].

Definition disk_full (what : list byte) : BackendError := io_err what full.

(** What the day was answered. *)
Example day_answers :
  (disk_answers no_len day (blank flaky)).1 =
    let copy := mkQuarantined (bs "blake3/" ++ slot_name abc 0) abc 3 in
    [Ok AnsOpen; Ok (AnsPut abc []); Err (disk_full (bs "write tmp file"));
     Err (disk_full (bs "commit")); Ok AnsOpen; Ok (AnsBytes (cursor (bs "abc")));
     Ok (AnsQuarantined (Some copy)); Err (BlobNotFound abc); Ok (AnsCopies [copy]);
     Err (InvalidArgument (bs "put_keyed: bytes do not hash to " ++ to_string abc)); Ok (AnsList [])].
Proof. vm_compute. reflexivity. Qed.

Lemma abc_wf : digest_wf abc.
Proof. apply compute_wf. Qed.

(** The refinement applies to the day. *)
Theorem disk_refines_blob_store_witness :
  disk_ok (blank flaky) /\ Forall request_wf day /\
  exists rs s', blob_store_run (contents_of (blank flaky)) day rs (contents_of s') /\ disk_ok s'.
Proof.
  assert (Hday : Forall request_wf day) by (repeat constructor; apply abc_wf).
  split; [exact flaky_ok|]. split; [exact Hday|].
  destruct (disk_answers no_len day (blank flaky)) as [rs s'] eqn:E. exists rs, s'.
  exact (disk_refines_blob_store no_len day (blank flaky) rs s' flaky_ok Hday E).
Defined.

(** After two quarantines of the same blob, the third still finds a slot. *)
Definition twice : Disk :=
  (disk_answers no_len
    [ReqOpen 7; ReqPut [RData (bs "abc")]; ReqQuarantine abc; ReqPut [RData (bs "abc")];
     ReqQuarantine abc; ReqPut [RData (bs "abc")]] (blank (fun _ _ => None))).2.

Lemma twice_ok : disk_ok twice.
Proof. apply (disk_answers_ok no_len); [by apply blank_ok|]. repeat constructor; apply abc_wf. Qed.

Theorem quarantine_finds_a_slot_witness :
  disk_ok twice /\ digest_wf abc /\
  exists r s', disk_quarantine no_len abc twice = (r, s') /\
    r <> Err (Internal (bs "u32 slots exhausted")).
Proof.
  split; [exact twice_ok|]. split; [exact abc_wf|].
  destruct (disk_quarantine no_len abc twice) as [r s'] eqn:E. exists r, s'. split; [reflexivity|].
  exact (quarantine_finds_a_slot no_len abc twice r s' twice_ok abc_wf E).
Defined.

(** An error of the look at a slot is taken for a free slot, and the copy there is lost. *)
Example stat_error_replaces_copy :
  let broken t op := match op with OpStat _ => if bool_decide (t = 27%nat) then Some (full, 0%nat) else None | _ => None end in
  let s := mkDisk (files twice) broken 26 7 9 in
  let '(r, s') := disk_quarantine no_len abc s in
  is_ok r = true /\ size (quarantined_at twice) = 2%nat /\ size (quarantined_at s') = 2%nat.
Proof. vm_compute. done. Qed.

(** A stat that fails after the rename: the request fails, and yet the blob has moved. *)
Example late_stat_error_moves_blob :
  let broken t op := match op with OpStat _ => if bool_decide (t = 31%nat) then Some (full, 0%nat) else None | _ => None end in
  let s := mkDisk (files twice) broken 26 7 9 in
  let '(r, s') := disk_quarantine no_len abc s in
  is_ok r = false /\ held s !! abc = Some (bs "abc") /\ held s' !! abc = None /\
  size (quarantined_at s') = 3%nat.
Proof. vm_compute. done. Qed.

(** A sound disk, opened. *)
Definition opened : Disk := (open (blank (fun _ _ => None))).2.

Lemma opened_ok : disk_ok opened.
Proof.
  destruct (open (blank (fun _ _ => None))) as [r s] eqn:E.
  unfold opened. rewrite E. by apply open_mends in E as [Hok _]; [|by apply blank_ok].
Qed.

(** Opening a blank disk makes what [put] needs, and [put] then works. *)
Theorem disk_put_then_get_witness :
  disk_ok opened /\ fault_free opened /\ ready opened abc /\
  read_loop [RData (bs "ab"); RData (bs "c")] = ([bs "ab"; bs "c"], Ok (), []) /\
  exists s1 s2,
    disk_put [RData (bs "ab"); RData (bs "c")] opened = (Ok abc, [], s1) /\
    disk_get abc s1 = (Ok (cursor (bs "abc")), s2).
Proof.
  assert (Hready : ready opened abc).
  { split_and!; [reflexivity| |by left|by left]. intros nm n Hn. exfalso. revert Hn.
    change (files opened) with (<[[bs "tmp"] := Dir]> (∅ : fs)).
    rewrite lookup_insert_ne by done. by rewrite lookup_empty. }
  split; [exact opened_ok|]. split; [done|]. split; [exact Hready|]. split; [reflexivity|].
  exact (disk_put_then_get [RData (bs "ab"); RData (bs "c")] [bs "ab"; bs "c"] [] opened
    opened_ok ltac:(done) Hready eq_refl).
Defined.

(** A sibling an older version left is put back where its blob belongs. *)
Definition sibling : path := [name (algo abc); firstn 2 (hex_of abc); drop 2 (hex_of abc) ++ bs ".reclaim0"].

Definition old_disk : Disk := mkDisk
  (<[sibling := File (bs "abc")]> (<[[name (algo abc); firstn 2 (hex_of abc)] := Dir]>
    (<[[name (algo abc)] := Dir]> ∅))) (fun _ _ => None) 0 9 0.

Example sibling_settled :
  let '(r, s) := open old_disk in
  r = Ok () /\ files s !! sibling = None /\ (disk_get abc s).1 = Ok (cursor (bs "abc")).
Proof. vm_compute. split_and!; reflexivity. Qed.
End DiskExample.
