(* ===== verification/StoreDisk.v ===== *)
(** The retention store over the on-disk blobs: the two components as a node puts them
    together, and why the capacity theorem of StoreInv.v asks that the blobs be intact when
    the store opens. *)

From Stdlib Require Import ZArith Lia.
From stdpp Require Import base option gmap list.
From S2P Require Import Prelude Text Digest Errors Cas Disk DiskLaws DiskRefine Store StoreInv.

Local Open Scope Z_scope.

(** A file whose contents are damaged: nothing else on the disk changes. *)
Definition damage (p : path) (b : list byte) (s : Disk) : Disk :=
  mkDisk (<[p := File b]> (files s)) (fails s) (calls s) (pid s) (tmp_counter s).

(** Damage to the contents of a file leaves a disk the store can rely on. *)
Lemma damage_ok {Hs : Hashers} p old b s :
  files s !! p = Some (File old) -> disk_ok s -> disk_ok (damage p b s).
Proof.
  intros Hp (Hh & Hc & Hwf & H1 & H2 & H3).
  assert (Hat : forall q n, <[p := File b]> (files s) !! q = Some n ->
    exists n', files s !! q = Some n' /\ (n = Dir -> n' = Dir) /\ (forall c, n = File c -> exists c', n' = File c')).
  { intros q n [[<- <-]|[_ Hq]]%lookup_insert_Some; [|by eauto].
    exists (File old). split_and!; [done|done|by eauto]. }
  split; [exact Hh|split; [exact Hc|split; [|split_and!]]]; simpl.
  - apply wf_insert; [done|by apply (Hwf p (File old))| |right; congruence].
    apply blocked_None. by apply (Hwf p (File old)).
  - intros a sh rest n d (n' & Hq & _)%Hat. by eapply H1.
  - intros d n Hd [[_ <-]|[_ Hq]]%lookup_insert_Some; [by exists b|by eapply H2].
  - intros a nm c (n' & Hq & _ & Hf)%Hat. destruct (Hf c eq_refl) as [c' ->]. by apply (H3 a nm c').
Qed.

Module StoreDiskExample.
Import Checksum DiskExample.

#[local] Instance fs_backend : CasBackend Disk := disk_backend no_len.
#[local] Instance fs_reclaimable : ReclaimableCas Disk := disk_reclaimable no_len.

(** A disk with one blob of three bytes, and the same disk after its file lost two of them. *)
Definition held_abc : Disk := (disk_answers no_len [ReqPut [RData (bs "abc")]] opened).2.
Definition truncated : Disk := damage (blob_path abc) (bs "a") held_abc.

Lemma truncated_ok : disk_ok truncated.
Proof.
  apply (damage_ok _ (bs "abc")); [vm_compute; reflexivity|].
  apply (disk_answers_ok no_len); [exact opened_ok|]. by repeat constructor.
Qed.

Definition me : PeerId := mkPeerId (bs "me").
Definition opening : result BackendError (CasStore Disk Swarm.MemRouter) :=
  new truncated (write_only 1) (Swarm.new me) (clock_at 0) me.

(** What the store retains, and what it has charged, when it opens and after the blob's
    whole bytes are put again: three bytes are stored under a capacity of one, and one is
    charged.  The truncated file is charged its own length; the re-put takes the path of a
    blob that is held, which no gate limits and which charges nothing. *)
Example reput_escapes_the_gate :
  match opening with
  | Ok s =>
      let s' := run_ops s [OpPutKeyed abc (cursor (bs "abc"))] in
      retained s = 1 /\ committed_bytes s = 1 /\ retained s' = 3 /\ committed_bytes s' = 1
  | Err _ => False
  end.
Proof. vm_compute. done. Qed.

(** So the capacity is not kept when a blob is damaged at opening. *)
Lemma damaged_blob_passes_the_capacity :
  disk_ok truncated /\
  exists s ops, opening = Ok s /\ Z.max 1 (retained s) < retained (run_ops s ops).
Proof.
  split; [exact truncated_ok|]. pose proof reput_escapes_the_gate as H.
  destruct opening as [s|e]; [|destruct H]. exists s, [OpPutKeyed abc (cursor (bs "abc"))].
  destruct H as (Hr & _ & Hr' & _). split; [done|]. rewrite Hr, Hr'. lia.
Qed.
End StoreDiskExample.
