(* ===== verification/Gate.v ===== *)
(** Concurrent write-only writers: the interleavings of
    crates/nessie-cas-store/src/store.rs's [put_keyed_write_only], [CapacityGate]
    and [account], one atomic action per step.

    Each writer is at one point of its call; a step is one writer's next access to
    the shared state: the decision under the state lock, the gate's [fetch_add],
    its load of [committed], its [fetch_sub], the backend publishing the blob, the
    charge under the state lock, and the gate's drop.  A digest that is not charged takes
    the gated path also when the backend holds it, because the look for it may fail and a
    failed look counts as absent.  [size_of] is the length of
    the content a digest names; a step whose [fetch_add] would pass [u64::MAX] is
    left out. *)

From Stdlib Require Import ZArith Lia.
From stdpp Require Import base list gmap sets.
From S2P Require Import Prelude Ordered Text Digest Errors Cas Store.

Local Open Scope Z_scope.

(** Where a writer of [d] is, and what its gate has reserved ([mine]). *)
Inductive phase :=
| Start (d : Digest)                                   (* about to decide *)
| Fast (d : Digest)                                    (* registered, ungated *)
| Streaming (d : Digest) (mine : Z)                    (* between two reads *)
| Probing (d : Digest) (mine n before : Z)             (* after [fetch_add] *)
| Refusing (d : Digest) (mine n : Z)                   (* over capacity *)
| Tripped (d : Digest) (mine : Z)                      (* the read failed *)
| Published (d : Digest) (mine : Z)                    (* the backend holds it *)
| Charged (d : Digest) (mine : Z)                      (* after [account] *)
| Failed (d : Digest) (mine : Z)                       (* any other error, a panic *)
| Done.

Record gstate := mkG {
  g_committed : Z;
  g_pending : Z;
  g_accounted : gmap Digest Z;
  g_stored : gset Digest;
  writers : list phase;
}.

Definition set_writer (i : nat) (ph : phase) (s : gstate) : gstate :=
  mkG (g_committed s) (g_pending s) (g_accounted s) (g_stored s) (<[i := ph]> (writers s)).
Definition add_pending (n : Z) (s : gstate) : gstate :=
  mkG (g_committed s) (g_pending s + n) (g_accounted s) (g_stored s) (writers s).
Definition publish (d : Digest) (s : gstate) : gstate :=
  mkG (g_committed s) (g_pending s) (g_accounted s) (g_stored s ∪ {[d]}) (writers s).

(** [CasStore::account] *)
Definition g_account (d : Digest) (size : Z) (s : gstate) : gstate :=
  if bool_decide (size = 0) then s
  else match g_accounted s !! d with
       | Some _ => s
       | None => mkG (g_committed s + size) (g_pending s) (<[d := size]> (g_accounted s))
                   (g_stored s) (writers s)
       end.

(** The gate's test, on what its two atomic accesses returned. *)
Definition over (cap committed before n : Z) : Prop :=
  cap < sat_add64 (sat_add64 committed before) n.

(** The reservation a gate returns when the call is over. *)
Definition closing (ph : phase) : option Z :=
  match ph with
  | Tripped _ mine | Charged _ mine | Failed _ mine => Some mine
  | _ => None
  end.

Section gate.
Context (cap : Z) (size_of : Digest -> Z).

Inductive gstep (s : gstate) : gstate -> Prop :=
| step_arrive d :
    gstep s (mkG (g_committed s) (g_pending s) (g_accounted s) (g_stored s) (writers s ++ [Start d]))
| step_fast i d :
    writers s !! i = Some (Start d) -> is_Some (g_accounted s !! d) \/ d ∈ g_stored s ->
    gstep s (set_writer i (Fast d) s)
| step_slow i d :
    writers s !! i = Some (Start d) -> g_accounted s !! d = None ->
    gstep s (set_writer i (Streaming d 0) s)
| step_fast_done i d :
    writers s !! i = Some (Fast d) -> gstep s (set_writer i Done s)
| step_reserve i d mine n :
    writers s !! i = Some (Streaming d mine) -> 0 <= n -> g_pending s + n <= u64_max ->
    gstep s (set_writer i (Probing d mine n (g_pending s)) (add_pending n s))
| step_admit i d mine n before :
    writers s !! i = Some (Probing d mine n before) -> ~ over cap (g_committed s) before n ->
    gstep s (set_writer i (Streaming d (mine + n)) s)
| step_refuse i d mine n before :
    writers s !! i = Some (Probing d mine n before) -> over cap (g_committed s) before n ->
    gstep s (set_writer i (Refusing d mine n) s)
| step_unreserve i d mine n :
    writers s !! i = Some (Refusing d mine n) ->
    gstep s (set_writer i (Tripped d mine) (add_pending (- n) s))
| step_fail i d mine :
    writers s !! i = Some (Streaming d mine) -> gstep s (set_writer i (Failed d mine) s)
| step_publish i d mine :
    writers s !! i = Some (Streaming d mine) ->
    mine = size_of d \/ mine = 0 /\ d ∈ g_stored s ->
    gstep s (set_writer i (Published d mine) (publish d s))
| step_account i d mine :
    writers s !! i = Some (Published d mine) ->
    gstep s (set_writer i (Charged d mine) (g_account d mine s))
| step_drop i ph mine :
    writers s !! i = Some ph -> closing ph = Some mine ->
    gstep s (set_writer i Done (add_pending (- mine) s)).

(** A store at rest: nothing pending, every stored blob charged at its size. *)
Definition at_rest (s : gstate) : Prop :=
  g_pending s = 0 /\ g_committed s = msum (g_accounted s) /\ writers s = [] /\
  (forall d, d ∈ g_stored s -> size_of d <= default 0 (g_accounted s !! d)) /\
  (forall d n, g_accounted s !! d = Some n -> n = size_of d).

Inductive reachable (s0 : gstate) : gstate -> Prop :=
| reach_refl : reachable s0 s0
| reach_step s s' : reachable s0 s -> gstep s s' -> reachable s0 s'.

(** Bytes the backend holds. *)
Definition stored_bytes (s : gstate) : Z := zsum (size_of <$> elements (g_stored s)).

(** ** Sums over the writers *)

(** A writer's bytes that are in nobody's books yet. *)
Definition unaccounted (ph : phase) : Z :=
  match ph with
  | Streaming _ m | Probing _ m _ _ | Refusing _ m _ | Tripped _ m | Published _ m
  | Failed _ m => m
  | _ => 0
  end.

(** What it has added to [pending]. *)
Definition reserved (ph : phase) : Z :=
  match ph with
  | Probing _ m n _ | Refusing _ m n => m + n
  | Streaming _ m | Tripped _ m | Published _ m | Charged _ m | Failed _ m => m
  | _ => 0
  end.

(** Its open probe, if any: the bytes asked for and the [pending] seen. *)
Definition probe (ph : phase) : option (Z * Z) :=
  match ph with Probing _ _ n before => Some (n, before) | _ => None end.

Definition phase_ok (ph : phase) : Prop :=
  match ph with
  | Streaming _ m | Tripped _ m | Failed _ m => 0 <= m
  | Published d m | Charged d m => 0 <= m /\ (m = size_of d \/ m = 0)
  | Probing _ m n _ | Refusing _ m n => 0 <= m /\ 0 <= n
  | _ => True
  end.

Definition total_of (f : phase -> Z) (ws : list phase) : Z := zsum (f <$> ws).

Lemma insert_split {A} (l : list A) i x y :
  l !! i = Some x -> exists l1 l2, l = l1 ++ x :: l2 /\ <[i := y]> l = l1 ++ y :: l2.
Proof.
  intros Hx. exists (take i l), (drop (S i) l). split.
  - symmetry. by apply take_drop_middle.
  - apply insert_take_drop. by eapply lookup_lt_Some.
Qed.

Lemma total_insert f ws i ph ph' :
  ws !! i = Some ph -> total_of f (<[i := ph']> ws) = total_of f ws - f ph + f ph'.
Proof.
  intros Hi. destruct (insert_split ws i ph ph' Hi) as (l1 & l2 & -> & ->).
  unfold total_of. rewrite !fmap_app, !zsum_app. csimpl. unfold zsum. simpl. lia.
Qed.

(** ** The order of the probes

    [ranked l committed v]: [l] lists the open probes in the order of their
    [fetch_add]s; each probe either saw every byte accounted or asked for ahead of
    it, or fits even if all of those are granted. *)
Fixpoint ranked (committed v : Z) (l : list (Z * Z)) : Prop :=
  match l with
  | [] => True
  | (n, before) :: l' =>
      (v <= committed + before \/ v + n <= cap) /\ ranked committed (v + n) l'
  end.

Lemma ranked_mono c c' v v' l : c <= c' -> v' <= v -> ranked c v l -> ranked c' v' l.
Proof.
  revert v v'. induction l as [|[n b] l IH]; intros v v' Hc Hv; simpl; [done|].
  intros [H1 H2]. split; [lia|]. apply (IH (v + n)); [done|lia|done].
Qed.

Lemma ranked_snoc c v l n b :
  ranked c v l -> v + zsum (fst <$> l) <= c + b -> ranked c v (l ++ [(n, b)]).
Proof.
  revert v. induction l as [|[m k] l IH]; intros v; csimpl; unfold zsum; simpl.
  - intros _ H. split; [left; lia|done].
  - intros [H1 H2] H. split; [done|]. apply IH; [done|]. unfold zsum. lia.
Qed.

Definition asks_nonneg (l : list (Z * Z)) : Prop := Forall (fun p => 0 <= p.1) l.

Lemma ranked_drop c v l1 n b l2 :
  0 <= n -> ranked c v (l1 ++ (n, b) :: l2) -> ranked c v (l1 ++ l2).
Proof.
  revert v. induction l1 as [|[m k] l1 IH]; intros v Hn; simpl.
  - intros [_ H]. eapply ranked_mono; [|..|exact H]; lia.
  - intros [H1 H2]. split; [done|]. by apply IH.
Qed.

(** A granted probe fits, whatever is still being probed ahead of it. *)
Lemma ranked_admit c v l1 n b l2 :
  asks_nonneg l1 -> 0 <= n -> c + b + n <= cap ->
  ranked c v (l1 ++ (n, b) :: l2) ->
  v + n + zsum (fst <$> l1) <= cap /\ ranked c (v + n) (l1 ++ l2).
Proof.
  intros Hl. revert v. induction Hl as [|[m k] l1 Hm Hl IH]; intros v Hn Hfit; csimpl.
  - unfold zsum. simpl. intros [H1 H2]. split; [lia|]. done.
  - intros [H1 H2]. destruct (IH (v + m) Hn Hfit H2) as [H3 H4].
    assert (Hs : 0 <= zsum (fst <$> l1)) by (apply zsum_nonneg; by apply Forall_fmap).
    simpl in Hm. unfold zsum in *. simpl in *. split; [lia|]. split; [lia|].
    by replace (v + n + m) with (v + m + n) by lia.
Qed.

(** ** The invariant *)

Context (Hcap : 0 <= cap < u64_max) (Hsize : forall d, 0 <= size_of d).

Definition in_books (s : gstate) : Z := g_committed s + total_of unaccounted (writers s).

(** What covers a stored blob: its charge, or writers that have yet to charge it. *)
Definition owed (d : Digest) (ph : phase) : Z :=
  match ph with Published d' m => if bool_decide (d' = d) then m else 0 | _ => 0 end.

Record ginv (bound : Z) (s : gstate) : Prop := {
  inv_phases : Forall phase_ok (writers s);
  inv_pending : g_pending s = total_of reserved (writers s);
  inv_committed : g_committed s = msum (g_accounted s);
  inv_charges : forall d n, g_accounted s !! d = Some n -> n = size_of d;
  inv_covered : forall d, d ∈ g_stored s ->
    size_of d <= default 0 (g_accounted s !! d) + total_of (owed d) (writers s);
  inv_bound : in_books s <= bound;
  inv_order : exists order, order ≡ₚ omap probe (writers s) /\
    ranked (g_committed s) (in_books s) order;
}.

Lemma ginv_init s : at_rest s -> ginv (Z.max cap (g_committed s)) s.
Proof.
  intros (Hp & Hc & Hw & Hcov & Hch). split; rewrite ?Hw; unfold in_books, total_of; rewrite ?Hw;
    csimpl; try done.
  - intros d Hd. specialize (Hcov d Hd). unfold zsum. simpl. lia.
  - unfold zsum. simpl. lia.
  - exists []. done.
Qed.

Lemma total_mono f g ws : (forall ph, ph ∈ ws -> f ph <= g ph) -> total_of f ws <= total_of g ws.
Proof.
  unfold total_of. induction ws as [|ph ws IH]; intros H; csimpl; [done|].
  pose proof (H ph ltac:(by left)). pose proof (IH ltac:(intros; apply H; by right)).
  unfold zsum in *. simpl. lia.
Qed.

Lemma omap_insert_perm ws i ph ph' :
  ws !! i = Some ph ->
  option_list (probe ph') ++ omap probe ws ≡ₚ option_list (probe ph) ++ omap probe (<[i:=ph']> ws).
Proof.
  intros Hi. destruct (insert_split ws i ph ph' Hi) as (l1 & l2 & -> & ->).
  rewrite !omap_app. csimpl.
  destruct (probe ph), (probe ph'); simpl; rewrite ?Permutation_middle; try done.
  apply Permutation_app_head, perm_swap.
Qed.

Lemma owed_nonneg d ws : Forall phase_ok ws -> 0 <= total_of (owed d) ws.
Proof.
  intros H. apply zsum_nonneg, Forall_fmap. eapply Forall_impl; [exact H|].
  intros ph Hph. destruct ph; simpl in *; try case_bool_decide; lia.
Qed.

Lemma covered_move s s' i ph ph' :
  (forall d, d ∈ g_stored s ->
    size_of d <= default 0 (g_accounted s !! d) + total_of (owed d) (writers s)) ->
  writers s !! i = Some ph -> writers s' = <[i := ph']> (writers s) ->
  g_stored s' = g_stored s -> g_accounted s' = g_accounted s ->
  (forall d, owed d ph <= owed d ph') ->
  forall d, d ∈ g_stored s' ->
    size_of d <= default 0 (g_accounted s' !! d) + total_of (owed d) (writers s').
Proof.
  intros Hcov Hi -> -> -> Howe d Hd. rewrite (total_insert _ _ _ _ _ Hi).
  specialize (Hcov d Hd). specialize (Howe d). lia.
Qed.

(** A step that opens and closes no probe and moves bytes between a writer and the
    books, never inventing any. *)
Lemma ginv_move bound s s' i ph ph' :
  ginv bound s -> writers s !! i = Some ph -> writers s' = <[i := ph']> (writers s) ->
  probe ph = None -> probe ph' = None -> phase_ok ph' ->
  g_pending s' = g_pending s - reserved ph + reserved ph' ->
  g_committed s' = msum (g_accounted s') ->
  (forall d n, g_accounted s' !! d = Some n -> n = size_of d) ->
  (forall d, d ∈ g_stored s' ->
    size_of d <= default 0 (g_accounted s' !! d) + total_of (owed d) (writers s')) ->
  g_committed s <= g_committed s' ->
  g_committed s' + unaccounted ph' <= g_committed s + unaccounted ph ->
  ginv bound s'.
Proof.
  intros [Hph Hp Hc Hch Hcov Hb (order & Ho & Hr)] Hi Hw Hn Hn' Hok Hp' Hc' Hch' Hcov' Hle Hv.
  assert (Hbooks : in_books s' <= in_books s).
  { unfold in_books. rewrite Hw, (total_insert _ _ _ _ _ Hi). lia. }
  split; try done.
  - rewrite Hw. by apply Forall_insert.
  - rewrite Hw, (total_insert _ _ _ _ _ Hi). lia.
  - lia.
  - exists order. split.
    + rewrite Ho, Hw. pose proof (omap_insert_perm (writers s) i ph ph' Hi) as Hperm.
      rewrite Hn, Hn' in Hperm. exact Hperm.
    + by eapply ranked_mono; [..|exact Hr].
Qed.

Lemma pending_bound s bound :
  ginv bound s -> forall order, order ≡ₚ omap probe (writers s) ->
  in_books s + zsum (fst <$> order) <= g_committed s + g_pending s.
Proof.
  intros [Hph Hp _ _ _ _ _] order Ho. rewrite Ho, Hp. unfold in_books.
  enough (total_of unaccounted (writers s) + zsum (fst <$> omap probe (writers s)) <=
    total_of reserved (writers s)) by lia.
  clear -Hph. unfold total_of, zsum. induction Hph as [|ph ws Hok _ IH]; csimpl; [lia|].
  destruct ph; csimpl; simpl in *; lia.
Qed.

Lemma asks_ok ws order : Forall phase_ok ws -> order ≡ₚ omap probe ws -> asks_nonneg order.
Proof.
  intros Hok Ho. unfold asks_nonneg. rewrite Ho. clear order Ho.
  induction Hok as [|ph ws Hph _ IH]; csimpl; [done|].
  destruct ph; simpl in *; try done. constructor; [simpl; lia|done].
Qed.

Lemma ginv_reserve bound s i d mine n :
  ginv bound s -> writers s !! i = Some (Streaming d mine) -> 0 <= n ->
  ginv bound (set_writer i (Probing d mine n (g_pending s)) (add_pending n s)).
Proof.
  intros Hinv Hi Hn. pose proof Hinv as [Hph Hp Hc Hch Hcov Hb (order & Ho & Hr)].
  pose proof (Forall_lookup_1 _ _ _ _ Hph Hi) as Hm. simpl in Hm.
  assert (Hbooks : in_books (set_writer i (Probing d mine n (g_pending s)) (add_pending n s)) =
    in_books s).
  { unfold in_books. simpl. rewrite (total_insert _ _ _ _ _ Hi). simpl. lia. }
  split; try done; simpl.
  - by apply Forall_insert.
  - rewrite (total_insert _ _ _ _ _ Hi). simpl. lia.
  - by apply (covered_move s (set_writer i (Probing d mine n (g_pending s)) (add_pending n s))
      i _ (Probing d mine n (g_pending s)) Hcov Hi).
  - by rewrite Hbooks.
  - exists (order ++ [(n, g_pending s)]). rewrite Hbooks. split.
    + pose proof (omap_insert_perm _ _ _ (Probing d mine n (g_pending s)) Hi) as Hperm.
      simpl in Hperm. rewrite <- Hperm, Ho. by rewrite Permutation_app_comm.
    + apply ranked_snoc; [done|]. by eapply pending_bound.
Qed.

(** Closing a probe, granted or refused. *)
Lemma ginv_probe_closed bound s i d mine n before ph' :
  ginv bound s -> writers s !! i = Some (Probing d mine n before) ->
  ph' = Refusing d mine n \/
  ph' = Streaming d (mine + n) /\ ~ over cap (g_committed s) before n ->
  cap <= bound ->
  ginv bound (set_writer i ph' s).
Proof.
  intros Hinv Hi Hph' Hbound. pose proof Hinv as [Hph Hp Hc Hch Hcov Hb (order & Ho & Hr)].
  pose proof (Forall_lookup_1 _ _ _ _ Hph Hi) as Hm. simpl in Hm.
  assert (Hn : probe ph' = None) by (by destruct Hph' as [->|[-> _]]).
  pose proof (omap_insert_perm _ _ _ ph' Hi) as Hperm. rewrite Hn in Hperm. simpl in Hperm.
  assert (Hin : (n, before) ∈ order) by (rewrite Ho, Hperm; by left).
  apply list_elem_of_split in Hin as (l1 & l2 & ->).
  assert (Ho' : l1 ++ l2 ≡ₚ omap probe (<[i:=ph']> (writers s))).
  { rewrite Hperm, <- Permutation_middle in Ho. by apply Permutation_cons_inv in Ho. }
  assert (Hasks : asks_nonneg l1).
  { pose proof (asks_ok _ _ Hph Ho) as Ha. by apply Forall_app in Ha as [? _]. }
  assert (Hbooks : in_books (set_writer i ph' s) = in_books s - mine + unaccounted ph').
  { unfold in_books. simpl. rewrite (total_insert _ _ _ _ _ Hi). simpl. lia. }
  assert (Hgoal : in_books (set_writer i ph' s) <= bound /\
    ranked (g_committed s) (in_books (set_writer i ph' s)) (l1 ++ l2)).
  { rewrite Hbooks. destruct Hph' as [->|[-> Hover]]; simpl.
    - replace (in_books s - mine + mine) with (in_books s) by lia.
      split; [done|]. eapply ranked_drop; [|exact Hr]. lia.
    - unfold over in Hover.
      assert (Hfit : g_committed s + before + n <= cap) by (unfold sat_add64, u64_max in *; lia).
      destruct (ranked_admit (g_committed s) (in_books s) l1 n before l2) as [H1 H2];
        [done|lia|done|done|].
      replace (in_books s - mine + (mine + n)) with (in_books s + n) by lia.
      split; [|done].
      assert (0 <= zsum (fst <$> l1)) by (apply zsum_nonneg; by apply Forall_fmap). lia. }
  assert (Hres : reserved ph' = mine + n) by (destruct Hph' as [->|[-> _]]; done).
  split; try done; simpl.
  - apply Forall_insert; [done|]. destruct Hph' as [->|[-> _]]; simpl; lia.
  - rewrite (total_insert _ _ _ _ _ Hi). simpl. lia.
  - apply (covered_move s (set_writer i ph' s) i _ ph' Hcov Hi); [done..|].
    intros d'. by destruct Hph' as [->|[-> _]].
  - apply Hgoal.
  - exists (l1 ++ l2). split; [done|apply Hgoal].
Qed.

Lemma ginv_account bound s i d mine :
  ginv bound s -> writers s !! i = Some (Published d mine) ->
  ginv bound (set_writer i (Charged d mine) (g_account d mine s)).
Proof.
  intros Hinv Hi. pose proof Hinv as [Hph Hp Hc Hch Hcov Hb _].
  pose proof (Forall_lookup_1 _ _ _ _ Hph Hi) as [Hm Hsz].
  assert (Hcov' : forall s1 d', writers s1 = <[i := Charged d mine]> (writers s) ->
      g_stored s1 = g_stored s -> d' ∈ g_stored s1 ->
      (forall k, k <> d -> g_accounted s1 !! k = g_accounted s !! k) ->
      (mine <> 0 -> g_accounted s1 !! d = Some (size_of d)) ->
      (mine = 0 -> g_accounted s1 = g_accounted s) ->
      size_of d' <= default 0 (g_accounted s1 !! d') + total_of (owed d') (writers s1)).
  { intros s1 d' -> -> Hd' Hother Hd Hz. pose proof (owed_nonneg d' _ Hph).
    rewrite (total_insert _ _ _ _ _ Hi). specialize (Hcov d' Hd'). cbn [owed].
    destruct (decide (mine = 0)) as [->|Hne].
    { rewrite (Hz eq_refl). case_bool_decide; lia. }
    case_bool_decide as Hdd.
    - subst d'. rewrite (Hd Hne). simpl.
      pose proof (owed_nonneg d (<[i:=Charged d mine]> (writers s))
        ltac:(apply Forall_insert; [done|simpl; auto])) as Hnn.
      rewrite (total_insert _ _ _ _ _ Hi) in Hnn. cbn [owed] in Hnn.
      rewrite bool_decide_true in Hnn by done. lia.
    - rewrite Hother by congruence. lia. }
  assert (Hsame : g_accounted s !! d = Some (size_of d) \/ mine = 0 ->
      ginv bound (set_writer i (Charged d mine) s)).
  { intros Hor. apply (ginv_move bound s _ i (Published d mine) (Charged d mine)); try done; simpl.
    - lia.
    - intros d' Hd'. apply (Hcov' (set_writer i (Charged d mine) s) d'); try done.
      intros Hne. destruct Hor; [done|lia].
    - lia. }
  unfold g_account. case_bool_decide as Hz; [apply Hsame; by right|].
  destruct (g_accounted s !! d) as [n|] eqn:E.
  - apply Hsame. left. by rewrite (Hch d n E).
  - assert (Hmine : mine = size_of d) by (by destruct Hsz).
    apply (ginv_move bound s _ i (Published d mine) (Charged d mine)); try done; simpl.
    + lia.
    + rewrite msum_insert by done. lia.
    + intros d' n [[<- <-]|[_ Hd']]%lookup_insert_Some; [done|by apply Hch].
    + intros d' Hd'.
      refine (Hcov' (mkG (g_committed s + mine) (g_pending s)
        (<[d:=mine]> (g_accounted s)) (g_stored s) (<[i:=Charged d mine]> (writers s))) d'
        eq_refl eq_refl Hd' _ _ _); simpl.
      * intros k Hk. by rewrite lookup_insert_ne.
      * intros _. by rewrite lookup_insert_eq, Hmine.
      * done.
    + lia.
    + lia.
Qed.

Lemma ginv_publish bound s i d mine :
  ginv bound s -> writers s !! i = Some (Streaming d mine) ->
  mine = size_of d \/ mine = 0 /\ d ∈ g_stored s ->
  ginv bound (set_writer i (Published d mine) (publish d s)).
Proof.
  intros Hinv Hi Hsz. pose proof Hinv as [Hph Hp Hc Hch Hcov Hb _].
  pose proof (Forall_lookup_1 _ _ _ _ Hph Hi) as Hm. simpl in Hm.
  apply (ginv_move bound s _ i (Streaming d mine) (Published d mine)); try done; simpl.
  - naive_solver.
  - lia.
  - intros d' Hd'. rewrite (total_insert _ _ _ _ _ Hi). cbn [owed].
    pose proof (owed_nonneg d' _ Hph) as Hnn.
    destruct (decide (d' ∈ g_stored s)) as [Hs|Hs].
    { specialize (Hcov d' Hs). case_bool_decide; lia. }
    apply elem_of_union in Hd' as [?|Hd'%elem_of_singleton]; [done|]. subst d'.
    rewrite bool_decide_true by done.
    destruct Hsz as [->|[_ ?]]; [|done].
    assert (0 <= default 0 (g_accounted s !! d)).
    { destruct (g_accounted s !! d) as [n|] eqn:E; simpl; [|lia].
      rewrite (Hch d n E). apply Hsize. }
    lia.
Qed.

(** A step that only moves a writer between phases with equal books. *)
Lemma ginv_relabel bound s i ph ph' :
  ginv bound s -> writers s !! i = Some ph -> probe ph = None -> probe ph' = None ->
  phase_ok ph' -> reserved ph' <= reserved ph -> unaccounted ph' <= unaccounted ph ->
  (forall d, owed d ph <= owed d ph') ->
  ginv bound (set_writer i ph' (add_pending (reserved ph' - reserved ph) s)).
Proof.
  intros Hinv Hi Hn Hn' Hok Hres Hun Howe. pose proof Hinv as [_ _ Hc Hch Hcov _ _].
  apply (ginv_move bound s _ i ph ph'); try done; simpl; try lia.
  apply (covered_move s (set_writer i ph' (add_pending (reserved ph' - reserved ph) s))
    i ph ph' Hcov Hi); done.
Qed.

Lemma add_pending_0 s : add_pending 0 s = s.
Proof. destruct s. unfold add_pending. simpl. f_equal. lia. Qed.

Lemma ginv_arrive bound s d :
  ginv bound s ->
  ginv bound (mkG (g_committed s) (g_pending s) (g_accounted s) (g_stored s) (writers s ++ [Start d])).
Proof.
  intros [Hph Hp Hc Hch Hcov Hb (order & Ho & Hr)].
  assert (Htot : forall f : phase -> Z, f (Start d) = 0 ->
      total_of f (writers s ++ [Start d]) = total_of f (writers s)).
  { intros f Hf. unfold total_of. rewrite fmap_app, zsum_app. csimpl. unfold zsum. simpl. lia. }
  assert (Hbooks : in_books (mkG (g_committed s) (g_pending s) (g_accounted s) (g_stored s)
      (writers s ++ [Start d])) = in_books s).
  { unfold in_books. simpl. by rewrite Htot. }
  split; simpl; rewrite ?Hbooks; try done.
  - apply Forall_app. split; [done|]. by repeat constructor.
  - by rewrite Htot.
  - intros d' Hd'. rewrite Htot by done. by apply Hcov.
  - exists order. split; [|done]. rewrite omap_app, Ho. simpl. by rewrite app_nil_r.
Qed.

Lemma ginv_step bound s s' : cap <= bound -> ginv bound s -> gstep s s' -> ginv bound s'.
Proof.
  intros Hbound Hinv Hstep. destruct Hstep as
    [d|i d Hi _|i d Hi _|i d Hi|i d mine n Hi Hn _|i d mine n before Hi Hover
    |i d mine n before Hi Hover|i d mine n Hi|i d mine Hi|i d mine Hi Hsz|i d mine Hi|i ph mine Hi Hcl].
  - by apply ginv_arrive.
  - by apply (ginv_relabel bound s i (Start d) (Fast d)) in Hinv; [rewrite add_pending_0 in Hinv|..].
  - by apply (ginv_relabel bound s i (Start d) (Streaming d 0)) in Hinv;
      [rewrite add_pending_0 in Hinv|..].
  - by apply (ginv_relabel bound s i (Fast d) Done) in Hinv; [rewrite add_pending_0 in Hinv|..].
  - by apply ginv_reserve.
  - eapply ginv_probe_closed; [done|exact Hi|by right|done].
  - eapply ginv_probe_closed; [done|exact Hi|by left|done].
  - pose proof (Forall_lookup_1 _ _ _ _ (inv_phases _ _ Hinv) Hi) as Hm. simpl in Hm.
    apply (ginv_relabel bound s i (Refusing d mine n) (Tripped d mine)) in Hinv;
      try done; simpl in *; try lia.
    by replace (mine - (mine + n)) with (- n) in Hinv by lia.
  - pose proof (Forall_lookup_1 _ _ _ _ (inv_phases _ _ Hinv) Hi) as Hm. simpl in Hm.
    apply (ginv_relabel bound s i (Streaming d mine) (Failed d mine)) in Hinv;
      try done; simpl in *; try lia.
    replace (mine - mine) with 0 in Hinv by lia. by rewrite add_pending_0 in Hinv.
  - by apply ginv_publish.
  - by apply ginv_account.
  - pose proof (Forall_lookup_1 _ _ _ _ (inv_phases _ _ Hinv) Hi) as Hm.
    assert (Hr : reserved ph = mine /\ 0 <= mine /\ probe ph = None /\
      (forall d, owed d ph = 0) /\ 0 <= unaccounted ph).
    { destruct ph; simpl in *; simplify_eq; split_and!; try done; lia. }
    destruct Hr as (Hr & Hm0 & Hp & Ho & Hu).
    apply (ginv_relabel bound s i ph Done) in Hinv; try done; simpl; try lia.
    + simpl in Hinv. by replace (0 - reserved ph) with (- mine) in Hinv by lia.
    + intros d. rewrite Ho. done.
Qed.

Lemma ginv_reachable s0 s : at_rest s0 -> reachable s0 s -> ginv (Z.max cap (g_committed s0)) s.
Proof.
  intros Hr. induction 1 as [|s s' _ IH Hs]; [by apply ginv_init|].
  eapply ginv_step; [|exact IH|exact Hs]. lia.
Qed.

Lemma sum_charges (acc : gmap Digest Z) ds :
  NoDup ds -> map_Forall (fun _ n => 0 <= n) acc ->
  zsum ((fun d => default 0 (acc !! d)) <$> ds) <= msum acc.
Proof.
  intros Hnd. revert acc. induction Hnd as [|d ds Hd Hnd IH]; intros acc Hacc; csimpl.
  - by apply msum_nonneg.
  - rewrite (msum_delete acc d).
    specialize (IH (delete d acc) (map_Forall_delete _ _ _ Hacc)).
    assert (E : (fun d' => default 0 (delete d acc !! d')) <$> ds =
      (fun d' => default 0 (acc !! d')) <$> ds).
    { apply list_fmap_ext. intros k x Hx. rewrite lookup_delete_ne; [done|].
      intros ->. apply Hd. by eapply list_elem_of_lookup_2. }
    rewrite E in IH. unfold zsum in *. simpl. lia.
Qed.

Lemma zsum_zero {A} (g : A -> Z) l : (forall x, x ∈ l -> g x = 0) -> zsum (g <$> l) = 0.
Proof.
  induction l as [|x l IH]; intros Hg; csimpl; [done|]. unfold zsum in *. simpl.
  rewrite Hg by (by left). rewrite IH by (intros; apply Hg; by right). done.
Qed.

Lemma sum_owed_one ph ds :
  NoDup ds -> phase_ok ph -> zsum ((fun d => owed d ph) <$> ds) <= unaccounted ph.
Proof.
  intros Hnd Hph.
  assert (Hor : (exists d m, ph = Published d m) \/ forall d, owed d ph = 0)
    by (destruct ph; eauto).
  destruct Hor as [(d & m & ->)|Hz].
  2:{ rewrite zsum_zero by auto. destruct ph; simpl in *; lia. }
  simpl in Hph |- *. destruct Hph as [Hm _].
  induction Hnd as [|d' ds Hd Hnd IH]; csimpl; [done|].
  case_bool_decide as Hdd; [|unfold zsum in *; simpl; lia]. subst d'.
  assert (Hz : zsum ((fun d0 => if bool_decide (d = d0) then m else 0) <$> ds) = 0).
  { apply zsum_zero. intros x Hx. rewrite bool_decide_false; [done|]. by intros ->. }
  unfold zsum in *. simpl. rewrite Hz. lia.
Qed.

Lemma sum_owed ws ds :
  NoDup ds -> Forall phase_ok ws ->
  zsum ((fun d => total_of (owed d) ws) <$> ds) <= total_of unaccounted ws.
Proof.
  intros Hnd Hok. induction Hok as [|ph ws Hph Hok IH].
  - unfold total_of. csimpl. induction ds as [|d ds IH]; csimpl; [done|].
    apply NoDup_cons in Hnd as [_ Hnd]. specialize (IH Hnd). unfold zsum in *. simpl in *. lia.
  - assert (Hsplit : forall l, zsum ((fun d => total_of (owed d) (ph :: ws)) <$> l) =
        zsum ((fun d => owed d ph) <$> l) + zsum ((fun d => total_of (owed d) ws) <$> l)).
    { induction l as [|d l IHl]; [done|]. rewrite !fmap_cons, !zsum_cons, IHl.
      change (total_of (owed d) (ph :: ws)) with (owed d ph + total_of (owed d) ws). lia. }
    pose proof (sum_owed_one ph ds Hnd Hph) as Hone.
    rewrite Hsplit. unfold total_of in *. csimpl. unfold zsum in *. simpl. lia.
Qed.

Lemma stored_in_books bound s : ginv bound s -> stored_bytes s <= in_books s.
Proof.
  intros [Hph _ Hc Hch Hcov _ _]. unfold stored_bytes, in_books. rewrite Hc.
  assert (Hacc : map_Forall (fun _ n => 0 <= n) (g_accounted s)).
  { intros d n Hd. rewrite (Hch d n Hd). apply Hsize. }
  pose proof (sum_charges (g_accounted s) (elements (g_stored s))
    (NoDup_elements _) Hacc) as H1.
  pose proof (sum_owed (writers s) (elements (g_stored s)) (NoDup_elements _) Hph) as H2.
  assert (Hin : forall d, d ∈ elements (g_stored s) -> d ∈ g_stored s) by set_solver.
  enough (zsum (size_of <$> elements (g_stored s)) <=
    zsum ((fun d => default 0 (g_accounted s !! d)) <$> elements (g_stored s)) +
    zsum ((fun d => total_of (owed d) (writers s)) <$> elements (g_stored s))) by lia.
  clear H1 H2. induction (elements (g_stored s)) as [|d l IH]; csimpl; [done|].
  pose proof (Hcov d (Hin d ltac:(by left))). specialize (IH ltac:(intros; apply Hin; by right)).
  unfold zsum in *. simpl. lia.
Qed.
End gate.

(** ** Properties *)


(** Nothing leaks.  When every writer has returned, whether it succeeded, was
    refused, or failed part way, no byte stays reserved, the committed total is the
    sum of the charges, and every stored blob is charged at its size exactly. *)
Theorem writers_return_everything (cap : Z) (size_of : Digest -> Z) (s0 s : gstate) :
  0 <= cap < u64_max -> (forall d, 0 <= size_of d) -> at_rest size_of s0 ->
  reachable cap size_of s0 s -> Forall (fun ph => ph = Done) (writers s) ->
  g_pending s = 0 /\ g_committed s = msum (g_accounted s) /\
  forall d, d ∈ g_stored s -> default 0 (g_accounted s !! d) = size_of d.
Proof.
  intros Hcap Hsize Hr Hreach Hdone.
  destruct (ginv_reachable cap size_of Hcap Hsize _ _ Hr Hreach) as [_ Hp Hc Hch Hcov _ _].
  assert (Hz : forall f : phase -> Z, f Done = 0 -> total_of f (writers s) = 0).
  { intros f Hf. unfold total_of. clear -Hdone Hf.
    induction Hdone as [|ph ws -> _ IH]; csimpl; [done|]. unfold zsum in *. simpl. lia. }
  split_and!; [by rewrite Hp, Hz|done|]. intros d Hd. specialize (Hcov d Hd).
  rewrite Hz in Hcov by done. specialize (Hsize d).
  destruct (g_accounted s !! d) as [n|] eqn:E; simpl in *; [by apply Hch|lia].
Qed.

(** ** Witnesses: two six-byte writers race for ten bytes *)

Module GateExample.
Definition da : Digest := mkDigest Blake3 [z2b 1].
Definition db : Digest := mkDigest Blake3 [z2b 2].
Definition start : gstate := mkG 0 0 ∅ ∅ [].
Definition six (_ : Digest) : Z := 6.

(** A is stored and charged at six bytes; B probed while A was still reserved, read
    [committed] after A's charge, and was refused. *)
Definition final : gstate := mkG 6 0 {[da := 6]} {[da]} [Done; Done].

Lemma start_at_rest : at_rest six start.
Proof. split_and!; try done. Defined.

Lemma race : reachable 10 six start final.
Proof.
  assert (H : reachable 10 six start start) by apply reach_refl.
  eapply (reach_step _ _ _ _) in H; [|apply (step_arrive _ _ _ da)].
  eapply (reach_step _ _ _ _) in H; [|apply (step_arrive _ _ _ db)].
  eapply (reach_step _ _ _ _) in H; [|apply (step_slow _ _ _ 0 da); [done|apply (bool_decide_unpack _); vm_compute; exact I]].
  eapply (reach_step _ _ _ _) in H; [|apply (step_slow _ _ _ 1 db); [done|apply (bool_decide_unpack _); vm_compute; exact I]].
  eapply (reach_step _ _ _ _) in H;
    [|apply (step_reserve _ _ _ 0 da 0 6); [done|lia|vm_compute; done]].
  eapply (reach_step _ _ _ _) in H;
    [|apply (step_reserve _ _ _ 1 db 0 6); [done|lia|vm_compute; done]].
  eapply (reach_step _ _ _ _) in H; [|apply (step_admit _ _ _ 0 da 0 6 0); [done|by vm_compute]].
  eapply (reach_step _ _ _ _) in H; [|apply (step_publish _ _ _ 0 da 6); [done|by left]].
  eapply (reach_step _ _ _ _) in H; [|apply (step_account _ _ _ 0 da 6); done].
  eapply (reach_step _ _ _ _) in H;
    [|apply (step_refuse _ _ _ 1 db 0 6 6); [done|by vm_compute]].
  eapply (reach_step _ _ _ _) in H; [|apply (step_unreserve _ _ _ 1 db 0 6); done].
  eapply (reach_step _ _ _ _) in H; [|apply (step_drop _ _ _ 0 (Charged da 6) 6); done].
  eapply (reach_step _ _ _ _) in H; [|apply (step_drop _ _ _ 1 (Tripped db 0) 0); done].
  exact H.
Defined.


Theorem writers_return_everything_witness :
  g_pending final = 0 /\ g_committed final = msum (g_accounted final) /\
  forall d, d ∈ g_stored final -> default 0 (g_accounted final !! d) = six d.
Proof.
  apply (writers_return_everything 10 six start final);
    [by vm_compute|done|exact start_at_rest|exact race|by repeat constructor].
Defined.
End GateExample.
