(* ===== verification/ActionCache.v ===== *)
(** The action cache: crates/nessie-backend-core/src/action_cache.rs and
    [MemActionCache] of crates/nessie-backend-mem/src/lib.rs.

    Result bodies live in a content-addressed backend (any, by its laws of Cas.v);
    what was attested for an action is an [AttestationSet].  The signature check is
    the [SignatureVerifier] the cache is built with. *)

From Stdlib Require Import ZArith Lia.
From stdpp Require Import base list gmap sets.
From S2P Require Import Prelude Ordered Text Digest Errors Cursor Canonical Attestation Cas.

Local Open Scope Z_scope.

(** [dyn SignatureVerifier] *)
Definition verifier : Type := SignerId -> list byte -> Signature -> bool.

(** [ActionCacheBackend]: a backend's action-cache tier. *)
Class ActionCacheBackend (S : Type) := {
  acb_get : Digest -> M BackendError S (option ActionResult.t);
  acb_attest : Digest -> SignedAttestation -> M BackendError S ();
  acb_threshold : S -> positive;
}.

Record MemActionCache (C : Type) := mkAC {
  ac_cas : C;
  entries : gmap Digest AttestationSet;
  threshold : positive;
}.
Arguments mkAC {C}. Arguments ac_cas {C}. Arguments entries {C}. Arguments threshold {C}.

Section ac.
Context {C : Type} {Hs : Hashers} {B : CasBackend C} {Rc : ReclaimableCas C} {V : CasModel C}.
Context (vfy : verifier).
Implicit Type s : MemActionCache C.

(** [new] and [shared] *)
Definition shared (cas : C) (k : positive) : MemActionCache C := mkAC cas ∅ k.

Definition on_cas {A} (op : M BackendError C A) : M BackendError (MemActionCache C) A := fun s =>
  let '(r, c) := op (ac_cas s) in (r, mkAC c (entries s) (threshold s)).

Definition ac_has (d : Digest) : M BackendError (MemActionCache C) bool := on_cas (cas_has d).
Definition ac_get (d : Digest) : M BackendError (MemActionCache C) source := on_cas (cas_get d).
Definition ac_size (d : Digest) : M BackendError (MemActionCache C) (option Z) :=
  on_cas (cas_size d).
Definition ac_ensure_replicated (d : Digest) : M BackendError (MemActionCache C) () :=
  on_cas (cas_ensure_replicated d).
Definition ac_put (src : source) s : result BackendError Digest * source * MemActionCache C :=
  let '(r, unread, c) := cas_put src (ac_cas s) in (r, unread, mkAC c (entries s) (threshold s)).
Definition ac_put_keyed (d : Digest) (src : source) s :
    result BackendError () * source * MemActionCache C :=
  let '(r, unread, c) := cas_put_keyed d src (ac_cas s) in
  (r, unread, mkAC c (entries s) (threshold s)).

Definition confirmation_threshold s : positive := threshold s.

(** The body of a confirmed result, read back from the backend and decoded. *)
Definition materialize (digest : Digest) :
    M BackendError (MemActionCache C) (option ActionResult.t) :=
  reader ← ac_get digest;
  bytes ← lift (map_err (fun e => Internal (bs "ac read body: " ++ ie_display e))
    (read_to_end reader).1);
  r ← lift (ActionResult.from_canonical_bytes bytes);
  mret (Some r).

Definition get_action_result (action : Digest) :
    M BackendError (MemActionCache C) (option ActionResult.t) := fun s =>
  match entries s !! action with
  | None => (Ok None, s)
  | Some set =>
      match resolve set (threshold s) with
      | Unconfirmed => (Ok None, s)
      | Conflicting _ => (Err (ActionResultConflict action), s)
      | Confirmed digest => materialize digest s
      end
  end.

Definition attest_action_result (action : Digest) (signed : SignedAttestation) :
    M BackendError (MemActionCache C) () := fun s =>
  let a := attestation signed in
  let message := statement_signing_bytes action (att_result a) in
  if vfy (signer a) message (signature signed) then
    let set := default att_new (entries s !! action) in
    (Ok (), mkAC (ac_cas s) (<[action := (insert set a).2]> (entries s)) (threshold s))
  else (Err (AttestationUnverified (signer a)), s).

(** The cache is a backend itself: the blobs are those of the store beneath. *)
#[global] Instance ac_backend : CasBackend (MemActionCache C) := {|
  cas_has := ac_has;
  cas_get := ac_get;
  cas_put := ac_put;
  cas_put_keyed := ac_put_keyed;
  cas_ensure_replicated := ac_ensure_replicated;
  cas_size := ac_size;
|}.

#[global] Instance ac_tier : ActionCacheBackend (MemActionCache C) := {|
  acb_get := get_action_result;
  acb_attest := attest_action_result;
  acb_threshold := confirmation_threshold;
|}.

(** ** Runs *)

Inductive ac_op :=
| AcAttest (action : Digest) (signed : SignedAttestation)
| AcGetResult (action : Digest)
| AcPut (src : source)
| AcPutKeyed (d : Digest) (src : source)
| AcGet (d : Digest).

Definition ac_run1 s (op : ac_op) : MemActionCache C :=
  match op with
  | AcAttest action signed => (attest_action_result action signed s).2
  | AcGetResult action => (get_action_result action s).2
  | AcPut src => (ac_put src s).2
  | AcPutKeyed d src => (ac_put_keyed d src s).2
  | AcGet d => (ac_get d s).2
  end.

Definition ac_run : MemActionCache C -> list ac_op -> MemActionCache C := foldl ac_run1.

(** The attestations for [action] that a run delivered with a valid signature. *)
Definition verified (action : Digest) (ops : list ac_op) : gset Attestation :=
  list_to_set (omap (fun op =>
    match op with
    | AcAttest action' signed =>
        let a := attestation signed in
        if bool_decide (action' = action) &&
           vfy (signer a) (statement_signing_bytes action' (att_result a)) (signature signed)
        then Some a else None
    | _ => None
    end) ops).

Definition attested s (action : Digest) : gset Attestation :=
  from_option atts ∅ (entries s !! action).

Lemma on_cas_entries {A} (op : M BackendError C A) s :
  entries (on_cas op s).2 = entries s /\ threshold (on_cas op s).2 = threshold s.
Proof. unfold on_cas. by destruct (op (ac_cas s)). Qed.

Lemma get_action_result_entries action s :
  entries (get_action_result action s).2 = entries s /\
  threshold (get_action_result action s).2 = threshold s.
Proof.
  unfold get_action_result. destruct (entries s !! action) as [set|]; [|done].
  destruct (resolve set (threshold s)) as [|d|ds]; [done| |done].
  unfold materialize, mbind, M_bind, ac_get, lift.
  pose proof (on_cas_entries (cas_get d) s) as Hon.
  destruct (on_cas (cas_get d) s) as [[reader|e] s1]; [|done].
  destruct (map_err _ _); [|done]. by destruct (ActionResult.from_canonical_bytes _).
Qed.

Lemma ac_run1_attested s op action :
  attested (ac_run1 s op) action = attested s action ∪ verified action [op] /\
  threshold (ac_run1 s op) = threshold s.
Proof.
  unfold attested, verified. destruct op as [action' signed|action'|src|d src|d]; simpl.
  - unfold attest_action_result.
    destruct (vfy _ _ _) eqn:Ev; simpl; [|rewrite andb_false_r; split; [set_solver|done]].
    split; [|done]. case_bool_decide as Ha; simpl.
    + subst. rewrite lookup_insert_eq. simpl. destruct (entries s !! action); simpl; set_solver.
    + rewrite lookup_insert_ne by done. set_solver.
  - destruct (get_action_result_entries action' s) as [-> ->]. split; [set_solver|done].
  - unfold ac_put. destruct (cas_put _ _) as [[? ?] ?]. simpl. split; [set_solver|done].
  - unfold ac_put_keyed. destruct (cas_put_keyed _ _ _) as [[? ?] ?]. simpl. split; [set_solver|done].
  - unfold ac_get. destruct (on_cas_entries (cas_get d) s) as [-> ->]. split; [set_solver|done].
Qed.

Lemma verified_app action ops1 ops2 :
  verified action (ops1 ++ ops2) = verified action ops1 ∪ verified action ops2.
Proof. unfold verified. by rewrite omap_app, list_to_set_app_L. Qed.

Lemma ac_run_attested ops s action :
  attested (ac_run s ops) action = attested s action ∪ verified action ops /\
  threshold (ac_run s ops) = threshold s.
Proof.
  revert s. induction ops as [|op ops IH]; intros s; simpl.
  - split; [|done]. unfold verified. simpl. set_solver.
  - destruct (IH (ac_run1 s op)) as [H1 H2].
    destruct (ac_run1_attested s op action) as [H3 H4].
    unfold ac_run in *. rewrite H1, H2, H3, H4. split; [|done].
    change (op :: ops) with ([op] ++ ops). rewrite verified_app. set_solver.
Qed.

Lemma attested_resolve s action k :
  match entries s !! action with
  | None => Unconfirmed
  | Some set => resolve set k
  end = resolve (mkAttSet (attested s action)) k.
Proof.
  unfold attested. destruct (entries s !! action) as [[a]|]; simpl; [done|].
  symmetry. apply resolve_empty.
Qed.

Context {L : CasLaws C}.

(** A materialized body is the one its digest names. *)
Lemma materialize_Ok d s r s' :
  cas_valid (ac_cas s) ->
  (forall x data, held (ac_cas s) !! x = Some data -> zlen data <= isize_max) ->
  materialize d s = (Ok r, s') ->
  exists ar, r = Some ar /\ verify d (ActionResult.to_canonical_bytes ar) = true /\
    held (ac_cas s) !! d = Some (ActionResult.to_canonical_bytes ar).
Proof.
  intros Hv Hfit E. unfold materialize in E.
  apply M_bind_inv in E as (reader & s1 & Hg & E). unfold ac_get, on_cas in Hg.
  destruct (law_get d (ac_cas s) Hv) as [Hspec _]. unfold get_spec in Hspec.
  destruct (cas_get d (ac_cas s)) as [rr c] eqn:Ec. injection Hg as -> <-.
  destruct Hspec as [_ (data & Hd & Hver & Hread)].
  apply M_bind_inv in E as (bytes & s2 & Hb & E). rewrite Hread in Hb.
  unfold lift in Hb. injection Hb as <- <-.
  apply M_bind_inv in E as (ar & s3 & Ha & E). unfold lift in Ha. injection Ha as Ha <-.
  injection E as <- <-. exists ar. split; [done|].
  apply ActionResult.ar_from_canonical_Ok in Ha as [_ Heq]; [|by eapply Hfit].
  rewrite Heq. done.
Qed.
End ac.

(** ** Properties *)

Section props.
Context {C : Type} {Hs : Hashers} {B : CasBackend C} {Rc : ReclaimableCas C} {V : CasModel C}
  {L : CasLaws C}.

(** Only verified attestations ever count.  After any sequence of operations on
    a fresh cache, what is held for an action is exactly what was delivered for it
    with a signature over that action and result that the verifier accepts; a
    rejected delivery reports its signer and changes nothing. *)
Theorem only_verified_count (vfy : verifier) (cas : C) (k : positive) (ops : list ac_op)
    (action : Digest) (signed : SignedAttestation) :
  let s := ac_run vfy (shared cas k) ops in
  attested s action = verified vfy action ops /\ threshold s = k /\
  (vfy (signer (attestation signed))
     (statement_signing_bytes action (att_result (attestation signed))) (signature signed) = false ->
   attest_action_result vfy action signed s =
     (Err (AttestationUnverified (signer (attestation signed))), s)).
Proof.
  simpl. destruct (ac_run_attested vfy ops (shared cas k) action) as [H1 H2].
  rewrite H1, H2. split_and!; [|done|].
  - unfold attested. simpl. rewrite lookup_empty. simpl. set_solver.
  - intros Hf. unfold attest_action_result. by rewrite Hf.
Qed.

(** C5. No wrong cache hit.  If fewer than [k] signers are Byzantine and every other
    signer only ever signs the action's deterministic result, then whatever was
    delivered, in whatever order, a hit returns a body that hashes to that result,
    and the attestations never conflict. *)
Theorem no_wrong_hit (vfy : verifier) (cas : C) (k : positive) (ops : list ac_op)
    (action honest : Digest) (byz : gset SignerId) :
  (size byz < Pos.to_nat k)%nat ->
  (forall a, a ∈ verified vfy action ops -> signer a ∉ byz -> att_result a = honest) ->
  let s := ac_run vfy (shared cas k) ops in
  cas_valid (ac_cas s) ->
  (forall x data, held (ac_cas s) !! x = Some data -> zlen data <= isize_max) ->
  (forall ar s', get_action_result action s = (Ok (Some ar), s') ->
    verify honest (ActionResult.to_canonical_bytes ar) = true) /\
  forall ds, resolve (mkAttSet (attested s action)) k <> Conflicting ds.
Proof.
  intros Hb Hh s Hv Hfit.
  destruct (ac_run_attested vfy ops (shared cas k) action) as [H1 H2].
  assert (Hatt : attested s action = verified vfy action ops).
  { unfold s. rewrite H1. unfold attested. simpl. rewrite lookup_empty. simpl. set_solver. }
  assert (Hres : resolve (mkAttSet (attested s action)) k = Confirmed honest \/
      resolve (mkAttSet (attested s action)) k = Unconfirmed).
  { apply (resolve_honest _ _ byz); [done|]. simpl. rewrite Hatt. done. }
  split; [|intros ds; destruct Hres as [-> | ->]; done].
  intros ar s' Hget. unfold get_action_result in Hget. change (threshold s) with (threshold s) in Hget.
  pose proof (attested_resolve s action (threshold s)) as Hr.
  fold s in H2. rewrite H2 in Hget, Hr. simpl in Hget, Hr.
  destruct (entries s !! action) as [set|]; [|done]. rewrite Hr in Hget.
  destruct Hres as [Hc|Hc]; rewrite Hc in Hget; [|done].
  apply materialize_Ok in Hget as (ar' & [= <-] & Hver & _); done.
Qed.
End props.

Section mem.
Context {Hs : Hashers} {Hl : HasherLaws Hs}.

Definition attest_all (action : Digest) (sigs : list SignedAttestation) : list ac_op :=
  AcAttest action <$> sigs.

Lemma attest_all_cas vfy action sigs (s : MemActionCache Mem.MemCas) :
  ac_cas (ac_run vfy s (attest_all action sigs)) = ac_cas s.
Proof.
  revert s. induction sigs as [|sg sigs IH]; intros s; [done|]. simpl.
  unfold ac_run, attest_all in *. rewrite IH. unfold attest_action_result.
  by destruct (vfy _ _ _).
Qed.

Lemma verified_attest_all vfy action sigs :
  Forall (fun sg => vfy (signer (attestation sg))
    (statement_signing_bytes action (att_result (attestation sg))) (signature sg) = true) sigs ->
  verified vfy action (attest_all action sigs) = list_to_set (attestation <$> sigs).
Proof.
  unfold verified, attest_all. induction 1 as [|sg sigs Hsg Hall IH]; [done|]. csimpl.
  rewrite bool_decide_true by done. rewrite Hsg. simpl. by rewrite IH.
Qed.

(** A fresh cache after publishing a body and delivering valid attestations of it. *)
Lemma attested_state vfy k action ar sigs :
  let d := ActionResult.result_digest ar in
  Forall (fun sg => att_result (attestation sg) = d /\
    vfy (signer (attestation sg))
      (statement_signing_bytes action (att_result (attestation sg))) (signature sg) = true) sigs ->
  let s := ac_run vfy (shared Mem.new k)
    (AcPut (cursor (ActionResult.to_canonical_bytes ar)) :: attest_all action sigs) in
  ac_cas s = Mem.mkMemCas {[d := ActionResult.to_canonical_bytes ar]} /\ threshold s = k /\
  attested s action = list_to_set (attestation <$> sigs).
Proof.
  intros d Hsigs s.
  set (s0 := ac_run1 vfy (shared Mem.new k) (AcPut (cursor (ActionResult.to_canonical_bytes ar)))).
  assert (Hs0 : s0 = mkAC (Mem.mkMemCas {[d := ActionResult.to_canonical_bytes ar]}) ∅ k).
  { unfold s0, ac_run1, ac_put. cbn [cas_put Mem.mem_backend ac_cas shared]. unfold Mem.put.
    by rewrite read_to_end_cursor. }
  assert (Es : s = ac_run vfy s0 (attest_all action sigs)) by done.
  destruct (ac_run_attested vfy (attest_all action sigs) s0 action) as [Hatt Hthr].
  rewrite <- Es, Hs0 in Hatt, Hthr. split_and!; [by rewrite Es, attest_all_cas, Hs0|done|].
  rewrite Hatt, verified_attest_all
    by (eapply Forall_impl; [exact Hsigs|by intros sg [_ ?]]).
  unfold attested. simpl. rewrite lookup_empty. simpl. set_solver.
Qed.

Lemma signers_of_all d (sigs : list SignedAttestation) :
  Forall (fun sg => att_result (attestation sg) = d) sigs ->
  signers_for (mkAttSet (list_to_set (attestation <$> sigs))) d =
  list_to_set (signer ∘ attestation <$> sigs).
Proof.
  intros Hall. rewrite Forall_forall in Hall. apply set_eq. intros x.
  rewrite elem_of_signers. simpl. rewrite !elem_of_list_to_set, !list_elem_of_fmap. split.
  - intros (sg & E & Hin). exists sg. split; [|done]. simpl. by rewrite <- E.
  - intros (sg & -> & Hin). exists sg. split; [|done]. specialize (Hall sg Hin).
    simpl. by destruct (attestation sg); simpl in *; subst.
Qed.

(** A result is served exactly when enough signers back it.  Publish a result's
    body and deliver valid attestations of it: with [k] distinct signers among them
    the cache answers with that very result, with fewer it answers a miss. *)
Theorem attested_result_is_served (vfy : verifier) (k : positive) (action : Digest)
    (ar : ActionResult.t) (sigs : list SignedAttestation) :
  ActionResult.wf ar -> ActionResult.fits ar ->
  Forall (fun sg => att_result (attestation sg) = ActionResult.result_digest ar /\
    vfy (signer (attestation sg))
      (statement_signing_bytes action (att_result (attestation sg))) (signature sg) = true) sigs ->
  let s := ac_run vfy (shared Mem.new k)
    (AcPut (cursor (ActionResult.to_canonical_bytes ar)) :: attest_all action sigs) in
  (get_action_result action s).1 =
  if bool_decide (Pos.to_nat k <=
      size (list_to_set (signer ∘ attestation <$> sigs) : gset SignerId))%nat
  then Ok (Some ar) else Ok None.
Proof.
  intros Hwf Hfit Hsigs s.
  destruct (attested_state vfy k action ar sigs Hsigs) as (Hcas & Hthr & Hatt). fold s in Hcas, Hthr, Hatt.
  pose proof (attested_resolve s action k) as Hr. rewrite Hatt in Hr.
  assert (Hres : Forall (fun sg => att_result (attestation sg) = ActionResult.result_digest ar) sigs)
    by (eapply Forall_impl; [exact Hsigs|by intros sg [? _]]).
  rewrite (resolve_unanimous _ _ (ActionResult.result_digest ar)) in Hr.
  2:{ intros a. simpl. rewrite elem_of_list_to_set, list_elem_of_fmap. intros (sg & -> & Hin).
      rewrite Forall_forall in Hres. auto. }
  unfold is_confirmed in Hr. rewrite signers_of_all in Hr by done.
  unfold get_action_result. rewrite Hthr.
  case_bool_decide as Hk; (destruct (entries s !! action) as [set|]; [rewrite Hr|done]); [|done].
  unfold materialize, mbind, M_bind, ac_get, on_cas. rewrite Hcas.
  cbn [cas_get Mem.mem_backend]. unfold Mem.get. simpl. rewrite lookup_singleton_eq.
  cbn [ok_or fmap result_fmap]. rewrite read_to_end_cursor. unfold lift. cbn [fst map_err].
  by rewrite ActionResult.ar_from_to_canonical.
Qed.
End mem.

(** ** Witnesses *)

Module ActionCacheExample.
Import Checksum.

(** A toy scheme: the signature is the signer's bytes. *)
Definition vfy : verifier := fun s _ sg => bool_decide (signer_bytes s = signature_bytes sg).

Definition action : Digest := compute (bs "cc -c a.c").
Definition result : ActionResult.t := ex_result.
Definition signed (n : Z) (r : Digest) : SignedAttestation :=
  mkSigned (mkAttestation (ex_signer n) r) (mkSignature (signer_bytes (ex_signer n))).
Definition forged (n : Z) (r : Digest) : SignedAttestation :=
  mkSigned (mkAttestation (ex_signer n) r) (mkSignature (bs "?")).

Definition good : Digest := ActionResult.result_digest result.
Definition bad : Digest := compute (bs "bad").

Definition ops : list ac_op :=
  [AcPut (cursor (ActionResult.to_canonical_bytes result));
   AcAttest action (signed 1 good); AcAttest action (signed 3 bad);
   AcAttest action (forged 2 bad); AcAttest action (signed 2 good)].

Theorem only_verified_count_witness :
  attested (ac_run vfy (shared Mem.new 2) ops) action = verified vfy action ops.
Proof.
  exact (proj1 (only_verified_count vfy Mem.new 2 ops action (forged 2 bad))).
Defined.

Theorem no_wrong_hit_witness : verify good (ActionResult.to_canonical_bytes result) = true.
Proof.
  refine (proj1 (no_wrong_hit vfy Mem.new 2 ops action good {[ex_signer 3]} _ _ _ _) result
    (get_action_result action (ac_run vfy (shared Mem.new 2) ops)).2 _).
  - rewrite size_singleton. lia.
  - change (set_Forall (fun a => signer a ∉ ({[ex_signer 3]} : gset SignerId) ->
      att_result a = good) (verified vfy action ops)).
    apply (bool_decide_unpack _). vm_compute. exact I.
  - change (map_Forall (fun d b => verify d b = true)
      (Mem.blobs (ac_cas (ac_run vfy (shared Mem.new 2) ops)))).
    apply (bool_decide_unpack _). vm_compute. exact I.
  - change (map_Forall (fun d b => zlen b <= isize_max)
      (Mem.blobs (ac_cas (ac_run vfy (shared Mem.new 2) ops)))).
    apply (bool_decide_unpack _). vm_compute. exact I.
  - apply pair_of_fst. vm_compute. reflexivity.
Defined.

Theorem attested_result_is_served_witness :
  (get_action_result action (ac_run vfy (shared Mem.new 2)
    (AcPut (cursor (ActionResult.to_canonical_bytes result)) ::
     attest_all action [signed 1 good; signed 1 good; signed 2 good]))).1 = Ok (Some result).
Proof.
  refine (eq_trans (attested_result_is_served vfy 2 action result
    [signed 1 good; signed 1 good; signed 2 good] _ _ _) _).
  - apply (bool_decide_unpack _). vm_compute. exact I.
  - vm_compute. congruence.
  - apply (bool_decide_unpack _). vm_compute. exact I.
  - vm_compute. reflexivity.
Defined.
End ActionCacheExample.
