(* ===== verification/Peers.v ===== *)
(** Static peers (crates/nessie-cas-peer/src): the peer list and the HTTP verbs spoken to a
    peer, the router, the durability oracle and the replicator over it, and the store that
    fetches what it misses from peers.

    The HTTP client (reqwest) is the class [Http]: a request goes to a URL, and an answer
    may come back.  Nothing is assumed of who answers. *)

From Stdlib Require Import ZArith Lia.
From stdpp Require Import base option gmap sets list.
From S2P Require Import Prelude Text Digest Errors Cas Evict.

Local Open Scope Z_scope.

Abbreviation text := (list byte).

(** ** HTTP *)

Inductive verb := HEAD | GET | PUT.

(** A response: its status, its headers as [to_str] reads them, its body. *)
Record HttpResponse := mkHttp { http_status : Z; http_header : text -> option text; http_body : source }.

Definition is_success (r : HttpResponse) : bool := bool_decide (200 <= http_status r < 300).

(** The network's state and a request's outcome; a [PUT] carries a body and its declared
    length. *)
Class Http (N : Type) := {
  http_send : verb -> text -> option (source * option Z) -> N -> option HttpResponse * N;
}.

(** ** The peer list (peers.rs) *)

Record Peer := mkPeer { peer_url : text; peer_durable : bool }.

#[export] Instance Peer_eq_dec : EqDecision Peer.
Proof. solve_decision. Defined.

Definition base_url (p : Peer) : text := trim_slashes (peer_url p).

Definition blob_url (p : Peer) (d : Digest) : text := base_url p ++ bs "/cas/v1/blobs/" ++ to_string d.

(** [PeerSet::with_tls]: a URL listed again is dropped. *)
Fixpoint distinct_peers (seen : list text) (peers : list Peer) : list Peer :=
  match peers with
  | [] => []
  | p :: peers =>
      if bool_decide (base_url p ∈ seen) then distinct_peers seen peers
      else p :: distinct_peers (base_url p :: seen) peers
  end.

Definition peer_set (peers : list Peer) : list Peer := distinct_peers [] peers.

Record Head := mkHead { head_size : option Z; head_mode : option text }.

Section peers.
Context {N : Type} {HN : Http N}.
Implicit Types (n : N) (p : Peer) (d : Digest).

Definition peer_head p d n : option Head * N :=
  let '(r, n) := http_send HEAD (blob_url p d) None n in
  (r ← r;
   if is_success r then
     Some (mkHead (http_header r (bs "content-length") ≫= parse_u64)
       (http_header r (bs "x-nessie-mode")))
   else None, n).

Definition peer_has p d n : bool * N :=
  let '(h, n) := peer_head p d n in (bool_decide (is_Some h), n).

Definition peer_size p d n : option Z * N :=
  let '(h, n) := peer_head p d n in (h ≫= head_size, n).

Definition holds_durably p d n : bool * N :=
  let '(h, n) := peer_head p d n in
  (match h with Some h => bool_decide (head_mode h = Some (bs "write_only")) | None => false end, n).

Definition peer_get p d n : option source * N :=
  let '(r, n) := http_send GET (blob_url p d) None n in
  (r ← r; if is_success r then Some (http_body r) else None, n).

Definition peer_put p d (body : source) (len : option Z) n : bool * N :=
  let '(r, n) := http_send PUT (blob_url p d) (Some (body, len)) n in
  (match r with Some r => is_success r | None => false end, n).

(** ** The router (router.rs) *)

Record StaticRouter := mkRouter { sr_peers : list Peer; sr_net : N }.

Fixpoint holders (l : list Peer) d n : list PeerId * N :=
  match l with
  | [] => ([], n)
  | p :: l =>
      let '(has, n) := peer_has p d n in
      let '(rest, n) := holders l d n in
      (if has then mkPeerId (peer_url p) :: rest else rest, n)
  end.

#[global] Instance static_router : ContentRouter StaticRouter := {|
  providers d t := let '(l, n) := holders (sr_peers t) d (sr_net t) in (Ok l, mkRouter (sr_peers t) n);
  announce _ := mret ();
  withdraw _ := mret ();
|}.

(** ** The durability oracle (durable.rs) *)

(** [iter().filter(durable).any(holds_durably)]: the first that does ends it. *)
Fixpoint durably_held (l : list Peer) d n : bool * N :=
  match l with
  | [] => (false, n)
  | p :: l =>
      if peer_durable p then
        let '(b, n) := holds_durably p d n in
        if b then (true, n) else durably_held l d n
      else durably_held l d n
  end.

(** ** The store with fetch-through (swarm.rs) *)

Context {C : Type} {Hs : Hashers} {B : CasBackend C} {R : ReclaimableCas C}.

Record SwarmCas := mkSwarm {
  sw_inner : C; sw_net : N; sw_peers : list Peer; sw_cache_fills : bool;
}.

Definition swarm_new (inner : C) (net : N) (peers : list Peer) : SwarmCas := mkSwarm inner net peers true.
Definition with_cache_fills (b : bool) (s : SwarmCas) : SwarmCas :=
  mkSwarm (sw_inner s) (sw_net s) (sw_peers s) b.

Definition set_sw_inner (c : C) (s : SwarmCas) : SwarmCas :=
  mkSwarm c (sw_net s) (sw_peers s) (sw_cache_fills s).
Definition set_sw_net (n : N) (s : SwarmCas) : SwarmCas :=
  mkSwarm (sw_inner s) n (sw_peers s) (sw_cache_fills s).

(** An operation of the local store alone. *)
Definition local {A : Type} (op : M BackendError C A) : M BackendError SwarmCas A := fun s =>
  let '(r, c) := op (sw_inner s) in (r, set_sw_inner c s).

(** [fetch]: the first peer whose body lands in the local store. *)
Fixpoint fetch_from (l : list Peer) d (s : SwarmCas) : result BackendError () * SwarmCas :=
  match l with
  | [] => (Err (BlobNotFound d), s)
  | p :: l =>
      let '(body, n) := peer_get p d (sw_net s) in
      let s := set_sw_net n s in
      match body with
      | None => fetch_from l d s
      | Some body =>
          let '(r, _, c) := cas_put_keyed d body (sw_inner s) in
          let s := set_sw_inner c s in
          match r with Ok () => (Ok (), s) | Err _ => fetch_from l d s end
      end
  end.

Definition fetch d : M BackendError SwarmCas () := fun s => fetch_from (sw_peers s) d s.

(** [fetch_uncached]: the first peer whose body verifies, from memory. *)
Fixpoint fetch_uncached_from (l : list Peer) d (s : SwarmCas) : result BackendError source * SwarmCas :=
  match l with
  | [] => (Err (BlobNotFound d), s)
  | p :: l =>
      let '(body, n) := peer_get p d (sw_net s) in
      let s := set_sw_net n s in
      match body with
      | None => fetch_uncached_from l d s
      | Some body =>
          match (read_to_end body).1 with
          | Ok bytes =>
              if verify d bytes then (Ok (cursor bytes), s) else fetch_uncached_from l d s
          | Err _ => fetch_uncached_from l d s
          end
      end
  end.

Definition fetch_uncached d : M BackendError SwarmCas source := fun s =>
  fetch_uncached_from (sw_peers s) d s.

Definition swarm_get d : M BackendError SwarmCas source := fun s =>
  match local (cas_get d) s with
  | (Err (BlobNotFound d'), s) =>
      if sw_cache_fills s then (_ ← fetch d; local (cas_get d)) s else fetch_uncached d s
  | other => other
  end.

(** [find_map(|p| size(p))] *)
Fixpoint first_size (l : list Peer) d n : option Z * N :=
  match l with
  | [] => (None, n)
  | p :: l =>
      match peer_size p d n with
      | (Some z, n) => (Some z, n)
      | (None, n) => first_size l d n
      end
  end.

Definition swarm_size d : M BackendError SwarmCas (option Z) := fun s =>
  match local (cas_size d) s with
  | (Ok None, s) => let '(z, n) := first_size (sw_peers s) d (sw_net s) in (Ok z, set_sw_net n s)
  | other => other
  end.

#[global] Instance swarm_backend : CasBackend SwarmCas := {|
  cas_has d := local (cas_has d);
  cas_get := swarm_get;
  cas_put src s := let '(r, left_, c) := cas_put src (sw_inner s) in (r, left_, set_sw_inner c s);
  cas_put_keyed d src s :=
    let '(r, left_, c) := cas_put_keyed d src (sw_inner s) in (r, left_, set_sw_inner c s);
  cas_ensure_replicated := default_ensure_replicated;
  cas_size := swarm_size;
|}.

#[global] Instance swarm_reclaimable : ReclaimableCas SwarmCas := {|
  iter_local := local iter_local;
  reclaim d := local (reclaim d);
  cas_verify d := local (cas_verify d);
  reclaim_if_corrupt d := local (reclaim_if_corrupt d);
  cas_quarantine d := local (cas_quarantine d);
  iter_quarantine := local iter_quarantine;
|}.

(** ** The replicator (durable.rs) *)

Record Pushed := mkPushed { held_ : nat; sent : nat }.

(** The loop of [push_counting] over the durable peers: the blob is read from the local
    store alone. *)
Fixpoint push_loop (l : list Peer) d (target : positive) (held sent : nat) (s : SwarmCas) :
    result BackendError Pushed * SwarmCas :=
  match l with
  | [] => (Ok (mkPushed held sent), s)
  | p :: l =>
      if negb (peer_durable p) then push_loop l d target held sent s
      else if bool_decide (Pos.to_nat target <= held)%nat then (Ok (mkPushed held sent), s)
      else
        let '(b, n) := holds_durably p d (sw_net s) in
        let s := set_sw_net n s in
        if b then push_loop l d target (S held) sent s
        else
          match local (cas_size d) s with
          | (Err e, s) => (Err e, s)
          | (Ok len, s) =>
              match local (cas_get d) s with
              | (Err e, s) => (Err e, s)
              | (Ok body, s) =>
                  let '(ok, n) := peer_put p d body len (sw_net s) in
                  let s := set_sw_net n s in
                  if negb ok then push_loop l d target held sent s
                  else
                    let '(b, n) := holds_durably p d (sw_net s) in
                    let s := set_sw_net n s in
                    if b then push_loop l d target (S held) (S sent) s
                    else push_loop l d target held sent s
              end
          end
  end.

Definition push_counting d (target : positive) : M BackendError SwarmCas Pushed := fun s =>
  push_loop (sw_peers s) d target 0 0 s.

Definition push d (target : positive) : M BackendError SwarmCas nat :=
  p ← push_counting d target; mret (held_ p).

(** [Replicator::replicate] *)
Definition replicate d (target : positive) : M BackendError SwarmCas () :=
  _ ← push d target; mret ().
End peers.
Arguments SwarmCas N C : clear implicits.
Arguments StaticRouter N : clear implicits.
