(* ===== verification/PeersLaws.v ===== *)
(** What a store gets from its peers: nothing that does not hash to what was asked for,
    whoever answers. *)

From Stdlib Require Import ZArith Lia.
From stdpp Require Import base option gmap sets list.
From S2P Require Import Prelude Text Digest Errors Cas Evict StoreInv Peers.

Local Open Scope Z_scope.

Section peers.
Context {N C : Type} {HN : Http N} {Hs : Hashers} {B : CasBackend C} {R : ReclaimableCas C}
  {V : CasModel C} {L : CasLaws C}.
Implicit Types (s : SwarmCas N C) (p : Peer) (d : Digest).

(** The local store of [s'] is that of [s], or holds one more blob, under its digest. *)
Definition gains d (c c' : C) : Prop :=
  held c !! d = None /\
  exists data, verify d data = true /\ held c' = <[d := data]> (held c) /\
    quarantined_at c' = quarantined_at c.

Lemma gains_same d (c1 c2 c3 : C) : same_content c1 c2 -> gains d c2 c3 -> gains d c1 c3.
Proof.
  intros [E1 E2] (Hn & data & Hv & H1 & H2). rewrite E1 in Hn, H1. rewrite E2 in H2.
  split; [done|]. by exists data.
Qed.

Lemma gains_then_same d (c1 c2 c3 : C) : gains d c1 c2 -> same_content c2 c3 -> gains d c1 c3.
Proof.
  intros (Hn & data & Hv & H1 & H2) [E1 E2]. rewrite <- E1 in H1. rewrite <- E2 in H2.
  split; [done|]. by exists data.
Qed.

(** The local store with the peer's answer written to it. *)
Lemma fetch_from_spec l d s r s' :
  cas_valid (sw_inner s) -> held (sw_inner s) !! d = None -> fetch_from l d s = (r, s') ->
  cas_valid (sw_inner s') /\ sw_peers s' = sw_peers s /\ sw_cache_fills s' = sw_cache_fills s /\
  match r with
  | Ok () => gains d (sw_inner s) (sw_inner s')
  | Err e => e = BlobNotFound d /\ same_content (sw_inner s) (sw_inner s')
  end.
Proof.
  revert s. induction l as [|p l IH]; intros s Hv Hd E; cbn [fetch_from] in E.
  { injection E as <- <-. by split_and!. }
  destruct (peer_get p d (sw_net s)) as [[body|] n].
  2: { by apply IH in E. }
  cbn [set_sw_net sw_inner] in E.
  destruct (law_put_keyed d body (sw_inner s) Hv) as [Hspec Hv1]. unfold put_keyed_spec in Hspec.
  destruct (cas_put_keyed d body (sw_inner s)) as [[[[]|e] left_] c] eqn:Ep; destruct Hspec as [_ Hspec].
  - injection E as <- <-. split_and!; [done..|]. cbn.
    destruct Hspec as [(data & _ & Hver & Hq & Hst)|(_ & [data Hsome] & _)]; [|congruence].
    rewrite Hd in Hst. split; [done|]. by exists data.
  - apply IH in E as (Hv' & Hp & Hc & Hr); [|done|by cbn; destruct Hspec as [-> _]].
    split_and!; [done..|]. destruct r as [[]|e'].
    + by eapply gains_same.
    + destruct Hr as [-> Hr]. split; [done|]. by eapply same_content_trans.
Qed.

Lemma fetch_uncached_spec l d s r s' :
  fetch_uncached_from l d s = (r, s') ->
  sw_inner s' = sw_inner s /\ sw_peers s' = sw_peers s /\ sw_cache_fills s' = sw_cache_fills s /\
  match r with
  | Ok src => exists data, src = cursor data /\ verify d data = true
  | Err e => e = BlobNotFound d
  end.
Proof.
  revert s. induction l as [|p l IH]; intros s E; cbn [fetch_uncached_from] in E.
  { by injection E as <- <-. }
  destruct (peer_get p d (sw_net s)) as [[body|] n]; [|by apply IH in E].
  destruct (read_to_end body).1 as [data|e]; [|by apply IH in E].
  destruct (verify d data) eqn:Ev; [|by apply IH in E].
  injection E as <- <-. split_and!; [done..|]. by exists data.
Qed.

(** A peer that has the blob, and serves it whatever else the network does. *)
Definition honest p d : Prop :=
  forall n, exists body data rest n',
    peer_get p d n = (Some body, n') /\ read_to_end body = (Ok data, rest) /\ verify d data = true.

Lemma honest_is_found l p d s :
  p ∈ l -> honest p d -> exists src s', fetch_uncached_from l d s = (Ok src, s').
Proof.
  intros Hp Hh. revert s. induction l as [|q l IH]; intros s; [by apply not_elem_of_nil in Hp|].
  cbn [fetch_uncached_from]. apply elem_of_cons in Hp as [<-|Hp].
  - destruct (Hh (sw_net s)) as (body & data & rest & n & -> & -> & Ev). cbn. rewrite Ev. eauto.
  - specialize (IH Hp). destruct (peer_get q d (sw_net s)) as [[body|] n]; [|apply IH].
    destruct (read_to_end body).1 as [data|e]; [|apply IH]. destruct (verify d data); [eauto|apply IH].
Qed.

Lemma swarm_get_spec d s r s' :
  cas_valid (sw_inner s) -> swarm_get d s = (r, s') ->
  cas_valid (sw_inner s') /\ sw_peers s' = sw_peers s /\ sw_cache_fills s' = sw_cache_fills s /\
  (same_content (sw_inner s) (sw_inner s') \/
   sw_cache_fills s = true /\ gains d (sw_inner s) (sw_inner s')) /\
  (forall src, r = Ok src -> exists data,
     read_to_end src = (Ok data, []) /\ verify d data = true /\
     (held (sw_inner s) !! d = None \/ held (sw_inner s) !! d = Some data)).
Proof.
  intros Hv E. unfold swarm_get, local in E. destruct (law_get d (sw_inner s) Hv) as [Hget Hv1].
  unfold get_spec in Hget. destruct (cas_get d (sw_inner s)) as [r1 c1]; destruct Hget as [Hs1 Hr1]; simpl in Hv1.
  destruct r1 as [src|[]]; try (injection E as <- <-; cbn; split_and!; by try left).
  { injection E as <- <-. cbn. split_and!; [done|done|done|by left|].
    intros ? [= <-]. destruct Hr1 as (data & Hd & Hver & Hread). exists data. split_and!; [done..|by right]. }
  destruct Hr1 as [-> Hd]. cbn [set_sw_inner sw_cache_fills] in E. destruct (sw_cache_fills s) eqn:Hcf.
  - unfold mbind, M_bind, fetch in E. destruct (fetch_from _ _ _) as [r2 s2] eqn:Ef in E.
    apply fetch_from_spec in Ef as (Hv2 & Hp2 & Hc2 & Hr2); [|done|by cbn; destruct Hs1 as [-> _]].
    cbn [sw_inner sw_peers sw_cache_fills set_sw_inner] in Hr2, Hp2, Hc2. rewrite Hcf in Hc2. destruct r2 as [[]|e].
    + apply (gains_same _ _ _ _ Hs1) in Hr2.
      destruct (law_get d (sw_inner s2) Hv2) as [Hget Hv3]. unfold get_spec in Hget.
      destruct (cas_get d (sw_inner s2)) as [r3 c3]; destruct Hget as [Hs3 Hr3]. injection E as <- <-.
      cbn. split_and!; [done|done|done| |intros src ->].
      * right. split; [done|]. by eapply gains_then_same.
      * destruct Hr3 as (data & _ & Hver & Hread). exists data. split_and!; [done..|by left].
    + injection E as <- <-. destruct Hr2 as [-> Hs2]. split_and!; [done|done|done| |done].
      left. by eapply same_content_trans.
  - unfold fetch_uncached in E. apply fetch_uncached_spec in E as (Hi & Hp & Hc & Hr). rewrite Hi.
    split_and!; [done|done|by rewrite Hc|by left|intros src ->].
    destruct Hr as (data & -> & Hver). exists data. split_and!; [|done|by left]. by rewrite read_to_end_cursor.
Qed.

End peers.

(** ** One liar, one honest peer *)

Module PeersExample.
Import Checksum.

(** A network of pages: it answers a request with the page of its URL. *)
Definition Pages : Type := list (text * list byte).

Definition page (pages : Pages) (url : text) : option (list byte) :=
  snd <$> head (filter (fun kv => kv.1 = url) pages).

#[local] Instance pages_http : Http Pages := {|
  http_send v url body pages :=
    ((fun b => mkHttp 200 (fun _ => None) (cursor b)) <$> page pages url, pages);
|}.

Definition blob : list byte := bs "a blob that travels".
Definition d : Digest := compute blob.
Definition liar : Peer := mkPeer (bs "http://a/") true.
Definition friend : Peer := mkPeer (bs "http://b") false.
Definition net : Pages := [(blob_url liar d, bs "not that blob"); (blob_url friend d, blob)].

Definition start : SwarmCas Pages Mem.MemCas := swarm_new Mem.new net [liar; friend].

End PeersExample.
