(* ===== verification/Volume.v ===== *)
(** The volume domain of crates/nessie-backend-core/src: types.rs, capabilities.rs,
    access.rs and the backend traits of traits.rs, as typeclasses over the backend's
    state.  A fresh identifier ([VolumeUuid::new], [SnapshotUuid::new]) is an argument
    of the operation that draws it. *)

From Stdlib Require Import ZArith Lia.
From stdpp Require Import base list.
From S2P Require Import Prelude Text Digest Errors.

Local Open Scope Z_scope.

(** ** Domain types *)


Inductive VolumeState := Online | Offline | Restricted.
Inductive VolumeStyle := Flexvol.
Inductive VolumeType := Rw | Dp.

Record CloneOrigin := mkOrigin { parent_volume : list byte; parent_snapshot : list byte }.

Record Volume := mkVolume {
  v_uuid : VolumeUuid;
  v_name : list byte;
  size_bytes : option Z;
  v_state : VolumeState;
  style : VolumeStyle;
  vol_type : VolumeType;
  clone : option CloneOrigin;
}.

(** chrono's [DateTime<Utc>]: an instant, in nanoseconds since the Unix epoch. *)
Definition DateTime : Type := Z.

Record Snapshot := mkSnapshot {
  s_uuid : SnapshotUuid;
  s_name : list byte;
  create_time : option DateTime;
  size_consumed : Z;
}.

Record VolumeSpec := mkSpec { spec_name : list byte; spec_size : option Z }.

Record VolumePatch := mkPatch {
  patch_size : option Z;
  junction_path : option (list byte);
  export_policy : option (list byte);
}.

Definition is_clone (v : Volume) : bool := bool_decide (is_Some (clone v)).

Definition patch_is_empty (p : VolumePatch) : bool :=
  bool_decide (patch_size p = None) && bool_decide (junction_path p = None) &&
  bool_decide (export_policy p = None).

Record Capabilities := mkCaps { snapshots : bool; clones : bool; replication : bool }.
Definition caps_volume_only : Capabilities := mkCaps false false false.
Definition caps_snapshots : Capabilities := mkCaps true false false.
Definition caps_clones : Capabilities := mkCaps true true false.
Definition caps_all : Capabilities := mkCaps true true true.
Definition is_consistent (c : Capabilities) : bool :=
  if clones c || replication c then snapshots c else true.

(** A [Url] and a [PathBuf] are their text. *)
Inductive AccessHandle :=
| NfsExport (server path : list byte)
| S3Presigned (url : list byte) (expires_at : DateTime)
| GitRef (remote ref_name : list byte)
| P4Stream (p4port stream : list byte)
| OntapPassthrough (mgmt_lif data_lif : list byte)
| CasBlob (digest : Digest) (providers : list (list byte))
| InMemory.

(** ** The backend traits *)

(** [VolumeBackend]; [as_snapshot], [as_clone] and [as_replication] are the instances
    of the classes below. *)
Class VolumeBackend (B : Type) := {
  vb_capabilities : B -> Capabilities;
  vb_list_volumes : M BackendError B (list Volume);
  vb_create_volume : VolumeUuid -> VolumeSpec -> M BackendError B Volume;
  vb_get_volume : VolumeUuid -> M BackendError B Volume;
  vb_delete_volume : VolumeUuid -> M BackendError B ();
  vb_patch_volume : VolumeUuid -> VolumePatch -> M BackendError B Volume;
  vb_access_handle : VolumeUuid -> M BackendError B AccessHandle;
}.

Class SnapshotBackend (B : Type) := {
  sb_volume :: VolumeBackend B;
  sb_list_snapshots : VolumeUuid -> M BackendError B (list Snapshot);
  sb_create_snapshot : SnapshotUuid -> VolumeUuid -> list byte -> M BackendError B Snapshot;
  sb_get_snapshot : VolumeUuid -> SnapshotUuid -> M BackendError B Snapshot;
  sb_delete_snapshot : VolumeUuid -> SnapshotUuid -> M BackendError B ();
}.

Class CloneBackend (B : Type) := {
  cb_snapshot :: SnapshotBackend B;
  cb_create_clone : VolumeUuid -> VolumeUuid -> SnapshotUuid -> list byte ->
    M BackendError B Volume;
}.

Class ReplicationBackend (B : Type) := {
  rb_snapshot :: SnapshotBackend B;
  rb_send_stream : VolumeUuid -> list byte -> option (list byte) -> M BackendError B source;
  rb_receive_stream : VolumeUuid -> SnapshotUuid -> list byte -> source -> M BackendError B Z;
}.
