(* ===== verification/MemBackend.v ===== *)
(** The in-memory volume backend: crates/nessie-backend-mem/src/lib.rs
    ([MemBackend]: volumes, snapshots, clones, replication streams), an instance of
    Volume.v's interfaces.

    A fresh identifier ([VolumeUuid::new], [SnapshotUuid::new]) is an argument of
    the operation that draws it; [debug] is the standard library's [{:?}] form of a
    string, which only error messages use. *)

From Stdlib Require Import ZArith Lia.
From stdpp Require Import base list gmap sets.
From S2P Require Import Prelude Ordered Text Digest Errors Volume.

Local Open Scope Z_scope.

(** ** State *)

Record Inner := mkInner {
  volumes : gmap VolumeUuid Volume;
  snaps_of : gmap VolumeUuid (gmap SnapshotUuid Snapshot);
  names : gset (list byte);
}.

Definition empty : Inner := mkInner ∅ ∅ ∅.

Definition new_volume (uuid : VolumeUuid) (name : list byte) (size : option Z)
    (origin : option CloneOrigin) : Volume :=
  mkVolume uuid name size Online Flexvol Rw origin.

(** [insert] into the three tables, as every creating operation does. *)
Definition add_volume (vol : Volume) (g : Inner) : Inner :=
  mkInner (<[v_uuid vol := vol]> (volumes g)) (<[v_uuid vol := ∅]> (snaps_of g))
    (names g ∪ {[v_name vol]}).

Definition set_snaps (uuid : VolumeUuid) (snaps : gmap SnapshotUuid Snapshot) (g : Inner) : Inner :=
  mkInner (volumes g) (<[uuid := snaps]> (snaps_of g)) (names g).

(** [snaps.values().any(|s| s.name == name)] *)
Definition has_name (name : list byte) (snaps : gmap SnapshotUuid Snapshot) : bool :=
  bool_decide (Exists (fun kv => s_name kv.2 = name) (map_to_list snaps)).

(** [volumes.values().find(|v| v.name == name)] *)
Definition find_volume (name : list byte) (g : Inner) : option VolumeUuid :=
  (fun p => v_uuid p.2.2) <$> list_find (fun kv => v_name kv.2 = name) (map_to_list (volumes g)).

Definition op (A : Type) : Type := M BackendError Inner A.

(** [.ok_or(VolumeNotFound(uuid))?] on a table lookup. *)
Definition volume_of (uuid : VolumeUuid) : op Volume := fun g =>
  (ok_or (volumes g !! uuid) (VolumeNotFound uuid), g).
Definition snapshots_of (uuid : VolumeUuid) : op (gmap SnapshotUuid Snapshot) := fun g =>
  (ok_or (snaps_of g !! uuid) (VolumeNotFound uuid), g).

Section backend.
Context (debug : list byte -> list byte).

Definition capabilities : Capabilities := caps_all.

Definition list_volumes : op (list Volume) := fun g => (Ok (map_to_list (volumes g)).*2, g).

Definition create_volume (fresh : VolumeUuid) (spec : VolumeSpec) : op Volume := fun g =>
  if bool_decide (spec_name spec ∈ names g) then (Err (VolumeExists (spec_name spec)), g)
  else
    let vol := new_volume fresh (spec_name spec) (spec_size spec) None in
    (Ok vol, add_volume vol g).

Definition get_volume (uuid : VolumeUuid) : op Volume := volume_of uuid.

Definition delete_volume (uuid : VolumeUuid) : op () := fun g =>
  match volumes g !! uuid with
  | None => (Err (VolumeNotFound uuid), g)
  | Some vol =>
      (Ok (), mkInner (delete uuid (volumes g)) (delete uuid (snaps_of g))
                (names g ∖ {[v_name vol]}))
  end.

(** The part of [patch_volume] after its checks: only the size is kept. *)
Definition patched (uuid : VolumeUuid) (patch : VolumePatch) (vol : Volume) : op Volume := fun g =>
  let vol' :=
    match patch_size patch with
    | Some size => mkVolume (v_uuid vol) (v_name vol) (Some size) (v_state vol) (style vol)
        (vol_type vol) (clone vol)
    | None => vol
    end in
  (Ok vol', mkInner (<[uuid := vol']> (volumes g)) (snaps_of g) (names g)).

Definition patch_volume (uuid : VolumeUuid) (patch : VolumePatch) : op Volume :=
  vol ← volume_of uuid;
  match junction_path patch with
  | Some jp =>
      if starts_with (bs "/") jp then patched uuid patch vol
      else fail (InvalidArgument (bs "nas.path must start with '/' (got " ++ debug jp ++ bs ")"))
  | None => patched uuid patch vol
  end.

Definition access_handle (uuid : VolumeUuid) : op AccessHandle :=
  volume_of uuid ≫= fun _ => mret InMemory.

Definition list_snapshots (vol : VolumeUuid) : op (list Snapshot) :=
  snaps ← snapshots_of vol; mret (map_to_list snaps).*2.

Definition create_snapshot (fresh : SnapshotUuid) (vol : VolumeUuid) (name : list byte) :
    op Snapshot :=
  snaps ← snapshots_of vol;
  if has_name name snaps then fail (SnapshotExists vol name)
  else
    let snap := mkSnapshot fresh name None 0 in
    fun g => (Ok snap, set_snaps vol (<[fresh := snap]> snaps) g).

Definition get_snapshot (vol : VolumeUuid) (snap : SnapshotUuid) : op Snapshot :=
  snaps ← snapshots_of vol;
  lift (ok_or (snaps !! snap) (SnapshotNotFound vol snap)).

Definition delete_snapshot (vol : VolumeUuid) (snap : SnapshotUuid) : op () :=
  snapshots_of vol ≫= fun snaps : gmap SnapshotUuid Snapshot =>
  match snaps !! snap return op () with
  | None => fail (SnapshotNotFound vol snap)
  | Some _ => fun g => (Ok (), set_snaps vol (delete snap snaps) g)
  end.

Definition insert_clone (fresh : VolumeUuid) (new_name : list byte) (size : option Z)
    (origin : CloneOrigin) : op Volume := fun g =>
  if bool_decide (new_name ∈ names g) then (Err (VolumeExists new_name), g)
  else
    let vol := new_volume fresh new_name size (Some origin) in
    (Ok vol, add_volume vol g).

Definition create_clone (fresh : VolumeUuid) (parent_vol : VolumeUuid)
    (parent_snap : SnapshotUuid) (new_name : list byte) : op Volume :=
  p ← volume_of parent_vol;
  snaps ← snapshots_of parent_vol;
  snap ← lift (ok_or (snaps !! parent_snap) (SnapshotNotFound parent_vol parent_snap));
  insert_clone fresh new_name (size_bytes p) (mkOrigin (v_name p) (s_name snap)).

(** ** Replication streams *)

Record MemReplStream := mkRepl {
  rs_size : option Z;
  rs_snapshot : list byte;
  rs_base : option (list byte);
}.

Definition equals : byte := z2b 61.

Definition repl_magic : list byte := bs "NESSIE-MEM-REPL v1".

Definition encode_repl_stream (volume : list byte) (size : option Z) (snapshot : list byte)
    (base : option (list byte)) : list byte :=
  repl_magic ++ [nl] ++
  bs "volume=" ++ volume ++ [nl] ++
  bs "size=" ++ from_option dec [] size ++ [nl] ++
  bs "snapshot=" ++ snapshot ++ [nl] ++
  bs "base=" ++ default [] base ++ [nl].

(** The loop over the lines after the first. *)
Definition repl_line (acc : result BackendError (option Z * option (list byte) * option (list byte)))
    (line : list byte) :
    result BackendError (option Z * option (list byte) * option (list byte)) :=
  '(size, snapshot, base) ← acc;
  match split_once equals line with
  | None => Ok (size, snapshot, base)
  | Some (key, value) =>
      if bool_decide (key = bs "size" /\ value <> []) then
        z ← ok_or (parse_u64 value) (InvalidArgument (bs "invalid size " ++ debug value));
        Ok (Some z, snapshot, base)
      else if bool_decide (key = bs "snapshot") then Ok (size, Some value, base)
      else if bool_decide (key = bs "base" /\ value <> []) then Ok (size, snapshot, Some value)
      else Ok (size, snapshot, base)
  end.

Definition decode_repl_stream (raw : list byte) : result BackendError MemReplStream :=
  match lines raw with
  | first :: rest =>
      if bool_decide (first = repl_magic) then
        '(size, snapshot, base) ← foldl repl_line (Ok (None, None, None)) rest;
        snap ← ok_or snapshot (InvalidArgument (bs "replication stream missing snapshot"));
        Ok (mkRepl size snap base)
      else Err (InvalidArgument (bs "not a nessie-mem replication stream"))
  | [] => Err (InvalidArgument (bs "not a nessie-mem replication stream"))
  end.

Definition send_stream (vol : VolumeUuid) (snap : list byte) (base : option (list byte)) :
    op source :=
  volume ← volume_of vol;
  snaps ← snapshots_of vol;
  if negb (has_name snap snaps) then
    fail (InvalidArgument (bs "snapshot " ++ debug snap ++ bs " does not exist on the source volume"))
  else
    match base with
    | Some b =>
        if negb (has_name b snaps) then
          fail (InvalidArgument (bs "base snapshot " ++ debug b ++
            bs " does not exist on the source volume"))
        else mret (cursor (encode_repl_stream (v_name volume) (size_bytes volume) snap base))
    | None => mret (cursor (encode_repl_stream (v_name volume) (size_bytes volume) snap base))
    end.

(** [read_to_string] *)
Definition read_to_string (src : source) : result BackendError (list byte) :=
  match (read_to_end src).1 with
  | Err e => Err (Internal (ie_display e))
  | Ok raw =>
      if utf8_valid raw then Ok raw
      else Err (Internal (bs "stream did not contain valid UTF-8"))
  end.

(** The destination: the volume of that name, or a new one for a full stream. *)
Definition resolve_dest (fresh : VolumeUuid) (dest : list byte) (parsed : MemReplStream) :
    op VolumeUuid := fun g =>
  match find_volume dest g with
  | Some u =>
      match rs_base parsed with
      | Some b =>
          if has_name b (default ∅ (snaps_of g !! u)) then (Ok u, g)
          else (Err (InvalidArgument (bs "destination " ++ debug dest ++
            bs " is missing base snapshot " ++ debug b)), g)
      | None => (Ok u, g)
      end
  | None =>
      match rs_base parsed with
      | Some _ => (Err (InvalidArgument (bs "incremental stream for " ++ debug dest ++
          bs ", but the destination volume does not exist")), g)
      | None => (Ok fresh, add_volume (new_volume fresh dest (rs_size parsed) None) g)
      end
  end.

Definition apply_snapshot (fresh : SnapshotUuid) (u : VolumeUuid) (name : list byte) : op () := fun g =>
  let snaps := default ∅ (snaps_of g !! u) in
  if has_name name snaps then (Ok (), g)
  else (Ok (), set_snaps u (<[fresh := mkSnapshot fresh name None 0]> snaps) g).

Definition receive_stream (fresh_vol : VolumeUuid) (fresh_snap : SnapshotUuid) (dest : list byte)
    (src : source) : op Z :=
  raw ← lift (read_to_string src);
  parsed ← lift (decode_repl_stream raw);
  u ← resolve_dest fresh_vol dest parsed;
  apply_snapshot fresh_snap u (rs_snapshot parsed) ≫= fun _ => mret (zlen raw).

(** ** The interfaces *)

#[global] Instance mem_volume_backend : VolumeBackend Inner := {|
  vb_capabilities _ := capabilities;
  vb_list_volumes := list_volumes;
  vb_create_volume := create_volume;
  vb_get_volume := get_volume;
  vb_delete_volume := delete_volume;
  vb_patch_volume := patch_volume;
  vb_access_handle := access_handle;
|}.

#[global] Instance mem_snapshot_backend : SnapshotBackend Inner := {|
  sb_list_snapshots := list_snapshots;
  sb_create_snapshot := create_snapshot;
  sb_get_snapshot := get_snapshot;
  sb_delete_snapshot := delete_snapshot;
|}.

#[global] Instance mem_clone_backend : CloneBackend Inner := {| cb_create_clone := create_clone |}.

#[global] Instance mem_replication_backend : ReplicationBackend Inner := {|
  rb_send_stream := send_stream;
  rb_receive_stream := receive_stream;
|}.

(** ** Histories *)

(** A state-changing request, with the identifiers it draws. *)
Inductive mem_op :=
| OpCreate (fresh : VolumeUuid) (spec : VolumeSpec)
| OpPatch (uuid : VolumeUuid) (patch : VolumePatch)
| OpDelete (uuid : VolumeUuid)
| OpSnapshot (fresh : SnapshotUuid) (vol : VolumeUuid) (name : list byte)
| OpDeleteSnapshot (vol : VolumeUuid) (snap : SnapshotUuid)
| OpClone (fresh : VolumeUuid) (parent_vol : VolumeUuid) (parent_snap : SnapshotUuid)
    (name : list byte)
| OpReceive (fresh_vol : VolumeUuid) (fresh_snap : SnapshotUuid) (dest : list byte) (src : source).

(** Whether the request succeeded, and the state it leaves. *)
Definition run_op {A} (m : op A) (g : Inner) : bool * Inner := (is_ok (m g).1, (m g).2).

Definition apply_op (o : mem_op) : Inner -> bool * Inner :=
  match o with
  | OpCreate fresh spec => run_op (create_volume fresh spec)
  | OpPatch uuid patch => run_op (patch_volume uuid patch)
  | OpDelete uuid => run_op (delete_volume uuid)
  | OpSnapshot fresh vol name => run_op (create_snapshot fresh vol name)
  | OpDeleteSnapshot vol snap => run_op (delete_snapshot vol snap)
  | OpClone fresh pv ps name => run_op (create_clone fresh pv ps name)
  | OpReceive fv fs dest src => run_op (receive_stream fv fs dest src)
  end.

Definition fresh_snap_in (fresh : SnapshotUuid) (g : Inner) : Prop :=
  map_Forall (fun _ snaps => snaps !! fresh = None) (snaps_of g).

(** The identifiers a request draws are new: what a random UUID gives. *)
Definition draws_fresh (o : mem_op) (g : Inner) : Prop :=
  match o with
  | OpCreate fresh _ | OpClone fresh _ _ _ => volumes g !! fresh = None
  | OpSnapshot fresh _ _ => fresh_snap_in fresh g
  | OpReceive fv fs _ _ => volumes g !! fv = None /\ fresh_snap_in fs g
  | _ => True
  end.

Inductive reachable : Inner -> Prop :=
| reach_empty : reachable empty
| reach_step g o b g' :
    reachable g -> draws_fresh o g -> apply_op o g = (b, g') -> reachable g'.

(** ** Well-formedness *)

Record wf (g : Inner) : Prop := {
  wf_uuid : forall u v, volumes g !! u = Some v -> v_uuid v = u;
  wf_names : forall n, n ∈ names g <-> exists u v, volumes g !! u = Some v /\ v_name v = n;
  wf_unique : forall u1 v1 u2 v2, volumes g !! u1 = Some v1 -> volumes g !! u2 = Some v2 ->
    v_name v1 = v_name v2 -> u1 = u2;
  wf_snaps : forall u, is_Some (snaps_of g !! u) <-> is_Some (volumes g !! u);
  wf_snap_uuid : forall u snaps k s, snaps_of g !! u = Some snaps -> snaps !! k = Some s ->
    s_uuid s = k;
  wf_snap_unique : forall u snaps k1 s1 k2 s2, snaps_of g !! u = Some snaps ->
    snaps !! k1 = Some s1 -> snaps !! k2 = Some s2 -> s_name s1 = s_name s2 -> k1 = k2;
}.

(** What the stream's line format can carry. *)
Definition clean (s : list byte) : Prop := (nl ∉ s) /\ last s <> Some cr.

Lemma has_name_true name snaps :
  has_name name snaps = true <-> exists k s, snaps !! k = Some s /\ s_name s = name.
Proof.
  unfold has_name. rewrite bool_decide_eq_true, Exists_exists. split.
  - intros ([k s] & Hin & Hn). apply elem_of_map_to_list in Hin. eauto.
  - intros (k & s & Hk & Hn). exists (k, s). split; [by apply elem_of_map_to_list|done].
Qed.

Lemma has_name_false name snaps :
  has_name name snaps = false -> forall k s, snaps !! k = Some s -> s_name s <> name.
Proof.
  intros Hf k s Hk Hn. assert (has_name name snaps = true) by (apply has_name_true; eauto). congruence.
Qed.

Lemma find_volume_Some name g u :
  wf g -> find_volume name g = Some u <-> exists v, volumes g !! u = Some v /\ v_name v = name.
Proof.
  intros Hg. unfold find_volume. split.
  - rewrite fmap_Some. intros ([i [k v]] & Hl & ->). apply list_find_Some in Hl as (Hi & Hn & _).
    simpl in *. apply list_elem_of_lookup_2, elem_of_map_to_list in Hi.
    exists v. by rewrite (wf_uuid g Hg k v Hi).
  - intros (v & Hv & Hn).
    destruct (list_find (fun kv : VolumeUuid * Volume => v_name kv.2 = name) (map_to_list (volumes g)))
      as [[i [k w]]|] eqn:El; simpl.
    + apply list_find_Some in El as (Hi & Hw & _). simpl in Hw.
      apply list_elem_of_lookup_2, elem_of_map_to_list in Hi.
      rewrite (wf_uuid g Hg k w Hi). f_equal. eapply (wf_unique g Hg); [exact Hi|exact Hv|congruence].
    + exfalso. apply list_find_None in El. rewrite Forall_forall in El.
      by apply (El (u, v)); [apply elem_of_map_to_list|].
Qed.

Lemma find_volume_None name g : wf g -> find_volume name g = None <-> name ∉ names g.
Proof.
  intros Hg. rewrite (wf_names g Hg). split.
  - intros Hf (u & v & Hv & Hn).
    assert (find_volume name g = Some u) by (apply find_volume_Some; eauto). congruence.
  - intros Hn. destruct (find_volume name g) as [u|] eqn:E; [|done].
    apply find_volume_Some in E as (v & Hv & Hnm); [|done]. exfalso. eauto.
Qed.

Lemma wf_empty : wf empty.
Proof.
  split; simpl.
  - intros u v. by rewrite lookup_empty.
  - intros n. split; [set_solver|]. intros (u & v & H & _). by rewrite lookup_empty in H.
  - intros u1 v1 u2 v2. by rewrite lookup_empty.
  - intros u. by rewrite !lookup_empty.
  - intros u snaps k s. by rewrite lookup_empty.
  - intros u snaps k1 s1 k2 s2. by rewrite lookup_empty.
Qed.

Lemma wf_add_volume vol g :
  wf g -> volumes g !! v_uuid vol = None -> v_name vol ∉ names g -> wf (add_volume vol g).
Proof.
  intros Hg Hf Hn.
  assert (Hne : forall u v, volumes g !! u = Some v -> v_name v <> v_name vol).
  { intros u v Hv E. apply Hn. rewrite <- E. apply (wf_names g Hg). eauto. }
  split; simpl.
  - intros u v [[<- <-]|[_ Hv]]%lookup_insert_Some; [done|by apply (wf_uuid g Hg)].
  - intros n. rewrite elem_of_union, elem_of_singleton, (wf_names g Hg). split.
    + intros [(u & v & Hv & E)| ->].
      * exists u, v. split; [|done]. rewrite lookup_insert_ne; [done|congruence].
      * exists (v_uuid vol), vol. by rewrite lookup_insert_eq.
    + intros (u & v & [[<- <-]|[_ Hv]]%lookup_insert_Some & E); [by right|left; eauto].
  - intros u1 v1 u2 v2 [[<- <-]|[_ H1]]%lookup_insert_Some [[<- <-]|[_ H2]]%lookup_insert_Some E;
      [done|by destruct (Hne _ _ H2)|by destruct (Hne _ _ H1)|by eapply (wf_unique g Hg)].
  - intros u. rewrite !lookup_insert_is_Some, (wf_snaps g Hg). done.
  - intros u snaps k s [[<- <-]|[_ Hs]]%lookup_insert_Some Hk; [by rewrite lookup_empty in Hk|].
    by eapply (wf_snap_uuid g Hg).
  - intros u snaps k1 s1 k2 s2 [[<- <-]|[_ Hs]]%lookup_insert_Some H1 H2 E;
      [by rewrite lookup_empty in H1|]. by eapply (wf_snap_unique g Hg).
Qed.

(** Replacing the snapshots of a live volume by a table of properly keyed, uniquely
    named ones. *)
Lemma wf_set_snaps u snaps g :
  wf g -> is_Some (volumes g !! u) ->
  (forall k s, snaps !! k = Some s -> s_uuid s = k) ->
  (forall k1 s1 k2 s2, snaps !! k1 = Some s1 -> snaps !! k2 = Some s2 ->
    s_name s1 = s_name s2 -> k1 = k2) ->
  wf (set_snaps u snaps g).
Proof.
  intros Hg Hu H1 H2. split; simpl; try apply Hg.
  - intros u'. rewrite lookup_insert_is_Some, (wf_snaps g Hg). split.
    + by intros [<-|[_ ?]].
    + destruct (decide (u = u')); auto.
  - intros u' sn k s [[<- <-]|[_ Hs]]%lookup_insert_Some; [apply H1|by eapply (wf_snap_uuid g Hg)].
  - intros u' sn k1 s1 k2 s2 [[<- <-]|[_ Hs]]%lookup_insert_Some; [apply H2|].
    by eapply (wf_snap_unique g Hg).
Qed.

Lemma wf_insert_snap u snaps name fresh g :
  wf g -> snaps_of g !! u = Some snaps -> has_name name snaps = false ->
  snaps !! fresh = None -> wf (set_snaps u (<[fresh := mkSnapshot fresh name None 0]> snaps) g).
Proof.
  intros Hg Hu Hn Hf. apply wf_set_snaps; [done|apply (wf_snaps g Hg); by eexists|..].
  - intros k s [[<- <-]|[_ Hs]]%lookup_insert_Some; [done|by eapply (wf_snap_uuid g Hg)].
  - intros k1 s1 k2 s2 [[<- <-]|[_ H1]]%lookup_insert_Some [[<- <-]|[_ H2]]%lookup_insert_Some E;
      [done|by destruct (has_name_false _ _ Hn _ _ H2)
      |by destruct (has_name_false _ _ Hn _ _ H1)|by eapply (wf_snap_unique g Hg)].
Qed.

Lemma wf_delete_snap u snaps k g :
  wf g -> snaps_of g !! u = Some snaps -> wf (set_snaps u (delete k snaps) g).
Proof.
  intros Hg Hu. apply wf_set_snaps; [done|apply (wf_snaps g Hg); by eexists|..].
  - intros k' s [_ Hs]%lookup_delete_Some. by eapply (wf_snap_uuid g Hg).
  - intros k1 s1 k2 s2 [_ H1]%lookup_delete_Some [_ H2]%lookup_delete_Some.
    by eapply (wf_snap_unique g Hg).
Qed.

Lemma wf_delete_volume uuid vol g :
  wf g -> volumes g !! uuid = Some vol ->
  wf (mkInner (delete uuid (volumes g)) (delete uuid (snaps_of g)) (names g ∖ {[v_name vol]})).
Proof.
  intros Hg Hu. split; simpl.
  - intros u v [_ Hv]%lookup_delete_Some. by apply (wf_uuid g Hg).
  - intros n. rewrite elem_of_difference, elem_of_singleton, (wf_names g Hg). split.
    + intros [(u & v & Hv & E) Hne]. exists u, v. split; [|done].
      rewrite lookup_delete_ne; [done|]. intros ->. congruence.
    + intros (u & v & [Hne Hv]%lookup_delete_Some & E). split; [eauto|].
      intros E'. apply Hne. eapply (wf_unique g Hg); [exact Hu|exact Hv|congruence].
  - intros u1 v1 u2 v2 [_ H1]%lookup_delete_Some [_ H2]%lookup_delete_Some.
    by eapply (wf_unique g Hg).
  - intros u. rewrite !lookup_delete_is_Some, (wf_snaps g Hg). done.
  - intros u snaps k s [_ Hs]%lookup_delete_Some. by eapply (wf_snap_uuid g Hg).
  - intros u snaps k1 s1 k2 s2 [_ Hs]%lookup_delete_Some. by eapply (wf_snap_unique g Hg).
Qed.

Lemma wf_patched uuid vol vol' g :
  wf g -> volumes g !! uuid = Some vol -> v_uuid vol' = v_uuid vol -> v_name vol' = v_name vol ->
  wf (mkInner (<[uuid := vol']> (volumes g)) (snaps_of g) (names g)).
Proof.
  intros Hg Hu Huu Hnn. split; simpl; try apply Hg.
  - intros u v [[<- <-]|[_ Hv]]%lookup_insert_Some; [rewrite Huu|]; by apply (wf_uuid g Hg).
  - intros n. rewrite (wf_names g Hg). split.
    + intros (u & v & Hv & E). destruct (decide (u = uuid)) as [->|Hne].
      * exists uuid, vol'. rewrite lookup_insert_eq. split; [done|congruence].
      * exists u, v. by rewrite lookup_insert_ne.
    + intros (u & v & [[<- <-]|[_ Hv]]%lookup_insert_Some & E); [|eauto].
      exists uuid, vol. split; [done|congruence].
  - intros u1 v1 u2 v2 [[<- <-]|[_ H1]]%lookup_insert_Some [[<- <-]|[_ H2]]%lookup_insert_Some E;
      [done|eapply (wf_unique g Hg); [exact Hu|exact H2|congruence]
      |eapply (wf_unique g Hg); [exact H1|exact Hu|congruence]|by eapply (wf_unique g Hg)].
  - intros u. rewrite (wf_snaps g Hg), lookup_insert_is_Some. split.
    + destruct (decide (uuid = u)); auto.
    + intros [<-|[_ ?]]; [by eexists|done].
Qed.

(** ** Each operation: a failure changes nothing, a success keeps the state well formed *)

(** What an operation may do to a well-formed state. *)
Definition steady {A} (m : op A) : Prop :=
  forall g r g', wf g -> m g = (r, g') -> wf g' /\ (is_ok r = false -> g' = g).

Lemma steady_ret {A} (a : A) : steady (mret a).
Proof. intros g r g' Hg [= <- <-]. done. Qed.

Lemma steady_fail {A} e : steady (fail (A := A) e).
Proof. intros g r g' Hg [= <- <-]. done. Qed.

Lemma steady_lift {A} (x : result BackendError A) : steady (lift x).
Proof. intros g r g' Hg [= <- <-]. done. Qed.

(** A query that leaves the state alone, then anything steady on what it found. *)
Lemma steady_query {A B} (q : op A) (f : A -> op B) :
  (forall g, (q g).2 = g) ->
  (forall a g, q g = (Ok a, g) -> forall r g', wf g -> f a g = (r, g') ->
    wf g' /\ (is_ok r = false -> g' = g)) ->
  steady (q ≫= f).
Proof.
  intros Hq Hf g r g' Hg E. unfold mbind, M_bind in E. pose proof (Hq g) as Hg'.
  destruct (q g) as [[a|e] g1] eqn:Eq; simpl in Hg'; subst g1; [by eapply Hf|].
  by simplify_eq.
Qed.

Lemma create_volume_steady fresh spec g :
  volumes g !! fresh = None -> forall r g', wf g -> create_volume fresh spec g = (r, g') ->
  wf g' /\ (is_ok r = false -> g' = g).
Proof.
  intros Hf r g' Hg. unfold create_volume. case_bool_decide; intros [= <- <-]; [done|].
  split; [by apply wf_add_volume|done].
Qed.

Lemma patch_volume_steady uuid patch : steady (patch_volume uuid patch).
Proof.
  apply steady_query; [done|]. intros vol g Hq r g' Hg.
  assert (Hv : volumes g !! uuid = Some vol).
  { unfold volume_of in Hq. by destruct (volumes g !! uuid); simplify_eq/=. }
  assert (Hp : forall r g', patched uuid patch vol g = (r, g') ->
      wf g' /\ (is_ok r = false -> g' = g)).
  { intros r0 g0 [= <- <-]. split; [|done].
    apply (wf_patched uuid vol); [done..| |]; by destruct (patch_size patch). }
  destruct (junction_path patch) as [jp|]; [|apply Hp].
  destruct (starts_with (bs "/") jp); [apply Hp|]. by intros [= <- <-].
Qed.

Lemma delete_volume_steady uuid : steady (delete_volume uuid).
Proof.
  intros g r g' Hg. unfold delete_volume. destruct (volumes g !! uuid) as [vol|] eqn:E;
    intros [= <- <-]; [|done]. split; [by apply wf_delete_volume|done].
Qed.

Lemma snapshots_of_Some vol g snaps g' :
  snapshots_of vol g = (Ok snaps, g') -> snaps_of g !! vol = Some snaps /\ g' = g.
Proof. unfold snapshots_of. destruct (snaps_of g !! vol); intros [= <- <-]. done. Qed.

Lemma create_snapshot_steady fresh vol name g :
  (forall snaps, snaps_of g !! vol = Some snaps -> snaps !! fresh = None) ->
  forall r g', wf g -> create_snapshot fresh vol name g = (r, g') ->
  wf g' /\ (is_ok r = false -> g' = g).
Proof.
  intros Hf r g' Hg E. unfold create_snapshot, mbind, M_bind, fail in E.
  destruct (snapshots_of vol g) as [[snaps|e] g1] eqn:Es.
  - apply snapshots_of_Some in Es as [Hs ->]. destruct (has_name name snaps) eqn:En; simplify_eq/=;
      [done|]. split; [|done]. apply wf_insert_snap; auto.
  - unfold snapshots_of in Es. destruct (snaps_of g !! vol); simplify_eq. done.
Qed.

Lemma delete_snapshot_steady vol snap : steady (delete_snapshot vol snap).
Proof.
  apply steady_query; [done|]. intros snaps g Hq r g' Hg.
  apply snapshots_of_Some in Hq as [Hs _].
  destruct (snaps !! snap); intros [= <- <-]; [|done].
  split; [by apply wf_delete_snap|done].
Qed.

Lemma create_clone_steady fresh pv ps name g :
  volumes g !! fresh = None -> forall r g', wf g -> create_clone fresh pv ps name g = (r, g') ->
  wf g' /\ (is_ok r = false -> g' = g).
Proof.
  intros Hf r g' Hg E. unfold create_clone, mbind, M_bind, volume_of, snapshots_of, lift in E.
  destruct (volumes g !! pv) as [p|]; simplify_eq/=; [|done].
  destruct (snaps_of g !! pv) as [snaps|]; simplify_eq/=; [|done].
  destruct (snaps !! ps) as [snap|]; simplify_eq/=; [|done].
  unfold insert_clone in E. case_bool_decide; simplify_eq; [done|].
  split; [by apply wf_add_volume|done].
Qed.

Lemma receive_stream_steady fv fs dest src g :
  volumes g !! fv = None ->
  (forall u snaps, snaps_of g !! u = Some snaps -> snaps !! fs = None) ->
  forall r g', wf g -> receive_stream fv fs dest src g = (r, g') ->
  wf g' /\ (is_ok r = false -> g' = g).
Proof.
  intros Hfv Hfs r g' Hg E. unfold receive_stream, mbind, M_bind, mret, M_ret, lift in E.
  destruct (read_to_string src) as [raw|]; simplify_eq/=; [|done].
  destruct (decode_repl_stream raw) as [parsed|]; simplify_eq/=; [|done].
  destruct (resolve_dest fv dest parsed g) as [[u|e] g1] eqn:Er.
  - assert (H1 : wf g1 /\ exists snaps, snaps_of g1 !! u = Some snaps /\ snaps !! fs = None).
    { unfold resolve_dest in Er. destruct (find_volume dest g) as [u'|] eqn:Ef.
      - assert (Hu : g1 = g /\ u = u').
        { destruct (rs_base parsed); [destruct (has_name _ _)|]; by simplify_eq. }
        destruct Hu as [-> ->]. split; [done|].
        apply find_volume_Some in Ef as (v & Hv & _); [|done].
        destruct (proj2 (wf_snaps g Hg u') ltac:(by eexists)) as [snaps Hs].
        exists snaps. eauto.
      - destruct (rs_base parsed); simplify_eq. apply find_volume_None in Ef; [|done].
        split; [by apply wf_add_volume|]. exists ∅. simpl. by rewrite lookup_insert_eq, lookup_empty. }
    destruct H1 as [Hg1 (snaps & Hs & Hf)]. unfold apply_snapshot in E. rewrite Hs in E. simpl in E.
    destruct (has_name (rs_snapshot parsed) snaps) eqn:En; simplify_eq/=; [done|].
    split; [by apply wf_insert_snap|done].
  - simplify_eq. unfold resolve_dest in Er.
    repeat case_match; by simplify_eq.
Qed.

(** ** The stream's text *)

Lemma lines_concat ps :
  Forall (fun p => nl ∉ p) ps -> lines (concat ((fun p => p ++ [nl]) <$> ps)) = strip_cr <$> ps.
Proof.
  intros Hps. unfold lines.
  assert (Hs : split_on nl (concat ((fun p => p ++ [nl]) <$> ps)) = ps ++ [[]]).
  { induction Hps as [|p ps Hp _ IH]; [done|]. rewrite fmap_cons. cbn [concat app].
    rewrite <- app_assoc. cbn [app]. by rewrite split_on_app, IH. }
  rewrite Hs, length_app, last_snoc. cbn [length].
  by rewrite Nat.add_sub, take_app_length, app_nil_r.
Qed.

Lemma strip_cr_snoc s b : strip_cr (s ++ [b]) = if decide (b = cr) then s else s ++ [b].
Proof.
  unfold strip_cr, strip_suffix. rewrite rev_app_distr. cbn [rev app starts_with].
  rewrite length_app. cbn [length]. rewrite Nat.add_sub.
  case_decide as E; [subst b|rewrite bool_decide_false by congruence; done].
  rewrite bool_decide_true by done. simpl. by rewrite take_app_length.
Qed.

Lemma strip_cr_clean s : last s <> Some cr -> strip_cr s = s.
Proof.
  destruct s as [|b s _] using rev_ind; [done|]. rewrite last_snoc, strip_cr_snoc. intros Hb.
  by rewrite decide_False by congruence.
Qed.

(** A carriage return is only ever stripped from the value. *)
Lemma strip_cr_key key v : last key <> Some cr -> exists w, strip_cr (key ++ v) = key ++ w.
Proof.
  intros Hk. destruct v as [|b v _] using rev_ind.
  - exists []. rewrite app_nil_r. by apply strip_cr_clean.
  - rewrite app_assoc, strip_cr_snoc. case_decide; eexists; [done|by rewrite <- app_assoc].
Qed.

Lemma clean_key key s : nl ∉ key -> last key <> Some cr -> clean s -> clean (key ++ s).
Proof.
  intros Hk Hl [Hn Hc]. split; [set_solver|]. rewrite last_app.
  destruct (last s) eqn:E; [congruence|done].
Qed.

Lemma clean_nil : clean [].
Proof. split; [set_solver|done]. Qed.

Lemma clean_dec z : is_u64 z -> clean (dec z) /\ dec z <> [].
Proof.
  intros Hz. assert (Hd := dec_digits z ltac:(unfold is_u64 in Hz; lia)).
  rewrite Forall_forall in Hd. split; [split|].
  - intros Hin%Hd. by destruct Hin.
  - intros [l El]%last_Some. destruct (Hd cr) as [? Hx]; [rewrite El; set_solver|done].
  - apply dec_fuel_nonempty. by right.
Qed.

Lemma repl_line_key key val size snap base :
  equals ∉ key ->
  repl_line (Ok (size, snap, base)) (key ++ equals :: val) =
  if bool_decide (key = bs "size" /\ val <> []) then
    z ← ok_or (parse_u64 val) (InvalidArgument (bs "invalid size " ++ debug val));
    Ok (Some z, snap, base)
  else if bool_decide (key = bs "snapshot") then Ok (size, Some val, base)
  else if bool_decide (key = bs "base" /\ val <> []) then Ok (size, snap, Some val)
  else Ok (size, snap, base).
Proof. intros Hk. unfold repl_line. cbn [mbind result_bind]. by rewrite split_once_app. Qed.

(** The four descriptor lines, read in turn. *)
Lemma repl_lines_fold w size snap base :
  from_option is_u64 True size -> default [] base <> [] \/ base = None ->
  foldl repl_line (Ok (None, None, None))
    [bs "volume" ++ equals :: w; bs "size" ++ equals :: from_option dec [] size;
     bs "snapshot" ++ equals :: snap; bs "base" ++ equals :: default [] base] =
  Ok (size, Some snap, base).
Proof.
  intros Hsz Hb. cbn [foldl].
  rewrite repl_line_key by (apply (bool_decide_unpack _); vm_compute; exact I).
  rewrite (bool_decide_false (bs "volume" = bs "size" /\ _)) by (by intros [? _]).
  rewrite (bool_decide_false (bs "volume" = bs "snapshot")) by done.
  rewrite (bool_decide_false (bs "volume" = bs "base" /\ _)) by (by intros [? _]).
  rewrite repl_line_key by (apply (bool_decide_unpack _); vm_compute; exact I).
  replace (if bool_decide (bs "size" = bs "size" /\ from_option dec [] size <> []) then _ else _)
    with (Ok (size, None, None) :
      result BackendError (option Z * option (list byte) * option (list byte))).
  2:{ destruct size as [z|]; simpl in *.
      - destruct (clean_dec z Hsz) as [_ Hne]. rewrite bool_decide_true by done.
        unfold parse_u64. by rewrite parse_dec by (unfold is_u64, u64_max in *; lia).
      - done. }
  rewrite repl_line_key by (apply (bool_decide_unpack _); vm_compute; exact I).
  rewrite (bool_decide_false (bs "snapshot" = bs "size" /\ _)) by (by intros [? _]).
  rewrite (bool_decide_true (bs "snapshot" = bs "snapshot")) by done.
  rewrite repl_line_key by (apply (bool_decide_unpack _); vm_compute; exact I).
  rewrite (bool_decide_false (bs "base" = bs "size" /\ _)) by (by intros [? _]).
  rewrite (bool_decide_false (bs "base" = bs "snapshot")) by done.
  case_bool_decide; destruct base; simpl in *; naive_solver.
Qed.

Lemma repl_decode_encode v size snap base :
  nl ∉ v -> from_option is_u64 True size -> clean snap ->
  from_option (fun b => clean b /\ b <> []) True base ->
  decode_repl_stream (encode_repl_stream v size snap base) = Ok (mkRepl size snap base).
Proof.
  intros Hv Hsz Hsn Hb.
  assert (Hks : clean (bs "size=" ++ from_option dec [] size) /\ clean (bs "snapshot=" ++ snap) /\
                clean (bs "base=" ++ default [] base)).
  { split_and!; (apply clean_key;
      [apply (bool_decide_unpack _); vm_compute; exact I|vm_compute; discriminate|]); [|exact Hsn|].
    - destruct size as [z|]; [by apply clean_dec|apply clean_nil].
    - destruct base as [b|]; [apply Hb|apply clean_nil]. }
  destruct Hks as ([K1 K1'] & [K2 K2'] & [K3 K3']).
  replace (encode_repl_stream v size snap base) with
    (concat ((fun p => p ++ [nl]) <$> [repl_magic; bs "volume=" ++ v;
       bs "size=" ++ from_option dec [] size; bs "snapshot=" ++ snap; bs "base=" ++ default [] base])).
  2:{ unfold encode_repl_stream. cbn [fmap list_fmap concat]. by rewrite app_nil_r, <- !app_assoc. }
  unfold decode_repl_stream. rewrite lines_concat.
  2:{ repeat constructor; try done; [apply (bool_decide_unpack _); vm_compute; exact I|].
      rewrite not_elem_of_app. split; [apply (bool_decide_unpack _); vm_compute; exact I|done]. }
  cbn [fmap list_fmap]. rewrite (strip_cr_clean _ K1'), (strip_cr_clean _ K2'), (strip_cr_clean _ K3').
  destruct (strip_cr_key (bs "volume=") v ltac:(done)) as [w ->].
  replace (strip_cr repl_magic) with repl_magic by (vm_compute; reflexivity).
  rewrite bool_decide_true by done.
  pose proof (repl_lines_fold w size snap base Hsz) as Hf. cbn [foldl] in Hf |- *.
  change (bs "volume=" ++ w) with (bs "volume" ++ equals :: w).
  change (bs "size=" ++ from_option dec [] size) with (bs "size" ++ equals :: from_option dec [] size).
  change (bs "snapshot=" ++ snap) with (bs "snapshot" ++ equals :: snap).
  change (bs "base=" ++ default [] base) with (bs "base" ++ equals :: default [] base).
  rewrite Hf; [done|]. destruct base; [left; apply Hb|by right].
Qed.

Lemma apply_op_steady o g b g' :
  wf g -> draws_fresh o g -> apply_op o g = (b, g') -> wf g' /\ (b = false -> g' = g).
Proof.
  intros Hg Hf. destruct o; simpl in *; unfold run_op.
  all: match goal with |- (is_ok ?x.1, _) = _ -> _ => destruct x as [r g1] eqn:E end.
  all: simpl; intros [= <- <-].
  - by eapply create_volume_steady.
  - by eapply patch_volume_steady.
  - by eapply delete_volume_steady.
  - eapply create_snapshot_steady; [|done..]. intros snaps. apply Hf.
  - by eapply delete_snapshot_steady.
  - by eapply create_clone_steady.
  - eapply receive_stream_steady; [apply Hf| |done..]. intros u snaps. apply Hf.
Qed.

Lemma reachable_wf g : reachable g -> wf g.
Proof.
  induction 1 as [|g o b g' _ IH Hf E]; [apply wf_empty|]. by eapply apply_op_steady.
Qed.

(** Whatever sequence of requests the backend has served, its three tables agree
    (volume names in use are exactly the names of the volumes, each name belongs to
    one volume, each volume has its own snapshot table with distinct names), and the
    next request keeps them so; a request that fails, whatever the error and however
    far it got, leaves the state exactly as it was. *)
Theorem tables_agree g o b g' :
  reachable g -> draws_fresh o g -> apply_op o g = (b, g') ->
  wf g' /\ (b = false -> g' = g).
Proof. intros Hr. by apply apply_op_steady, reachable_wf. Qed.

(** A replication descriptor decodes to the size, snapshot and base it was made
    from, whatever the volume's name, provided the names have no line break in them
    (and the snapshot names do not end in a carriage return). *)
Theorem repl_stream_roundtrip v size snap base :
  nl ∉ v -> from_option is_u64 True size -> clean snap ->
  from_option (fun b => clean b /\ b <> []) True base ->
  decode_repl_stream (encode_repl_stream v size snap base) = Ok (mkRepl size snap base).
Proof. apply repl_decode_encode. Qed.

Lemma read_to_string_cursor s : utf8_valid s = true -> read_to_string (cursor s) = Ok s.
Proof. intros Hs. unfold read_to_string. rewrite read_to_end_cursor. simpl. by rewrite Hs. Qed.

Lemma encode_utf8 v size snap base :
  utf8_valid v = true -> from_option is_u64 True size -> utf8_valid snap = true ->
  utf8_valid (default [] base) = true ->
  utf8_valid (encode_repl_stream v size snap base) = true.
Proof.
  intros Hv Hsz Hs Hb. unfold encode_repl_stream.
  repeat (apply utf8_valid_app; [assumption || reflexivity|]).
  apply utf8_valid_app.
  { destruct size as [z|]; [|done]. simpl in *. apply utf8_valid_ascii.
    eapply Forall_impl; [apply dec_digits; unfold is_u64 in *; lia|].
    intros b [d Hd]. unfold digit_val in Hd. unfold in_range.
    case_bool_decide; [|done]. rewrite bool_decide_true by lia. done. }
  repeat (apply utf8_valid_app; [assumption || reflexivity|]). reflexivity.
Qed.

Lemma lift_ok {A B} (a : A) (f : A -> op B) g : (lift (Ok a) ≫= f) g = f a g.
Proof. done. Qed.

(** What [receive_stream] does with a descriptor it can read: the rest of the
    operation, on the decoded stream. *)
Lemma receive_encoded fv fs dest v size snap base g :
  nl ∉ v -> from_option is_u64 True size -> clean snap ->
  from_option (fun b => clean b /\ b <> []) True base ->
  utf8_valid v = true -> utf8_valid snap = true -> utf8_valid (default [] base) = true ->
  receive_stream fv fs dest (cursor (encode_repl_stream v size snap base)) g =
  (resolve_dest fv dest (mkRepl size snap base) ≫= fun u =>
   apply_snapshot fs u snap ≫= fun _ =>
   mret (zlen (encode_repl_stream v size snap base))) g.
Proof.
  intros Hv Hsz Hsn Hb Uv Us Ub. unfold receive_stream.
  rewrite read_to_string_cursor by by apply encode_utf8.
  rewrite !lift_ok. by rewrite repl_decode_encode, lift_ok by done.
Qed.

Lemma send_stream_ok vol v snaps snap base g :
  volumes g !! vol = Some v -> snaps_of g !! vol = Some snaps -> has_name snap snaps = true ->
  from_option (fun b => has_name b snaps = true) True base ->
  send_stream vol snap base g =
  (Ok (cursor (encode_repl_stream (v_name v) (size_bytes v) snap base)), g).
Proof.
  intros Hv Hs Hsn Hb. unfold send_stream, mbind, M_bind, volume_of, snapshots_of.
  rewrite Hv, Hs. cbn [ok_or]. rewrite Hsn. cbn [negb]. destruct base as [b|]; [|done].
  simpl in Hb. by rewrite Hb.
Qed.

(** A volume whose name and size a descriptor can carry. *)
Definition sendable (v : Volume) : Prop :=
  (nl ∉ v_name v) /\ utf8_valid (v_name v) = true /\ from_option is_u64 True (size_bytes v).

Definition snap_name_ok (s : list byte) : Prop := clean s /\ s <> [] /\ utf8_valid s = true.

(** Replicating a snapshot to a backend that has no volume of the destination's
    name creates exactly that volume, with the source's size and the one snapshot, and
    touches nothing else; receiving the same stream again changes nothing. *)
Theorem replicate_full src vol v snaps snap dst fv fs dest :
  volumes src !! vol = Some v -> snaps_of src !! vol = Some snaps -> has_name snap snaps = true ->
  sendable v -> snap_name_ok snap ->
  wf dst -> dest ∉ names dst -> volumes dst !! fv = None ->
  exists stream n dst',
    send_stream vol snap None src = (Ok stream, src) /\
    receive_stream fv fs dest stream dst = (Ok n, dst') /\
    volumes dst' = <[fv := new_volume fv dest (size_bytes v) None]> (volumes dst) /\
    snaps_of dst' = <[fv := {[fs := mkSnapshot fs snap None 0]}]> (snaps_of dst) /\
    names dst' = names dst ∪ {[dest]} /\
    forall fv' fs', receive_stream fv' fs' dest stream dst' = (Ok n, dst').
Proof.
  intros Hv Hs Hn (Nv & Uv & Sv) (Csn & _ & Usn) Hwf Hd Hf.
  set (vol' := new_volume fv dest (size_bytes v) None).
  set (dst' := set_snaps fv {[fs := mkSnapshot fs snap None 0]} (add_volume vol' dst)).
  assert (Hwf' : wf dst').
  { apply (wf_insert_snap fv ∅ snap fs); [by apply wf_add_volume|simpl; by rewrite lookup_insert_eq| |done].
    by vm_compute. }
  exists (cursor (encode_repl_stream (v_name v) (size_bytes v) snap None)).
  exists (zlen (encode_repl_stream (v_name v) (size_bytes v) snap None)), dst'.
  split_and!; [by apply (send_stream_ok _ _ snaps)| | |simpl; by rewrite insert_insert_eq| |];
    [|done..|].
  - rewrite receive_encoded by done. unfold mbind, M_bind, resolve_dest.
    rewrite (proj2 (find_volume_None dest dst Hwf) Hd). simpl.
    unfold apply_snapshot. simpl. rewrite lookup_insert_eq. simpl. done.
  - intros fv' fs'. rewrite receive_encoded by done. unfold mbind, M_bind, resolve_dest.
    rewrite (proj2 (find_volume_Some dest dst' fv Hwf')).
    2:{ exists vol'. simpl. by rewrite lookup_insert_eq. }
    simpl. unfold apply_snapshot. simpl. rewrite lookup_insert_eq. simpl.
    rewrite (proj2 (has_name_true _ _)); [done|].
    exists fs, (mkSnapshot fs snap None 0). by rewrite lookup_singleton_eq.
Qed.

(** An incremental stream is applied only where its base already is: the existing
    destination gains exactly the one snapshot (or nothing, if it has it), a
    destination without the base, or no destination at all, is refused and unchanged. *)
Theorem replicate_incremental src vol v snaps snap base dst fv fs dest :
  volumes src !! vol = Some v -> snaps_of src !! vol = Some snaps ->
  has_name snap snaps = true -> has_name base snaps = true ->
  sendable v -> snap_name_ok snap -> snap_name_ok base -> wf dst ->
  exists stream r dst',
    send_stream vol snap (Some base) src = (Ok stream, src) /\
    receive_stream fv fs dest stream dst = (r, dst') /\
    match find_volume dest dst with
    | Some u =>
        exists have, snaps_of dst !! u = Some have /\
        if has_name base have
        then is_ok r = true /\
          dst' = if has_name snap have then dst
                 else set_snaps u (<[fs := mkSnapshot fs snap None 0]> have) dst
        else (exists m, r = Err (InvalidArgument m)) /\ dst' = dst
    | None => (exists m, r = Err (InvalidArgument m)) /\ dst' = dst
    end.
Proof.
  intros Hv Hs Hn Hb (Nv & Uv & Sv) (Csn & _ & Usn) (Cb & Nb & Ub) Hwf.
  exists (cursor (encode_repl_stream (v_name v) (size_bytes v) snap (Some base))).
  exists (receive_stream fv fs dest
    (cursor (encode_repl_stream (v_name v) (size_bytes v) snap (Some base))) dst).1.
  exists (receive_stream fv fs dest
    (cursor (encode_repl_stream (v_name v) (size_bytes v) snap (Some base))) dst).2.
  split; [by apply (send_stream_ok _ _ snaps)|].
  split; [apply surjective_pairing|]. rewrite receive_encoded by done.
  unfold mbind, M_bind, resolve_dest. destruct (find_volume dest dst) as [u|] eqn:Ef; [|by eauto].
  apply find_volume_Some in Ef as (w & Hw & _); [|done].
  destruct (proj2 (wf_snaps dst Hwf u) (mk_is_Some _ _ Hw)) as [have Hh].
  exists have. split; [done|]. simpl. rewrite Hh. simpl.
  destruct (has_name base have); [|by eauto]. unfold apply_snapshot. rewrite Hh. simpl.
  by destruct (has_name snap have).
Qed.

(** [create_clone] checks the parent, then its snapshot, then the name, and
    reports the first that fails; otherwise the new volume has the parent's size,
    records the parent's and the snapshot's names, starts with no snapshots, and no
    other volume or snapshot changes. *)
Theorem clone_outcome fresh pv ps name g r g' :
  wf g -> volumes g !! fresh = None -> create_clone fresh pv ps name g = (r, g') ->
  match r with
  | Err e => g' = g /\
      match volumes g !! pv with
      | None => e = VolumeNotFound pv
      | Some _ =>
          match snaps_of g !! pv ≫= lookup ps with
          | None => e = SnapshotNotFound pv ps
          | Some _ => e = VolumeExists name /\ name ∈ names g
          end
      end
  | Ok vol => exists p snaps s,
      volumes g !! pv = Some p /\ snaps_of g !! pv = Some snaps /\ snaps !! ps = Some s /\
      size_bytes vol = size_bytes p /\ v_name vol = name /\
      clone vol = Some (mkOrigin (v_name p) (s_name s)) /\
      (get_volume fresh g').1 = Ok vol /\ (list_snapshots fresh g').1 = Ok [] /\
      forall u, u <> fresh -> volumes g' !! u = volumes g !! u /\ snaps_of g' !! u = snaps_of g !! u
  end.
Proof.
  intros Hg Hf E. unfold create_clone, mbind, M_bind, volume_of, snapshots_of, lift in E.
  destruct (volumes g !! pv) as [p|] eqn:Ep; simplify_eq/=; [|done].
  destruct (proj2 (wf_snaps g Hg pv) (mk_is_Some _ _ Ep)) as [snaps Es]. rewrite Es in E |- *.
  cbn [ok_or] in E. destruct (snaps !! ps) as [s|] eqn:Ek; simplify_eq/=.
  2:{ by rewrite Ek. }
  unfold insert_clone in E. case_bool_decide as Hn; simplify_eq; [by rewrite Ek|].
  exists p, snaps, s. split_and!; try done.
  - unfold get_volume, volume_of. simpl. by rewrite lookup_insert_eq.
  - unfold list_snapshots, snapshots_of, mbind, M_bind. simpl.
    by rewrite lookup_insert_eq.
  - intros u Hu. simpl. by rewrite !lookup_insert_ne.
Qed.
End backend.

(** ** Witnesses *)

Module MemBackendExample.

Definition debug (s : list byte) : list byte := s.

(** A volume [1] named [home] with a snapshot [10] named [monday]. *)
Definition home : Volume := new_volume 1%N (bs "home") (Some 4096) None.
Definition one : Inner := add_volume home empty.
Definition two : Inner := set_snaps 1%N {[10%N := mkSnapshot 10%N (bs "monday") None 0]} one.
Definition three : Inner :=
  set_snaps 1%N {[10%N := mkSnapshot 10%N (bs "monday") None 0;
                  11%N := mkSnapshot 11%N (bs "tuesday") None 0]} one.

Lemma two_reachable : reachable debug two.
Proof.
  eapply (reach_step debug one (OpSnapshot 10%N 1%N (bs "monday")) true).
  - eapply (reach_step debug empty (OpCreate 1%N (mkSpec (bs "home") (Some 4096))) true);
      [apply reach_empty|done|].
    vm_compute. reflexivity.
  - simpl. unfold fresh_snap_in. apply (bool_decide_unpack _). vm_compute. exact I.
  - vm_compute. reflexivity.
Defined.

(** A second volume of the same name is refused, and nothing changes. *)
Theorem tables_agree_witness :
  wf two /\ (false = false -> two = two).
Proof.
  apply (tables_agree debug two (OpCreate 2%N (mkSpec (bs "home") None)) false two).
  - exact two_reachable.
  - vm_compute. reflexivity.
  - vm_compute. reflexivity.
Defined.

Theorem repl_stream_roundtrip_witness :
  decode_repl_stream debug (encode_repl_stream (bs "home") (Some 4096) (bs "tuesday")
    (Some (bs "monday"))) = Ok (mkRepl (Some 4096) (bs "tuesday") (Some (bs "monday"))).
Proof.
  apply repl_stream_roundtrip.
  - apply (bool_decide_unpack _). vm_compute. exact I.
  - vm_compute. split; congruence.
  - split; [|vm_compute; discriminate]. apply (bool_decide_unpack _). vm_compute. exact I.
  - split; [split; [|vm_compute; discriminate]|discriminate].
    apply (bool_decide_unpack _). vm_compute. exact I.
Defined.

Lemma home_sendable : sendable home.
Proof.
  split; [apply (bool_decide_unpack _); vm_compute; exact I|].
  split; [reflexivity|vm_compute; split; congruence].
Qed.

Lemma day_ok s :
  bool_decide (nl ∉ s) && bool_decide (last s <> Some cr) && bool_decide (s <> []) && utf8_valid s
  = true -> snap_name_ok s.
Proof.
  intros [[[H1%bool_decide_eq_true H2%bool_decide_eq_true]%andb_true_iff
    H3%bool_decide_eq_true]%andb_true_iff H4]%andb_true_iff. by split_and!.
Qed.

Theorem replicate_full_witness :
  exists stream n dst', send_stream debug 1%N (bs "monday") None two = (Ok stream, two) /\
    receive_stream debug 5%N 6%N (bs "copy") stream empty = (Ok n, dst') /\
    volumes dst' = <[5%N := new_volume 5%N (bs "copy") (Some 4096) None]> (volumes empty).
Proof.
  destruct (replicate_full debug two 1%N home {[10%N := mkSnapshot 10%N (bs "monday") None 0]}
    (bs "monday") empty 5%N 6%N (bs "copy")) as (stream & n & dst' & H1 & H2 & H3 & _).
  - vm_compute. reflexivity.
  - vm_compute. reflexivity.
  - vm_compute. reflexivity.
  - exact home_sendable.
  - apply day_ok. vm_compute. reflexivity.
  - exact wf_empty.
  - apply (bool_decide_unpack _). vm_compute. exact I.
  - reflexivity.
  - exists stream, n, dst'. exact (conj H1 (conj H2 H3)).
Defined.

(** [monday] to [tuesday], sent to a destination that has [monday]. *)
Theorem replicate_incremental_witness :
  exists stream r dst', send_stream debug 1%N (bs "tuesday") (Some (bs "monday")) three
      = (Ok stream, three) /\
    receive_stream debug 5%N 6%N (bs "home") stream two = (r, dst') /\
    dst' = set_snaps 1%N (<[6%N := mkSnapshot 6%N (bs "tuesday") None 0]>
             {[10%N := mkSnapshot 10%N (bs "monday") None 0]}) two.
Proof.
  destruct (replicate_incremental debug three 1%N home
    {[10%N := mkSnapshot 10%N (bs "monday") None 0; 11%N := mkSnapshot 11%N (bs "tuesday") None 0]}
    (bs "tuesday") (bs "monday") two 5%N 6%N (bs "home")) as (stream & r & dst' & H1 & H2 & H3).
  - vm_compute. reflexivity.
  - vm_compute. reflexivity.
  - vm_compute. reflexivity.
  - vm_compute. reflexivity.
  - exact home_sendable.
  - apply day_ok. vm_compute. reflexivity.
  - apply day_ok. vm_compute. reflexivity.
  - exact (reachable_wf debug two two_reachable).
  - exists stream, r, dst'. split; [exact H1|]. split; [exact H2|].
    replace (find_volume (bs "home") two) with (Some 1%N : option VolumeUuid) in H3
      by (vm_compute; reflexivity).
    destruct H3 as (have & Hh & H3).
    assert (E : {[10%N := mkSnapshot 10%N (bs "monday") None 0]} = have)
      by (vm_compute in Hh; injection Hh as <-; reflexivity).
    subst have. destruct H3 as [_ ->]. vm_compute. reflexivity.
Defined.

Theorem clone_outcome_witness :
  exists p snaps s,
    volumes two !! (1%N : VolumeUuid) = Some p /\ snaps_of two !! (1%N : VolumeUuid) = Some snaps /\
    snaps !! (10%N : SnapshotUuid) = Some s /\
    (create_clone 2%N 1%N 10%N (bs "fork") two).1
      = Ok (new_volume 2%N (bs "fork") (size_bytes p) (Some (mkOrigin (v_name p) (s_name s)))).
Proof.
  destruct (clone_outcome 2%N 1%N 10%N (bs "fork") two
    (Ok (new_volume 2%N (bs "fork") (Some 4096) (Some (mkOrigin (bs "home") (bs "monday")))))
    (create_clone 2%N 1%N 10%N (bs "fork") two).2
    (reachable_wf debug two two_reachable))
    as (p & snaps & s & H1 & H2 & H3 & H4 & _ & H6 & _).
  - vm_compute. reflexivity.
  - vm_compute. reflexivity.
  - exists p, snaps, s. split; [exact H1|]. split; [exact H2|]. split; [exact H3|].
    cbn [size_bytes clone new_volume] in H4, H6. injection H6 as <- <-. rewrite <- H4.
    vm_compute. reflexivity.
Defined.

(** Snapshot names are written into the descriptor as they are: one with a line break
    in it forges the lines after it, so a full stream arrives as an incremental one. *)
Lemma line_break_forges_base :
  decode_repl_stream debug (encode_repl_stream (bs "home") None (bs "a" ++ nl :: bs "base=b") None)
  = Ok (mkRepl None (bs "a") (Some (bs "b"))).
Proof. vm_compute. reflexivity. Qed.
End MemBackendExample.
