(* ===== verification/Xdr.v ===== *)
(** XDR serialization (crates/nessie-nfsserve/src/xdr.rs): the [XDR] trait as a type
    class with its laws, its instances for the primitive types, opaque data and
    integer vectors, and the shapes its macros generate (enumerations, structures).

    The sink is a growing [Vec<u8>], which never fails: [ser] is the bytes written, or
    [None] where an [assert!] panics.  The source is a [Cursor] over bytes: [de]
    takes the value being overwritten, as the method does, and the bytes left.  Every
    caller gives up at the first error, so the source's position after one is not
    kept. *)

From Stdlib Require Import ZArith Lia.
From stdpp Require Import base list option.
From S2P Require Import Prelude.

Local Open Scope Z_scope.

(** [std::io::Error]s the decoders make: an exhausted source, and an unknown
    enumeration value. *)
Inductive xdr_error := UnexpectedEof | InvalidData.

Abbreviation XM := (M xdr_error (list byte)).

(** [Read::read_exact] into a buffer of [n] bytes. *)
Definition read_exact (n : Z) : XM (list byte) := fun src =>
  if bool_decide (n <= zlen src) then (Ok (take (Z.to_nat n) src), drop (Z.to_nat n) src)
  else (Err UnexpectedEof, src).

Class XDR (A : Type) := {
  default_ : A;
  ser : A -> option (list byte);
  de : A -> XM A;
}.

(** [WriteBytesExt::write_u32::<BigEndian>], [read_u32], and their 64-bit and signed
    forms. *)
Definition write_be (n : nat) (z : Z) : list byte := be_bytes n z.
Definition read_be (n : nat) : XM Z := b ← read_exact (Z.of_nat n); mret (be_val b).

#[global] Arguments write_be : simpl never.
#[global] Arguments read_be : simpl never.
#[global] Arguments read_exact : simpl never.

(** [.serialize(dest)?] one after the other. *)
Definition ser_seq (l : list (option (list byte))) : option (list byte) := @concat byte <$> mapM id l.

#[export] Instance xdr_bool : XDR bool := {|
  default_ := false;
  ser b := Some (write_be 4 (if b then 1 else 0));
  de _ := v ← read_be 4; mret (bool_decide (0 < v));
|}.

(** The integer types, each a newtype-free [Z] told apart by its instance. *)
Definition u32_xdr : XDR Z := {|
  default_ := 0; ser z := Some (write_be 4 z); de _ := read_be 4;
|}.
Definition u64_xdr : XDR Z := {|
  default_ := 0; ser z := Some (write_be 8 z); de _ := read_be 8;
|}.
Definition i32_xdr : XDR Z := {|
  default_ := 0; ser z := Some (write_be 4 z); de _ := v ← read_be 4; mret (signed 4 v);
|}.
Definition i64_xdr : XDR Z := {|
  default_ := 0; ser z := Some (write_be 8 z); de _ := v ← read_be 8; mret (signed 8 v);
|}.

(** [[u8; N]] *)
Definition array_xdr (n : nat) : XDR (list byte) := {|
  default_ := replicate n (z2b 0);
  ser b := Some b;
  de _ := read_exact (Z.of_nat n);
|}.

(** [(4 - length % 4) % 4], in 32 bits. *)
Definition pad_of (length : Z) : Z := (4 - length mod 4) mod 4.

(** [Vec<u8>] *)
#[export] Instance opaque_xdr : XDR (list byte) := {|
  default_ := [];
  ser v :=
    if bool_decide (zlen v < u32_max)
    then Some (write_be 4 (zlen v) ++ v ++ replicate (Z.to_nat (pad_of (zlen v))) (z2b 0))
    else None;
  de _ :=
    length ← read_be 4;
    v ← read_exact length;
    _ ← read_exact (pad_of length);
    mret v;
|}.

(** The [for i in self] loop over a resized vector. *)
Fixpoint de_times {A} (d : XM A) (n : nat) : XM (list A) :=
  match n with
  | O => mret []
  | S n => x ← d; xs ← de_times d n; mret (x :: xs)
  end.

(** [Vec<u32>] *)
#[export] Instance words_xdr : XDR (list Z) := {|
  default_ := [];
  ser v :=
    if bool_decide (zlen v < u32_max)
    then ser_seq (Some (write_be 4 (zlen v)) :: (@ser _ u32_xdr <$> v))
    else None;
  de _ := length ← read_be 4; de_times (@de _ u32_xdr 0) (Z.to_nat length);
|}.

(** [xdr_enum_serde!]: [disc] is [*self as u32], [from_u32] what [FromPrimitive]
    derives. *)
Definition enum_xdr {A} (dflt : A) (disc : A -> Z) (from_u32 : Z -> option A) : XDR A := {|
  default_ := dflt;
  ser a := Some (write_be 4 (disc a));
  de _ := r ← read_be 4; lift (ok_or (from_u32 r) InvalidData);
|}.

(** ** The contract *)

(** [d] reads exactly the bytes [x] as [v], whatever follows them. *)
Definition decodes {A} (d : XM A) (x : list byte) (v : A) : Prop :=
  forall rest, d (x ++ rest) = (Ok v, rest).

(** What [d] leaves is a suffix of what it was given. *)
Definition consumes {A} (d : XM A) : Prop :=
  forall s v s', d s = (Ok v, s') -> exists x, s = x ++ s'.

Class XDRLaws {A} (X : XDR A) := {
  xdr_valid : A -> Prop;
  ser_total a : xdr_valid a -> is_Some (ser a);
  ser_de self a x : xdr_valid a -> ser a = Some x -> decodes (de self) x a;
  de_consumes self : consumes (de self);
}.
#[global] Hint Mode XDRLaws + + : typeclass_instances.

Lemma decodes_ret {A} (a : A) : decodes (mret a) [] a.
Proof. done. Qed.

Lemma decodes_bind {A B} (d : XM A) (f : A -> XM B) x y a b :
  decodes d x a -> decodes (f a) y b -> decodes (d ≫= f) (x ++ y) b.
Proof.
  intros Hd Hf rest. unfold mbind, M_bind. rewrite <- app_assoc, Hd. apply Hf.
Qed.

Lemma decodes_map {A B} (d : XM A) (f : A -> XM B) x a b :
  decodes d x a -> decodes (f a) [] b -> decodes (d ≫= f) x b.
Proof. intros Hd Hf. rewrite <- (app_nil_r x). by eapply decodes_bind. Qed.

Lemma decodes_read_exact x : decodes (read_exact (zlen x)) x x.
Proof.
  intros rest. unfold read_exact. rewrite zlen_app. pose proof (zlen_nonneg rest).
  rewrite bool_decide_true by lia. unfold zlen.
  by rewrite Nat2Z.id, take_app_length, drop_app_length.
Qed.

Lemma decodes_be n z : 0 <= z < 256 ^ Z.of_nat n -> decodes (read_be n) (write_be n z) z.
Proof.
  intros Hz. eapply decodes_map.
  - rewrite <- (length_be_bytes n z) at 1. apply decodes_read_exact.
  - rewrite be_val_bytes, Z.mod_small by done. apply decodes_ret.
Qed.

Lemma consumes_ret {A} (a : A) : consumes (mret a).
Proof. intros s v s' [= <- <-]. by exists []. Qed.

Lemma consumes_lift {A} (r : result xdr_error A) : consumes (lift r).
Proof. intros s v s' [= _ <-]. by exists []. Qed.

Lemma consumes_fail {A} e : consumes (fail (A := A) e).
Proof. by intros s v s' [=]. Qed.

Lemma consumes_bind {A B} (d : XM A) (f : A -> XM B) :
  consumes d -> (forall a, consumes (f a)) -> consumes (d ≫= f).
Proof.
  intros Hd Hf s v s' E. apply M_bind_inv in E as (a & s1 & E1 & E2).
  apply Hd in E1 as [x ->]. apply Hf in E2 as [y ->]. exists (x ++ y). by rewrite app_assoc.
Qed.

Lemma consumes_read_exact n : consumes (read_exact n).
Proof.
  intros s v s'. unfold read_exact. case_bool_decide; intros [= <- <-].
  exists (take (Z.to_nat n) s). by rewrite take_drop.
Qed.

Create HintDb xdr.
#[export] Hint Resolve consumes_ret consumes_lift consumes_fail consumes_read_exact : xdr.
#[export] Hint Resolve consumes_bind : xdr.

Lemma consumes_be n : consumes (read_be n).
Proof. unfold read_be. auto with xdr. Qed.
#[export] Hint Resolve consumes_be : xdr.

Lemma ser_seq_nil : ser_seq [] = Some [].
Proof. done. Qed.

Lemma ser_seq_cons o l x :
  ser_seq (o :: l) = Some x <-> exists y z, o = Some y /\ ser_seq l = Some z /\ x = y ++ z.
Proof.
  unfold ser_seq. cbn [mapM]. destruct o as [y|]; simpl; [|naive_solver].
  destruct (mapM id l) as [zs|]; simpl; naive_solver.
Qed.

(** ** The instances keep the contract *)

#[export] Instance bool_laws : XDRLaws xdr_bool.
Proof.
  refine {| xdr_valid _ := True |}.
  - by intros a _.
  - intros self a x _ [= <-]. eapply decodes_map; [apply decodes_be; by destruct a|]. by destruct a.
  - intros self. simpl. auto with xdr.
Defined.

#[export] Instance u32_laws : XDRLaws u32_xdr.
Proof.
  refine {| xdr_valid := is_u32 |}.
  - by intros a _.
  - intros self a x Ha [= <-]. apply decodes_be. unfold is_u32, u32_max in Ha. lia.
  - intros self. simpl. auto with xdr.
Defined.

#[export] Instance u64_laws : XDRLaws u64_xdr.
Proof.
  refine {| xdr_valid := is_u64 |}.
  - by intros a _.
  - intros self a x Ha [= <-]. apply decodes_be. unfold is_u64, u64_max in Ha. lia.
  - intros self. simpl. auto with xdr.
Defined.

#[export] Instance array_laws n : XDRLaws (array_xdr n).
Proof.
  refine {| xdr_valid (b : list byte) := length b = n |}.
  - by intros a _.
  - intros self a x <- [= <-]. apply decodes_read_exact.
  - intros self. simpl. auto with xdr.
Defined.

Lemma pad_of_range z : 0 <= pad_of z < 4.
Proof. unfold pad_of. apply Z.mod_pos_bound. lia. Qed.

#[export] Instance opaque_laws : XDRLaws opaque_xdr.
Proof.
  refine {| xdr_valid (b : list byte) := zlen b < u32_max |}.
  - intros a Ha. simpl. by rewrite bool_decide_true.
  - intros self a x Ha E. cbn [ser opaque_xdr] in E. rewrite bool_decide_true in E by done.
    apply (inj Some) in E. subst x.
    pose proof (zlen_nonneg a). pose proof (pad_of_range (zlen a)). cbn [de opaque_xdr].
    eapply decodes_bind; [apply decodes_be; unfold u32_max in Ha; lia|].
    eapply decodes_bind; [apply decodes_read_exact|].
    eapply decodes_map; [|apply decodes_ret].
    replace (pad_of (zlen a)) with (zlen (replicate (Z.to_nat (pad_of (zlen a))) (z2b 0))) at 1
      by (unfold zlen; rewrite length_replicate; unfold zlen in *; lia).
    apply decodes_read_exact.
  - intros self. simpl. auto 10 with xdr.
Defined.

Lemma de_times_decodes {A} (X : XDR A) `{!XDRLaws X} self (l : list A) x :
  Forall xdr_valid l -> ser_seq (ser <$> l) = Some x -> decodes (de_times (de self) (length l)) x l.
Proof.
  intros Hl. revert x. induction Hl as [|a l Ha Hl IH]; intros x.
  - intros [= <-]. apply decodes_ret.
  - rewrite fmap_cons, ser_seq_cons. intros (y & z & Hy & Hz & ->). simpl.
    eapply decodes_bind; [by apply ser_de|]. eapply decodes_map; [by apply IH|apply decodes_ret].
Qed.

Lemma de_times_consumes {A} (d : XM A) n : consumes d -> consumes (de_times d n).
Proof. intros Hd. induction n; simpl; auto with xdr. Qed.
#[export] Hint Resolve de_times_consumes : xdr.

Lemma ser_seq_total {A} (X : XDR A) `{!XDRLaws X} (l : list A) :
  Forall xdr_valid l -> is_Some (ser_seq (ser <$> l)).
Proof.
  intros Hl. induction Hl as [|a l Ha Hl IH]; [by exists []|].
  destruct (ser_total a Ha) as [x Hx], IH as [y Hy]. exists (x ++ y).
  rewrite fmap_cons. apply ser_seq_cons. eauto.
Qed.

#[export] Instance words_laws : XDRLaws words_xdr.
Proof.
  refine {| xdr_valid (v : list Z) := zlen v < u32_max /\ Forall is_u32 v |}.
  - intros a [Ha Hf]. simpl. rewrite bool_decide_true by done.
    destruct (@ser_seq_total _ u32_xdr u32_laws a Hf) as [y Hy]. exists (write_be 4 (zlen a) ++ y).
    apply ser_seq_cons. eauto.
  - intros self a x [Ha Hf] E. cbn [ser words_xdr] in E. rewrite bool_decide_true in E by done.
    apply ser_seq_cons in E as (y & z & [= <-] & Hz & ->). pose proof (zlen_nonneg a).
    eapply decodes_bind; [apply decodes_be; unfold u32_max in Ha; lia|].
    unfold zlen. rewrite Nat2Z.id. by apply (@de_times_decodes _ u32_xdr u32_laws).
  - intros self. simpl. auto with xdr.
Defined.

(** An enumeration whose discriminants [FromPrimitive] inverts. *)
Lemma enum_laws {A} (dflt : A) disc from_u32 :
  (forall a, is_u32 (disc a)) -> (forall a, from_u32 (disc a) = Some a) ->
  XDRLaws (enum_xdr dflt disc from_u32).
Proof.
  intros Hr Hi. refine {| xdr_valid _ := True |}.
  - by intros a _.
  - intros self a x _ [= <-]. eapply decodes_map.
    + apply decodes_be. specialize (Hr a). unfold is_u32, u32_max in Hr. lia.
    + rewrite Hi. by intros rest.
  - intros self. simpl. auto with xdr.
Defined.
