(* ===== verification/Rpc.v ===== *)
(** The ONC RPC message types and their wire form
    (crates/nessie-nfsserve/src/rpc.rs): every structure and union with its [XDR]
    instance and the laws of Xdr.v, and the reply constructors. *)

From Stdlib Require Import ZArith Lia.
From stdpp Require Import base list option.
From S2P Require Import Prelude Xdr.

Local Open Scope Z_scope.

(** ** Enumerations *)

Inductive msg_type := MT_CALL | MT_REPLY.
Inductive reply_stat := RS_MSG_ACCEPTED | RS_MSG_DENIED.
Inductive accept_stat := AS_SUCCESS | AS_PROG_UNAVAIL | AS_PROG_MISMATCH | AS_PROC_UNAVAIL
  | AS_GARBAGE_ARGS.
Inductive reject_stat := RJ_RPC_MISMATCH | RJ_AUTH_ERROR.
Inductive auth_stat := AUTH_BADCRED | AUTH_REJECTEDCRED | AUTH_BADVERF | AUTH_REJECTEDVERF
  | AUTH_TOOWEAK.
Inductive auth_flavor := AUTH_NULL | AUTH_UNIX | AUTH_SHORT | AUTH_DES.

(** What [#[derive(FromPrimitive)]] gives for discriminants [first], [first + 1], ... *)
Definition nth_variant {A} (l : list A) (first z : Z) : option A :=
  if bool_decide (first <= z) then l !! Z.to_nat (z - first) else None.

Definition auth_stat_disc (a : auth_stat) : Z :=
  match a with
  | AUTH_BADCRED => 1 | AUTH_REJECTEDCRED => 2 | AUTH_BADVERF => 3 | AUTH_REJECTEDVERF => 4
  | AUTH_TOOWEAK => 5
  end.
Definition auth_stat_from_u32 : Z -> option auth_stat :=
  nth_variant [AUTH_BADCRED; AUTH_REJECTEDCRED; AUTH_BADVERF; AUTH_REJECTEDVERF; AUTH_TOOWEAK] 1.

Definition auth_flavor_disc (a : auth_flavor) : Z :=
  match a with AUTH_NULL => 0 | AUTH_UNIX => 1 | AUTH_SHORT => 2 | AUTH_DES => 3 end.
Definition auth_flavor_from_u32 : Z -> option auth_flavor :=
  nth_variant [AUTH_NULL; AUTH_UNIX; AUTH_SHORT; AUTH_DES] 0.

#[export] Instance auth_stat_xdr : XDR auth_stat :=
  enum_xdr AUTH_BADCRED auth_stat_disc auth_stat_from_u32.
#[export] Instance auth_flavor_xdr : XDR auth_flavor :=
  enum_xdr AUTH_NULL auth_flavor_disc auth_flavor_from_u32.

(** ** Structures and unions *)

Record auth_unix := mkAuthUnix {
  stamp : Z;
  machinename : list byte;
  uid : Z;
  gid : Z;
  gids : list Z;
}.

Record UnixCred := mkUnixCred { cred_uid : Z; cred_gid : Z; cred_gids : list Z }.

Definition cred_of (a : auth_unix) : UnixCred := mkUnixCred (uid a) (gid a) (gids a).

Record opaque_auth := mkOpaqueAuth { flavor : auth_flavor; auth_body : list byte }.

Record mismatch_info := mkMismatch { low : Z; high : Z }.

Inductive accept_body :=
| SUCCESS | PROG_UNAVAIL | PROG_MISMATCH (v : mismatch_info) | PROC_UNAVAIL | GARBAGE_ARGS.

Record accepted_reply := mkAccepted { acc_verf : opaque_auth; reply_data : accept_body }.

Inductive rejected_reply := RPC_MISMATCH (v : mismatch_info) | AUTH_ERROR (v : auth_stat).

Inductive reply_body := MSG_ACCEPTED (v : accepted_reply) | MSG_DENIED (v : rejected_reply).

Record call_body := mkCall {
  rpcvers : Z;
  prog : Z;
  vers : Z;
  proc : Z;
  cred : opaque_auth;
  verf : opaque_auth;
}.

Inductive rpc_body := CALL (v : call_body) | REPLY (v : reply_body).

Record rpc_msg := mkMsg { xid : Z; body : rpc_body }.

(** ** Wire forms *)

Abbreviation ser32 := (@ser Z u32_xdr).
Abbreviation de32 := (@de Z u32_xdr).

#[export] Instance auth_unix_xdr : XDR auth_unix := {|
  default_ := mkAuthUnix 0 [] 0 0 [];
  ser a := ser_seq [ser32 (stamp a); ser (machinename a); ser32 (uid a); ser32 (gid a);
                    ser (gids a)];
  de self :=
    st ← de32 (stamp self); mn ← de (machinename self); u ← de32 (uid self);
    g ← de32 (gid self); gs ← de (gids self);
    mret (mkAuthUnix st mn u g gs);
|}.

#[export] Instance opaque_auth_xdr : XDR opaque_auth := {|
  default_ := mkOpaqueAuth AUTH_NULL [];
  ser a := ser_seq [ser (flavor a); ser (auth_body a)];
  de self := f ← de (flavor self); b ← de (auth_body self); mret (mkOpaqueAuth f b);
|}.

#[export] Instance mismatch_info_xdr : XDR mismatch_info := {|
  default_ := mkMismatch 0 0;
  ser a := ser_seq [ser32 (low a); ser32 (high a)];
  de self := l ← de32 (low self); h ← de32 (high self); mret (mkMismatch l h);
|}.

(** An arm of a union: its discriminant, then its payload. *)
Definition ser_arm (c : Z) (payload : option (list byte)) : option (list byte) :=
  ser_seq [ser32 c; payload].

#[export] Instance accept_body_xdr : XDR accept_body := {|
  default_ := SUCCESS;
  ser a :=
    match a with
    | SUCCESS => ser32 0
    | PROG_UNAVAIL => ser32 1
    | PROG_MISMATCH v => ser_arm 2 (ser v)
    | PROC_UNAVAIL => ser32 3
    | GARBAGE_ARGS => ser32 4
    end;
  de _ :=
    c ← de32 0;
    if bool_decide (c = 0) then mret SUCCESS
    else if bool_decide (c = 1) then mret PROG_UNAVAIL
    else if bool_decide (c = 2) then r ← de default_; mret (PROG_MISMATCH r)
    else if bool_decide (c = 3) then mret PROC_UNAVAIL
    else mret GARBAGE_ARGS;
|}.

#[export] Instance accepted_reply_xdr : XDR accepted_reply := {|
  default_ := mkAccepted default_ default_;
  ser a := ser_seq [ser (acc_verf a); ser (reply_data a)];
  de self := v ← de (acc_verf self); d ← de (reply_data self); mret (mkAccepted v d);
|}.

(** A discriminant that names no arm leaves the value as it was. *)
#[export] Instance rejected_reply_xdr : XDR rejected_reply := {|
  default_ := RPC_MISMATCH default_;
  ser a := match a with RPC_MISMATCH v => ser_arm 0 (ser v) | AUTH_ERROR v => ser_arm 1 (ser v) end;
  de self :=
    c ← de32 0;
    if bool_decide (c = 0) then r ← de default_; mret (RPC_MISMATCH r)
    else if bool_decide (c = 1) then r ← de default_; mret (AUTH_ERROR r)
    else mret self;
|}.

#[export] Instance reply_body_xdr : XDR reply_body := {|
  default_ := MSG_ACCEPTED default_;
  ser a := match a with MSG_ACCEPTED v => ser_arm 0 (ser v) | MSG_DENIED v => ser_arm 1 (ser v) end;
  de self :=
    c ← de32 0;
    if bool_decide (c = 0) then r ← de default_; mret (MSG_ACCEPTED r)
    else if bool_decide (c = 1) then r ← de default_; mret (MSG_DENIED r)
    else mret self;
|}.

#[export] Instance call_body_xdr : XDR call_body := {|
  default_ := mkCall 0 0 0 0 default_ default_;
  ser a := ser_seq [ser32 (rpcvers a); ser32 (prog a); ser32 (vers a); ser32 (proc a);
                    ser (cred a); ser (verf a)];
  de self :=
    r ← de32 (rpcvers self); p ← de32 (prog self); v ← de32 (vers self); c ← de32 (proc self);
    cr ← de (cred self); ve ← de (verf self);
    mret (mkCall r p v c cr ve);
|}.

#[export] Instance rpc_body_xdr : XDR rpc_body := {|
  default_ := CALL default_;
  ser a := match a with CALL v => ser_arm 0 (ser v) | REPLY v => ser_arm 1 (ser v) end;
  de self :=
    c ← de32 0;
    if bool_decide (c = 0) then r ← de default_; mret (CALL r)
    else if bool_decide (c = 1) then r ← de default_; mret (REPLY r)
    else mret self;
|}.

#[export] Instance rpc_msg_xdr : XDR rpc_msg := {|
  default_ := mkMsg 0 default_;
  ser a := ser_seq [ser32 (xid a); ser (body a)];
  de self := x ← de32 (xid self); b ← de (body self); mret (mkMsg x b);
|}.

(** ** Reply constructors *)

Definition accepted (x : Z) (data : accept_body) : rpc_msg :=
  mkMsg x (REPLY (MSG_ACCEPTED (mkAccepted default_ data))).

Definition proc_unavail_reply_message (x : Z) : rpc_msg := accepted x PROC_UNAVAIL.
Definition prog_unavail_reply_message (x : Z) : rpc_msg := accepted x PROG_UNAVAIL.
Definition prog_mismatch_reply_message (x accepted_ver : Z) : rpc_msg :=
  accepted x (PROG_MISMATCH (mkMismatch accepted_ver accepted_ver)).
Definition garbage_args_reply_message (x : Z) : rpc_msg := accepted x GARBAGE_ARGS.
Definition rpc_vers_mismatch (x : Z) : rpc_msg :=
  mkMsg x (REPLY (MSG_DENIED (RPC_MISMATCH default_))).
Definition make_success_reply (x : Z) : rpc_msg := accepted x SUCCESS.

(** ** Laws *)

(** Splits [ser_seq [..] = Some x] into its parts. *)
Ltac ser_parts H :=
  repeat (apply ser_seq_cons in H as (? & ? & ? & H & ->));
  apply (inj Some) in H; subst.

Lemma decodes_ret_eq {A} (a b : A) : a = b -> decodes (mret a) [] b.
Proof. intros ->. apply decodes_ret. Qed.

(** One decoding step after another, each by its instance's law. *)
Ltac decode_steps :=
  repeat (eapply decodes_bind; [eapply ser_de; [|eassumption]; assumption|]); apply decodes_ret_eq.

(** The same for [consumes], through the branches on a discriminant. *)
Ltac consume_steps :=
  repeat first
    [ apply consumes_ret
    | apply consumes_bind; [apply de_consumes|intros ?]
    | case_bool_decide ].

#[export] Instance auth_stat_laws : XDRLaws auth_stat_xdr.
Proof. apply enum_laws; intros []; done. Defined.

#[export] Instance auth_flavor_laws : XDRLaws auth_flavor_xdr.
Proof. apply enum_laws; intros []; done. Defined.

(** [ser_seq] of valid parts is defined. *)
Lemma ser_seq_Some l : Forall is_Some l -> is_Some (ser_seq l).
Proof.
  induction 1 as [|o l [x Hx] _ [y Hy]]; [by exists []|]. exists (x ++ y). apply ser_seq_cons. eauto.
Qed.

#[export] Instance auth_unix_laws : XDRLaws auth_unix_xdr.
Proof.
  refine {| xdr_valid (a : auth_unix) := is_u32 (stamp a) /\ zlen (machinename a) < u32_max /\
    is_u32 (uid a) /\ is_u32 (gid a) /\ (zlen (gids a) < u32_max /\ Forall is_u32 (gids a)) |}.
  - intros a (? & ? & ? & ? & ?). apply ser_seq_Some. repeat constructor; by apply ser_total.
  - intros self a x (? & ? & ? & ? & ?) E. cbn [ser auth_unix_xdr] in E. ser_parts E.
    cbn [de auth_unix_xdr]. decode_steps. by destruct a.
  - intros self. cbn [de auth_unix_xdr]. consume_steps.
Defined.

#[export] Instance opaque_auth_laws : XDRLaws opaque_auth_xdr.
Proof.
  refine {| xdr_valid (a : opaque_auth) := True /\ zlen (auth_body a) < u32_max |}.
  - intros a [? ?]. apply ser_seq_Some. repeat constructor; by apply ser_total.
  - intros self a x [? ?] E. cbn [ser opaque_auth_xdr] in E. ser_parts E.
    cbn [de opaque_auth_xdr]. decode_steps. by destruct a.
  - intros self. cbn [de opaque_auth_xdr]. consume_steps.
Defined.

#[export] Instance mismatch_info_laws : XDRLaws mismatch_info_xdr.
Proof.
  refine {| xdr_valid (a : mismatch_info) := is_u32 (low a) /\ is_u32 (high a) |}.
  - intros a [? ?]. apply ser_seq_Some. repeat constructor; by apply ser_total.
  - intros self a x [? ?] E. cbn [ser mismatch_info_xdr] in E. ser_parts E.
    cbn [de mismatch_info_xdr]. decode_steps. by destruct a.
  - intros self. cbn [de mismatch_info_xdr]. consume_steps.
Defined.

(** ** Unions *)

Lemma ser_arm_Some c p x : ser_arm c p = Some x -> exists y, p = Some y /\ x = write_be 4 c ++ y.
Proof.
  unfold ser_arm. intros (y & z & [= <-] & E & ->)%ser_seq_cons.
  apply ser_seq_cons in E as (w & v & -> & [= <-] & ->). exists w. by rewrite app_nil_r.
Qed.

Lemma ser_arm_total c p : is_Some p -> is_Some (ser_arm c p).
Proof. intros [y ->]. apply ser_seq_Some. repeat constructor; by eexists. Qed.

Lemma decodes_u32 self z : is_u32 z -> decodes (de32 self) (write_be 4 z) z.
Proof. intros Hz. by apply (ser_de (XDRLaws := u32_laws)). Qed.

(** Reading a discriminant [c], then what its arm reads. *)
Lemma decodes_arm {A} (f : Z -> XM A) c y a :
  is_u32 c -> decodes (f c) y a -> decodes (c ← de32 0; f c) (write_be 4 c ++ y) a.
Proof. intros Hc Hf. eapply decodes_bind; [|done]. by apply decodes_u32. Qed.

(** An arm with no payload. *)
Lemma decodes_tag {A} (f : Z -> XM A) c a :
  is_u32 c -> decodes (f c) [] a -> decodes (c ← de32 0; f c) (write_be 4 c) a.
Proof. intros Hc Hf. rewrite <- (app_nil_r (write_be 4 c)). by apply decodes_arm. Qed.

(** The payload of an arm, then its constructor. *)
Lemma decodes_payload {A B} (X : XDR A) `{!XDRLaws X} (C : A -> B) v y :
  xdr_valid v -> ser v = Some y -> decodes (r ← de default_; mret (C r)) y (C v).
Proof. intros Hv Hy. eapply decodes_map; [by apply ser_de|apply decodes_ret]. Qed.

#[export] Instance accept_body_laws : XDRLaws accept_body_xdr.
Proof.
  refine {| xdr_valid (a : accept_body) :=
    match a with PROG_MISMATCH v => xdr_valid v | _ => True end |}.
  - intros [| |v| |] Hv; by eexists.
  - intros self [| |v| |] x Hv E; cbn [ser de accept_body_xdr] in *.
    3: apply ser_arm_Some in E as (y & Hy & ->); apply decodes_arm; [done|];
       by apply (decodes_payload mismatch_info_xdr PROG_MISMATCH).
    all: apply (inj Some) in E; subst x; by apply decodes_tag.
  - intros self. cbn [de accept_body_xdr]. consume_steps.
Defined.

#[export] Instance accepted_reply_laws : XDRLaws accepted_reply_xdr.
Proof.
  refine {| xdr_valid (a : accepted_reply) := xdr_valid (acc_verf a) /\ xdr_valid (reply_data a) |}.
  - intros a [? ?]. apply ser_seq_Some. repeat constructor; by apply ser_total.
  - intros self a x [? ?] E. cbn [ser accepted_reply_xdr] in E. ser_parts E.
    cbn [de accepted_reply_xdr]. decode_steps. by destruct a.
  - intros self. cbn [de accepted_reply_xdr]. consume_steps.
Defined.

#[export] Instance rejected_reply_laws : XDRLaws rejected_reply_xdr.
Proof.
  refine {| xdr_valid (a : rejected_reply) :=
    match a with RPC_MISMATCH v => xdr_valid v | AUTH_ERROR v => xdr_valid v end |}.
  - intros [v|v] Hv; by apply ser_arm_total, ser_total.
  - intros self [v|v] x Hv E; apply ser_arm_Some in E as (y & Hy & ->);
      cbn [de rejected_reply_xdr]; (apply decodes_arm; [done|]).
    + by apply (decodes_payload mismatch_info_xdr RPC_MISMATCH).
    + by apply (decodes_payload auth_stat_xdr AUTH_ERROR).
  - intros self. cbn [de rejected_reply_xdr]. consume_steps.
Defined.

#[export] Instance reply_body_laws : XDRLaws reply_body_xdr.
Proof.
  refine {| xdr_valid (a : reply_body) :=
    match a with MSG_ACCEPTED v => xdr_valid v | MSG_DENIED v => xdr_valid v end |}.
  - intros [v|v] Hv; by apply ser_arm_total, ser_total.
  - intros self [v|v] x Hv E; apply ser_arm_Some in E as (y & Hy & ->);
      cbn [de reply_body_xdr]; (apply decodes_arm; [done|]).
    + by apply (decodes_payload accepted_reply_xdr MSG_ACCEPTED).
    + by apply (decodes_payload rejected_reply_xdr MSG_DENIED).
  - intros self. cbn [de reply_body_xdr]. consume_steps.
Defined.

#[export] Instance call_body_laws : XDRLaws call_body_xdr.
Proof.
  refine {| xdr_valid (a : call_body) := is_u32 (rpcvers a) /\ is_u32 (prog a) /\ is_u32 (vers a) /\
    is_u32 (proc a) /\ xdr_valid (cred a) /\ xdr_valid (verf a) |}.
  - intros a (? & ? & ? & ? & ? & ?). apply ser_seq_Some. repeat constructor; by apply ser_total.
  - intros self a x (? & ? & ? & ? & ? & ?) E. cbn [ser call_body_xdr] in E. ser_parts E.
    cbn [de call_body_xdr]. decode_steps. by destruct a.
  - intros self. cbn [de call_body_xdr]. consume_steps.
Defined.

#[export] Instance rpc_body_laws : XDRLaws rpc_body_xdr.
Proof.
  refine {| xdr_valid (a : rpc_body) :=
    match a with CALL v => xdr_valid v | REPLY v => xdr_valid v end |}.
  - intros [v|v] Hv; by apply ser_arm_total, ser_total.
  - intros self [v|v] x Hv E; apply ser_arm_Some in E as (y & Hy & ->);
      cbn [de rpc_body_xdr]; (apply decodes_arm; [done|]).
    + by apply (decodes_payload call_body_xdr CALL).
    + by apply (decodes_payload reply_body_xdr REPLY).
  - intros self. cbn [de rpc_body_xdr]. consume_steps.
Defined.

#[export] Instance rpc_msg_laws : XDRLaws rpc_msg_xdr.
Proof.
  refine {| xdr_valid (a : rpc_msg) := is_u32 (xid a) /\ xdr_valid (body a) |}.
  - intros a [? ?]. apply ser_seq_Some. repeat constructor; by apply ser_total.
  - intros self a x [? ?] E. cbn [ser rpc_msg_xdr] in E. ser_parts E.
    cbn [de rpc_msg_xdr]. decode_steps. by destruct a.
  - intros self. cbn [de rpc_msg_xdr]. consume_steps.
Defined.

(** ** The protocol *)

(** The message codec is faithful: every message whose words fit 32 bits and whose
    opaque fields are shorter than 2^32-1 bytes serializes without a panic, and what it
    serializes to decodes, whatever comes after it, to the same message, leaving
    exactly what came after. *)
Theorem rpc_message_roundtrip (m : rpc_msg) :
  xdr_valid m ->
  exists x, ser m = Some x /\ forall rest, de (default_ : rpc_msg) (x ++ rest) = (Ok m, rest).
Proof.
  intros Hm. destruct (ser_total m Hm) as [x Hx]. exists x. split; [done|].
  intros rest. by apply (ser_de _ m x Hm Hx).
Qed.

(** The unions' decoders accept any discriminant: a message whose type is neither a
    call nor a reply is taken for a call with every field zero, its body unread. *)
Lemma unknown_type_is_a_call x t rest :
  is_u32 x -> is_u32 t -> t <> 0 -> t <> 1 ->
  de (default_ : rpc_msg) (write_be 4 x ++ write_be 4 t ++ rest) = (Ok (mkMsg x (CALL default_)), rest).
Proof.
  intros Hx Ht H0 H1. rewrite app_assoc. revert rest.
  change (decodes (de (default_ : rpc_msg)) (write_be 4 x ++ write_be 4 t) (mkMsg x (CALL default_))).
  cbn [de rpc_msg_xdr]. eapply decodes_bind; [by apply decodes_u32|].
  eapply decodes_map; [|apply decodes_ret]. cbn [de rpc_body_xdr].
  eapply decodes_map; [by apply decodes_u32|].
  rewrite !bool_decide_false by done. apply decodes_ret.
Qed.

Module RpcExample.
Definition credentials : auth_unix := mkAuthUnix 7 (bs "client") 1000 100 [1001; 27].

(** A port mapper call as a client with Unix credentials sends it. *)
Definition getport (x : Z) : rpc_msg :=
  mkMsg x (CALL (mkCall 2 100000 2 3
    (mkOpaqueAuth AUTH_UNIX (default [] (ser credentials))) (mkOpaqueAuth AUTH_NULL []))).

Theorem rpc_message_roundtrip_witness :
  exists x, ser (getport 9) = Some x /\
    forall rest, de (default_ : rpc_msg) (x ++ rest) = (Ok (getport 9), rest).
Proof.
  apply (rpc_message_roundtrip (getport 9)).
  vm_compute. repeat split; congruence.
Defined.
End RpcExample.
