(* ===== verification/RpcServer.v ===== *)
(** The ONC RPC server (crates/nessie-nfsserve/src/rpcwire.rs, transaction_tracker.rs,
    portmap_handlers.rs): record marking over a byte stream, the tracker that drops
    retransmitted calls, the port mapper, and [handle_rpc], which decodes a call,
    checks it and dispatches it by program number.

    The NFS and MOUNT programs are the class [Programs]: what they do to the file
    system [W] and the bytes they answer.  Clock readings are arguments. *)

From Stdlib Require Import ZArith Lia.
From stdpp Require Import base list option gmap.
From S2P Require Import Prelude Xdr Rpc.

Local Open Scope Z_scope.

(** ** Record marking *)

(** [u32::from_be_bytes], the last-fragment bit, the length. *)
Definition is_last_of (header : Z) : bool := bool_decide (0 < Z.land header (2 ^ 31)).
Definition length_of (header : Z) : Z := Z.land header (2 ^ 31 - 1).

Definition read_fragment (append_to : list byte) : XM (bool * list byte) :=
  header ← read_be 4;
  data ← read_exact (length_of header);
  mret (is_last_of header, append_to ++ data).

(** [None] where [assert!(buf.len() < (1 << 31))] panics. *)
Definition write_fragment (buf : list byte) : option (list byte) :=
  if bool_decide (zlen buf < 2 ^ 31) then Some (be_bytes 4 (zlen buf + 2 ^ 31) ++ buf) else None.

(** [SocketMessageHandler::read], looped until it fails: the records handed to
    [handle_rpc], in order.  Every fragment takes at least its header, so [fuel]
    above the number of bytes is never used up ([read_records_fuel]). *)
Fixpoint read_records (fuel : nat) (cur_fragment : list byte) (socket : list byte) :
    list (list byte) :=
  match fuel with
  | O => []
  | S fuel =>
      match read_fragment cur_fragment socket with
      | (Ok (true, record), socket) => record :: read_records fuel [] socket
      | (Ok (false, cur), socket) => read_records fuel cur socket
      | (Err _, _) => []
      end
  end.

Definition records_of (socket : list byte) : list (list byte) :=
  read_records (S (length socket)) [] socket.

(** ** Retransmissions *)

Inductive TransactionState := InProgress | Completed (at_ : Z).

(** A call's transaction identifier and its client's address. *)
Abbreviation tkey := (Z * list byte)%type.

Record TransactionTracker := mkTracker {
  retention_period : Z;
  transactions : gmap tkey TransactionState;
}.

Definition tracker_new (retention : Z) : TransactionTracker := mkTracker retention ∅.

Definition fresh_enough (cutoff : Z) (st : TransactionState) : Prop :=
  match st with InProgress => True | Completed t => cutoff <= t end.

#[export] Instance fresh_enough_dec cutoff st : Decision (fresh_enough cutoff st).
Proof. destruct st; simpl; apply _. Defined.

Definition housekeeping (now max_age : Z) (ts : gmap tkey TransactionState) :
    gmap tkey TransactionState :=
  filter (fun kv => fresh_enough (now - max_age) kv.2) ts.

Definition is_retransmission (now : Z) (key : tkey) (t : TransactionTracker) :
    bool * TransactionTracker :=
  let ts := housekeeping now (retention_period t) (transactions t) in
  match ts !! key with
  | None => (false, mkTracker (retention_period t) (<[key := InProgress]> ts))
  | Some _ => (true, mkTracker (retention_period t) ts)
  end.

Definition mark_processed (now : Z) (key : tkey) (t : TransactionTracker) : TransactionTracker :=
  match transactions t !! key with
  | Some _ => mkTracker (retention_period t) (<[key := Completed now]> (transactions t))
  | None => t
  end.

(** ** The call context *)

(** What a call is handled with, less what its handlers share: the file system and
    the mount signal are the world [W], the tracker is beside it ([server]). *)
Record RPCContext := mkContext {
  local_port : Z;
  client_addr : list byte;
  auth : auth_unix;
  export_name : list byte;
}.

Definition with_auth (a : auth_unix) (c : RPCContext) : RPCContext :=
  mkContext (local_port c) (client_addr c) a (export_name c).

(** Why a call has no answer: its bytes do not decode, it is a reply, a program
    failed, or a serializer's [assert!] panicked. *)
Inductive rpc_error := XdrError (e : xdr_error) | BadCallFormat | ProgramError | Panicked.

Definition emit (o : option (list byte)) : result rpc_error (list byte) := ok_or o Panicked.

(** Runs a decoder on the whole of [input]. *)
Definition decode {A} (d : XM A) (input : list byte) : result rpc_error (A * list byte) :=
  match d input with (Ok a, rest) => Ok (a, rest) | (Err e, _) => Err (XdrError e) end.

(** ** The port mapper *)

Record mapping := mkMapping { map_prog : Z; map_vers : Z; map_prot : Z; map_port : Z }.

#[export] Instance mapping_xdr : XDR mapping := {|
  default_ := mkMapping 0 0 0 0;
  ser a := ser_seq [ser32 (map_prog a); ser32 (map_vers a); ser32 (map_prot a);
                    ser32 (map_port a)];
  de self :=
    p ← de32 (map_prog self); v ← de32 (map_vers self); t ← de32 (map_prot self);
    q ← de32 (map_port self); mret (mkMapping p v t q);
|}.

Definition PMAP_PROGRAM : Z := 100000.
Definition PMAP_VERSION : Z := 2.

Inductive PortmapProgram :=
| PMAPPROC_NULL | PMAPPROC_SET | PMAPPROC_UNSET | PMAPPROC_GETPORT | PMAPPROC_DUMP
| PMAPPROC_CALLIT | PMAP_INVALID.

(** The derived [from_u32]: [INVALID] is the variant after [PMAPPROC_CALLIT]. *)
Definition portmap_from_u32 : Z -> option PortmapProgram :=
  nth_variant [PMAPPROC_NULL; PMAPPROC_SET; PMAPPROC_UNSET; PMAPPROC_GETPORT; PMAPPROC_DUMP;
               PMAPPROC_CALLIT; PMAP_INVALID] 0.

Definition pmapproc_null (x : Z) : result rpc_error (list byte) := emit (ser (make_success_reply x)).

Definition pmapproc_getport (x : Z) (input : list byte) (context : RPCContext) :
    result rpc_error (list byte) :=
  _ ← decode (de (default_ : mapping)) input;
  emit (ser_seq [ser (make_success_reply x); ser32 (local_port context)]).

Definition handle_portmap (x : Z) (call : call_body) (input : list byte) (context : RPCContext) :
    result rpc_error (list byte) :=
  if negb (bool_decide (vers call = PMAP_VERSION))
  then emit (ser (prog_mismatch_reply_message x PMAP_VERSION))
  else match default PMAP_INVALID (portmap_from_u32 (proc call)) with
       | PMAPPROC_NULL => pmapproc_null x
       | PMAPPROC_GETPORT => pmapproc_getport x input context
       | _ => emit (ser (proc_unavail_reply_message x))
       end.

(** ** Dispatch *)

Definition NFS_PROGRAM : Z := 100003.
Definition MOUNT_PROGRAM : Z := 100005.

(** [nfs_handlers::handle_nfs] and [mount_handlers::handle_mount]: from the call and
    its undecoded arguments to the reply's bytes, on the file system. *)
Class Programs (W : Type) := {
  handle_nfs : Z -> call_body -> list byte -> RPCContext -> M rpc_error W (list byte);
  handle_mount : Z -> call_body -> list byte -> RPCContext -> M rpc_error W (list byte);
}.

Section server.
Context {W : Type} `{!Programs W}.

Definition dispatch (x : Z) (call : call_body) (input : list byte) (context : RPCContext) :
    M rpc_error W (list byte) :=
  if bool_decide (prog call = NFS_PROGRAM) then handle_nfs x call input context
  else if bool_decide (prog call = PMAP_PROGRAM) then lift (handle_portmap x call input context)
  else if bool_decide (prog call = MOUNT_PROGRAM) then handle_mount x call input context
  else lift (emit (ser (prog_unavail_reply_message x))).

Record server := mkServer { tracker : TransactionTracker; world : W }.

(** [AUTH_UNIX] credentials replace the context's; other flavors leave it alone. *)
Definition authenticate (call : call_body) (context : RPCContext) : result rpc_error RPCContext :=
  match flavor (cred call) with
  | AUTH_UNIX =>
      '(a, _) ← decode (de (default_ : auth_unix)) (auth_body (cred call));
      Ok (with_auth a context)
  | _ => Ok context
  end.

(** [now] is the clock at the retransmission check, [later] when the program has
    answered.  [Ok None] is [Ok(false)]: no reply.  A panic unwinds past
    [mark_processed]. *)
Definition handle_rpc (now later : Z) (input : list byte) (context : RPCContext) (s : server) :
    result rpc_error (option (list byte)) * server :=
  match decode (de (default_ : rpc_msg)) input with
  | Err e => (Err e, s)
  | Ok (mkMsg x (REPLY _), _) => (Err BadCallFormat, s)
  | Ok (mkMsg x (CALL call), args) =>
      match authenticate call context with
      | Err e => (Err e, s)
      | Ok context =>
          if negb (bool_decide (rpcvers call = 2))
          then (Some <$> emit (ser (rpc_vers_mismatch x)), s)
          else
            let key := (x, client_addr context) in
            match is_retransmission now key (tracker s) with
            | (true, t) => (Ok None, mkServer t (world s))
            | (false, t) =>
                match dispatch x call args context (world s) with
                | (Err Panicked, w) => (Err Panicked, mkServer t w)
                | (r, w) => (Some <$> r, mkServer (mark_processed later key t) w)
                end
            end
      end
  end.
End server.

(** ** Framing *)

Definition frag (last : bool) (data : list byte) : list byte :=
  be_bytes 4 (zlen data + if last then 2 ^ 31 else 0) ++ data.

(** A record: its fragments but the last, and the last. *)
Abbreviation record := (list (list byte) * list byte)%type.

Definition encode_record (r : record) : list byte := concat (frag false <$> r.1) ++ frag true r.2.
Definition payload (r : record) : list byte := concat r.1 ++ r.2.
Definition record_ok (r : record) : Prop :=
  Forall (fun d => zlen d < 2 ^ 31) r.1 /\ zlen r.2 < 2 ^ 31.

Lemma header_bits n (b : bool) :
  0 <= n < 2 ^ 31 ->
  is_last_of (n + if b then 2 ^ 31 else 0) = b /\ length_of (n + if b then 2 ^ 31 else 0) = n.
Proof.
  intros Hn. split.
  - unfold is_last_of.
    assert (Hl : Z.land (n + if b then 2 ^ 31 else 0) (2 ^ 31) = if b then 2 ^ 31 else 0).
    { apply Z.bits_inj'. intros i Hi. rewrite Z.land_spec, Z.pow2_bits_eqb by lia.
      destruct (Z.eqb_spec 31 i) as [<-|Hne].
      - rewrite andb_true_r. destruct b.
        + rewrite Z.pow2_bits_true by lia. rewrite Z.testbit_true by lia.
          replace (n + 2 ^ 31) with (n + 1 * 2 ^ 31) by lia.
          rewrite Z.div_add, Z.div_small by lia. done.
        + rewrite Z.add_0_r, Z.testbit_0_l. apply Z.bits_above_log2; [lia|].
          destruct (decide (n = 0)) as [->|]; [done|apply Z.log2_lt_pow2; lia].
      - rewrite andb_false_r. destruct b; [by rewrite Z.pow2_bits_false by lia|by rewrite Z.testbit_0_l]. }
    rewrite Hl. by destruct b.
  - unfold length_of. change (2 ^ 31 - 1) with (Z.ones 31). rewrite Z.land_ones by lia.
    destruct b; [replace (n + 2 ^ 31) with (n + 1 * 2 ^ 31) by lia; rewrite Z.mod_add by lia|];
      rewrite ?Z.add_0_r; by rewrite Z.mod_small by lia.
Qed.

Lemma read_fragment_frag last data cur rest :
  zlen data < 2 ^ 31 -> read_fragment cur (frag last data ++ rest) = (Ok (last, cur ++ data), rest).
Proof.
  intros Hd. pose proof (zlen_nonneg data) as H0.
  destruct (header_bits (zlen data) last) as [Hl Hn]; [lia|].
  unfold frag. revert rest.
  change (decodes (read_fragment cur)
    (write_be 4 (zlen data + if last then 2 ^ 31 else 0) ++ data) (last, cur ++ data)).
  eapply decodes_bind; [apply decodes_be; destruct last; lia|].
  eapply decodes_map; [rewrite Hn; apply decodes_read_exact|]. rewrite Hl. apply decodes_ret.
Qed.

(** A fragment takes at least the four bytes of its header. *)
Lemma read_fragment_shorter cur s b c s' :
  read_fragment cur s = (Ok (b, c), s') -> (length s' < length s)%nat.
Proof.
  intros E. unfold read_fragment in E. apply M_bind_inv in E as (h & s1 & E1 & E2).
  unfold read_be in E1. apply M_bind_inv in E1 as (x & s2 & E1 & [= _ <-]).
  unfold read_exact in E1. case_bool_decide as H4; [|done]. injection E1 as _ <-.
  apply M_bind_inv in E2 as (d & s3 & E2 & [= _ _ <-]).
  apply consumes_read_exact in E2 as [y Hy]. apply (f_equal length) in Hy.
  rewrite length_app, length_drop in Hy. unfold zlen in H4. lia.
Qed.

Lemma read_records_fuel f1 f2 cur s :
  (length s < f1)%nat -> (length s < f2)%nat -> read_records f1 cur s = read_records f2 cur s.
Proof.
  revert f2 cur s. induction f1 as [|f1 IH]; intros [|f2] cur s H1 H2; try lia.
  cbn [read_records]. destruct (read_fragment cur s) as [[[[] c]|e] s'] eqn:E; [f_equal| |done].
  all: apply read_fragment_shorter in E; apply IH; lia.
Qed.

Lemma read_records_frags f f2 cur init final rest :
  record_ok (init, final) -> (length (encode_record (init, final) ++ rest) < f)%nat ->
  (length rest < f2)%nat ->
  read_records f cur (encode_record (init, final) ++ rest) =
  (cur ++ concat init ++ final) :: read_records f2 [] rest.
Proof.
  intros [Hi Hf] Hlen Hlen2. revert f cur Hlen. unfold encode_record. cbn [fst snd] in *.
  induction Hi as [|d init Hd _ IH]; intros [|f] cur Hlen; try lia.
  - cbn [fmap list_fmap concat app]. cbn [fmap list_fmap concat app] in Hlen.
    cbn [read_records]. rewrite read_fragment_frag by done. f_equal.
    rewrite length_app in Hlen. unfold frag in Hlen. rewrite length_app, length_be_bytes in Hlen.
    apply read_records_fuel; lia.
  - rewrite fmap_cons in *. cbn [concat] in *. rewrite <- !app_assoc in *.
    assert (Hl : (length (frag false d) = 4 + length d)%nat)
      by (unfold frag; rewrite length_app, length_be_bytes; lia).
    rewrite length_app, Hl in Hlen.
    cbn [read_records]. rewrite read_fragment_frag by done.
    rewrite IH by lia. by rewrite <- !app_assoc.
Qed.

(** Record marking reassembles whatever was sent.  However the sender cut its
    messages into fragments, the server is handed exactly those messages, each whole
    and in order, and then whatever the rest of the stream holds; and what
    [write_fragment] sends is read back as the one message it was given. *)
Theorem framing_reassembles (rs : list record) (rest : list byte) :
  Forall record_ok rs ->
  records_of (concat (encode_record <$> rs) ++ rest) = (payload <$> rs) ++ records_of rest /\
  (forall buf x, write_fragment buf = Some x -> records_of (x ++ rest) = buf :: records_of rest).
Proof.
  intros Hrs. assert (Hone : forall (r : record) tl, record_ok r ->
    records_of (encode_record r ++ tl) = payload r :: records_of tl).
  { intros [init final] tl Hr. unfold records_of.
    apply (read_records_frags _ _ []); [done|lia..]. }
  split.
  - induction Hrs as [|r rs Hr _ IH]; [done|]. rewrite !fmap_cons. cbn [concat app].
    by rewrite <- app_assoc, Hone, IH.
  - intros buf x. unfold write_fragment. case_bool_decide as Hb; [|done]. intros [= <-].
    apply (Hone ([], buf)). by split.
Qed.

(** ** At most once *)

(** What happens to a tracker, with the clock each reads. *)
Inductive tk_event := TkCheck (now : Z) (key : tkey) | TkDone (now : Z) (key : tkey).

Definition tk_step (t : TransactionTracker) (e : tk_event) : TransactionTracker :=
  match e with
  | TkCheck now key => (is_retransmission now key t).2
  | TkDone now key => mark_processed now key t
  end.

Definition event_time (e : tk_event) : Z := match e with TkCheck n _ | TkDone n _ => n end.

(** A transaction the tracker knows, and would still know at any time up to [until]. *)
Definition known (until : Z) (key : tkey) (t : TransactionTracker) : Prop :=
  exists st, transactions t !! key = Some st /\ fresh_enough (until - retention_period t) st.

Lemma fresh_enough_mono c c' st : c <= c' -> fresh_enough c' st -> fresh_enough c st.
Proof. destruct st; simpl; lia || done. Qed.

Lemma is_retransmission_known until now key key' t :
  now <= until -> known until key t -> known until key (is_retransmission now key' t).2.
Proof.
  intros Hn (st & Hst & Hf). exists st.
  assert (Hk : housekeeping now (retention_period t) (transactions t) !! key = Some st).
  { unfold housekeeping. apply map_lookup_filter_Some. split; [done|]. simpl.
    eapply fresh_enough_mono; [|done]. lia. }
  unfold is_retransmission. destruct (_ !! key') eqn:E; simpl; [done|].
  split; [|done]. rewrite lookup_insert_ne; [done|]. intros ->. congruence.
Qed.

Lemma tk_step_known until key t e :
  event_time e <= until -> (forall n, e = TkDone n key -> until - retention_period t <= n) ->
  known until key t -> known until key (tk_step t e).
Proof.
  intros Hn Hd Hk. destruct e as [n k|n k]; simpl in *; [by apply is_retransmission_known|].
  unfold mark_processed. destruct (transactions t !! k) as [st'|] eqn:E; [|done].
  destruct (decide (k = key)) as [->|Hne].
  - exists (Completed n). simpl. rewrite lookup_insert_eq. eauto.
  - destruct Hk as (st & Hst & Hf). exists st. simpl. by rewrite lookup_insert_ne.
Qed.

Lemma tk_step_retention t e : retention_period (tk_step t e) = retention_period t.
Proof.
  destruct e; simpl; unfold is_retransmission, mark_processed; by case_match.
Qed.

Lemma checked_known now until key t :
  now <= until -> (is_retransmission now key t).1 = false ->
  known until key (is_retransmission now key t).2.
Proof.
  intros Hn. unfold is_retransmission. destruct (_ !! key) eqn:E; simpl; [done|]. intros _.
  exists InProgress. simpl. by rewrite lookup_insert_eq.
Qed.

Lemma known_retransmission until now key t :
  now <= until -> known until key t -> (is_retransmission now key t).1 = true.
Proof.
  intros Hn (st & Hst & Hf). unfold is_retransmission.
  assert (Hk : housekeeping now (retention_period t) (transactions t) !! key = Some st).
  { unfold housekeeping. apply map_lookup_filter_Some. split; [done|]. simpl.
    eapply fresh_enough_mono; [|done]. lia. }
  by rewrite Hk.
Qed.

(** At most once.  After a call has been let through, the same transaction from
    the same client is recognised as a retransmission, whatever the server does in
    between and even if the clock steps back, for as long as the first call is still
    running or finished no longer than the retention period ago. *)
Theorem at_most_once now key t evs until :
  (is_retransmission now key t).1 = false -> now <= until ->
  Forall (fun e => event_time e <= until) evs ->
  Forall (fun e => forall n, e = TkDone n key -> until - retention_period t <= n) evs ->
  (is_retransmission until key (foldl tk_step (is_retransmission now key t).2 evs)).1 = true.
Proof.
  intros Hc Hn Ht Hd. apply (known_retransmission until); [lia|].
  pose proof (checked_known now until key t Hn Hc) as Hk.
  assert (Hr : retention_period (is_retransmission now key t).2 = retention_period t)
    by (apply (tk_step_retention t (TkCheck now key))).
  revert Hk Hr. generalize (is_retransmission now key t).2.
  induction Hd as [|e evs He Hd IH]; intros t1 Hk Hr; [done|].
  inversion Ht; subst. simpl. apply IH; [done| |by rewrite tk_step_retention].
  apply tk_step_known; [done| |done]. rewrite Hr. apply He.
Qed.

(** ** Calls *)

Section calls.
Context {W : Type} `{!Programs W}.

(** A call as a client sends it. *)
Definition sent (x : Z) (call : call_body) (args msg : list byte) : Prop :=
  is_u32 x /\ xdr_valid call /\
  exists head, ser (mkMsg x (CALL call)) = Some head /\ msg = head ++ args.

Lemma decode_sent x call args msg :
  sent x call args msg -> decode (de (default_ : rpc_msg)) msg = Ok (mkMsg x (CALL call), args).
Proof.
  intros (Hx & Hc & head & Hs & ->). unfold decode.
  by rewrite (ser_de (XDRLaws := rpc_msg_laws) default_ (mkMsg x (CALL call)) head (conj Hx Hc) Hs args).
Qed.

(** The reply to a call that no program is run for. *)
Definition stub_reply (call : call_body) : reply_body :=
  if bool_decide (rpcvers call = 2) then
    MSG_ACCEPTED (mkAccepted default_
      (if bool_decide (prog call = PMAP_PROGRAM) then
         if bool_decide (vers call = PMAP_VERSION) then
           if bool_decide (proc call = 0 \/ proc call = 3) then SUCCESS else PROC_UNAVAIL
         else PROG_MISMATCH (mkMismatch PMAP_VERSION PMAP_VERSION)
       else PROG_UNAVAIL))
  else MSG_DENIED (RPC_MISMATCH (mkMismatch 0 0)).

(** What follows the reply message: [GETPORT] answers with a port. *)
Definition stub_result (call : call_body) (ctx : RPCContext) : list byte :=
  if bool_decide (rpcvers call = 2 /\ prog call = PMAP_PROGRAM /\ vers call = PMAP_VERSION /\
                  proc call = 3)
  then be_bytes 4 (local_port ctx) else [].

(** A serialized reply decodes to itself. *)
Lemma emit_reply x b rest reply :
  is_u32 x -> xdr_valid b -> emit (ser (mkMsg x (REPLY b))) = Ok reply ->
  de (default_ : rpc_msg) (reply ++ rest) = (Ok (mkMsg x (REPLY b)), rest).
Proof.
  intros Hx Hb E. apply ok_or_Ok in E.
  by apply (ser_de (XDRLaws := rpc_msg_laws) _ (mkMsg x (REPLY b)) _ (conj Hx Hb)).
Qed.

Lemma emit_accepted x data reply :
  is_u32 x -> xdr_valid data -> emit (ser (accepted x data)) = Ok reply ->
  de (default_ : rpc_msg) reply = (Ok (accepted x data), []).
Proof.
  intros Hx Hd E. rewrite <- (app_nil_r reply).
  apply (emit_reply x (MSG_ACCEPTED (mkAccepted default_ data))); [done| |done].
  by split; [split|].
Qed.

Lemma portmap_other z :
  z <> 0 -> z <> 3 ->
  match default PMAP_INVALID (portmap_from_u32 z) with
  | PMAPPROC_NULL | PMAPPROC_GETPORT => False
  | _ => True
  end.
Proof.
  intros H0 H3. unfold portmap_from_u32, nth_variant. case_bool_decide as Hz; [|done].
  rewrite Z.sub_0_r. destruct (Z.to_nat z) as [|[|[|[|[|[|[|n]]]]]]] eqn:E; simpl; try done; lia.
Qed.

Lemma getport_reply x args ctx reply :
  is_u32 x -> is_u32 (local_port ctx) -> pmapproc_getport x args ctx = Ok reply ->
  de (default_ : rpc_msg) reply = (Ok (accepted x SUCCESS), be_bytes 4 (local_port ctx)).
Proof.
  intros Hx Hp. unfold pmapproc_getport. rewrite bind_Ok. intros (m & _ & E).
  apply ok_or_Ok in E. apply ser_seq_cons in E as (y & z & Hy & E & ->).
  apply ser_seq_cons in E as (w & v & Hw & E & ->). apply (inj Some) in Hw, E. subst w v.
  change (concat []) with (@nil byte). rewrite app_nil_r.
  apply (emit_reply x (MSG_ACCEPTED (mkAccepted default_ SUCCESS))); [done|by split; [split|]|].
  by apply ok_or_Ok.
Qed.

Lemma handle_portmap_reply x call args ctx reply :
  is_u32 x -> is_u32 (local_port ctx) -> rpcvers call = 2 -> prog call = PMAP_PROGRAM ->
  handle_portmap x call args ctx = Ok reply ->
  de (default_ : rpc_msg) reply = (Ok (mkMsg x (REPLY (stub_reply call))), stub_result call ctx).
Proof.
  intros Hx Hpt Hv Hp. unfold handle_portmap, stub_reply, stub_result.
  rewrite Hv, Hp, (bool_decide_true (2 = 2)), (bool_decide_true (PMAP_PROGRAM = PMAP_PROGRAM)) by done.
  destruct (decide (vers call = PMAP_VERSION)) as [E|E].
  2:{ rewrite !(bool_decide_false (vers call = _)), bool_decide_false by naive_solver.
      by apply emit_accepted. }
  rewrite !(bool_decide_true (vers call = _)) by done. cbn [negb].
  destruct (decide (proc call = 0)) as [E0|E0].
  { rewrite E0, bool_decide_true, bool_decide_false by naive_solver. by apply emit_accepted. }
  destruct (decide (proc call = 3)) as [E3|E3].
  { rewrite E3, !bool_decide_true by naive_solver. by apply getport_reply. }
  rewrite !bool_decide_false by naive_solver. pose proof (portmap_other _ E0 E3) as Ho.
  destruct (default _ _); (done || by apply emit_accepted).
Qed.

Lemma Ok_fmap_Some {A} (r : result rpc_error A) o :
  Some <$> r = Ok o -> exists a, r = Ok a /\ o = Some a.
Proof. destruct r; intros [=]. subst. eauto. Qed.

(** Every reply the server makes by itself (to a call of another RPC version, to
    the port mapper, to a program it does not have) decodes to an RPC reply with the
    call's own transaction id and the status the protocol gives that case, followed by
    nothing, or by the port for [GETPORT]; and the file system is not touched. *)
Theorem own_replies now later x call args msg ctx (s s' : server (W := W)) reply :
  sent x call args msg -> is_u32 (local_port ctx) ->
  (rpcvers call = 2 -> prog call <> NFS_PROGRAM /\ prog call <> MOUNT_PROGRAM) ->
  handle_rpc now later msg ctx s = (Ok (Some reply), s') ->
  world s' = world s /\
  de (default_ : rpc_msg) reply = (Ok (mkMsg x (REPLY (stub_reply call))), stub_result call ctx).
Proof.
  intros Hm Hpt Hprog. unfold handle_rpc. rewrite (decode_sent _ _ _ _ Hm).
  destruct Hm as (Hx & _).
  destruct (authenticate call ctx) as [ctx'|] eqn:Ea; [|done].
  assert (Hlp : local_port ctx' = local_port ctx).
  { unfold authenticate in Ea. destruct (flavor (cred call)); simplify_eq; [done| |done..].
    apply bind_Ok in Ea as ([a ?] & _ & [= <-]). done. }
  destruct (decide (rpcvers call = 2)) as [Hv|Hv].
  2:{ rewrite bool_decide_false by done. cbn [negb]. intros [E <-]%pair_equal_spec. split; [done|].
      apply Ok_fmap_Some in E as (y & E & [= <-]). unfold stub_reply, stub_result.
      rewrite !bool_decide_false by naive_solver. rewrite <- (app_nil_r reply).
      by apply (emit_reply x (MSG_DENIED (RPC_MISMATCH (mkMismatch 0 0)))). }
  destruct (Hprog Hv) as [Hnfs Hmnt]. rewrite bool_decide_true by done. cbn [negb].
  destruct (is_retransmission _ _ _) as [[] t]; [done|].
  unfold dispatch. rewrite (bool_decide_false _ Hnfs), (bool_decide_false _ Hmnt).
  intros E. assert (Hr : world s' = world s /\ exists r,
    (if bool_decide (prog call = PMAP_PROGRAM) then handle_portmap x call args ctx'
     else emit (ser (prog_unavail_reply_message x))) = Ok r /\ r = reply).
  { destruct (bool_decide (prog call = PMAP_PROGRAM)); unfold lift in E;
      repeat case_match; simplify_eq/=; eauto. }
  destruct Hr as [Hw (r & Hr & ->)]. split; [done|]. case_bool_decide as Hp.
  - replace (stub_result call ctx) with (stub_result call ctx')
      by (unfold stub_result; by rewrite Hlp).
    eapply handle_portmap_reply; [done|by rewrite Hlp|done..].
  - unfold stub_reply, stub_result. rewrite (bool_decide_true _ Hv), !(bool_decide_false (prog call = _)),
      bool_decide_false by naive_solver. by apply emit_accepted.
Qed.

Lemma authenticate_addr call ctx ctx' :
  authenticate call ctx = Ok ctx' -> client_addr ctx' = client_addr ctx.
Proof.
  unfold authenticate. intros E. destruct (flavor (cred call)); simplify_eq; [done| |done..].
  apply bind_Ok in E as ([a ?] & _ & [= <-]). done.
Qed.

(** What handling a message does to the tracker: nothing, a check, or a check that lets the
    call through and its finish. *)
Lemma handle_rpc_tracker now later msg ctx (s s' : server (W := W)) r :
  handle_rpc now later msg ctx s = (r, s') ->
  tracker s' = tracker s \/
  exists k, tracker s' = tk_step (tracker s) (TkCheck now k) \/
    (is_retransmission now k (tracker s)).1 = false /\
    tracker s' = tk_step (tk_step (tracker s) (TkCheck now k)) (TkDone later k).
Proof.
  unfold handle_rpc. intros E. destruct (decode _ msg) as [[[x [call|rep]] args]|e]; [|by left; injection E as _ <-..].
  destruct (authenticate call ctx) as [ctx'|e]; [|by left; injection E as _ <-].
  destruct (negb _); [by left; injection E as _ <-|]. right. exists (x, client_addr ctx'). simpl.
  destruct (is_retransmission now (x, client_addr ctx') (tracker s)) as [[] t]; [left; by injection E as _ <-|].
  destruct (dispatch x call args ctx' (world s)) as [[y|[]] w]; injection E as _ <-;
    solve [by left|right; split; done].
Qed.

(** What a server does up to a time, as far as the call with [key] goes: whole messages are
    handled; messages of other connections are checked, and finish with whatever they did to
    the file system; the call itself may finish, no longer than a retention period before. *)
Inductive traffic (until : Z) (key : tkey) (s : server (W := W)) : server (W := W) -> Prop :=
| tr_message now later msg ctx r s' :
    now <= until -> later <= until -> handle_rpc now later msg ctx s = (r, s') -> traffic until key s s'
| tr_check now k :
    now <= until -> traffic until key s (mkServer (is_retransmission now k (tracker s)).2 (world s))
| tr_finish later k w :
    later <= until -> (k = key -> until - retention_period (tracker s) <= later) ->
    traffic until key s (mkServer (mark_processed later k (tracker s)) w).

Lemma traffic_known until key s s' :
  traffic until key s s' -> known until key (tracker s) ->
  known until key (tracker s') /\ retention_period (tracker s') = retention_period (tracker s).
Proof.
  intros Ht Hk. destruct Ht as [now later msg ctx r s' Hn Hl E|now k Hn|later k w Hl Hd].
  - destruct (handle_rpc_tracker _ _ _ _ _ _ _ E) as [->|(k & [->|[Hnew ->]])]; [done| |].
    + split; [by apply tk_step_known|apply tk_step_retention].
    + split; [|by rewrite !tk_step_retention]. apply tk_step_known; [done| |by apply tk_step_known].
      intros n [= _ ->]. by rewrite (known_retransmission until now key _ Hn Hk) in Hnew.
  - split; [by apply (tk_step_known until key _ (TkCheck now k))|apply (tk_step_retention _ (TkCheck now k))].
  - split; [|apply (tk_step_retention _ (TkDone later k))].
    apply (tk_step_known until key _ (TkDone later k)); [done| |done]. intros n [= -> ->]. by apply Hd.
Qed.

Lemma traffic_steps_known until key s s' :
  rtc (traffic until key) s s' -> known until key (tracker s) -> known until key (tracker s').
Proof.
  induction 1 as [s|s1 s2 s3 H12 _ IH]; [done|]. intros Hk. by apply IH, (traffic_known _ _ _ _ H12).
Qed.

(** A call that was let through is known from then on. *)
Lemma handled_known until now later x call args msg ctx ctx' (s s1 : server (W := W)) r :
  sent x call args msg -> authenticate call ctx = Ok ctx' -> rpcvers call = 2 ->
  now <= until -> later <= until <= later + retention_period (tracker s) ->
  handle_rpc now later msg ctx s = (r, s1) -> r <> Ok None ->
  known until (x, client_addr ctx) (tracker s1).
Proof.
  intros Hm Ha Hv Hn Hl E Hr. unfold handle_rpc in E. rewrite (decode_sent _ _ _ _ Hm), Ha in E.
  rewrite bool_decide_true, (authenticate_addr _ _ _ Ha) in E by done. cbn [negb] in E.
  set (key := (x, client_addr ctx)) in *.
  destruct (is_retransmission now key (tracker s)) as [[] t] eqn:Er; [by simplify_eq|].
  assert (Hk : known until key t).
  { change t with (false, t).2. rewrite <- Er. apply checked_known; [done|by rewrite Er]. }
  assert (Hrt : retention_period t = retention_period (tracker s)).
  { change t with (false, t).2. rewrite <- Er. apply (tk_step_retention _ (TkCheck now key)). }
  assert (Hd : known until key (tk_step t (TkDone later key))).
  { apply tk_step_known; [simpl; lia| |done]. intros n [= <-]. rewrite Hrt. lia. }
  destruct (dispatch x call args ctx' (world s)) as [[y|[]] w]; simplify_eq/=; done.
Qed.

(** A message under a known key is dropped. *)
Lemma known_dropped now later x call args msg ctx ctx' (s : server (W := W)) :
  sent x call args msg -> authenticate call ctx = Ok ctx' -> rpcvers call = 2 ->
  known now (x, client_addr ctx) (tracker s) ->
  exists s', handle_rpc now later msg ctx s = (Ok None, s') /\ world s' = world s.
Proof.
  intros Hm Ha Hv Hk. unfold handle_rpc. rewrite (decode_sent _ _ _ _ Hm), Ha.
  rewrite bool_decide_true, (authenticate_addr _ _ _ Ha) by done. cbn [negb].
  pose proof (known_retransmission now now _ _ ltac:(lia) Hk) as Hseen.
  destruct (is_retransmission now _ (tracker s)) as [b t]. simpl in Hseen. subst b. eauto.
Qed.

(** C39. A client that repeats a call gets it run once.  A call is let through: it has been
    answered, failed or panicked, or it is still running.  Then, whatever other messages the
    server handles in between, whole or with their checks and finishes interleaved, a message
    with the same transaction id from the same client is dropped without a reply and without
    touching the file system, while the call runs and up to a retention period after it
    finished.  No clock is read before the repeat arrives as later than that. *)
Theorem repeated_call_runs_once now later now2 later2 x call args msg call2 args2 msg2 ctx ctx2
    (s s1 s2 : server (W := W)) r :
  sent x call args msg -> sent x call2 args2 msg2 ->
  is_ok (authenticate call ctx) = true -> is_ok (authenticate call2 ctx2) = true ->
  rpcvers call = 2 -> rpcvers call2 = 2 -> client_addr ctx2 = client_addr ctx -> now <= now2 ->
  (handle_rpc now later msg ctx s = (r, s1) /\ r <> Ok None /\
     later <= now2 <= later + retention_period (tracker s)) \/
  is_retransmission now (x, client_addr ctx) (tracker s) = (false, tracker s1) ->
  rtc (traffic now2 (x, client_addr ctx)) s1 s2 ->
  exists s3, handle_rpc now2 later2 msg2 ctx2 s2 = (Ok None, s3) /\ world s3 = world s2.
Proof.
  intros Hm Hm2 Ha Ha2 Hv Hv2 Haddr Hn Hfirst Htr.
  destruct (authenticate call ctx) as [ctx'|] eqn:Ea; [|done].
  destruct (authenticate call2 ctx2) as [ctx2'|] eqn:Ea2; [|done].
  apply (known_dropped _ _ _ _ _ _ _ _ _ Hm2 Ea2 Hv2). rewrite Haddr.
  apply (traffic_steps_known _ _ _ _ Htr). destruct Hfirst as [(E & Hr & Hl)|E].
  - by apply (handled_known now2 now later x call args msg ctx ctx' s s1 r).
  - change (tracker s1) with (false, tracker s1).2. rewrite <- E. apply checked_known; [done|by rewrite E].
Qed.
End calls.

(** ** Witnesses *)

Module RpcServerExample.
Import RpcExample.

Theorem framing_reassembles_witness :
  records_of (concat (encode_record <$>
    [([bs "he"; bs "l"], bs "lo"); ([], bs "there")]) ++ []) = [bs "hello"; bs "there"].
Proof.
  refine (eq_trans (proj1 (framing_reassembles
    [([bs "he"; bs "l"], bs "lo"); ([], bs "there")] [] _)) _).
  - repeat constructor; vm_compute; congruence.
  - vm_compute. reflexivity.
Defined.

Definition client : list byte := bs "10.0.0.7:801".

(** The first call finishes at 5; at 60 its transaction is still remembered. *)
Theorem at_most_once_witness :
  (is_retransmission 60 (9, client) (foldl tk_step
    (is_retransmission 1 (9, client) (tracker_new 60)).2
    [TkCheck 2 (8, client); TkDone 5 (9, client); TkCheck 50 (4, client)])).1 = true.
Proof.
  apply at_most_once.
  - vm_compute. reflexivity.
  - lia.
  - repeat constructor; simpl; lia.
  - repeat constructor; intros n; simpl; intros [=]; lia.
Defined.

(** Programs that count how often they run. *)
#[local] Instance counting : Programs nat := {|
  handle_nfs _ _ _ _ := fun w => (Ok [], S w);
  handle_mount _ _ _ _ := fun w => (Ok [], S w);
|}.

Definition ctx : RPCContext := mkContext 2049 client default_ (bs "/").
Definition idle : server (W := nat) := mkServer (tracker_new 60) 0%nat.

(** [GETPORT] asks for the port of a mapping. *)
Definition wanted : list byte := default [] (ser (mkMapping 100003 3 6 0)).
Definition getport_call : call_body :=
  match body (getport 9) with CALL c => c | REPLY _ => default_ end.
Definition getport_bytes : list byte := default [] (ser (getport 9)) ++ wanted.

Lemma getport_sent : sent 9 getport_call wanted getport_bytes.
Proof.
  split; [by vm_compute|]. split; [vm_compute; repeat split; congruence|].
  exists (default [] (ser (getport 9))). split; [|reflexivity]. vm_compute. reflexivity.
Defined.

Theorem own_replies_witness :
  exists reply, (handle_rpc 1 2 getport_bytes ctx idle).1 = Ok (Some reply) /\
    de (default_ : rpc_msg) reply = (Ok (accepted 9 SUCCESS), be_bytes 4 2049).
Proof.
  exists (default [] (ser (accepted 9 SUCCESS)) ++ be_bytes 4 2049). split; [vm_compute; reflexivity|].
  refine (proj2 (own_replies 1 2 9 getport_call wanted getport_bytes ctx idle
    (handle_rpc 1 2 getport_bytes ctx idle).2 _ getport_sent _ _ _)).
  - vm_compute. split; congruence.
  - intros _. split; vm_compute; congruence.
  - vm_compute. reflexivity.
Defined.

(** The same mount call, sent twice. *)
Definition mount_call : call_body := mkCall 2 MOUNT_PROGRAM 3 1 default_ default_.
Definition mount_bytes : list byte := default [] (ser (mkMsg 4 (CALL mount_call))).

Lemma mount_sent : sent 4 mount_call [] mount_bytes.
Proof.
  split; [by vm_compute|]. split; [vm_compute; repeat split; congruence|].
  exists mount_bytes. split; [vm_compute; reflexivity|by rewrite app_nil_r].
Defined.

(** Another client's mount call is handled between the two, and a third one's is checked. *)
Definition neighbour : RPCContext := mkContext 2049 (bs "10.0.0.8:802") default_ (bs "/").
Definition once : server (W := nat) := (handle_rpc 1 2 mount_bytes ctx idle).2.
Definition twice : server (W := nat) := (handle_rpc 10 11 mount_bytes neighbour once).2.
Definition busy : server (W := nat) :=
  mkServer (is_retransmission 20 (4, bs "10.0.0.9:803") (tracker twice)).2 (world twice).

Theorem repeated_call_runs_once_witness :
  world once = 1%nat /\ world busy = 2%nat /\
  exists s3, handle_rpc 30 31 mount_bytes ctx busy = (Ok None, s3) /\ world s3 = world busy.
Proof.
  split; [vm_compute; reflexivity|]. split; [vm_compute; reflexivity|].
  apply (repeated_call_runs_once 1 2 30 31 4 mount_call [] mount_bytes mount_call [] mount_bytes
    ctx ctx idle once busy (handle_rpc 1 2 mount_bytes ctx idle).1 mount_sent mount_sent).
  - vm_compute. reflexivity.
  - vm_compute. reflexivity.
  - vm_compute. reflexivity.
  - vm_compute. reflexivity.
  - reflexivity.
  - lia.
  - left. split; [apply surjective_pairing|]. split; [vm_compute; congruence|]. vm_compute. split; congruence.
  - eapply rtc_l; [|apply rtc_once].
    + apply (tr_message 30 _ once 10 11 mount_bytes neighbour (handle_rpc 10 11 mount_bytes neighbour once).1 twice);
        [lia|lia|apply surjective_pairing].
    + apply (tr_check 30 _ twice 20). lia.
Defined.
End RpcServerExample.
