(* ===== verification/Nfs.v ===== *)
(** The NFSv3 data types and their wire form (crates/nessie-nfsserve/src/nfs.rs): every
    structure, union and enumeration the handlers exchange, with its [XDR] instance and
    the laws of Xdr.v.

    A union on a boolean ([xdr_bool_union!]) is an [option]: its [Void] is [None].
    [set_atime] and [set_mtime] have the same variants and code, here [set_time]. *)

From Stdlib Require Import ZArith Lia.
From stdpp Require Import base list option.
From S2P Require Import Prelude Xdr Rpc.

Local Open Scope Z_scope.

(** ** Constants *)

Definition PROGRAM : Z := 100003.
Definition VERSION : Z := 3.
Definition NFS3_COOKIEVERFSIZE : nat := 8.
Definition NFS3_WRITEVERFSIZE : nat := 8.

Definition FSF_LINK : Z := 0x0001.
Definition FSF_SYMLINK : Z := 0x0002.
Definition FSF_HOMOGENEOUS : Z := 0x0008.
Definition FSF_CANSETTIME : Z := 0x0010.

(** ** Enumerations *)

(** The derived [from_u32]: the variant with the discriminant. *)
Definition variant_of {A} (variants : list A) (disc : A -> Z) (z : Z) : option A :=
  snd <$> list_find (fun a => disc a = z) variants.

Inductive nfsstat3 :=
| NFS3_OK | NFS3ERR_PERM | NFS3ERR_NOENT | NFS3ERR_IO | NFS3ERR_NXIO | NFS3ERR_ACCES
| NFS3ERR_EXIST | NFS3ERR_XDEV | NFS3ERR_NODEV | NFS3ERR_NOTDIR | NFS3ERR_ISDIR
| NFS3ERR_INVAL | NFS3ERR_FBIG | NFS3ERR_NOSPC | NFS3ERR_ROFS | NFS3ERR_MLINK
| NFS3ERR_NAMETOOLONG | NFS3ERR_NOTEMPTY | NFS3ERR_DQUOT | NFS3ERR_STALE | NFS3ERR_REMOTE
| NFS3ERR_BADHANDLE | NFS3ERR_NOT_SYNC | NFS3ERR_BAD_COOKIE | NFS3ERR_NOTSUPP
| NFS3ERR_TOOSMALL | NFS3ERR_SERVERFAULT | NFS3ERR_BADTYPE | NFS3ERR_JUKEBOX.

#[export] Instance nfsstat3_eq_dec : EqDecision nfsstat3.
Proof. solve_decision. Defined.

Definition nfsstat3_all : list nfsstat3 :=
  [NFS3_OK; NFS3ERR_PERM; NFS3ERR_NOENT; NFS3ERR_IO; NFS3ERR_NXIO; NFS3ERR_ACCES;
   NFS3ERR_EXIST; NFS3ERR_XDEV; NFS3ERR_NODEV; NFS3ERR_NOTDIR; NFS3ERR_ISDIR;
   NFS3ERR_INVAL; NFS3ERR_FBIG; NFS3ERR_NOSPC; NFS3ERR_ROFS; NFS3ERR_MLINK;
   NFS3ERR_NAMETOOLONG; NFS3ERR_NOTEMPTY; NFS3ERR_DQUOT; NFS3ERR_STALE; NFS3ERR_REMOTE;
   NFS3ERR_BADHANDLE; NFS3ERR_NOT_SYNC; NFS3ERR_BAD_COOKIE; NFS3ERR_NOTSUPP;
   NFS3ERR_TOOSMALL; NFS3ERR_SERVERFAULT; NFS3ERR_BADTYPE; NFS3ERR_JUKEBOX].

Definition nfsstat3_disc (s : nfsstat3) : Z :=
  match s with
  | NFS3_OK => 0 | NFS3ERR_PERM => 1 | NFS3ERR_NOENT => 2 | NFS3ERR_IO => 5
  | NFS3ERR_NXIO => 6 | NFS3ERR_ACCES => 13 | NFS3ERR_EXIST => 17 | NFS3ERR_XDEV => 18
  | NFS3ERR_NODEV => 19 | NFS3ERR_NOTDIR => 20 | NFS3ERR_ISDIR => 21 | NFS3ERR_INVAL => 22
  | NFS3ERR_FBIG => 27 | NFS3ERR_NOSPC => 28 | NFS3ERR_ROFS => 30 | NFS3ERR_MLINK => 31
  | NFS3ERR_NAMETOOLONG => 63 | NFS3ERR_NOTEMPTY => 66 | NFS3ERR_DQUOT => 69
  | NFS3ERR_STALE => 70 | NFS3ERR_REMOTE => 71 | NFS3ERR_BADHANDLE => 10001
  | NFS3ERR_NOT_SYNC => 10002 | NFS3ERR_BAD_COOKIE => 10003 | NFS3ERR_NOTSUPP => 10004
  | NFS3ERR_TOOSMALL => 10005 | NFS3ERR_SERVERFAULT => 10006 | NFS3ERR_BADTYPE => 10007
  | NFS3ERR_JUKEBOX => 10008
  end.

(** [nfsstat3] has no [Default]; a decoder starts from a value of the caller's. *)
#[export] Instance nfsstat3_xdr : XDR nfsstat3 :=
  enum_xdr NFS3_OK nfsstat3_disc (variant_of nfsstat3_all nfsstat3_disc).

Inductive ftype3 := NF3REG | NF3DIR | NF3BLK | NF3CHR | NF3LNK | NF3SOCK | NF3FIFO.

#[export] Instance ftype3_eq_dec : EqDecision ftype3.
Proof. solve_decision. Defined.

Definition ftype3_all : list ftype3 := [NF3REG; NF3DIR; NF3BLK; NF3CHR; NF3LNK; NF3SOCK; NF3FIFO].

Definition ftype3_disc (t : ftype3) : Z :=
  match t with
  | NF3REG => 1 | NF3DIR => 2 | NF3BLK => 3 | NF3CHR => 4 | NF3LNK => 5 | NF3SOCK => 6
  | NF3FIFO => 7
  end.

#[export] Instance ftype3_xdr : XDR ftype3 :=
  enum_xdr NF3REG ftype3_disc (variant_of ftype3_all ftype3_disc).

(** ** Structures *)

Abbreviation ser64 := (@ser Z u64_xdr).
Abbreviation de64 := (@de Z u64_xdr).

Record specdata3 := mkSpec { specdata1 : Z; specdata2 : Z }.

Record nfs_fh3 := mkFh { fh_data : list byte }.

Record nfstime3 := mkTime { seconds : Z; nseconds : Z }.

#[export] Instance specdata3_eq_dec : EqDecision specdata3.
Proof. solve_decision. Defined.
#[export] Instance nfstime3_eq_dec : EqDecision nfstime3.
Proof. solve_decision. Defined.

Record fattr3 := mkFattr {
  fa_ftype : ftype3;
  fa_mode : Z;
  fa_nlink : Z;
  fa_uid : Z;
  fa_gid : Z;
  fa_size : Z;
  fa_used : Z;
  fa_rdev : specdata3;
  fa_fsid : Z;
  fa_fileid : Z;
  fa_atime : nfstime3;
  fa_mtime : nfstime3;
  fa_ctime : nfstime3;
}.

Definition post_op_attr : Type := option fattr3.

Record fsinfo3 := mkFsinfo {
  fi_obj_attributes : post_op_attr;
  fi_rtmax : Z;
  fi_rtpref : Z;
  fi_rtmult : Z;
  fi_wtmax : Z;
  fi_wtpref : Z;
  fi_wtmult : Z;
  fi_dtpref : Z;
  fi_maxfilesize : Z;
  fi_time_delta : nfstime3;
  fi_properties : Z;
}.

Record wcc_attr := mkWccAttr { wa_size : Z; wa_mtime : nfstime3; wa_ctime : nfstime3 }.

Definition pre_op_attr : Type := option wcc_attr.

Record wcc_data := mkWcc { before : pre_op_attr; after : post_op_attr }.

Definition post_op_fh3 : Type := option nfs_fh3.

(** [set_mode3], [set_uid3], [set_gid3] and [set_size3] *)
Definition set_u32 : Type := option Z.
Definition set_u64 : Type := option Z.

Inductive set_time := DONT_CHANGE | SET_TO_SERVER_TIME | SET_TO_CLIENT_TIME (t : nfstime3).

Record sattr3 := mkSattr {
  sa_mode : set_u32;
  sa_uid : set_u32;
  sa_gid : set_u32;
  sa_size : set_u64;
  sa_atime : set_time;
  sa_mtime : set_time;
}.

Record diropargs3 := mkDirop { do_dir : nfs_fh3; do_name : list byte }.

Record symlinkdata3 := mkSymlink { symlink_attributes : sattr3; symlink_data : list byte }.

Definition get_root_mount_handle : list byte := [z2b 0].

(** ** Wire forms *)

(** [xdr_bool_union!] *)
Definition bool_union_xdr {A} (X : XDR A) : XDR (option A) := {|
  default_ := None;
  ser a := match a with None => ser false | Some v => ser_seq [ser true; ser v] end;
  de _ := c ← de false; if c : bool then r ← de default_; mret (Some r) else mret None;
|}.

#[export] Instance specdata3_xdr : XDR specdata3 := {|
  default_ := mkSpec 0 0;
  ser a := ser_seq [ser32 (specdata1 a); ser32 (specdata2 a)];
  de self := x ← de32 (specdata1 self); y ← de32 (specdata2 self); mret (mkSpec x y);
|}.

#[export] Instance nfs_fh3_xdr : XDR nfs_fh3 := {|
  default_ := mkFh [];
  ser a := ser_seq [ser (fh_data a)];
  de self := x ← de (fh_data self); mret (mkFh x);
|}.

#[export] Instance nfstime3_xdr : XDR nfstime3 := {|
  default_ := mkTime 0 0;
  ser a := ser_seq [ser32 (seconds a); ser32 (nseconds a)];
  de self := x ← de32 (seconds self); y ← de32 (nseconds self); mret (mkTime x y);
|}.

#[export] Instance fattr3_xdr : XDR fattr3 := {|
  default_ := mkFattr default_ 0 0 0 0 0 0 default_ 0 0 default_ default_ default_;
  ser a := ser_seq [ser (fa_ftype a); ser32 (fa_mode a); ser32 (fa_nlink a); ser32 (fa_uid a);
    ser32 (fa_gid a); ser64 (fa_size a); ser64 (fa_used a); ser (fa_rdev a); ser64 (fa_fsid a);
    ser64 (fa_fileid a); ser (fa_atime a); ser (fa_mtime a); ser (fa_ctime a)];
  de self :=
    t ← de (fa_ftype self); m ← de32 (fa_mode self); n ← de32 (fa_nlink self);
    u ← de32 (fa_uid self); g ← de32 (fa_gid self); s ← de64 (fa_size self);
    us ← de64 (fa_used self); r ← de (fa_rdev self); f ← de64 (fa_fsid self);
    i ← de64 (fa_fileid self); a ← de (fa_atime self); mt ← de (fa_mtime self);
    c ← de (fa_ctime self);
    mret (mkFattr t m n u g s us r f i a mt c);
|}.

#[export] Instance post_op_attr_xdr : XDR post_op_attr := bool_union_xdr fattr3_xdr.

#[export] Instance fsinfo3_xdr : XDR fsinfo3 := {|
  default_ := mkFsinfo default_ 0 0 0 0 0 0 0 0 default_ 0;
  ser a := ser_seq [ser (fi_obj_attributes a); ser32 (fi_rtmax a); ser32 (fi_rtpref a);
    ser32 (fi_rtmult a); ser32 (fi_wtmax a); ser32 (fi_wtpref a); ser32 (fi_wtmult a);
    ser32 (fi_dtpref a); ser64 (fi_maxfilesize a); ser (fi_time_delta a);
    ser32 (fi_properties a)];
  de self :=
    o ← de (fi_obj_attributes self); a ← de32 (fi_rtmax self); b ← de32 (fi_rtpref self);
    c ← de32 (fi_rtmult self); d ← de32 (fi_wtmax self); e ← de32 (fi_wtpref self);
    f ← de32 (fi_wtmult self); g ← de32 (fi_dtpref self); h ← de64 (fi_maxfilesize self);
    t ← de (fi_time_delta self); p ← de32 (fi_properties self);
    mret (mkFsinfo o a b c d e f g h t p);
|}.

#[export] Instance wcc_attr_xdr : XDR wcc_attr := {|
  default_ := mkWccAttr 0 default_ default_;
  ser a := ser_seq [ser64 (wa_size a); ser (wa_mtime a); ser (wa_ctime a)];
  de self := s ← de64 (wa_size self); m ← de (wa_mtime self); c ← de (wa_ctime self);
    mret (mkWccAttr s m c);
|}.

#[export] Instance pre_op_attr_xdr : XDR pre_op_attr := bool_union_xdr wcc_attr_xdr.

#[export] Instance wcc_data_xdr : XDR wcc_data := {|
  default_ := mkWcc default_ default_;
  ser a := ser_seq [ser (before a); ser (after a)];
  de self := b ← de (before self); a ← de (after self); mret (mkWcc b a);
|}.

#[export] Instance post_op_fh3_xdr : XDR post_op_fh3 := bool_union_xdr nfs_fh3_xdr.

#[export] Instance set_u32_xdr : XDR set_u32 := bool_union_xdr u32_xdr.

Definition set_u64_xdr : XDR set_u64 := bool_union_xdr u64_xdr.

Abbreviation ser_opt64 := (@ser set_u64 set_u64_xdr).
Abbreviation de_opt64 := (@de set_u64 set_u64_xdr).

#[export] Instance set_time_xdr : XDR set_time := {|
  default_ := DONT_CHANGE;
  ser a :=
    match a with
    | DONT_CHANGE => ser32 0
    | SET_TO_SERVER_TIME => ser32 1
    | SET_TO_CLIENT_TIME v => ser_arm 2 (ser v)
    end;
  de _ :=
    c ← de32 0;
    if bool_decide (c = 0) then mret DONT_CHANGE
    else if bool_decide (c = 1) then mret SET_TO_SERVER_TIME
    else if bool_decide (c = 2) then r ← de default_; mret (SET_TO_CLIENT_TIME r)
    else fail InvalidData;
|}.

#[export] Instance sattr3_xdr : XDR sattr3 := {|
  default_ := mkSattr None None None None DONT_CHANGE DONT_CHANGE;
  ser a := ser_seq [ser (sa_mode a); ser (sa_uid a); ser (sa_gid a); ser_opt64 (sa_size a);
    ser (sa_atime a); ser (sa_mtime a)];
  de self :=
    m ← de (sa_mode self); u ← de (sa_uid self); g ← de (sa_gid self);
    s ← de_opt64 (sa_size self); a ← de (sa_atime self); t ← de (sa_mtime self);
    mret (mkSattr m u g s a t);
|}.

#[export] Instance diropargs3_xdr : XDR diropargs3 := {|
  default_ := mkDirop default_ [];
  ser a := ser_seq [ser (do_dir a); ser (do_name a)];
  de self := d ← de (do_dir self); n ← de (do_name self); mret (mkDirop d n);
|}.

#[export] Instance symlinkdata3_xdr : XDR symlinkdata3 := {|
  default_ := mkSymlink default_ [];
  ser a := ser_seq [ser (symlink_attributes a); ser (symlink_data a)];
  de self := s ← de (symlink_attributes self); d ← de (symlink_data self); mret (mkSymlink s d);
|}.

(** ** Laws *)

#[export] Instance nfsstat3_laws : XDRLaws nfsstat3_xdr.
Proof. apply enum_laws; intros []; done. Defined.

#[export] Instance ftype3_laws : XDRLaws ftype3_xdr.
Proof. apply enum_laws; intros []; done. Defined.

(** A structure's laws follow from its fields'. *)
Ltac split_valid H :=
  lazymatch type of H with
  | _ /\ _ => let H1 := fresh "Hv" in destruct H as [H1 H]; split_valid H
  | _ => idtac
  end.

Ltac struct_laws inst :=
  let a := fresh "a" in let s := fresh "s" in let x := fresh "x" in
  let H := fresh "H" in let E := fresh "E" in
  lazymatch goal with
  | |- forall _, _ -> is_Some _ =>
      intros a H; cbn beta in H; split_valid H; apply ser_seq_Some;
      repeat constructor; by apply ser_total
  | |- forall _, consumes _ => intros s; cbn [de inst]; consume_steps
  | |- _ =>
      intros s a x H E; cbn beta in H; split_valid H; cbn [ser inst] in E; ser_parts E;
      cbn [de inst]; decode_steps; by destruct a
  end.

Lemma bool_union_laws {A} (X : XDR A) `{!XDRLaws X} : XDRLaws (bool_union_xdr X).
Proof.
  refine {| xdr_valid (a : option A) := match a with Some v => xdr_valid v | None => True end |}.
  - intros [v|] Hv; cbn [ser bool_union_xdr]; [|by eexists].
    apply ser_seq_Some. repeat constructor; [by eexists|by apply ser_total].
  - intros self [v|] x Hv E; cbn [ser de bool_union_xdr] in *.
    + apply ser_seq_cons in E as (y & z & Hy & Hz & ->).
      apply ser_seq_cons in Hz as (w & u & Hw & [= <-] & ->). rewrite app_nil_r.
      eapply decodes_bind; [by apply (ser_de _ true)|]. cbn beta iota.
      by apply (decodes_payload X Some).
    + eapply decodes_map; [by apply (ser_de _ false)|]. apply decodes_ret.
  - intros self. cbn [de bool_union_xdr]. apply consumes_bind; [apply de_consumes|].
    intros []; [|apply consumes_ret]. apply consumes_bind; [apply de_consumes|]. intros r.
    apply consumes_ret.
Defined.

#[export] Instance specdata3_laws : XDRLaws specdata3_xdr.
Proof.
  refine {| xdr_valid (a : specdata3) := is_u32 (specdata1 a) /\ is_u32 (specdata2 a) |}.
  all: struct_laws specdata3_xdr.
Defined.

#[export] Instance nfs_fh3_laws : XDRLaws nfs_fh3_xdr.
Proof.
  refine {| xdr_valid (a : nfs_fh3) := zlen (fh_data a) < u32_max |}.
  all: struct_laws nfs_fh3_xdr.
Defined.

#[export] Instance nfstime3_laws : XDRLaws nfstime3_xdr.
Proof.
  refine {| xdr_valid (a : nfstime3) := is_u32 (seconds a) /\ is_u32 (nseconds a) |}.
  all: struct_laws nfstime3_xdr.
Defined.

#[export] Instance fattr3_laws : XDRLaws fattr3_xdr.
Proof.
  refine {| xdr_valid (a : fattr3) := True /\ is_u32 (fa_mode a) /\ is_u32 (fa_nlink a) /\
    is_u32 (fa_uid a) /\ is_u32 (fa_gid a) /\ is_u64 (fa_size a) /\ is_u64 (fa_used a) /\
    xdr_valid (fa_rdev a) /\ is_u64 (fa_fsid a) /\ is_u64 (fa_fileid a) /\
    xdr_valid (fa_atime a) /\ xdr_valid (fa_mtime a) /\ xdr_valid (fa_ctime a) |}.
  all: struct_laws fattr3_xdr.
Defined.

#[export] Instance post_op_attr_laws : XDRLaws post_op_attr_xdr := bool_union_laws fattr3_xdr.

#[export] Instance fsinfo3_laws : XDRLaws fsinfo3_xdr.
Proof.
  refine {| xdr_valid (a : fsinfo3) := xdr_valid (fi_obj_attributes a) /\ is_u32 (fi_rtmax a) /\
    is_u32 (fi_rtpref a) /\ is_u32 (fi_rtmult a) /\ is_u32 (fi_wtmax a) /\
    is_u32 (fi_wtpref a) /\ is_u32 (fi_wtmult a) /\ is_u32 (fi_dtpref a) /\
    is_u64 (fi_maxfilesize a) /\ xdr_valid (fi_time_delta a) /\ is_u32 (fi_properties a) |}.
  all: struct_laws fsinfo3_xdr.
Defined.

#[export] Instance wcc_attr_laws : XDRLaws wcc_attr_xdr.
Proof.
  refine {| xdr_valid (a : wcc_attr) :=
    is_u64 (wa_size a) /\ xdr_valid (wa_mtime a) /\ xdr_valid (wa_ctime a) |}.
  all: struct_laws wcc_attr_xdr.
Defined.

#[export] Instance pre_op_attr_laws : XDRLaws pre_op_attr_xdr := bool_union_laws wcc_attr_xdr.

#[export] Instance wcc_data_laws : XDRLaws wcc_data_xdr.
Proof.
  refine {| xdr_valid (a : wcc_data) := xdr_valid (before a) /\ xdr_valid (after a) |}.
  all: struct_laws wcc_data_xdr.
Defined.

#[export] Instance post_op_fh3_laws : XDRLaws post_op_fh3_xdr := bool_union_laws nfs_fh3_xdr.
#[export] Instance set_u32_laws : XDRLaws set_u32_xdr := bool_union_laws u32_xdr.
#[export] Instance set_u64_laws : XDRLaws set_u64_xdr := bool_union_laws u64_xdr.

#[export] Instance set_time_laws : XDRLaws set_time_xdr.
Proof.
  refine {| xdr_valid (a : set_time) :=
    match a with SET_TO_CLIENT_TIME v => xdr_valid v | _ => True end |}.
  - intros [| |v] Hv; [by eexists..|]. by apply ser_arm_total, ser_total.
  - intros self [| |v] x Hv E; cbn [ser de set_time_xdr] in *.
    3: apply ser_arm_Some in E as (y & Hy & ->); apply decodes_arm; [done|];
       by apply (decodes_payload nfstime3_xdr SET_TO_CLIENT_TIME).
    all: apply (inj Some) in E; subst x; by apply decodes_tag.
  - intros self. cbn [de set_time_xdr]. apply consumes_bind; [apply de_consumes|]. intros c.
    repeat case_bool_decide; [apply consumes_ret..| |apply consumes_fail].
    apply consumes_bind; [apply de_consumes|]. intros r. apply consumes_ret.
Defined.

#[export] Instance sattr3_laws : XDRLaws sattr3_xdr.
Proof.
  refine {| xdr_valid (a : sattr3) := xdr_valid (sa_mode a) /\ xdr_valid (sa_uid a) /\
    xdr_valid (sa_gid a) /\ @xdr_valid _ set_u64_xdr _ (sa_size a) /\ xdr_valid (sa_atime a) /\
    xdr_valid (sa_mtime a) |}.
  all: struct_laws sattr3_xdr.
Defined.

#[export] Instance diropargs3_laws : XDRLaws diropargs3_xdr.
Proof.
  refine {| xdr_valid (a : diropargs3) := xdr_valid (do_dir a) /\ zlen (do_name a) < u32_max |}.
  all: struct_laws diropargs3_xdr.
Defined.

#[export] Instance symlinkdata3_laws : XDRLaws symlinkdata3_xdr.
Proof.
  refine {| xdr_valid (a : symlinkdata3) :=
    xdr_valid (symlink_attributes a) /\ zlen (symlink_data a) < u32_max |}.
  all: struct_laws symlinkdata3_xdr.
Defined.
