(* ===== verification/Vfs.v ===== *)
(** The virtual file system the NFS server serves (crates/nessie-nfsserve/src/vfs.rs):
    the trait [NFSFileSystem] as a type class over the file system's state [W], its
    default methods, and fs_util.rs's conversions of host metadata.

    A method that may change the file system is an operation of [M nfsstat3 W]; the
    handle conversions, the capabilities and the server's identifier only look at it.
    The generation number, drawn once from the clock, is an argument. *)

From Stdlib Require Import ZArith Lia.
From stdpp Require Import base list option.
From S2P Require Import Prelude Text Xdr Rpc Nfs.

Local Open Scope Z_scope.

Record DirEntrySimple := mkDirEntrySimple {
  des_fileid : Z;
  des_cookie : Z;
  des_name : list byte;
}.

Record ReadDirSimpleResult := mkReadDirSimple {
  rds_entries : list DirEntrySimple;
  rds_end : bool;
}.

Record DirEntry := mkDirEntry {
  de_fileid : Z;
  de_cookie : Z;
  de_name : list byte;
  de_attr : fattr3;
}.

Record ReadDirResult := mkReadDir { rd_entries : list DirEntry; rd_end : bool }.

Definition from_readdir_result (result : ReadDirResult) : ReadDirSimpleResult :=
  mkReadDirSimple
    ((fun e => mkDirEntrySimple (de_fileid e) (de_cookie e) (de_name e)) <$> rd_entries result)
    (rd_end result).

Inductive VFSCapabilities := ReadOnly | ReadWrite.

#[export] Instance VFSCapabilities_eq_dec : EqDecision VFSCapabilities.
Proof. solve_decision. Defined.

Class NFSFileSystem (W : Type) := {
  capabilities : W -> VFSCapabilities;
  root_dir : W -> Z;
  lookup : Z -> list byte -> M nfsstat3 W Z;
  getattr : Z -> M nfsstat3 W fattr3;
  setattr : Z -> sattr3 -> M nfsstat3 W fattr3;
  read : Z -> Z -> Z -> M nfsstat3 W (list byte * bool);
  write : Z -> Z -> list byte -> M nfsstat3 W fattr3;
  write_stable : Z -> Z -> list byte -> bool -> M nfsstat3 W (fattr3 * bool);
  commit : Z -> Z -> Z -> M nfsstat3 W ();
  create : Z -> list byte -> sattr3 -> M nfsstat3 W (Z * fattr3);
  create_exclusive : Z -> list byte -> M nfsstat3 W Z;
  mkdir : Z -> list byte -> M nfsstat3 W (Z * fattr3);
  create_with_cred : Z -> list byte -> sattr3 -> UnixCred -> M nfsstat3 W (Z * fattr3);
  create_exclusive_with_cred : Z -> list byte -> UnixCred -> M nfsstat3 W Z;
  mkdir_with_cred : Z -> list byte -> UnixCred -> M nfsstat3 W (Z * fattr3);
  remove : Z -> list byte -> M nfsstat3 W ();
  rename : Z -> list byte -> Z -> list byte -> M nfsstat3 W ();
  readdir : Z -> Z -> Z -> M nfsstat3 W ReadDirResult;
  readdir_simple : Z -> Z -> M nfsstat3 W ReadDirSimpleResult;
  symlink : Z -> list byte -> list byte -> sattr3 -> M nfsstat3 W (Z * fattr3);
  readlink : Z -> M nfsstat3 W (list byte);
  link : Z -> Z -> list byte -> M nfsstat3 W fattr3;
  fsinfo : Z -> M nfsstat3 W fsinfo3;
  id_to_fh : W -> Z -> nfs_fh3;
  fh_to_id : W -> nfs_fh3 -> result nfsstat3 Z;
  path_to_id : list byte -> M nfsstat3 W Z;
  serverid : W -> list byte;
}.

(** [Result]'s answer as a value: the caller matches on it and goes on. *)
Definition ask {E E' S A} (op : M E S A) : M E' S (result E A) := fun s =>
  let '(r, s') := op s in (Ok r, s').

Definition asks {E S A} (f : S -> A) : M E S A := fun s => (Ok (f s), s).

Definition attributes_or_void (r : result nfsstat3 fattr3) : post_op_attr := res_ok r.

(** ** The trait's default methods *)

Section defaults.
Context {W : Type}.

Definition default_write_stable (write : Z -> Z -> list byte -> M nfsstat3 W fattr3)
    (id offset : Z) (data : list byte) (_ : bool) : M nfsstat3 W (fattr3 * bool) :=
  attr ← write id offset data; mret (attr, false).

Definition default_commit (_ _ _ : Z) : M nfsstat3 W () := mret ().

Definition default_create_with_cred (create : Z -> list byte -> sattr3 -> M nfsstat3 W (Z * fattr3))
    (dirid : Z) (filename : list byte) (attr : sattr3) (_ : UnixCred) : M nfsstat3 W (Z * fattr3) :=
  create dirid filename attr.

Definition default_create_exclusive_with_cred (create_exclusive : Z -> list byte -> M nfsstat3 W Z)
    (dirid : Z) (filename : list byte) (_ : UnixCred) : M nfsstat3 W Z :=
  create_exclusive dirid filename.

Definition default_mkdir_with_cred (mkdir : Z -> list byte -> M nfsstat3 W (Z * fattr3))
    (dirid : Z) (dirname : list byte) (_ : UnixCred) : M nfsstat3 W (Z * fattr3) :=
  mkdir dirid dirname.

Definition default_readdir_simple (readdir : Z -> Z -> Z -> M nfsstat3 W ReadDirResult)
    (dirid count : Z) : M nfsstat3 W ReadDirSimpleResult :=
  r ← readdir dirid 0 count; mret (from_readdir_result r).

Definition default_fsinfo (getattr : Z -> M nfsstat3 W fattr3) (root_fileid : Z) :
    M nfsstat3 W fsinfo3 :=
  r ← ask (getattr root_fileid);
  mret (mkFsinfo (attributes_or_void r) (1024 * 1024) (1024 * 124) (1024 * 1024) (1024 * 1024)
    (1024 * 1024) (1024 * 1024) (1024 * 1024) (128 * 1024 * 1024 * 1024) (mkTime 0 1000000)
    (Z.lor (Z.lor (Z.lor FSF_LINK FSF_SYMLINK) FSF_HOMOGENEOUS) FSF_CANSETTIME)).

(** A handle is the generation number and the identifier, little-endian. *)
Definition default_id_to_fh (gennum id : Z) : nfs_fh3 := mkFh (le_bytes 8 gennum ++ le_bytes 8 id).

Definition default_fh_to_id (gennum : Z) (fh : nfs_fh3) : result nfsstat3 Z :=
  if negb (bool_decide (length (fh_data fh) = 16%nat)) then Err NFS3ERR_BADHANDLE
  else
    let gen := le_val (take 8 (fh_data fh)) in
    let id := le_val (drop 8 (fh_data fh)) in
    match gen ?= gennum with
    | Lt => Err NFS3ERR_STALE
    | Gt => Err NFS3ERR_BADHANDLE
    | Eq => Ok id
    end.

Definition default_serverid (gennum : Z) : list byte := le_bytes 8 gennum.

Definition slash : byte := z2b 47.

(** The loop over a path's components. *)
Fixpoint walk (lookup : Z -> list byte -> M nfsstat3 W Z) (components : list (list byte)) (fid : Z) :
    M nfsstat3 W Z :=
  match components with
  | [] => mret fid
  | [] :: rest => walk lookup rest fid
  | component :: rest => fid ← lookup fid component; walk lookup rest fid
  end.

Definition default_path_to_id (root_dir : W -> Z) (lookup : Z -> list byte -> M nfsstat3 W Z)
    (path : list byte) : M nfsstat3 W Z :=
  fid ← asks root_dir; walk lookup (split_on slash path) fid.
End defaults.

(** ** Host metadata (fs_util.rs) *)

Inductive file_type := TRegular | TSymlink | TDir | TOther.

#[export] Instance file_type_eq_dec : EqDecision file_type.
Proof. solve_decision. Defined.

(** What [std::fs::Metadata] tells; times are signed, the rest unsigned. *)
Record Metadata := mkMeta {
  md_type : file_type;
  md_dev : Z;
  md_ino : Z;
  md_mode : Z;
  md_uid : Z;
  md_gid : Z;
  md_size : Z;
  md_atime : Z * Z;
  md_mtime : Z * Z;
  md_ctime : Z * Z;
}.

Definition as_u32 (z : Z) : Z := z mod 2 ^ 32.

Definition fattr3_differ (lhs rhs : fattr3) : bool :=
  negb (bool_decide (fa_fileid lhs = fa_fileid rhs)) ||
  negb (bool_decide (seconds (fa_mtime lhs) = seconds (fa_mtime rhs))) ||
  negb (bool_decide (nseconds (fa_mtime lhs) = nseconds (fa_mtime rhs))) ||
  negb (bool_decide (fa_size lhs = fa_size rhs)) ||
  negb (bool_decide (ftype3_disc (fa_ftype lhs) = ftype3_disc (fa_ftype rhs))).

Definition metadata_differ (lhs rhs : Metadata) : bool :=
  negb (bool_decide (md_ino lhs = md_ino rhs)) ||
  negb (bool_decide ((md_mtime lhs).1 = (md_mtime rhs).1)) ||
  negb (bool_decide (md_size lhs = md_size rhs)) ||
  negb (bool_decide (md_type lhs = md_type rhs)).

(** Owner-writable always; permission bits only. *)
Definition mode_unmask (mode : Z) : Z := Z.land (Z.lor mode 0x80) 0x1FF.

Definition time_of (t : Z * Z) : nfstime3 := mkTime (as_u32 t.1) (as_u32 t.2).

Definition metadata_to_fattr3 (fid : Z) (meta : Metadata) : fattr3 :=
  let '(ftype, nlink) :=
    match md_type meta with
    | TRegular => (NF3REG, 1)
    | TSymlink => (NF3LNK, 1)
    | _ => (NF3DIR, 2)
    end in
  mkFattr ftype (mode_unmask (md_mode meta)) nlink (md_uid meta) (md_gid meta) (md_size meta)
    (md_size meta) default_ 0 fid (time_of (md_atime meta)) (time_of (md_mtime meta))
    (time_of (md_ctime meta)).

(** ** The default handles *)

(** A handle made by this server resolves to its file; one of an earlier run is stale
    and one of a later run is refused. *)
Lemma default_handle_roundtrip gen gen' id :
  is_u64 gen -> is_u64 gen' -> is_u64 id ->
  default_fh_to_id gen' (default_id_to_fh gen id) =
    match gen ?= gen' with
    | Lt => Err NFS3ERR_STALE
    | Gt => Err NFS3ERR_BADHANDLE
    | Eq => Ok id
    end.
Proof.
  intros Hg Hg' Hi. unfold default_fh_to_id, default_id_to_fh. cbn [fh_data].
  rewrite length_app, !length_le_bytes, bool_decide_true by done. cbn [negb].
  rewrite take_app_length', drop_app_length' by (by rewrite length_le_bytes).
  unfold is_u64, u64_max in *. by rewrite !le_val_bytes, !Z.mod_small by (simpl; lia).
Qed.

Lemma default_fh_to_id_valid gen fh :
  match default_fh_to_id gen fh with Ok id => is_u64 id | Err e => e <> NFS3_OK end.
Proof.
  unfold default_fh_to_id. case_bool_decide as Hl; cbn [negb]; [|done].
  destruct (_ ?= gen); [|done..]. pose proof (le_val_range (drop 8 (fh_data fh))) as Hr.
  unfold zlen in Hr. rewrite length_drop, Hl in Hr.
  change (256 ^ Z.of_nat (16 - 8)) with (2 ^ 64) in Hr. unfold is_u64, u64_max. lia.
Qed.

Lemma default_id_to_fh_valid gen id : xdr_valid (default_id_to_fh gen id).
Proof.
  change (zlen (le_bytes 8 gen ++ le_bytes 8 id) < u32_max).
  by rewrite zlen_app; unfold zlen; rewrite !length_le_bytes.
Qed.

(** What the conversion makes of any metadata is a valid attribute structure. *)
Lemma metadata_to_fattr3_valid fid meta :
  is_u64 fid -> is_u32 (md_uid meta) -> is_u32 (md_gid meta) -> is_u64 (md_size meta) ->
  xdr_valid (metadata_to_fattr3 fid meta).
Proof.
  intros Hf Hu Hg Hs.
  assert (H32 : forall z, is_u32 (as_u32 z)).
  { intros z. unfold as_u32, is_u32, u32_max. pose proof (Z.mod_pos_bound z (2 ^ 32)). lia. }
  assert (Hm : is_u32 (mode_unmask (md_mode meta))).
  { unfold mode_unmask. change 0x1FF with (Z.ones 9). rewrite Z.land_ones by lia.
    pose proof (Z.mod_pos_bound (Z.lor (md_mode meta) 128) (2 ^ 9)).
    unfold is_u32, u32_max. lia. }
  destruct meta as [[] dev ino mode uid gid size at_ mt ct]; simpl in *;
    split_and!; try done; try apply H32.
Qed.
