(* ===== verification/NfsHandlers.v ===== *)
(** The NFSv3 program (crates/nessie-nfsserve/src/nfs_handlers.rs): [handle_nfs] and one
    definition per procedure, from the undecoded arguments to the reply's bytes, on the
    file system [W].

    The reply's bytes are written one value after the other; a serializer's panic loses
    them all, as the task's panic does.  [usize] is 64 bits, and its subtractions wrap,
    as in a release build (a debug build panics there instead). *)

From Stdlib Require Import ZArith Lia.
From stdpp Require Import base list option.
From S2P Require Import Prelude Text Xdr Rpc RpcServer Nfs Vfs.

Local Open Scope Z_scope.

(** ** Argument and result structures *)

Record READ3args := mkREAD3args { ra_file : nfs_fh3; ra_offset : Z; ra_count : Z }.
Record READ3resok := mkREAD3resok {
  rr_attributes : post_op_attr; rr_count : Z; rr_eof : bool; rr_data : list byte;
}.
Record PATHCONF3resok := mkPATHCONF3resok {
  pc_attributes : post_op_attr; pc_linkmax : Z; pc_name_max : Z; pc_no_trunc : bool;
  pc_chown_restricted : bool; pc_case_insensitive : bool; pc_case_preserving : bool;
}.
Record FSSTAT3resok := mkFSSTAT3resok {
  fs_attributes : post_op_attr; fs_tbytes : Z; fs_fbytes : Z; fs_abytes : Z; fs_tfiles : Z;
  fs_ffiles : Z; fs_afiles : Z; fs_invarsec : Z;
}.
Record READDIRPLUS3args := mkREADDIRPLUS3args {
  rp_dir : nfs_fh3; rp_cookie : Z; rp_cookieverf : list byte; rp_dircount : Z; rp_maxcount : Z;
}.
Record READDIR3args := mkREADDIR3args {
  rd_dir : nfs_fh3; rd_cookie : Z; rd_cookieverf : list byte; rd_dircount : Z;
}.
Record entry3 := mkEntry3 { e_fileid : Z; e_name : list byte; e_cookie : Z }.
Record entryplus3 := mkEntryplus3 {
  ep_fileid : Z; ep_name : list byte; ep_cookie : Z; ep_attributes : post_op_attr;
  ep_handle : post_op_fh3;
}.
Inductive stable_how := UNSTABLE | DATA_SYNC | FILE_SYNC.
Record WRITE3args := mkWRITE3args {
  w_file : nfs_fh3; w_offset : Z; w_count : Z; w_stable : Z; w_data : list byte;
}.
Record WRITE3resok := mkWRITE3resok {
  wr_file_wcc : wcc_data; wr_count : Z; wr_committed : stable_how; wr_verf : list byte;
}.
Record COMMIT3args := mkCOMMIT3args { c_file : nfs_fh3; c_offset : Z; c_count : Z }.
Record COMMIT3resok := mkCOMMIT3resok { cr_file_wcc : wcc_data; cr_verf : list byte }.
Inductive createmode3 := UNCHECKED | GUARDED | EXCLUSIVE.

(** [sattrguard3]: a union on a boolean. *)
Definition sattrguard3 : Type := option nfstime3.
Record SETATTR3args := mkSETATTR3args {
  s_object : nfs_fh3; s_new_attribute : sattr3; s_guard : sattrguard3;
}.
Record MKDIR3args := mkMKDIR3args { md_dirops : diropargs3; md_attributes : sattr3 }.
Record SYMLINK3args := mkSYMLINK3args { sl_dirops : diropargs3; sl_symlink : symlinkdata3 }.
Record LINK3args := mkLINK3args { l_file : nfs_fh3; l_link : diropargs3 }.

#[export] Instance READ3args_xdr : XDR READ3args := {|
  default_ := mkREAD3args default_ 0 0;
  ser a := ser_seq [ser (ra_file a); ser64 (ra_offset a); ser32 (ra_count a)];
  de self := f ← de (ra_file self); o ← de64 (ra_offset self); c ← de32 (ra_count self);
    mret (mkREAD3args f o c);
|}.

#[export] Instance READ3resok_xdr : XDR READ3resok := {|
  default_ := mkREAD3resok default_ 0 false [];
  ser a := ser_seq [ser (rr_attributes a); ser32 (rr_count a); ser (rr_eof a); ser (rr_data a)];
  de self := a ← de (rr_attributes self); c ← de32 (rr_count self); e ← de (rr_eof self);
    d ← de (rr_data self); mret (mkREAD3resok a c e d);
|}.

#[export] Instance PATHCONF3resok_xdr : XDR PATHCONF3resok := {|
  default_ := mkPATHCONF3resok default_ 0 0 false false false false;
  ser a := ser_seq [ser (pc_attributes a); ser32 (pc_linkmax a); ser32 (pc_name_max a);
    ser (pc_no_trunc a); ser (pc_chown_restricted a); ser (pc_case_insensitive a);
    ser (pc_case_preserving a)];
  de self := a ← de (pc_attributes self); l ← de32 (pc_linkmax self); n ← de32 (pc_name_max self);
    t ← de (pc_no_trunc self); c ← de (pc_chown_restricted self);
    i ← de (pc_case_insensitive self); p ← de (pc_case_preserving self);
    mret (mkPATHCONF3resok a l n t c i p);
|}.

#[export] Instance FSSTAT3resok_xdr : XDR FSSTAT3resok := {|
  default_ := mkFSSTAT3resok default_ 0 0 0 0 0 0 0;
  ser a := ser_seq [ser (fs_attributes a); ser64 (fs_tbytes a); ser64 (fs_fbytes a);
    ser64 (fs_abytes a); ser64 (fs_tfiles a); ser64 (fs_ffiles a); ser64 (fs_afiles a);
    ser32 (fs_invarsec a)];
  de self := a ← de (fs_attributes self); t ← de64 (fs_tbytes self); f ← de64 (fs_fbytes self);
    b ← de64 (fs_abytes self); u ← de64 (fs_tfiles self); g ← de64 (fs_ffiles self);
    h ← de64 (fs_afiles self); i ← de32 (fs_invarsec self);
    mret (mkFSSTAT3resok a t f b u g h i);
|}.

#[export] Instance READDIRPLUS3args_xdr : XDR READDIRPLUS3args := {|
  default_ := mkREADDIRPLUS3args default_ 0 (replicate NFS3_COOKIEVERFSIZE (z2b 0)) 0 0;
  ser a := ser_seq [ser (rp_dir a); ser64 (rp_cookie a);
    @ser _ (array_xdr NFS3_COOKIEVERFSIZE) (rp_cookieverf a); ser32 (rp_dircount a);
    ser32 (rp_maxcount a)];
  de self := d ← de (rp_dir self); c ← de64 (rp_cookie self);
    v ← @de _ (array_xdr NFS3_COOKIEVERFSIZE) (rp_cookieverf self);
    n ← de32 (rp_dircount self); m ← de32 (rp_maxcount self);
    mret (mkREADDIRPLUS3args d c v n m);
|}.

#[export] Instance READDIR3args_xdr : XDR READDIR3args := {|
  default_ := mkREADDIR3args default_ 0 (replicate NFS3_COOKIEVERFSIZE (z2b 0)) 0;
  ser a := ser_seq [ser (rd_dir a); ser64 (rd_cookie a);
    @ser _ (array_xdr NFS3_COOKIEVERFSIZE) (rd_cookieverf a); ser32 (rd_dircount a)];
  de self := d ← de (rd_dir self); c ← de64 (rd_cookie self);
    v ← @de _ (array_xdr NFS3_COOKIEVERFSIZE) (rd_cookieverf self);
    n ← de32 (rd_dircount self);
    mret (mkREADDIR3args d c v n);
|}.

#[export] Instance entry3_xdr : XDR entry3 := {|
  default_ := mkEntry3 0 [] 0;
  ser a := ser_seq [ser64 (e_fileid a); ser (e_name a); ser64 (e_cookie a)];
  de self := f ← de64 (e_fileid self); n ← de (e_name self); c ← de64 (e_cookie self);
    mret (mkEntry3 f n c);
|}.

#[export] Instance entryplus3_xdr : XDR entryplus3 := {|
  default_ := mkEntryplus3 0 [] 0 default_ default_;
  ser a := ser_seq [ser64 (ep_fileid a); ser (ep_name a); ser64 (ep_cookie a);
    ser (ep_attributes a); ser (ep_handle a)];
  de self := f ← de64 (ep_fileid self); n ← de (ep_name self); c ← de64 (ep_cookie self);
    a ← de (ep_attributes self); h ← de (ep_handle self); mret (mkEntryplus3 f n c a h);
|}.

Definition stable_how_disc (s : stable_how) : Z :=
  match s with UNSTABLE => 0 | DATA_SYNC => 1 | FILE_SYNC => 2 end.

#[export] Instance stable_how_xdr : XDR stable_how :=
  enum_xdr UNSTABLE stable_how_disc (nth_variant [UNSTABLE; DATA_SYNC; FILE_SYNC] 0).

#[export] Instance WRITE3args_xdr : XDR WRITE3args := {|
  default_ := mkWRITE3args default_ 0 0 0 [];
  ser a := ser_seq [ser (w_file a); ser64 (w_offset a); ser32 (w_count a); ser32 (w_stable a);
    ser (w_data a)];
  de self := f ← de (w_file self); o ← de64 (w_offset self); c ← de32 (w_count self);
    s ← de32 (w_stable self); d ← de (w_data self); mret (mkWRITE3args f o c s d);
|}.

#[export] Instance WRITE3resok_xdr : XDR WRITE3resok := {|
  default_ := mkWRITE3resok default_ 0 UNSTABLE (replicate NFS3_WRITEVERFSIZE (z2b 0));
  ser a := ser_seq [ser (wr_file_wcc a); ser32 (wr_count a); ser (wr_committed a);
    @ser _ (array_xdr NFS3_WRITEVERFSIZE) (wr_verf a)];
  de self := w ← de (wr_file_wcc self); c ← de32 (wr_count self); s ← de (wr_committed self);
    v ← @de _ (array_xdr NFS3_WRITEVERFSIZE) (wr_verf self); mret (mkWRITE3resok w c s v);
|}.

#[export] Instance COMMIT3args_xdr : XDR COMMIT3args := {|
  default_ := mkCOMMIT3args default_ 0 0;
  ser a := ser_seq [ser (c_file a); ser64 (c_offset a); ser32 (c_count a)];
  de self := f ← de (c_file self); o ← de64 (c_offset self); c ← de32 (c_count self);
    mret (mkCOMMIT3args f o c);
|}.

#[export] Instance COMMIT3resok_xdr : XDR COMMIT3resok := {|
  default_ := mkCOMMIT3resok default_ (replicate NFS3_WRITEVERFSIZE (z2b 0));
  ser a := ser_seq [ser (cr_file_wcc a); @ser _ (array_xdr NFS3_WRITEVERFSIZE) (cr_verf a)];
  de self := w ← de (cr_file_wcc self); v ← @de _ (array_xdr NFS3_WRITEVERFSIZE) (cr_verf self);
    mret (mkCOMMIT3resok w v);
|}.

Definition createmode3_disc (c : createmode3) : Z :=
  match c with UNCHECKED => 0 | GUARDED => 1 | EXCLUSIVE => 2 end.

#[export] Instance createmode3_xdr : XDR createmode3 :=
  enum_xdr UNCHECKED createmode3_disc (nth_variant [UNCHECKED; GUARDED; EXCLUSIVE] 0).

#[export] Instance sattrguard3_xdr : XDR sattrguard3 := bool_union_xdr nfstime3_xdr.

#[export] Instance SETATTR3args_xdr : XDR SETATTR3args := {|
  default_ := mkSETATTR3args default_ default_ default_;
  ser a := ser_seq [ser (s_object a); ser (s_new_attribute a); ser (s_guard a)];
  de self := o ← de (s_object self); n ← de (s_new_attribute self); g ← de (s_guard self);
    mret (mkSETATTR3args o n g);
|}.

#[export] Instance MKDIR3args_xdr : XDR MKDIR3args := {|
  default_ := mkMKDIR3args default_ default_;
  ser a := ser_seq [ser (md_dirops a); ser (md_attributes a)];
  de self := d ← de (md_dirops self); a ← de (md_attributes self); mret (mkMKDIR3args d a);
|}.

#[export] Instance SYMLINK3args_xdr : XDR SYMLINK3args := {|
  default_ := mkSYMLINK3args default_ default_;
  ser a := ser_seq [ser (sl_dirops a); ser (sl_symlink a)];
  de self := d ← de (sl_dirops self); s ← de (sl_symlink self); mret (mkSYMLINK3args d s);
|}.

#[export] Instance LINK3args_xdr : XDR LINK3args := {|
  default_ := mkLINK3args default_ default_;
  ser a := ser_seq [ser (l_file a); ser (l_link a)];
  de self := f ← de (l_file self); l ← de (l_link self); mret (mkLINK3args f l);
|}.

(** ** Shared steps *)

(** The attributes kept for weak cache consistency. *)
Definition wcc_of (v : fattr3) : wcc_attr := mkWccAttr (fa_size v) (fa_mtime v) (fa_ctime v).

(** [*self = T::default(); self.deserialize(input)?] *)
Definition arg {W} (A : Type) `{XDR A} (input : list byte) : M rpc_error W (A * list byte) :=
  lift (decode (de (default_ : A)) input).

(** The success header, the status, and what follows it. *)
Definition reply {W} (x : Z) (stat : nfsstat3) (rest : list (option (list byte))) :
    M rpc_error W (list byte) :=
  lift (emit (ser_seq (ser (make_success_reply x) :: ser stat :: rest))).

(** ** Procedures *)

Section handlers.
Context {W : Type} `{!NFSFileSystem W}.
Implicit Types (x : Z) (input : list byte).

Abbreviation Proc := (M rpc_error W (list byte)).

(** [NFS3ERR_ROFS], before the arguments are even read. *)
Definition no_write_capabilities x (rest : list (option (list byte))) (go : Proc) : Proc :=
  c ← asks capabilities;
  if bool_decide (c = ReadWrite) then go else reply x NFS3ERR_ROFS rest.

Definition wcc_void : option (list byte) := ser (default_ : wcc_data).

Definition nfsproc3_null x : Proc := lift (emit (ser (make_success_reply x))).

Definition nfsproc3_getattr x input : Proc :=
  '(handle, _) ← arg nfs_fh3 input;
  id ← asks (fun w => fh_to_id w handle);
  match id with
  | Err stat => reply x stat []
  | Ok id =>
      r ← ask (getattr id);
      match r with
      | Ok fh => reply x NFS3_OK [ser fh]
      | Err stat => reply x stat []
      end
  end.

Definition nfsproc3_lookup x input : Proc :=
  '(dirops, _) ← arg diropargs3 input;
  dirid ← asks (fun w => fh_to_id w (do_dir dirops));
  match dirid with
  | Err stat => reply x stat [ser (None : post_op_attr)]
  | Ok dirid =>
      r ← ask (getattr dirid);
      let dir_attr := attributes_or_void r in
      l ← ask (lookup dirid (do_name dirops));
      match l with
      | Ok fid =>
          r ← ask (getattr fid);
          fh ← asks (fun w => id_to_fh w fid);
          reply x NFS3_OK [ser fh; ser (attributes_or_void r); ser dir_attr]
      | Err stat => reply x stat [ser dir_attr]
      end
  end.

Definition nfsproc3_read x input : Proc :=
  '(args, _) ← arg READ3args input;
  id ← asks (fun w => fh_to_id w (ra_file args));
  match id with
  | Err stat => reply x stat [ser (None : post_op_attr)]
  | Ok id =>
      r ← ask (getattr id);
      let obj_attr := attributes_or_void r in
      d ← ask (read id (ra_offset args) (ra_count args));
      match d with
      | Ok (bytes, eof) =>
          reply x NFS3_OK [ser (mkREAD3resok obj_attr (as_u32 (zlen bytes)) eof bytes)]
      | Err stat => reply x stat [ser obj_attr]
      end
  end.

Definition nfsproc3_fsinfo x input : Proc :=
  '(handle, _) ← arg nfs_fh3 input;
  id ← asks (fun w => fh_to_id w handle);
  match id with
  | Err stat => reply x stat [ser (None : post_op_attr)]
  | Ok id =>
      r ← ask (fsinfo id);
      match r with
      | Ok info => reply x NFS3_OK [ser info]
      | Err stat => reply x stat []
      end
  end.

Definition ACCESS3_READ : Z := 0x0001.
Definition ACCESS3_LOOKUP : Z := 0x0002.

Definition nfsproc3_access x input : Proc :=
  '(handle, rest) ← arg nfs_fh3 input;
  '(access, _) ← lift (decode (de32 0) rest);
  id ← asks (fun w => fh_to_id w handle);
  match id with
  | Err stat => reply x stat [ser (None : post_op_attr)]
  | Ok id =>
      r ← ask (getattr id);
      c ← asks capabilities;
      let access :=
        if bool_decide (c = ReadWrite) then access
        else Z.land access (Z.lor ACCESS3_READ ACCESS3_LOOKUP) in
      reply x NFS3_OK [ser (attributes_or_void r); ser32 access]
  end.

Definition nfsproc3_pathconf x input : Proc :=
  '(handle, _) ← arg nfs_fh3 input;
  id ← asks (fun w => fh_to_id w handle);
  match id with
  | Err stat => reply x stat [ser (None : post_op_attr)]
  | Ok id =>
      r ← ask (getattr id);
      reply x NFS3_OK
        [ser (mkPATHCONF3resok (attributes_or_void r) 32000 32768 true true false true)]
  end.

Definition nfsproc3_fsstat x input : Proc :=
  '(handle, _) ← arg nfs_fh3 input;
  id ← asks (fun w => fh_to_id w handle);
  match id with
  | Err stat => reply x stat [ser (None : post_op_attr)]
  | Ok id =>
      r ← ask (getattr id);
      reply x NFS3_OK [ser (mkFSSTAT3resok (attributes_or_void r)
        (1024 * 1024 * 1024 * 1024) (1024 * 1024 * 1024 * 1024) (1024 * 1024 * 1024 * 1024)
        (1024 * 1024 * 1024) (1024 * 1024 * 1024) (1024 * 1024 * 1024) u32_max)]
  end.

(** *** Directory listings *)

(** The cookie verifier: the directory's modification time. *)
Definition dirversion (r : result nfsstat3 fattr3) : list byte :=
  match r with
  | Ok v => be_bytes 8 (Z.lor (Z.shiftl (seconds (fa_mtime v)) 32) (nseconds (fa_mtime v)))
  | Err _ => replicate NFS3_COOKIEVERFSIZE (z2b 0)
  end.

(** The entry loop.  [room] is asked with the bytes written and the directory bytes
    accumulated if the entry is committed; the loop stops at the first entry without
    room.  Returns what is written and whether every entry was. *)
Fixpoint fit_entries {E} (ser_entry : E -> option (list byte)) (name_of : E -> list byte)
    (room : Z -> Z -> bool) (bytes_written accumulated_dircount : Z) (entries : list E) :
    option (list byte * bool) :=
  match entries with
  | [] => Some ([], true)
  | entry :: rest =>
      write_buf ← ser_seq [ser true; ser_entry entry];
      let added_dircount := 8 + (4 + zlen (name_of entry)) + 8 in
      if room (zlen write_buf + bytes_written) (added_dircount + accumulated_dircount) then
        '(out, all) ← fit_entries ser_entry name_of room (bytes_written + zlen write_buf)
          (accumulated_dircount + added_dircount) rest;
        Some (write_buf ++ out, all)
      else Some ([], false)
  end.

(** The reply of a listing: its head, the entries that fit, the end of the list and the
    [eof] flag, which is only valid if everything was written. *)
Definition listing {E} x (ser_entry : E -> option (list byte)) (name_of : E -> list byte)
    (room : Z -> Z -> bool) (dir_attr : post_op_attr) (version : list byte)
    (entries : list E) (end_ : bool) : option (list byte) :=
  head ← ser_seq [ser (make_success_reply x); ser NFS3_OK; ser dir_attr;
                  @ser _ (array_xdr NFS3_COOKIEVERFSIZE) version];
  '(out, all_entries_written) ← fit_entries ser_entry name_of room (zlen head) 0 entries;
  tail ← ser_seq [ser false; ser (all_entries_written && end_)];
  Some (head ++ out ++ tail).

Definition entryplus_of (w : W) (e : DirEntry) : entryplus3 :=
  mkEntryplus3 (de_fileid e) (de_name e) (de_cookie e) (Some (de_attr e))
    (Some (id_to_fh w (de_fileid e))).

Definition entry_of (e : DirEntrySimple) : entry3 :=
  mkEntry3 (des_fileid e) (des_name e) (des_cookie e).

Definition nfsproc3_readdirplus x input : Proc :=
  '(args, _) ← arg READDIRPLUS3args input;
  dirid ← asks (fun w => fh_to_id w (rp_dir args));
  match dirid with
  | Err stat => reply x stat [ser (None : post_op_attr)]
  | Ok dirid =>
      r ← ask (getattr dirid);
      let max_bytes_allowed := wrap64 (rp_maxcount args - 128) in
      let estimated_max_results := rp_dircount args / 16 in
      let max_dircount_bytes := rp_dircount args in
      l ← ask (readdir dirid (rp_cookie args) estimated_max_results);
      match l with
      | Ok result =>
          es ← asks (fun w => entryplus_of w <$> rd_entries result);
          lift (emit (listing x ser ep_name
            (fun bytes dircount =>
              bool_decide (bytes < max_bytes_allowed) && bool_decide (dircount < max_dircount_bytes))
            (attributes_or_void r) (dirversion r) es (rd_end result)))
      | Err stat => reply x stat [ser (attributes_or_void r)]
      end
  end.

Definition nfsproc3_readdir x input : Proc :=
  '(args, _) ← arg READDIR3args input;
  dirid ← asks (fun w => fh_to_id w (rd_dir args));
  match dirid with
  | Err stat => reply x stat [ser (None : post_op_attr)]
  | Ok dirid =>
      r ← ask (getattr dirid);
      let max_bytes_allowed := wrap64 (rd_dircount args - 128) in
      let estimated_max_results := rd_dircount args / 16 in
      l ← ask (readdir_simple dirid estimated_max_results);
      match l with
      | Ok result =>
          lift (emit (listing x ser e_name (fun bytes _ => bool_decide (bytes < max_bytes_allowed))
            (attributes_or_void r) (dirversion r) (entry_of <$> rds_entries result)
            (rds_end result)))
      | Err stat => reply x stat [ser (attributes_or_void r)]
      end
  end.

(** *** Writing *)

Definition nfsproc3_write x input : Proc :=
  no_write_capabilities x [wcc_void] (
    '(args, _) ← arg WRITE3args input;
    if negb (bool_decide (zlen (w_data args) = w_count args))
    then lift (emit (ser (garbage_args_reply_message x)))
    else
      id ← asks (fun w => fh_to_id w (w_file args));
      match id with
      | Err stat => reply x stat [wcc_void]
      | Ok id =>
          r ← ask (getattr id);
          let pre_obj_attr := wcc_of <$> attributes_or_void r in
          let requested_stable := negb (bool_decide (w_stable args = stable_how_disc UNSTABLE)) in
          o ← ask (write_stable id (w_offset args) (w_data args) requested_stable);
          match o with
          | Ok (fattr, on_stable_storage) =>
              verf ← asks serverid;
              reply x NFS3_OK
                [ser (mkWRITE3resok (mkWcc pre_obj_attr (Some fattr)) (w_count args)
                   (if on_stable_storage : bool then FILE_SYNC else UNSTABLE) verf)]
          | Err stat => reply x stat [wcc_void]
          end
      end).

Definition nfsproc3_commit x input : Proc :=
  '(args, _) ← arg COMMIT3args input;
  id ← asks (fun w => fh_to_id w (c_file args));
  match id with
  | Err stat => reply x stat [wcc_void]
  | Ok id =>
      r ← ask (getattr id);
      let pre_obj_attr := wcc_of <$> attributes_or_void r in
      o ← ask (commit id (c_offset args) (c_count args));
      match o with
      | Ok () =>
          r ← ask (getattr id);
          verf ← asks serverid;
          reply x NFS3_OK [ser (mkCOMMIT3resok (mkWcc pre_obj_attr (attributes_or_void r)) verf)]
      | Err stat => reply x stat [wcc_void]
      end
  end.

Definition nfsproc3_setattr x input : Proc :=
  no_write_capabilities x [wcc_void] (
    '(args, _) ← arg SETATTR3args input;
    id ← asks (fun w => fh_to_id w (s_object args));
    match id with
    | Err stat => reply x stat []
    | Ok id =>
        r ← ask (getattr id);
        match r with
        | Err stat => reply x stat [wcc_void]
        | Ok v =>
            (* a failed guard writes its reply and goes on *)
            sofar ←
              match s_guard args with
              | Some c =>
                  if negb (bool_decide (seconds c = seconds (fa_ctime v))) ||
                     negb (bool_decide (nseconds c = nseconds (fa_ctime v)))
                  then reply x NFS3ERR_NOT_SYNC [wcc_void]
                  else mret []
              | None => mret []
              end;
            o ← ask (setattr id (s_new_attribute args));
            rest ←
              match o with
              | Ok post => reply x NFS3_OK [ser (mkWcc (Some (wcc_of v)) (Some post))]
              | Err stat => reply x stat [wcc_void]
              end;
            mret (sofar ++ rest)
        end
    end).

(** *** Directory changes *)

(** The handle and attributes of what was made. *)
Definition made (w : W) (fid : Z) (attr : post_op_attr) (wcc : wcc_data) :
    list (option (list byte)) :=
  [ser (Some (id_to_fh w fid) : post_op_fh3); ser attr; ser wcc].

(** What the procedures that change a directory share: resolve its handle, read its
    attributes, make the change, read them again, and answer with both. *)
Definition in_directory {A} x (dir : nfs_fh3) (void : list (option (list byte)))
    (change : Z -> M nfsstat3 W A)
    (ok : W -> A -> wcc_data -> list (option (list byte)))
    (err : wcc_data -> list (option (list byte))) : Proc :=
  dirid ← asks (fun w => fh_to_id w dir);
  match dirid with
  | Err stat => reply x stat void
  | Ok dirid =>
      r ← ask (getattr dirid);
      match r with
      | Err stat => reply x stat void
      | Ok v =>
          res ← ask (change dirid);
          r ← ask (getattr dirid);
          let wcc_res := mkWcc (Some (wcc_of v)) (attributes_or_void r) in
          match res with
          | Ok a => w ← get_state; reply x NFS3_OK (ok w a wcc_res)
          | Err e => reply x e (err wcc_res)
          end
      end
  end.

Definition nfsproc3_create x input (context : RPCContext) : Proc :=
  no_write_capabilities x [wcc_void] (
    '(dirops, rest) ← arg diropargs3 input;
    '(createhow, rest) ← arg createmode3 rest;
    dirid ← asks (fun w => fh_to_id w (do_dir dirops));
    match dirid with
    | Err stat => reply x stat [wcc_void]
    | Ok dirid =>
        r ← ask (getattr dirid);
        match r with
        | Err stat => reply x stat [wcc_void]
        | Ok v =>
            let pre_dir_attr := Some (wcc_of v) in
            let finish (fid : result nfsstat3 Z) (postopattr : post_op_attr) : Proc :=
              r ← ask (getattr dirid);
              let wcc_res := mkWcc pre_dir_attr (attributes_or_void r) in
              match fid with
              | Ok fid => w ← get_state; reply x NFS3_OK (made w fid postopattr wcc_res)
              | Err e => reply x e [ser wcc_res]
              end in
            let create_new : Proc :=
              '(target_attributes, _) ← arg sattr3 rest;
              res ← ask (create_with_cred dirid (do_name dirops) target_attributes
                           (cred_of (auth context)));
              finish (fst <$> res) (res_ok (snd <$> res)) in
            match createhow with
            | UNCHECKED => create_new
            | GUARDED =>
                _ ← arg sattr3 rest;
                l ← ask (lookup dirid (do_name dirops));
                if is_ok l then
                  r ← ask (getattr dirid);
                  reply x NFS3ERR_EXIST [ser (mkWcc pre_dir_attr (attributes_or_void r))]
                else create_new
            | EXCLUSIVE =>
                fid ← ask (create_exclusive_with_cred dirid (do_name dirops)
                             (cred_of (auth context)));
                finish fid None
            end
        end
    end).

Definition nfsproc3_remove x input : Proc :=
  no_write_capabilities x [wcc_void] (
    '(dirops, _) ← arg diropargs3 input;
    in_directory x (do_dir dirops) [wcc_void] (fun dirid => remove dirid (do_name dirops))
      (fun _ _ wcc_res => [ser wcc_res]) (fun wcc_res => [ser wcc_res])).

Definition nfsproc3_rename x input : Proc :=
  no_write_capabilities x [wcc_void] (
    '(fromdirops, rest) ← arg diropargs3 input;
    '(todirops, _) ← arg diropargs3 rest;
    from_dirid ← asks (fun w => fh_to_id w (do_dir fromdirops));
    to_dirid ← asks (fun w => fh_to_id w (do_dir todirops));
    match from_dirid, to_dirid with
    | Err stat, _ => reply x stat [wcc_void]
    | Ok _, Err stat => reply x stat [wcc_void]
    | Ok from_dirid, Ok to_dirid =>
        r ← ask (getattr from_dirid);
        match r with
        | Err stat => reply x stat [wcc_void]
        | Ok from_v =>
            r ← ask (getattr to_dirid);
            match r with
            | Err stat => reply x stat [wcc_void]
            | Ok to_v =>
                res ← ask (rename from_dirid (do_name fromdirops) to_dirid (do_name todirops));
                from_r ← ask (getattr from_dirid);
                to_r ← ask (getattr to_dirid);
                let from_wcc_res := mkWcc (Some (wcc_of from_v)) (attributes_or_void from_r) in
                let to_wcc_res := mkWcc (Some (wcc_of to_v)) (attributes_or_void to_r) in
                match res with
                | Ok () => reply x NFS3_OK [ser from_wcc_res; ser to_wcc_res]
                | Err e => reply x e [ser from_wcc_res; ser to_wcc_res]
                end
            end
        end
    end).

Definition nfsproc3_mkdir x input (context : RPCContext) : Proc :=
  no_write_capabilities x [wcc_void] (
    '(args, _) ← arg MKDIR3args input;
    in_directory x (do_dir (md_dirops args)) [wcc_void]
      (fun dirid => mkdir_with_cred dirid (do_name (md_dirops args)) (cred_of (auth context)))
      (fun w r wcc_res => made w r.1 (Some r.2) wcc_res) (fun wcc_res => [ser wcc_res])).

Definition nfsproc3_symlink x input : Proc :=
  no_write_capabilities x [wcc_void] (
    '(args, _) ← arg SYMLINK3args input;
    in_directory x (do_dir (sl_dirops args)) [wcc_void]
      (fun dirid => symlink dirid (do_name (sl_dirops args)) (symlink_data (sl_symlink args))
                      (symlink_attributes (sl_symlink args)))
      (fun w r wcc_res => made w r.1 (Some r.2) wcc_res) (fun wcc_res => [ser wcc_res])).

Definition nfsproc3_link x input : Proc :=
  no_write_capabilities x [ser (None : post_op_attr); wcc_void] (
    '(args, _) ← arg LINK3args input;
    id ← asks (fun w => fh_to_id w (l_file args));
    match id with
    | Err stat => reply x stat [ser (None : post_op_attr); wcc_void]
    | Ok id =>
        in_directory x (do_dir (l_link args)) [ser (None : post_op_attr); wcc_void]
          (fun dirid => link id dirid (do_name (l_link args)))
          (fun _ fattr wcc_res => [ser (Some fattr : post_op_attr); ser wcc_res])
          (fun wcc_res => [ser (None : post_op_attr); ser wcc_res])
    end).

Definition nfsproc3_readlink x input : Proc :=
  '(handle, _) ← arg nfs_fh3 input;
  id ← asks (fun w => fh_to_id w handle);
  match id with
  | Err stat => reply x stat []
  | Ok id =>
      r ← ask (getattr id);
      match r with
      | Err stat => reply x stat [ser (None : post_op_attr)]
      | Ok v =>
          p ← ask (readlink id);
          match p with
          | Ok path => reply x NFS3_OK [ser (Some v : post_op_attr); ser path]
          | Err stat => reply x stat [ser (Some v : post_op_attr)]
          end
      end
  end.

(** ** Dispatch *)

Inductive NFSProgram :=
| NFSPROC3_NULL | NFSPROC3_GETATTR | NFSPROC3_SETATTR | NFSPROC3_LOOKUP | NFSPROC3_ACCESS
| NFSPROC3_READLINK | NFSPROC3_READ | NFSPROC3_WRITE | NFSPROC3_CREATE | NFSPROC3_MKDIR
| NFSPROC3_SYMLINK | NFSPROC3_MKNOD | NFSPROC3_REMOVE | NFSPROC3_RMDIR | NFSPROC3_RENAME
| NFSPROC3_LINK | NFSPROC3_READDIR | NFSPROC3_READDIRPLUS | NFSPROC3_FSSTAT
| NFSPROC3_FSINFO | NFSPROC3_PATHCONF | NFSPROC3_COMMIT | NFS_INVALID.

Definition nfs_program_from_u32 : Z -> option NFSProgram :=
  nth_variant [NFSPROC3_NULL; NFSPROC3_GETATTR; NFSPROC3_SETATTR; NFSPROC3_LOOKUP;
    NFSPROC3_ACCESS; NFSPROC3_READLINK; NFSPROC3_READ; NFSPROC3_WRITE; NFSPROC3_CREATE;
    NFSPROC3_MKDIR; NFSPROC3_SYMLINK; NFSPROC3_MKNOD; NFSPROC3_REMOVE; NFSPROC3_RMDIR;
    NFSPROC3_RENAME; NFSPROC3_LINK; NFSPROC3_READDIR; NFSPROC3_READDIRPLUS; NFSPROC3_FSSTAT;
    NFSPROC3_FSINFO; NFSPROC3_PATHCONF; NFSPROC3_COMMIT; NFS_INVALID] 0.

Definition nfs_procedure (p : NFSProgram) x input (context : RPCContext) : Proc :=
  match p with
  | NFSPROC3_NULL => nfsproc3_null x
  | NFSPROC3_GETATTR => nfsproc3_getattr x input
  | NFSPROC3_LOOKUP => nfsproc3_lookup x input
  | NFSPROC3_READ => nfsproc3_read x input
  | NFSPROC3_FSINFO => nfsproc3_fsinfo x input
  | NFSPROC3_ACCESS => nfsproc3_access x input
  | NFSPROC3_PATHCONF => nfsproc3_pathconf x input
  | NFSPROC3_FSSTAT => nfsproc3_fsstat x input
  | NFSPROC3_READDIR => nfsproc3_readdir x input
  | NFSPROC3_READDIRPLUS => nfsproc3_readdirplus x input
  | NFSPROC3_WRITE => nfsproc3_write x input
  | NFSPROC3_CREATE => nfsproc3_create x input context
  | NFSPROC3_SETATTR => nfsproc3_setattr x input
  | NFSPROC3_REMOVE => nfsproc3_remove x input
  | NFSPROC3_RMDIR => nfsproc3_remove x input
  | NFSPROC3_RENAME => nfsproc3_rename x input
  | NFSPROC3_MKDIR => nfsproc3_mkdir x input context
  | NFSPROC3_SYMLINK => nfsproc3_symlink x input
  | NFSPROC3_READLINK => nfsproc3_readlink x input
  | NFSPROC3_COMMIT => nfsproc3_commit x input
  | NFSPROC3_LINK => nfsproc3_link x input
  | NFSPROC3_MKNOD | NFS_INVALID => lift (emit (ser (proc_unavail_reply_message x)))
  end.

Definition handle_nfs x (call : call_body) input (context : RPCContext) : Proc :=
  if negb (bool_decide (vers call = VERSION))
  then lift (emit (ser (prog_mismatch_reply_message x VERSION)))
  else nfs_procedure (default NFS_INVALID (nfs_program_from_u32 (proc call))) x input context.
End handlers.
