(* ===== verification/NfsConform.v ===== *)
(** What the NFS handlers of NfsHandlers.v answer, against the result unions of RFC 1813
    (which nfs_handlers.rs quotes above each procedure), and what a read-only file
    system is protected from.

    [de_reply] reads a reply as a client does: the RPC header, the status, and the arm
    of the procedure's union the status selects.  [ValidVfs] is what a file system owes
    the server: results that fit the wire, and errors that are errors. *)

From Stdlib Require Import ZArith Lia.
From stdpp Require Import base list option.
From S2P Require Import Prelude Text Xdr Rpc RpcServer Nfs Vfs NfsHandlers.

Local Open Scope Z_scope.

(** ** Laws of the handlers' structures *)

#[export] Instance READ3resok_laws : XDRLaws READ3resok_xdr.
Proof.
  refine {| xdr_valid (a : READ3resok) := xdr_valid (rr_attributes a) /\ is_u32 (rr_count a) /\
    True /\ zlen (rr_data a) < u32_max |}.
  all: struct_laws READ3resok_xdr.
Defined.

#[export] Instance PATHCONF3resok_laws : XDRLaws PATHCONF3resok_xdr.
Proof.
  refine {| xdr_valid (a : PATHCONF3resok) := xdr_valid (pc_attributes a) /\
    is_u32 (pc_linkmax a) /\ is_u32 (pc_name_max a) /\ True /\ True /\ True /\ True |}.
  all: struct_laws PATHCONF3resok_xdr.
Defined.

#[export] Instance FSSTAT3resok_laws : XDRLaws FSSTAT3resok_xdr.
Proof.
  refine {| xdr_valid (a : FSSTAT3resok) := xdr_valid (fs_attributes a) /\ is_u64 (fs_tbytes a) /\
    is_u64 (fs_fbytes a) /\ is_u64 (fs_abytes a) /\ is_u64 (fs_tfiles a) /\
    is_u64 (fs_ffiles a) /\ is_u64 (fs_afiles a) /\ is_u32 (fs_invarsec a) |}.
  all: struct_laws FSSTAT3resok_xdr.
Defined.

#[export] Instance entry3_laws : XDRLaws entry3_xdr.
Proof.
  refine {| xdr_valid (a : entry3) := is_u64 (e_fileid a) /\ zlen (e_name a) < u32_max /\
    is_u64 (e_cookie a) |}.
  all: struct_laws entry3_xdr.
Defined.

#[export] Instance entryplus3_laws : XDRLaws entryplus3_xdr.
Proof.
  refine {| xdr_valid (a : entryplus3) := is_u64 (ep_fileid a) /\ zlen (ep_name a) < u32_max /\
    is_u64 (ep_cookie a) /\ xdr_valid (ep_attributes a) /\ xdr_valid (ep_handle a) |}.
  all: struct_laws entryplus3_xdr.
Defined.

#[export] Instance stable_how_laws : XDRLaws stable_how_xdr.
Proof. apply enum_laws; intros []; done. Defined.

#[export] Instance WRITE3resok_laws : XDRLaws WRITE3resok_xdr.
Proof.
  refine {| xdr_valid (a : WRITE3resok) := xdr_valid (wr_file_wcc a) /\ is_u32 (wr_count a) /\
    True /\ length (wr_verf a) = NFS3_WRITEVERFSIZE |}.
  all: struct_laws WRITE3resok_xdr.
Defined.

#[export] Instance COMMIT3resok_laws : XDRLaws COMMIT3resok_xdr.
Proof.
  refine {| xdr_valid (a : COMMIT3resok) :=
    xdr_valid (cr_file_wcc a) /\ length (cr_verf a) = NFS3_WRITEVERFSIZE |}.
  all: struct_laws COMMIT3resok_xdr.
Defined.

(** ** Reading replies *)

(** One value of the union's arm, read and dropped. *)
Definition field {A} (X : XDR A) : XM () := _ ← @de _ X default_; mret ().

Definition verf_field : XM () := field (array_xdr NFS3_COOKIEVERFSIZE).

(** The linked list of a directory reply, and its [eof]. *)
Fixpoint de_entries {E} (X : XDR E) (fuel : nat) : XM (list E * bool) :=
  match fuel with
  | O => fail UnexpectedEof
  | S fuel =>
      more ← de false;
      if more : bool then
        e ← de default_;
        '(es, eof) ← de_entries X fuel;
        mret (e :: es, eof)
      else eof ← de false; mret ([], eof)
  end.

Definition de_dirlist {E} (X : XDR E) : XM (list E * bool) := fun src =>
  de_entries X (S (length src)) src.

Definition dirlist_field {E} (X : XDR E) : XM () := _ ← de_dirlist X; mret ().

(** The arm of each procedure's result union, by status. *)
Definition shape_ok (p : NFSProgram) : list (XM ()) :=
  let post := field post_op_attr_xdr in
  let wcc := field wcc_data_xdr in
  match p with
  | NFSPROC3_GETATTR => [field fattr3_xdr]
  | NFSPROC3_SETATTR | NFSPROC3_REMOVE | NFSPROC3_RMDIR => [wcc]
  | NFSPROC3_LOOKUP => [field nfs_fh3_xdr; post; post]
  | NFSPROC3_ACCESS => [post; field u32_xdr]
  | NFSPROC3_READLINK => [post; field opaque_xdr]
  | NFSPROC3_READ => [field READ3resok_xdr]
  | NFSPROC3_WRITE => [field WRITE3resok_xdr]
  | NFSPROC3_CREATE | NFSPROC3_MKDIR | NFSPROC3_SYMLINK => [field post_op_fh3_xdr; post; wcc]
  | NFSPROC3_RENAME => [wcc; wcc]
  | NFSPROC3_LINK => [post; wcc]
  | NFSPROC3_READDIR => [post; verf_field; dirlist_field entry3_xdr]
  | NFSPROC3_READDIRPLUS => [post; verf_field; dirlist_field entryplus3_xdr]
  | NFSPROC3_FSSTAT => [field FSSTAT3resok_xdr]
  | NFSPROC3_FSINFO => [field fsinfo3_xdr]
  | NFSPROC3_PATHCONF => [field PATHCONF3resok_xdr]
  | NFSPROC3_COMMIT => [field COMMIT3resok_xdr]
  | NFSPROC3_NULL | NFSPROC3_MKNOD | NFS_INVALID => []
  end.

Definition shape_fail (p : NFSProgram) : list (XM ()) :=
  let post := field post_op_attr_xdr in
  let wcc := field wcc_data_xdr in
  match p with
  | NFSPROC3_GETATTR | NFSPROC3_NULL | NFSPROC3_MKNOD | NFS_INVALID => []
  | NFSPROC3_SETATTR | NFSPROC3_REMOVE | NFSPROC3_RMDIR | NFSPROC3_WRITE | NFSPROC3_CREATE
  | NFSPROC3_MKDIR | NFSPROC3_SYMLINK | NFSPROC3_COMMIT => [wcc]
  | NFSPROC3_RENAME => [wcc; wcc]
  | NFSPROC3_LINK => [post; wcc]
  | _ => [post]
  end.

Definition shape (p : NFSProgram) (stat : nfsstat3) : list (XM ()) :=
  if bool_decide (stat = NFS3_OK) then shape_ok p else shape_fail p.

Fixpoint de_fields (fs : list (XM ())) : XM () :=
  match fs with [] => mret () | f :: fs => f ≫= fun _ => de_fields fs end.

(** A reply: the call's identifier, and the status unless the call was not accepted or
    its result is void. *)
Definition de_reply (p : NFSProgram) : XM (Z * option nfsstat3) :=
  h ← de (default_ : rpc_msg);
  match body h with
  | REPLY (MSG_ACCEPTED (mkAccepted _ SUCCESS)) =>
      match p with
      | NFSPROC3_NULL => mret (xid h, None)
      | _ =>
          s ← de (default_ : nfsstat3);
          de_fields (shape p s) ≫= fun _ => mret (xid h, Some s)
      end
  | REPLY (MSG_ACCEPTED _) => mret (xid h, None)
  | _ => fail InvalidData
  end.

(** [bytes] is one reply to call [x] of procedure [p], and nothing else. *)
Definition conforms (p : NFSProgram) (x : Z) (bytes : list byte) : Prop :=
  exists s, de_reply p bytes = (Ok (x, s), []).

(** The status that [bytes] starts with. *)
Definition de_status : XM nfsstat3 := _ ← de (default_ : rpc_msg); de (default_ : nfsstat3).

(** ** What follows the status *)

(** Each serialized value is what its field reads. *)
Definition fills (fs : list (XM ())) (vs : list (option (list byte))) : Prop :=
  Forall2 (fun f v => forall b, v = Some b -> decodes f b ()) fs vs.

Lemma fills_decodes fs vs b : fills fs vs -> ser_seq vs = Some b -> decodes (de_fields fs) b ().
Proof.
  intros Hf. revert b. induction Hf as [|f v fs vs Hfv _ IH]; intros b.
  - intros [= <-]. apply decodes_ret.
  - intros (y & z & Hy & Hz & ->)%ser_seq_cons. eapply decodes_bind; [by apply Hfv|by apply IH].
Qed.

Lemma field_decodes {A} (X : XDR A) `{!XDRLaws X} v b :
  xdr_valid v -> ser v = Some b -> decodes (field X) b ().
Proof. intros Hv Hb. eapply decodes_map; [by apply ser_de|apply decodes_ret]. Qed.

Lemma fills_field {A} (X : XDR A) `{!XDRLaws X} v fs vs :
  xdr_valid v -> fills fs vs -> fills (field X :: fs) (ser v :: vs).
Proof. intros Hv Hf. apply Forall2_cons; [|done]. intros b Hb. by eapply field_decodes. Qed.

Lemma fills_nil : fills [] [].
Proof. apply Forall2_nil. Qed.

Lemma header_valid x data :
  is_u32 x -> xdr_valid data -> xdr_valid (accepted x data).
Proof. intros Hx Hd. split; [done|]. split; [by split|done]. Qed.

Lemma status_decodes x stat h t :
  is_u32 x -> ser (make_success_reply x) = Some h -> ser stat = Some t ->
  decodes de_status (h ++ t) stat.
Proof.
  intros Hx Hh Ht. apply (decodes_bind _ _ h t (make_success_reply x)).
  - apply ser_de; [by apply header_valid|done].
  - by apply ser_de.
Qed.

(** A reply as the handlers write it is one reply. *)
Lemma reply_conforms p x stat vs b :
  is_u32 x -> p <> NFSPROC3_NULL -> fills (shape p stat) vs ->
  ser_seq (ser (make_success_reply x) :: ser stat :: vs) = Some b -> conforms p x b.
Proof.
  intros Hx Hp Hf Hb. apply ser_seq_cons in Hb as (h & y & Hh & Hb & ->).
  apply ser_seq_cons in Hb as (t & z & Ht & Hz & ->).
  assert (Hdh : decodes (de (default_ : rpc_msg)) h (make_success_reply x))
    by (apply ser_de; [by apply header_valid|done]).
  assert (Hdt : decodes (de (default_ : nfsstat3)) t stat) by (by apply ser_de).
  exists (Some stat). rewrite <- (app_nil_r (h ++ t ++ z)).
  assert (Hd : decodes (de_reply p) (h ++ t ++ z) (x, Some stat)); [|apply Hd].
  unfold de_reply. eapply decodes_bind; [done|].
  cbn beta iota zeta delta [make_success_reply accepted body xid].
  assert (Hd : decodes (s ← de (default_ : nfsstat3);
    de_fields (shape p s) ≫= fun _ => mret (x, Some s)) (t ++ z) (x, Some stat)); [|by destruct p].
  eapply decodes_bind; [done|]. eapply decodes_map; [by eapply fills_decodes|apply decodes_ret].
Qed.

(** A reply without a result. *)
Lemma bare_conforms p x data b :
  is_u32 x -> xdr_valid data -> (data = SUCCESS -> p = NFSPROC3_NULL) ->
  ser (accepted x data) = Some b -> conforms p x b.
Proof.
  intros Hx Hv Hs Hb. exists None. rewrite <- (app_nil_r b).
  assert (Hd : decodes (de_reply p) b (x, None)); [|apply Hd].
  unfold de_reply. eapply decodes_map; [apply ser_de; [by apply header_valid|done]|].
  cbn beta iota zeta delta [accepted body xid].
  destruct data; try apply decodes_ret. rewrite Hs by done. apply decodes_ret.
Qed.

(** ** Directory lists *)

Lemma de_entries_fuel {E} (X : XDR E) fuel fuel' s es eof rest :
  de_entries X fuel s = (Ok (es, eof), rest) -> (fuel <= fuel')%nat ->
  de_entries X fuel' s = (Ok (es, eof), rest).
Proof.
  revert fuel' s es eof. induction fuel as [|fuel IH]; intros fuel' s es eof; [done|].
  intros H Hle. destruct fuel' as [|fuel']; [lia|]. simpl in *. revert H.
  unfold mbind, M_bind.
  destruct (read_be 4 s) as [[v|?] s1]; [|done]. simpl.
  destruct (bool_decide (0 < v)); [|done].
  destruct (de default_ s1) as [[e|?] s2]; [|done].
  destruct (de_entries X fuel s2) as [[[es' eof']|?] s3] eqn:E2; [|done].
  unfold mret, M_ret. intros [= <- <- <-]. by rewrite (IH fuel' s2 es' eof' E2 ltac:(lia)).
Qed.

(** A list written entry by entry, as [fit_entries] writes it, reads back. *)
Lemma de_entries_decodes {E} (X : XDR E) `{!XDRLaws X} (es : list E) bs eof tail :
  Forall2 (fun e b => xdr_valid e /\ ser_seq [ser true; ser e] = Some b) es bs ->
  ser_seq [ser false; ser eof] = Some tail ->
  forall fuel, (length es < fuel)%nat -> decodes (de_entries X fuel) (concat bs ++ tail) (es, eof).
Proof.
  intros Hes Htail. induction Hes as [|e b es bs [He Hb] _ IH]; intros fuel Hf;
    (destruct fuel as [|fuel]; [simpl in Hf; lia|]); cbn [de_entries concat].
  - apply ser_seq_cons in Htail as (y & z & Hy & Hz & ->).
    apply ser_seq_cons in Hz as (z' & e' & Hz & [= <-] & ->). rewrite app_nil_l, app_nil_r.
    eapply decodes_bind; [exact (@ser_de _ _ bool_laws false false y I Hy)|]. cbn beta iota.
    eapply decodes_map; [exact (@ser_de _ _ bool_laws false eof z' I Hz)|apply decodes_ret].
  - apply ser_seq_cons in Hb as (y & z & Hy & Hz & ->).
    apply ser_seq_cons in Hz as (z' & e' & Hz & [= <-] & ->).
    rewrite app_nil_r, <- !app_assoc.
    eapply decodes_bind; [exact (@ser_de _ _ bool_laws false true y I Hy)|]. cbn beta iota.
    eapply decodes_bind; [by apply ser_de|].
    eapply decodes_map; [apply IH; simpl in Hf; lia|apply decodes_ret].
Qed.

Lemma ser_true_length {E} `{XDR E} (e : E) b : ser_seq [ser true; ser e] = Some b -> (4 <= length b)%nat.
Proof.
  intros (y & z & Hy & Hz & ->)%ser_seq_cons. injection Hy as <-.
  rewrite length_app. unfold write_be. rewrite length_be_bytes. lia.
Qed.

Lemma de_dirlist_decodes {E} (X : XDR E) `{!XDRLaws X} (es : list E) bs eof tail :
  Forall2 (fun e b => xdr_valid e /\ ser_seq [ser true; ser e] = Some b) es bs ->
  ser_seq [ser false; ser eof] = Some tail ->
  decodes (de_dirlist X) (concat bs ++ tail) (es, eof).
Proof.
  intros Hes Htail rest. unfold de_dirlist.
  apply (de_entries_decodes X es bs eof tail Hes Htail).
  assert (Hlen : (length es <= length (concat bs))%nat).
  { clear -Hes. induction Hes as [|e b es bs [_ Hb] _ IH]; simpl; [lia|].
    apply ser_true_length in Hb. rewrite length_app. lia. }
  rewrite !length_app. lia.
Qed.

(** The directory bytes of a list of entries, as the loop counts them. *)
Definition dirsum {E} (name_of : E -> list byte) (es : list E) : Z :=
  zsum ((fun e => 8 + (4 + zlen (name_of e)) + 8) <$> es).

Lemma dirsum_cons {E} (name_of : E -> list byte) e es :
  dirsum name_of (e :: es) = 8 + (4 + zlen (name_of e)) + 8 + dirsum name_of es.
Proof. unfold dirsum. by rewrite fmap_cons, zsum_cons. Qed.

(** What the entry loop wrote: the buffers of the longest prefix there is room for. *)
Lemma fit_entries_spec {E} (X : XDR E) name_of room written dircount (es : list E) out all :
  fit_entries ser name_of room written dircount es = Some (out, all) ->
  exists n bs,
    Forall2 (fun e b => ser_seq [ser true; ser e] = Some b) (take n es) bs /\ out = concat bs /\
    (n <= length es)%nat /\ (all = true <-> n = length es) /\
    (n = O \/ room (written + zlen out) (dircount + dirsum name_of (take n es)) = true) /\
    (forall e b, es !! n = Some e -> ser_seq [ser true; ser e] = Some b ->
     room (written + zlen out + zlen b) (dircount + dirsum name_of (take (S n) es)) = false).
Proof.
  revert written dircount out all. induction es as [|e es IH]; intros written dircount out all; simpl.
  - intros [= <- <-]. exists O, []. split_and!; try done. by left.
  - destruct (ser_seq [_; ser e]) as [b|] eqn:Eb; simpl; [|done].
    destruct (room _ _) eqn:Er.
    + destruct (fit_entries _ _ _ _ _ es) as [[o a]|] eqn:Ef; simpl; [|done].
      intros [= <- <-]. destruct (IH _ _ _ _ Ef) as (n & bs & H1 & -> & H3 & H4 & H5 & H6).
      exists (S n), (b :: bs). split_and!; [by constructor|done|lia|rewrite H4; lia|right|].
      * cbn [take concat]. rewrite dirsum_cons, zlen_app. destruct H5 as [->|H5].
        -- replace bs with (@nil (list byte)) by (by inversion H1). cbn [concat take].
           rewrite zlen_nil. etrans; [|exact Er]. f_equal; unfold dirsum; simpl; lia.
        -- etrans; [|exact H5]. f_equal; lia.
      * intros e' b' He' Hb'. specialize (H6 e' b' He' Hb'). etrans; [|exact H6].
        cbn [take concat]. rewrite dirsum_cons, zlen_app. f_equal; lia.
    + intros [= <- <-]. exists O, []. split_and!; [constructor|done|lia|done|by left|].
      intros e' b' [= <-] Hb'. rewrite zlen_nil. etrans; [|exact Er].
      assert (b' = b) as -> by congruence. cbn [take]. rewrite dirsum_cons.
      f_equal; unfold dirsum; simpl; lia.
Qed.

(** ** What a file system owes the server *)

(** Whatever the state, a success is [V] and an error is an error. *)
Definition sound {W A} (V : A -> Prop) (op : M nfsstat3 W A) : Prop :=
  forall w, match (op w).1 with Ok a => V a | Err e => e <> NFS3_OK end.

Lemma sound_map {W A B} (op : M nfsstat3 W A) (f : A -> B) (V : A -> Prop) (V' : B -> Prop) :
  sound V op -> (forall a, V a -> V' (f a)) -> sound V' (a ← op; mret (f a)).
Proof.
  intros Hs Hf w. specialize (Hs w). unfold mbind, M_bind.
  destruct (op w) as [[a|e] w1]; [by apply Hf|done].
Qed.

Lemma sound_ask {W A} (op : M nfsstat3 W A) V :
  sound V op -> sound (fun r => match r with Ok a => V a | Err e => e <> NFS3_OK end) (ask op).
Proof. intros Hs w. specialize (Hs w). unfold ask. by destruct (op w) as [r w1]. Qed.

Definition valid_direntry (e : DirEntry) : Prop :=
  is_u64 (de_fileid e) /\ is_u64 (de_cookie e) /\ zlen (de_name e) < u32_max /\
  xdr_valid (de_attr e).

Definition valid_direntry_simple (e : DirEntrySimple) : Prop :=
  is_u64 (des_fileid e) /\ is_u64 (des_cookie e) /\ zlen (des_name e) < u32_max.

Definition valid_new (r : Z * fattr3) : Prop := is_u64 r.1 /\ xdr_valid r.2.

Class ValidVfs (W : Type) `{NFSFileSystem W} := {
  valid_fh_to_id w fh : match fh_to_id w fh with Ok id => is_u64 id | Err e => e <> NFS3_OK end;
  valid_id_to_fh w id : is_u64 id -> xdr_valid (id_to_fh w id);
  valid_serverid w : length (serverid w) = NFS3_WRITEVERFSIZE;
  valid_lookup dirid name : is_u64 dirid -> sound is_u64 (lookup dirid name);
  valid_getattr id : is_u64 id -> sound xdr_valid (getattr id);
  valid_setattr id attr : is_u64 id -> sound xdr_valid (setattr id attr);
  valid_read id offset count : is_u64 id -> sound (fun _ => True) (read id offset count);
  valid_write_stable id offset data stable :
    is_u64 id -> sound (fun r => xdr_valid r.1) (write_stable id offset data stable);
  valid_commit id offset count : is_u64 id -> sound (fun _ => True) (commit id offset count);
  valid_create dirid name attr cred :
    is_u64 dirid -> sound valid_new (create_with_cred dirid name attr cred);
  valid_create_exclusive dirid name cred :
    is_u64 dirid -> sound is_u64 (create_exclusive_with_cred dirid name cred);
  valid_mkdir dirid name cred : is_u64 dirid -> sound valid_new (mkdir_with_cred dirid name cred);
  valid_symlink dirid name target attr :
    is_u64 dirid -> sound valid_new (symlink dirid name target attr);
  valid_remove dirid name : is_u64 dirid -> sound (fun _ => True) (remove dirid name);
  valid_rename from fname to tname :
    is_u64 from -> is_u64 to -> sound (fun _ => True) (rename from fname to tname);
  valid_link id dirid name : is_u64 id -> is_u64 dirid -> sound xdr_valid (link id dirid name);
  valid_readlink id : is_u64 id -> sound (fun p => zlen p < u32_max) (readlink id);
  valid_readdir dirid cookie count :
    is_u64 dirid -> sound (fun r => Forall valid_direntry (rd_entries r)) (readdir dirid cookie count);
  valid_readdir_simple dirid count :
    is_u64 dirid ->
    sound (fun r => Forall valid_direntry_simple (rds_entries r)) (readdir_simple dirid count);
  valid_fsinfo id : is_u64 id -> sound xdr_valid (fsinfo id);
}.

Create HintDb vfs.
#[export] Hint Resolve valid_id_to_fh valid_lookup valid_getattr valid_setattr valid_read
  valid_write_stable valid_commit valid_create valid_create_exclusive valid_mkdir valid_symlink
  valid_remove valid_rename valid_link valid_readlink valid_readdir valid_readdir_simple
  valid_fsinfo : vfs.

(** A part that cannot be written leaves nothing. *)
Lemma ser_seq_none l : None ∈ l -> ser_seq l = None.
Proof.
  intros Hl. unfold ser_seq. destruct (mapM id l) as [bs|] eqn:E; [|done]. apply mapM_Some_1 in E.
  apply list_elem_of_lookup in Hl as [i Hi]. by destruct (Forall2_lookup_l _ _ _ _ _ E Hi) as (? & _ & ?).
Qed.

(** ** What a run gives, if it gives anything *)

Definition gives {E W A} (m : M E W A) (P : A -> Prop) : Prop :=
  forall w a w', m w = (Ok a, w') -> P a.

Section gives.
Context {E W : Type}.

Lemma gives_bind {A B} (m : M E W A) (f : A -> M E W B) Q P :
  gives m Q -> (forall a, Q a -> gives (f a) P) -> gives (m ≫= f) P.
Proof. intros Hm Hf w b w' (a & w1 & H1 & H2)%M_bind_inv. eapply Hf; [by eapply Hm|done]. Qed.

Lemma gives_ret {A} (a : A) (P : A -> Prop) : P a -> gives (mret a : M E W A) P.
Proof. by intros HP w ? w' [= <- <-]. Qed.

Lemma gives_any {A} (m : M E W A) : gives m (fun _ => True).
Proof. by intros w a w' _. Qed.

Lemma gives_lift {A} (r : result E A) (P : A -> Prop) :
  (forall a, r = Ok a -> P a) -> gives (lift r : M E W A) P.
Proof. intros HP w a w' [= -> <-]. by apply HP. Qed.

Lemma gives_asks {A} (f : W -> A) P : (forall w, P (f w)) -> gives (asks f : M E W A) P.
Proof. intros HP w a w' [= <- <-]. apply HP. Qed.

Lemma gives_ask {A} (op : M nfsstat3 W A) V :
  sound V op ->
  gives (ask op : M E W _) (fun r => match r with Ok a => V a | Err e => e <> NFS3_OK end).
Proof.
  intros Hs w r w'. unfold ask. specialize (Hs w). destruct (op w) as [r' w1].
  intros [= <- <-]. exact Hs.
Qed.
End gives.

(** *** What the argument decoders give *)

Lemma read_be_gives : gives (read_be 4) is_u32.
Proof.
  eapply (gives_bind _ _ (fun l => length l = 4%nat)).
  - intros s l s'. unfold read_exact. case_bool_decide as Hl; [|done]. intros [= <- <-].
    rewrite length_take. unfold zlen in Hl. lia.
  - intros l Hl. apply gives_ret. unfold be_val, is_u32, u32_max.
    pose proof (le_val_range (rev l)) as Hr. unfold zlen in Hr. rewrite length_rev, Hl in Hr.
    change (256 ^ Z.of_nat 4) with (2 ^ 32) in Hr. lia.
Qed.

Lemma gives_decode {W A} (d : XM A) input P :
  gives d P -> gives (lift (decode d input) : M rpc_error W _) (fun r => P r.1).
Proof.
  intros Hd. apply gives_lift. intros [a rest]. unfold decode.
  destruct (d input) as [[a'|?] rest'] eqn:E; [|done]. intros [= <- <-]. by eapply Hd.
Qed.

Lemma write_args_gives {W} input :
  gives (arg WRITE3args input : M rpc_error W _) (fun r => is_u32 (w_count r.1)).
Proof.
  apply (gives_decode _ _ (fun a => is_u32 (w_count a))).
  do 2 (eapply gives_bind; [apply gives_any|intros ? _]).
  eapply gives_bind; [apply read_be_gives|intros c Hc].
  do 2 (eapply gives_bind; [apply gives_any|intros ? _]). by apply gives_ret.
Qed.

(** ** Replies conform *)

(** The procedures with a failing path whose reply is not the union's failing arm. *)
Definition irregular (p : NFSProgram) : Prop :=
  p = NFSPROC3_FSINFO \/ p = NFSPROC3_READLINK \/ p = NFSPROC3_SETATTR \/ p = NFSPROC3_RENAME.

(** A reply that starts with an error's status, whatever follows. *)
Definition refuses (bytes : list byte) : Prop :=
  exists stat h rest, bytes = h ++ rest /\ decodes de_status h stat /\ stat <> NFS3_OK.

Lemma refuses_app b c : refuses b -> refuses (b ++ c).
Proof.
  intros (stat & h & rest & -> & Hd & Hs). exists stat, h, (rest ++ c). by rewrite app_assoc.
Qed.

(** What a procedure answers: one conforming reply; an irregular procedure may instead
    start with an error's status. *)
Definition answers (p : NFSProgram) (x : Z) (bytes : list byte) : Prop :=
  conforms p x bytes \/
  irregular p /\ refuses bytes.

Section replies.
Context {W : Type} `{!NFSFileSystem W}.

Lemma gives_reply p x stat vs :
  is_u32 x -> p <> NFSPROC3_NULL -> fills (shape p stat) vs ->
  gives (reply x stat vs : M rpc_error W _) (answers p x).
Proof.
  intros Hx Hp Hf. apply gives_lift. intros b Hb. left.
  unfold emit, ok_or in Hb. destruct (ser_seq _) as [b'|] eqn:Eb; [|done].
  injection Hb as ->. by apply (reply_conforms p x stat vs).
Qed.

Lemma gives_reply_ok p x vs :
  is_u32 x -> p <> NFSPROC3_NULL -> fills (shape_ok p) vs ->
  gives (reply x NFS3_OK vs : M rpc_error W _) (answers p x).
Proof. intros. by apply gives_reply. Qed.

Lemma gives_reply_fail p x stat vs :
  is_u32 x -> p <> NFSPROC3_NULL -> stat <> NFS3_OK -> fills (shape_fail p) vs ->
  gives (reply x stat vs : M rpc_error W _) (answers p x).
Proof. intros. apply gives_reply; [done..|]. unfold shape. by rewrite bool_decide_false. Qed.

Lemma gives_refusal x stat vs :
  is_u32 x -> stat <> NFS3_OK -> gives (reply x stat vs : M rpc_error W _) refuses.
Proof.
  intros Hx Hs. apply gives_lift. intros b Hb.
  unfold emit, ok_or in Hb. destruct (ser_seq _) as [b'|] eqn:Eb; [|done]. injection Hb as ->.
  apply ser_seq_cons in Eb as (h & y & Hh & Hb & ->).
  apply ser_seq_cons in Hb as (t & z & Ht & Hz & ->). exists stat, (h ++ t), z.
  split; [apply app_assoc|]. split; [by apply (status_decodes x)|done].
Qed.

Lemma gives_irregular p x stat vs :
  is_u32 x -> stat <> NFS3_OK -> irregular p ->
  gives (reply x stat vs : M rpc_error W _) (answers p x).
Proof. intros Hx Hs Hp w a w' E. right. split; [done|]. by eapply gives_refusal. Qed.

Lemma gives_bare p x data :
  is_u32 x -> xdr_valid data -> (data = SUCCESS -> p = NFSPROC3_NULL) ->
  gives (lift (emit (ser (accepted x data))) : M rpc_error W _) (answers p x).
Proof.
  intros Hx Hv Hs. apply gives_lift. intros b Hb. left. unfold emit, ok_or in Hb.
  destruct (ser (accepted x data)) as [b'|] eqn:Eb; [|done]. injection Hb as ->.
  by eapply bare_conforms.
Qed.

(** Where the reply cannot be written there is none. *)
Lemma gives_unserialised x stat v P :
  v = None -> gives (reply x stat [v] : M rpc_error W _) P.
Proof.
  intros ->. apply gives_lift. intros b. unfold emit.
  rewrite (ser_seq_none (_ :: _ :: [None])); [done|]. by do 2 right; left.
Qed.

Context `{!ValidVfs W}.

Lemma gives_fh fh :
  gives (asks (fun w : W => fh_to_id w fh) : M rpc_error W _)
    (fun r => match r with Ok id => is_u64 id | Err e => e <> NFS3_OK end).
Proof. apply gives_asks. intros w. apply valid_fh_to_id. Qed.

Lemma gives_id_to_fh id :
  is_u64 id -> gives (asks (fun w : W => id_to_fh w id) : M rpc_error W _) xdr_valid.
Proof. intros Hi. apply gives_asks. intros w. by apply valid_id_to_fh. Qed.

Lemma gives_serverid :
  gives (asks (serverid (W := W)) : M rpc_error W _) (fun v => length v = NFS3_WRITEVERFSIZE).
Proof. apply gives_asks, valid_serverid. Qed.
End replies.

(** *** What goes into a reply is valid *)

Lemma valid_attributes (r : result nfsstat3 fattr3) :
  match r with Ok v => xdr_valid v | Err e => e <> NFS3_OK end ->
  xdr_valid (attributes_or_void r).
Proof. by destruct r. Qed.

Lemma valid_wcc_of v : xdr_valid v -> xdr_valid (wcc_of v).
Proof. intros H. split_and!; apply H. Qed.

Lemma valid_pre_some v : xdr_valid v -> xdr_valid (Some (wcc_of v) : pre_op_attr).
Proof. apply valid_wcc_of. Qed.

Lemma valid_pre_map (o : post_op_attr) : xdr_valid o -> xdr_valid (wcc_of <$> o : pre_op_attr).
Proof. destruct o; [apply valid_wcc_of|done]. Qed.

Lemma valid_post_some v : xdr_valid v -> xdr_valid (Some v : post_op_attr).
Proof. done. Qed.

Lemma valid_fh_some h : xdr_valid h -> xdr_valid (Some h : post_op_fh3).
Proof. done. Qed.

Lemma valid_post_none : xdr_valid (None : post_op_attr).
Proof. done. Qed.

Lemma valid_wcc b a : xdr_valid b -> xdr_valid a -> xdr_valid (mkWcc b a).
Proof. by split. Qed.

Lemma valid_wcc_void : xdr_valid (default_ : wcc_data).
Proof. by split. Qed.

Lemma as_u32_range z : is_u32 (as_u32 z).
Proof.
  unfold as_u32, is_u32, u32_max. pose proof (Z.mod_pos_bound z (2 ^ 32) ltac:(lia)). lia.
Qed.

#[export] Hint Resolve valid_attributes valid_wcc_of valid_pre_some valid_pre_map
  valid_post_some valid_fh_some valid_post_none valid_wcc valid_wcc_void as_u32_range : vfs.

Lemma valid_pathconf a : xdr_valid a ->
  xdr_valid (mkPATHCONF3resok a 32000 32768 true true false true).
Proof. intros. repeat (split; [done|]). done. Qed.

Lemma valid_fsstat a t f : xdr_valid a -> is_u64 t -> is_u64 f ->
  xdr_valid (mkFSSTAT3resok a t t t f f f u32_max).
Proof. intros. repeat (split; [done|]). done. Qed.

Lemma valid_readok a eof data : xdr_valid a -> zlen data < u32_max ->
  xdr_valid (mkREAD3resok a (as_u32 (zlen data)) eof data).
Proof. intros Ha Hd. split; [done|]. split; [apply as_u32_range|done]. Qed.

Lemma valid_writeok w count how verf :
  xdr_valid w -> is_u32 count -> length verf = NFS3_WRITEVERFSIZE ->
  xdr_valid (mkWRITE3resok w count how verf).
Proof. intros. repeat (split; [done|]). done. Qed.

Lemma valid_commitok w verf :
  xdr_valid w -> length verf = NFS3_WRITEVERFSIZE -> xdr_valid (mkCOMMIT3resok w verf).
Proof. by split. Qed.

#[export] Hint Resolve valid_pathconf valid_fsstat valid_readok valid_writeok valid_commitok : vfs.
#[export] Hint Extern 1 (is_u64 (_ * _)) => done : vfs.

Lemma valid_access (b : bool) access :
  is_u32 access ->
  @xdr_valid _ u32_xdr _ (if b then access else Z.land access (Z.lor ACCESS3_READ ACCESS3_LOOKUP)).
Proof.
  intros Ha. destruct b; [done|]. change (Z.lor _ _) with (Z.ones 2). rewrite Z.land_ones by lia.
  simpl. unfold is_u32, u32_max. pose proof (Z.mod_pos_bound access (2 ^ 2) ltac:(lia)). lia.
Qed.

Lemma valid_new_id r : valid_new r -> is_u64 r.1.
Proof. by intros []. Qed.

Lemma valid_new_attr r : valid_new r -> xdr_valid r.2.
Proof. by intros []. Qed.

#[export] Hint Resolve valid_access valid_new_id valid_new_attr : vfs.

Lemma fmap_Ok {E A B} (f : A -> B) (a : A) : f <$> (Ok a : result E A) = Ok (f a).
Proof. done. Qed.

Lemma fmap_Err {E A B} (f : A -> B) (e : E) : f <$> (Err e : result E A) = Err e.
Proof. done. Qed.

(** One step of a procedure's proof: an argument, a question to the file system, a
    branch, or the reply. *)
Ltac conform_fields :=
  cbn [shape_ok shape_fail verf_field made wcc_void];
  repeat first [apply fills_nil | eapply fills_field; [eauto 8 with vfs|] ].

Ltac conform_step :=
  lazymatch goal with
  | |- gives (arg WRITE3args _ ≫= _) _ =>
      eapply gives_bind; [apply write_args_gives|intros [? ?] ?]
  | |- gives (lift (decode (de32 _) _) ≫= _) _ =>
      eapply gives_bind; [apply gives_decode, read_be_gives|intros [? ?] ?]
  | |- gives (arg _ _ ≫= _) _ => eapply gives_bind; [apply gives_any|intros [? ?] _]
  | |- gives (asks (fun w => fh_to_id w _) ≫= _) _ =>
      eapply gives_bind; [apply gives_fh|intros [?|?] ?]
  | |- gives (asks (fun w => id_to_fh w _) ≫= _) _ =>
      eapply gives_bind; [by apply gives_id_to_fh|intros ? ?]
  | |- gives (asks serverid ≫= _) _ => eapply gives_bind; [apply gives_serverid|intros ? ?]
  | |- gives (asks capabilities ≫= _) _ => eapply gives_bind; [apply gives_any|intros ? _]
  | |- gives (get_state ≫= _) _ => eapply gives_bind; [apply gives_any|intros ? _]
  | |- gives (ask (getattr _) ≫= (fun r => match r with _ => _ end)) _ =>
      eapply gives_bind; [apply gives_ask; eauto with vfs|intros [?|?] ?]
  | |- gives (ask (getattr _) ≫= _) _ =>
      eapply gives_bind; [apply gives_ask; eauto with vfs|intros ? ?]
  | |- gives (ask _ ≫= _) _ =>
      eapply gives_bind; [apply gives_ask; eauto with vfs|intros [?|?] ?]
  | |- gives (lift (emit (ser (garbage_args_reply_message _)))) _ =>
      apply (gives_bare _ _ GARBAGE_ARGS); done
  | |- gives (if bool_decide _ then _ else _) _ => case_bool_decide
  | |- gives (if negb (bool_decide _) then _ else _) _ => case_bool_decide; cbn [negb]
  | |- gives (match ?u with _ => _ end) _ => is_var u; destruct u
  | |- gives (reply _ NFS3_OK _) _ => apply gives_reply_ok; [done|done|]
  | |- gives (reply _ _ _) _ =>
      first [ apply gives_reply_fail; [done|done|done|conform_fields; fail]
            | apply gives_irregular; [done|done|unfold irregular; tauto] ]
  end.
Ltac conform :=
  repeat (conform_step; cbn beta iota zeta; rewrite ?fmap_Ok, ?fmap_Err; cbn [res_ok is_ok];
          repeat match goal with H : (fun _ => _) _ |- _ => cbn beta in H end).

Section procedures.
Context {W : Type} `{!NFSFileSystem W} `{!ValidVfs W}.
Implicit Types (x : Z) (input : list byte).

Lemma getattr_answers x input :
  is_u32 x -> gives (nfsproc3_getattr (W := W) x input) (answers NFSPROC3_GETATTR x).
Proof. intros Hx. unfold nfsproc3_getattr. conform. all: conform_fields. Qed.

Lemma lookup_answers x input :
  is_u32 x -> gives (nfsproc3_lookup (W := W) x input) (answers NFSPROC3_LOOKUP x).
Proof. intros Hx. unfold nfsproc3_lookup. conform. all: conform_fields. Qed.

Lemma fsinfo_answers x input :
  is_u32 x -> gives (nfsproc3_fsinfo (W := W) x input) (answers NFSPROC3_FSINFO x).
Proof. intros Hx. unfold nfsproc3_fsinfo. conform. all: conform_fields. Qed.

Lemma pathconf_answers x input :
  is_u32 x -> gives (nfsproc3_pathconf (W := W) x input) (answers NFSPROC3_PATHCONF x).
Proof. intros Hx. unfold nfsproc3_pathconf. conform. all: conform_fields. Qed.

Lemma fsstat_answers x input :
  is_u32 x -> gives (nfsproc3_fsstat (W := W) x input) (answers NFSPROC3_FSSTAT x).
Proof. intros Hx. unfold nfsproc3_fsstat. conform. all: conform_fields. Qed.

Lemma readlink_answers x input :
  is_u32 x -> gives (nfsproc3_readlink (W := W) x input) (answers NFSPROC3_READLINK x).
Proof. intros Hx. unfold nfsproc3_readlink. conform. all: conform_fields. Qed.

Lemma commit_answers x input :
  is_u32 x -> gives (nfsproc3_commit (W := W) x input) (answers NFSPROC3_COMMIT x).
Proof. intros Hx. unfold nfsproc3_commit. conform. all: conform_fields. Qed.

Lemma read_answers x input :
  is_u32 x -> gives (nfsproc3_read (W := W) x input) (answers NFSPROC3_READ x).
Proof.
  intros Hx. unfold nfsproc3_read. eapply gives_bind; [apply gives_any|intros [? ?] _].
  eapply gives_bind; [apply gives_fh|intros [id|stat] Hid]; [|conform; conform_fields].
  eapply gives_bind; [apply gives_ask; eauto with vfs|intros oa Hoa].
  eapply gives_bind; [apply gives_ask; eauto with vfs|intros [[data eof]|stat] Hd]; [|conform; conform_fields].
  destruct (decide (zlen data < u32_max)) as [Hl|Hl]; [conform; conform_fields|].
  apply gives_unserialised. cbn [ser READ3resok_xdr rr_data opaque_xdr].
  apply ser_seq_none. rewrite bool_decide_false by done. by do 3 right; left.
Qed.

Lemma write_answers x input :
  is_u32 x -> gives (nfsproc3_write (W := W) x input) (answers NFSPROC3_WRITE x).
Proof. intros Hx. unfold nfsproc3_write, no_write_capabilities. conform. all: conform_fields. Qed.

(** The guard's failure is told first, whatever the change then makes of it. *)
Lemma setattr_answers x input :
  is_u32 x -> gives (nfsproc3_setattr (W := W) x input) (answers NFSPROC3_SETATTR x).
Proof.
  intros Hx. unfold nfsproc3_setattr, no_write_capabilities. conform.

  eapply (gives_bind _ _ (fun b => b = [] \/ refuses b)).
  - destruct (s_guard s) as [c|]; [|by apply gives_ret; left].
    destruct (_ || _); [|by apply gives_ret; left].
    intros w b w' Hb. right. exact (gives_refusal x NFS3ERR_NOT_SYNC _ Hx ltac:(done) w b w' Hb).
  - intros sofar Hsofar. eapply gives_bind; [apply gives_ask; eauto with vfs|intros o Ho].
    eapply (gives_bind _ _ (answers NFSPROC3_SETATTR x)).
    + destruct o; conform; conform_fields.
    + intros b Hb. apply gives_ret. destruct Hsofar as [->|Hr]; [exact Hb|].
      right. split; [unfold irregular; tauto|by apply refuses_app].
Qed.

Lemma create_answers x input context :
  is_u32 x -> gives (nfsproc3_create (W := W) x input context) (answers NFSPROC3_CREATE x).
Proof. intros Hx. unfold nfsproc3_create, no_write_capabilities. conform. all: conform_fields. Qed.

Lemma rename_answers x input :
  is_u32 x -> gives (nfsproc3_rename (W := W) x input) (answers NFSPROC3_RENAME x).
Proof. intros Hx. unfold nfsproc3_rename, no_write_capabilities. conform. all: conform_fields. Qed.

Lemma access_answers x input :
  is_u32 x -> gives (nfsproc3_access (W := W) x input) (answers NFSPROC3_ACCESS x).
Proof. intros Hx. unfold nfsproc3_access. conform. all: conform_fields. Qed.

(** *** Directory changes *)

Lemma in_directory_answers {A} p x dir void (change : Z -> M nfsstat3 W A) ok err V :
  is_u32 x -> p <> NFSPROC3_NULL -> fills (shape_fail p) void ->
  (forall dirid, is_u64 dirid -> sound V (change dirid)) ->
  (forall w a wcc_res, V a -> xdr_valid wcc_res -> fills (shape_ok p) (ok w a wcc_res)) ->
  (forall wcc_res, xdr_valid wcc_res -> fills (shape_fail p) (err wcc_res)) ->
  gives (in_directory x dir void change ok err) (answers p x).
Proof.
  intros Hx Hp Hvoid Hchange Hok Herr. unfold in_directory. conform.
  all: match goal with |- fills (shape_ok _) _ => apply Hok; eauto with vfs | _ => idtac end.
  all: apply gives_reply_fail; [done..|]; eauto with vfs.
Qed.

Lemma remove_answers p x input :
  is_u32 x -> p = NFSPROC3_REMOVE \/ p = NFSPROC3_RMDIR ->
  gives (nfsproc3_remove (W := W) x input) (answers p x).
Proof.
  intros Hx [-> | ->]; unfold nfsproc3_remove, no_write_capabilities; conform.
  all: eapply in_directory_answers; [done|done|conform_fields|eauto with vfs|..].
  all: intros; conform_fields.
Qed.
Lemma mkdir_answers x input context :
  is_u32 x -> gives (nfsproc3_mkdir (W := W) x input context) (answers NFSPROC3_MKDIR x).
Proof.
  intros Hx. unfold nfsproc3_mkdir, no_write_capabilities. conform.
  eapply in_directory_answers; [done|done|conform_fields|eauto with vfs|..].
  all: intros; conform_fields.
Qed.

Lemma symlink_answers x input :
  is_u32 x -> gives (nfsproc3_symlink (W := W) x input) (answers NFSPROC3_SYMLINK x).
Proof.
  intros Hx. unfold nfsproc3_symlink, no_write_capabilities. conform.
  eapply in_directory_answers; [done|done|conform_fields|eauto with vfs|..].
  all: intros; conform_fields.
Qed.

Lemma link_answers x input :
  is_u32 x -> gives (nfsproc3_link (W := W) x input) (answers NFSPROC3_LINK x).
Proof.
  intros Hx. unfold nfsproc3_link, no_write_capabilities. conform.
  eapply in_directory_answers; [done|done|conform_fields|eauto with vfs|..].
  all: intros; conform_fields.
Qed.

(** *** Directory listings *)

Lemma ser_seq_snoc l b o : ser_seq l = Some b -> ser_seq (l ++ [Some o]) = Some (b ++ o).
Proof.
  revert b. induction l as [|v l IH]; intros b.
  - intros [= <-]. cbn [app]. apply ser_seq_cons. exists o, []. by rewrite app_nil_r.
  - intros (y & z & -> & Hz & ->)%ser_seq_cons. apply ser_seq_cons.
    exists y, (z ++ o). rewrite app_assoc. auto.
Qed.

(** The three parts of a listing: its head, the entries there is room for, and the end. *)
Lemma listing_parts {E} (X : XDR E) `{!XDRLaws X} x name_of room attr version es end_ b :
  Forall xdr_valid es -> listing x ser name_of room attr version es end_ = Some b ->
  exists head n bs tail eof,
    b = head ++ concat bs ++ tail /\
    ser_seq [ser (make_success_reply x); ser NFS3_OK; ser attr;
             @ser _ (array_xdr NFS3_COOKIEVERFSIZE) version] = Some head /\
    Forall2 (fun e b => xdr_valid e /\ ser_seq [ser true; ser e] = Some b) (take n es) bs /\
    ser_seq [ser false; ser eof] = Some tail /\
    (n <= length es)%nat /\ (eof = true <-> n = length es /\ end_ = true) /\
    (n = O \/ room (zlen (head ++ concat bs)) (dirsum name_of (take n es)) = true) /\
    (forall e b, es !! n = Some e -> ser_seq [ser true; ser e] = Some b ->
     room (zlen (head ++ concat bs) + zlen b) (dirsum name_of (take (S n) es)) = false).
Proof.
  intros Hes. unfold listing.
  destruct (ser_seq [_; _; _; _]) as [head|] eqn:Ehead; cbn [mbind option_bind]; [|done].
  destruct (fit_entries _ _ _ _ _ es) as [[out all]|] eqn:Efit; cbn [mbind option_bind]; [|done].
  apply fit_entries_spec in Efit as (n & bs & Hbs & -> & Hn & Hall & Hroom & Hnext).
  destruct (ser_seq [ser false; ser (all && end_)]) as [tail|] eqn:Etail;
    cbn [mbind option_bind]; [|done]. intros [= <-].
  exists head, n, bs, tail, (all && end_). rewrite zlen_app.
  split_and!; [done|done| |done|done| |done|done].
  - apply (Forall_take _ n) in Hes. revert Hes Hbs. clear. intros Hes Hbs.
    induction Hbs; inversion Hes; subst; constructor; auto.
  - rewrite andb_true_iff. by rewrite Hall.
Qed.

Lemma listing_conforms {E} (X : XDR E) `{!XDRLaws X} p x name_of room attr version es end_ b :
  is_u32 x -> p <> NFSPROC3_NULL ->
  shape_ok p = [field post_op_attr_xdr; verf_field; dirlist_field X] ->
  xdr_valid attr -> length version = NFS3_COOKIEVERFSIZE -> Forall xdr_valid es ->
  listing x ser name_of room attr version es end_ = Some b -> conforms p x b.
Proof.
  intros Hx Hp Hshape Hattr Hver Hes Hb.
  apply (listing_parts X) in Hb as (head & n & bs & tail & eof & -> & Ehead & Hbs & Etail & _);
    [|done].
  apply (reply_conforms p x NFS3_OK [ser attr; @ser _ (array_xdr NFS3_COOKIEVERFSIZE) version;
    Some (concat bs ++ tail)]); [done|done| |exact (ser_seq_snoc _ _ _ Ehead)].
  unfold shape. rewrite bool_decide_true, Hshape by done.
  eapply fills_field; [done|]. eapply fills_field; [done|].
  apply Forall2_cons; [|apply Forall2_nil]. intros b [= <-].
  eapply decodes_map; [by eapply (de_dirlist_decodes X (take n es))|apply decodes_ret].
Qed.

Lemma dirversion_length r : length (dirversion r) = NFS3_COOKIEVERFSIZE.
Proof. destruct r; [apply length_be_bytes|done]. Qed.

Lemma listing_answers {E} (X : XDR E) `{!XDRLaws X} p x name_of room r es end_ :
  is_u32 x -> p <> NFSPROC3_NULL ->
  shape_ok p = [field post_op_attr_xdr; verf_field; dirlist_field X] ->
  xdr_valid (attributes_or_void r) -> Forall xdr_valid es ->
  gives (lift (emit (listing x ser name_of room (attributes_or_void r) (dirversion r) es end_)) :
    M rpc_error W _) (answers p x).
Proof.
  intros Hx Hp Hs Hr Hes. apply gives_lift. intros b Hb. left. unfold emit, ok_or in Hb.
  destruct (listing _ _ _ _ _ _ _ _) as [b'|] eqn:Eb; [|done]. injection Hb as ->.
  by eapply (listing_conforms X); [..|apply dirversion_length| |exact Eb].
Qed.

Lemma readdir_answers x input :
  is_u32 x -> gives (nfsproc3_readdir (W := W) x input) (answers NFSPROC3_READDIR x).
Proof.
  intros Hx. unfold nfsproc3_readdir. conform.
  apply (listing_answers entry3_xdr); [done|done|done|eauto with vfs|].
  apply Forall_fmap.
  eapply Forall_impl; [|eassumption].
  intros e (Hf & Hc & Hn). done.
Qed.

Lemma entryplus_valid (w : W) es :
  Forall valid_direntry es -> Forall xdr_valid (entryplus_of w <$> es).
Proof.
  intros Hes. apply Forall_fmap. eapply Forall_impl; [|exact Hes].
  intros e (Hf & Hc & Hn & Ha). do 4 (split; [done|]). by apply valid_id_to_fh.
Qed.

Lemma readdirplus_answers x input :
  is_u32 x -> gives (nfsproc3_readdirplus (W := W) x input) (answers NFSPROC3_READDIRPLUS x).
Proof.
  intros Hx. unfold nfsproc3_readdirplus. conform.
  eapply (gives_bind _ _ (Forall xdr_valid)).
  - apply gives_asks. intros w. by apply entryplus_valid.
  - intros es Hes. apply (listing_answers entryplus3_xdr); [done|done|done|eauto with vfs|done].
Qed.

(** *** Every procedure *)

Lemma procedure_answers p x input context :
  is_u32 x -> gives (nfs_procedure (W := W) p x input context) (answers p x).
Proof.
  intros Hx. destruct p; cbn [nfs_procedure].
  1: by apply (gives_bare _ _ SUCCESS).
  11, 22: by apply (gives_bare _ _ PROC_UNAVAIL).
  all: auto using getattr_answers, setattr_answers, lookup_answers, access_answers,
    readlink_answers, read_answers, write_answers, create_answers, mkdir_answers,
    symlink_answers, remove_answers, rename_answers, link_answers, readdir_answers,
    readdirplus_answers, fsstat_answers, fsinfo_answers, pathconf_answers, commit_answers.
Qed.

(** C38. Whatever the arguments and the file system's state, a call that is answered at
    all is answered with exactly one reply to it, in the form RFC 1813 gives the
    procedure's result: the union's arm for the reply's status, and nothing after it.
    The exceptions are failures of FSINFO, READLINK, SETATTR and RENAME, whose replies
    still begin with the error's status. *)
Theorem replies_conform p x input context w reply w' :
  is_u32 x -> nfs_procedure p x input context w = (Ok reply, w') ->
  conforms p x reply \/ irregular p /\ refuses reply.
Proof. intros Hx. by apply procedure_answers. Qed.
End procedures.
