(* ===== verification/NfsSafety.v ===== *)
(** What the NFS handlers protect: a read-only file system is never changed, whatever a
    client sends, and a directory listing never outgrows the client's buffer nor claims
    to be complete when it is not. *)

From Stdlib Require Import ZArith Lia.
From stdpp Require Import base list option.
From S2P Require Import Prelude Text Xdr Rpc RpcServer Nfs Vfs NfsHandlers NfsConform.

Local Open Scope Z_scope.

(** ** Read-only servers *)

(** The procedures that change the file system. *)
Definition modifies (p : NFSProgram) : bool :=
  match p with
  | NFSPROC3_SETATTR | NFSPROC3_WRITE | NFSPROC3_CREATE | NFSPROC3_MKDIR | NFSPROC3_SYMLINK
  | NFSPROC3_REMOVE | NFSPROC3_RMDIR | NFSPROC3_RENAME | NFSPROC3_LINK => true
  | _ => false
  end.

(** [NFS3ERR_ROFS] and an empty failing arm. *)
Definition rofs_reply (p : NFSProgram) (x : Z) : result rpc_error (list byte) :=
  emit (ser_seq (ser (make_success_reply x) :: ser NFS3ERR_ROFS ::
    match p with NFSPROC3_LINK => [ser (None : post_op_attr); wcc_void] | _ => [wcc_void] end)).

Definition keeps {E W A} (w : W) (m : M E W A) : Prop := (m w).2 = w.

(** The methods a read-only server may call look without touching. *)
Class PureReads {W} `{!NFSFileSystem W} (w : W) := {
  pure_lookup dirid name : keeps w (lookup dirid name);
  pure_getattr id : keeps w (getattr id);
  pure_read id offset count : keeps w (read id offset count);
  pure_readlink id : keeps w (readlink id);
  pure_readdir dirid cookie count : keeps w (readdir dirid cookie count);
  pure_readdir_simple dirid count : keeps w (readdir_simple dirid count);
  pure_fsinfo id : keeps w (fsinfo id);
  pure_commit id offset count : keeps w (commit id offset count);
}.

Section keeps.
Context {E W : Type} (w : W).

Lemma keeps_bind {A B} (m : M E W A) (f : A -> M E W B) :
  keeps w m -> (forall a, keeps w (f a)) -> keeps w (m ≫= f).
Proof.
  unfold keeps, mbind, M_bind. intros Hm Hf. destruct (m w) as [[a|e] w1]; simpl in Hm; subst;
    [apply Hf|done].
Qed.

Lemma keeps_lift {A} (r : result E A) : keeps w (lift r).
Proof. done. Qed.

Lemma keeps_asks {A} (f : W -> A) : keeps w (asks f : M E W A).
Proof. done. Qed.

Lemma keeps_ask {A} (op : M nfsstat3 W A) : keeps w op -> keeps w (ask op : M E W _).
Proof. unfold keeps, ask. by destruct (op w). Qed.
End keeps.

Create HintDb keeps.
#[export] Hint Resolve keeps_lift keeps_asks keeps_ask pure_lookup pure_getattr pure_read
  pure_readlink pure_readdir pure_readdir_simple pure_fsinfo pure_commit : keeps.

Ltac keep_steps :=
  repeat first
    [ apply keeps_bind; [unfold arg; solve [auto with keeps]|intros ?]
    | match goal with |- keeps _ (match ?a with _ => _ end) => destruct a end
    | solve [unfold reply; auto with keeps] ].

Section read_only.
Context {W : Type} `{!NFSFileSystem W}.

Lemma refuse_write x rest (go : M rpc_error W (list byte)) w :
  capabilities w = ReadOnly -> no_write_capabilities x rest go w = reply x NFS3ERR_ROFS rest w.
Proof. intros Hw. unfold no_write_capabilities, asks, mbind, M_bind. by rewrite Hw. Qed.

Lemma modifying_refused p x input context w :
  capabilities w = ReadOnly -> modifies p = true ->
  nfs_procedure p x input context w = (rofs_reply p x, w).
Proof.
  intros Hw Hp. destruct p; try discriminate Hp; cbn [nfs_procedure];
    apply (refuse_write _ _ _ _ Hw).
Qed.

Lemma reading_keeps p x input context (w : W) :
  PureReads w -> modifies p = false -> keeps w (nfs_procedure p x input context).
Proof.
  intros Hpure Hp. destruct p; try discriminate Hp; cbn [nfs_procedure];
    unfold nfsproc3_null, nfsproc3_getattr, nfsproc3_lookup, nfsproc3_access, nfsproc3_readlink,
      nfsproc3_read, nfsproc3_readdir, nfsproc3_readdirplus, nfsproc3_fsstat, nfsproc3_fsinfo,
      nfsproc3_pathconf, nfsproc3_commit; keep_steps.
Qed.

(** C31. A file system that says it is read-only is never changed by a client, whatever it
    sends: no call reaches a modifying method, each modifying procedure is answered with
    NFS3ERR_ROFS before its arguments are read, and every other call leaves the file
    system as it was as long as the methods that look do. *)
Theorem read_only_server x call input context (w : W) :
  capabilities w = ReadOnly -> PureReads w ->
  (handle_nfs x call input context w).2 = w /\
  (vers call = VERSION -> forall p,
   nfs_program_from_u32 (proc call) = Some p -> modifies p = true ->
   (handle_nfs x call input context w).1 = rofs_reply p x).
Proof.
  intros Hw Hpure. unfold handle_nfs. split.
  - case_bool_decide; [|done]. cbn [negb]. set (p := default _ _).
    destruct (modifies p) eqn:Hp; [by rewrite modifying_refused|by apply reading_keeps].
  - intros -> p Hp Hm. rewrite bool_decide_true, Hp by done. cbn [negb default].
    by rewrite modifying_refused.
Qed.
End read_only.

(** ** Directory listings *)

(** A directory listing as a client reads it: its entries, and whether it is complete. *)
Definition de_listing {E} (X : XDR E) : XM (list E * bool) :=
  stat ← de_status;
  if bool_decide (stat = NFS3_OK) then
    _ ← field post_op_attr_xdr; _ ← verf_field; de_dirlist X
  else fail InvalidData.

Lemma listing_page {E} (X : XDR E) `{!XDRLaws X} x name_of room attr version es end_ b :
  is_u32 x -> xdr_valid attr -> length version = NFS3_COOKIEVERFSIZE -> Forall xdr_valid es ->
  listing x ser name_of room attr version es end_ = Some b ->
  exists n eof,
    de_listing X b = (Ok (take n es, eof), []) /\
    (n <= length es)%nat /\ (eof = true <-> n = length es /\ end_ = true) /\
    (n = O \/ room (zlen b - 8) (dirsum name_of (take n es)) = true) /\
    (forall e c, es !! n = Some e -> ser_seq [ser true; ser e] = Some c ->
     room (zlen b - 8 + zlen c) (dirsum name_of (take (S n) es)) = false).
Proof.
  intros Hx Hattr Hver Hes Hb.
  apply (listing_parts X) in Hb
    as (head & n & bs & tail & eof & -> & Ehead & Hbs & Etail & Hn & Heof & Hroom & Hnext); [|done].
  exists n, eof.
  assert (Ht : zlen tail = 8).
  { apply ser_seq_cons in Etail as (y & z & [= <-] & Hz & ->).
    apply ser_seq_cons in Hz as (y & z' & [= <-] & [= <-] & ->).
    rewrite !zlen_app. unfold zlen, write_be. by rewrite !length_be_bytes. }
  replace (zlen (head ++ concat bs ++ tail) - 8) with (zlen (head ++ concat bs))
    by (rewrite !zlen_app; lia).
  split_and!; [|done..].
  assert (Hd : decodes (de_listing X) (head ++ concat bs ++ tail) (take n es, eof));
    [|by rewrite <- (app_nil_r (head ++ _)); apply Hd].
  apply ser_seq_cons in Ehead as (h & z & Hh & Hz & ->).
  apply ser_seq_cons in Hz as (t & z' & Ht' & Hz & ->).
  apply ser_seq_cons in Hz as (a & z & Ha & Hz & ->).
  apply ser_seq_cons in Hz as (v & z' & Hv & [= <-] & ->).
  rewrite app_nil_r, app_assoc, <- !app_assoc, (app_assoc h).
  eapply decodes_bind; [by apply (status_decodes x)|]. rewrite bool_decide_true by done.
  eapply decodes_bind; [by eapply field_decodes|].
  eapply decodes_bind; [by apply (field_decodes (array_xdr NFS3_COOKIEVERFSIZE) version)|].
  by eapply (de_dirlist_decodes X (take n es)).
Qed.

Section readdirplus.
Context {W : Type} `{!NFSFileSystem W} `{!ValidVfs W}.

Lemma ask_inv {A} (op : M nfsstat3 W A) V w r w' :
  sound V op -> ask (E' := rpc_error) op w = (Ok r, w') ->
  op w = (r, w') /\ match r with Ok a => V a | Err e => e <> NFS3_OK end.
Proof.
  intros Hs. specialize (Hs w). unfold ask. destruct (op w) as [r' w1]. by intros [= <- <-].
Qed.

Lemma refusal x stat vs (w : W) b w' :
  is_u32 x -> stat <> NFS3_OK -> reply x stat vs w = (Ok b, w') -> refuses b.
Proof. intros Hx Hs. by apply gives_refusal. Qed.

(** The bytes a READDIRPLUS reply stays below.  The 128 bytes are taken off the reply size
    without a check: under a smaller size the subtraction wraps (a debug build panics), and
    what is left is no limit. *)
Definition reply_limit (maxcount : Z) : Z :=
  if bool_decide (128 <= maxcount) then maxcount - 120 else 2 ^ 64 + maxcount - 120.

Lemma reply_limit_eq maxcount :
  0 <= maxcount <= u32_max -> wrap64 (maxcount - 128) + 8 = reply_limit maxcount.
Proof.
  intros Hm. unfold reply_limit. case_bool_decide.
  - rewrite wrap64_id; unfold is_u64, u64_max, u32_max in *; lia.
  - unfold wrap64, u32_max in *. replace (maxcount - 128) with (maxcount - 128 + 2 ^ 64 + -1 * 2 ^ 64) by lia.
    rewrite Z_mod_plus_full, Z.mod_small; lia.
Qed.

(** C37. A READDIRPLUS reply is a page of the directory: the client reads from it a prefix
    of the entries the file system listed after its cookie, no longer than the directory
    bytes it asked for and its reply size allow, and as long as they allow: the next entry
    would not fit.  The page says it is the last exactly when the listing is complete and
    every entry is in it.  A reply size of 128 bytes or more is kept to, with 120 of them to
    spare; a smaller one is not, and only the directory bytes limit the page
    ([reply_limit]). *)
Theorem readdirplus_page x input (w : W) args rest bytes w' :
  is_u32 x -> decode (de (default_ : READDIRPLUS3args)) input = Ok (args, rest) ->
  is_u32 (rp_maxcount args) ->
  nfsproc3_readdirplus x input w = (Ok bytes, w') ->
  refuses bytes \/
  exists dirid result n eof,
    fh_to_id w (rp_dir args) = Ok dirid /\
    readdir dirid (rp_cookie args) (rp_dircount args / 16) (getattr dirid w).2 = (Ok result, w') /\
    let page := take n (entryplus_of w' <$> rd_entries result) in
    de_listing entryplus3_xdr bytes = (Ok (page, eof), []) /\
    (eof = true <-> length page = length (rd_entries result) /\ rd_end result = true) /\
    (page = [] \/
     zlen bytes < reply_limit (rp_maxcount args) /\ dirsum ep_name page < rp_dircount args) /\
    (forall e c, rd_entries result !! n = Some e ->
     ser_seq [ser true; ser (entryplus_of w' e)] = Some c ->
     reply_limit (rp_maxcount args) <= zlen bytes + zlen c \/
     rp_dircount args <= dirsum ep_name (page ++ [entryplus_of w' e])).
Proof.
  intros Hx Harg Hmax H. unfold nfsproc3_readdirplus in H.
  apply M_bind_inv in H as ([? ?] & w1 & H1 & H). unfold arg, lift in H1. rewrite Harg in H1.
  injection H1 as <- <- <-. apply M_bind_inv in H as (r & w1 & [= <- <-] & H).
  pose proof (valid_fh_to_id w (rp_dir args)) as Hid.
  destruct (fh_to_id w (rp_dir args)) as [dirid|stat]; [|left; by apply (refusal _ _ _ _ _ _ Hx Hid H)].
  apply M_bind_inv in H as (r & w1 & Hr & H).
  apply (ask_inv _ _ _ _ _ (valid_getattr dirid Hid)) in Hr as [Er Hr].
  apply M_bind_inv in H as (l & w2 & Hl & H).
  apply (ask_inv _ _ _ _ _ (valid_readdir dirid _ _ Hid)) in Hl as [El Hl].
  destruct l as [result|stat]; [|left; by apply (refusal _ _ _ _ _ _ Hx Hl H)]. right.
  apply M_bind_inv in H as (es & w3 & [= <- <-] & H). unfold emit, lift, ok_or in H.
  destruct (listing _ _ _ _ _ _ _ _) as [b|] eqn:Eb; [|done]. injection H as <- <-.
  apply (listing_page entryplus3_xdr) in Eb as (n & eof & Hd & Hn & Heof & Hroom & Hnext);
    [|done|by apply valid_attributes|apply dirversion_length|by apply entryplus_valid].
  exists dirid, result, n, eof. split; [done|]. split; [by rewrite Er|]. intros page.
  pose proof (reply_limit_eq _ Hmax) as Hlim.
  rewrite length_fmap in Hn, Heof. split_and!; [exact Hd| | |].
  - subst page. rewrite length_take, length_fmap. rewrite Heof. split; intros [H1 H2]; split; lia || done.
  - destruct Hroom as [->|Hroom]; [by left|right]. apply andb_true_iff in Hroom as [H1 H2].
    apply bool_decide_eq_true in H1, H2. subst page. split; [lia|done].
  - intros e c He Hc. specialize (Hnext (entryplus_of w2 e) c).
    rewrite list_lookup_fmap, He in Hnext. specialize (Hnext eq_refl Hc).
    apply andb_false_iff in Hnext as [Hnext|Hnext]; apply bool_decide_eq_false in Hnext.
    + left. lia.
    + right. subst page. rewrite <- take_S_r; [lia|]. by rewrite list_lookup_fmap, He.
Qed.
End readdirplus.
