(* ===== verification/Mount.v ===== *)
(** The MOUNT program (crates/nessie-nfsserve/src/mount.rs, mount_handlers.rs) and the
    server's programs put together: NFS and MOUNT on one file system behind the RPC
    dispatcher of RpcServer.v, with the listener's export name (tcp.rs).

    The mount listener's channel is the list of what was sent to it; a send's failure is
    ignored, as in the code. *)

From Stdlib Require Import ZArith Lia.
From stdpp Require Import base list option.
From S2P Require Import Prelude Text Xdr Rpc RpcServer Nfs Vfs NfsHandlers NfsConform.

Local Open Scope Z_scope.

(** ** mount.rs *)

Inductive mountstat3 :=
| MNT3_OK | MNT3ERR_PERM | MNT3ERR_NOENT | MNT3ERR_IO | MNT3ERR_ACCES | MNT3ERR_NOTDIR
| MNT3ERR_INVAL | MNT3ERR_NAMETOOLONG | MNT3ERR_NOTSUPP | MNT3ERR_SERVERFAULT.

#[export] Instance mountstat3_eq_dec : EqDecision mountstat3.
Proof. solve_decision. Defined.

Definition mountstat3_disc (s : mountstat3) : Z :=
  match s with
  | MNT3_OK => 0 | MNT3ERR_PERM => 1 | MNT3ERR_NOENT => 2 | MNT3ERR_IO => 5
  | MNT3ERR_ACCES => 13 | MNT3ERR_NOTDIR => 20 | MNT3ERR_INVAL => 22
  | MNT3ERR_NAMETOOLONG => 63 | MNT3ERR_NOTSUPP => 10004 | MNT3ERR_SERVERFAULT => 10006
  end.

#[export] Instance mountstat3_xdr : XDR mountstat3 :=
  enum_xdr MNT3_OK mountstat3_disc (variant_of
    [MNT3_OK; MNT3ERR_PERM; MNT3ERR_NOENT; MNT3ERR_IO; MNT3ERR_ACCES; MNT3ERR_NOTDIR;
     MNT3ERR_INVAL; MNT3ERR_NAMETOOLONG; MNT3ERR_NOTSUPP; MNT3ERR_SERVERFAULT] mountstat3_disc).

Record mountres3_ok := mkMountres { fhandle : list byte; auth_flavors : list Z }.

#[export] Instance mountres3_ok_xdr : XDR mountres3_ok := {|
  default_ := mkMountres [] [];
  ser a := ser_seq [ser (fhandle a); ser (auth_flavors a)];
  de self := f ← de (fhandle self); l ← de (auth_flavors self); mret (mkMountres f l);
|}.

(** ** mount_handlers.rs *)

Inductive MountProgram :=
| MOUNTPROC3_NULL | MOUNTPROC3_MNT | MOUNTPROC3_DUMP | MOUNTPROC3_UMNT | MOUNTPROC3_UMNTALL
| MOUNTPROC3_EXPORT | MOUNT_INVALID.

Definition mount_from_u32 : Z -> option MountProgram :=
  nth_variant [MOUNTPROC3_NULL; MOUNTPROC3_MNT; MOUNTPROC3_DUMP; MOUNTPROC3_UMNT;
    MOUNTPROC3_UMNTALL; MOUNTPROC3_EXPORT; MOUNT_INVALID] 0.

(** The file system behind its listener, and what the mount listener was sent. *)
Record exported (W : Type) := mkExported { vfs : W; mount_signal : option (list bool) }.
Arguments mkExported {W}.
Arguments vfs {W}.
Arguments mount_signal {W}.

Definition on_vfs {E W A} (m : M E W A) : M E (exported W) A := fun s =>
  let '(r, w) := m (vfs s) in (r, mkExported w (mount_signal s)).

Definition send {E W} (up : bool) : M E (exported W) () := fun s =>
  (Ok (), mkExported (vfs s) ((fun l => l ++ [up]) <$> mount_signal s)).

(** The path inside the export, or nothing if the export's name is not a prefix. *)
Definition export_path (export_name path : list byte) : option (list byte) :=
  let utf8path := default [] (from_utf8 path) in
  rest ← strip_prefix export_name utf8path;
  Some (slash :: trim (trim_end_matches slash (trim_start_matches slash rest))).

Section mount.
Context {W : Type} `{!NFSFileSystem W}.
Implicit Types (x : Z) (input : list byte).

Abbreviation MountProc := (M rpc_error (exported W) (list byte)).

Definition mountproc3_null x : MountProc := lift (emit (ser (make_success_reply x))).

Definition mount_reply x (stat : mountstat3) (rest : list (option (list byte))) : MountProc :=
  lift (emit (ser_seq (ser (make_success_reply x) :: ser stat :: rest))).

Definition mountproc3_mnt x input (context : RPCContext) : MountProc :=
  '(path, _) ← arg (list byte) input;
  match export_path (export_name context) path with
  | None => mount_reply x MNT3ERR_NOENT []
  | Some path =>
      fileid ← on_vfs (ask (path_to_id path));
      match fileid with
      | Ok fileid =>
          fh ← on_vfs (asks (fun w => id_to_fh w fileid));
          _ ← send true;
          mount_reply x MNT3_OK
            [ser (mkMountres (fh_data fh)
               [auth_flavor_disc AUTH_NULL; auth_flavor_disc AUTH_UNIX])]
      | Err _ => mount_reply x MNT3ERR_NOENT []
      end
  end.

Definition mountproc3_export x (context : RPCContext) : MountProc :=
  lift (emit (ser_seq [ser (make_success_reply x); ser true; ser (export_name context);
                       ser false; ser false])).

Definition mountproc3_umnt x input : MountProc :=
  _ ← arg (list byte) input; _ ← send false; mount_reply x MNT3_OK [].

Definition mountproc3_umnt_all x : MountProc := _ ← send false; mount_reply x MNT3_OK [].

Definition handle_mount x (call : call_body) input (context : RPCContext) : MountProc :=
  match default MOUNT_INVALID (mount_from_u32 (proc call)) with
  | MOUNTPROC3_NULL => mountproc3_null x
  | MOUNTPROC3_MNT => mountproc3_mnt x input context
  | MOUNTPROC3_UMNT => mountproc3_umnt x input
  | MOUNTPROC3_UMNTALL => mountproc3_umnt_all x
  | MOUNTPROC3_EXPORT => mountproc3_export x context
  | _ => lift (emit (ser (proc_unavail_reply_message x)))
  end.

(** The dispatcher's programs, on the file system [W]. *)
#[export] Instance nfs_programs : Programs (exported W) := {|
  RpcServer.handle_nfs x call input context := on_vfs (NfsHandlers.handle_nfs x call input context);
  RpcServer.handle_mount := handle_mount;
|}.
End mount.

(** ** The listener (tcp.rs) *)

Definition generate_host_ip (hostnum : Z) : list byte :=
  bs "127.88." ++ dec (Z.land (Z.shiftr hostnum 8) 0xFF) ++ bs "." ++ dec (Z.land hostnum 0xFF).

(** [with_export_name]: one leading slash, none around the rest. *)
Definition with_export_name (name : list byte) : list byte :=
  slash :: trim_start_matches slash (trim_end_matches slash name).

(** [bind]'s address: the text before the first colon, and a port. *)
Definition bind_address (ipstr : list byte) : option (list byte * Z) :=
  '(ip, port) ← split_once (z2b 58) ipstr;
  port ← parse_uint (2 ^ 16 - 1) port;
  Some (ip, port).

(** ** Lemmas *)

#[export] Instance mountstat3_laws : XDRLaws mountstat3_xdr.
Proof. apply enum_laws; intros []; done. Defined.

#[export] Instance mountres3_ok_laws : XDRLaws mountres3_ok_xdr.
Proof.
  refine {| xdr_valid (a : mountres3_ok) :=
    zlen (fhandle a) < u32_max /\ @xdr_valid _ words_xdr _ (auth_flavors a) |}.
  all: struct_laws mountres3_ok_xdr.
Defined.

Lemma trim_start_replicate c n s :
  trim_start_matches c (replicate n c ++ s) = trim_start_matches c s.
Proof. induction n as [|n IH]; [done|]. simpl. by rewrite decide_True. Qed.

Lemma trim_start_head c s : head s <> Some c -> trim_start_matches c s = s.
Proof. destruct s as [|b s]; [done|]. intros H. simpl. rewrite decide_False; [done|naive_solver]. Qed.

Lemma rev_replicate {A} (c : A) n : rev (replicate n c) = replicate n c.
Proof.
  induction n as [|n IH]; [done|]. cbn [replicate rev]. rewrite IH.
  clear. induction n; simpl; by f_equal.
Qed.

(** Slashes around a path do not matter. *)
Lemma trim_slashes c n m s :
  head s <> Some c -> head (rev s) <> Some c ->
  trim_end_matches c (trim_start_matches c (replicate n c ++ s ++ replicate m c)) = s.
Proof.
  intros Hh Hl. rewrite trim_start_replicate. unfold trim_end_matches.
  destruct s as [|b s].
  - rewrite app_nil_l, <- (app_nil_r (replicate m c)), trim_start_replicate. done.
  - rewrite (trim_start_head _ (_ ++ _)) by done.
    rewrite rev_app_distr, rev_replicate, trim_start_replicate, trim_start_head by done.
    apply rev_involutive.
Qed.

Lemma export_path_slashes e n m p :
  utf8_valid (e ++ replicate n slash ++ p ++ replicate m slash) = true ->
  head p <> Some slash -> head (rev p) <> Some slash -> trim p = p ->
  export_path e (e ++ replicate n slash ++ p ++ replicate m slash) = Some (slash :: p).
Proof.
  intros Hu Hh Hl Ht. unfold export_path. cbn zeta. set (path := e ++ _) in *.
  assert (default [] (from_utf8 path) = path) as -> by (unfold from_utf8; by rewrite Hu).
  unfold path. rewrite strip_prefix_app. cbn [mbind option_bind]. by rewrite trim_slashes, Ht.
Qed.

(** A MOUNT reply and a GETATTR reply as their clients read them. *)
Definition de_mountres : XM (mountstat3 * option mountres3_ok) :=
  _ ← de (default_ : rpc_msg);
  stat ← de (default_ : mountstat3);
  if bool_decide (stat = MNT3_OK)
  then r ← de (default_ : mountres3_ok); mret (stat, Some r)
  else mret (stat, None).

Definition de_attributes : XM fattr3 :=
  stat ← de_status;
  if bool_decide (stat = NFS3_OK) then de (default_ : fattr3) else fail InvalidData.

Lemma ser_seq_3 b1 b2 b3 : ser_seq [Some b1; Some b2; Some b3] = Some (b1 ++ b2 ++ b3).
Proof. unfold ser_seq. simpl. by rewrite app_nil_r. Qed.

Section mounted.
Context {W : Type} `{!NFSFileSystem W} `{!ValidVfs W}.

Lemma getattr_reads x (w : W) h id v w' :
  is_u32 x -> xdr_valid h -> fh_to_id w h = Ok id -> is_u64 id -> getattr id w = (Ok v, w') ->
  exists input b,
    ser h = Some input /\ nfsproc3_getattr x input w = (Ok b, w') /\ de_attributes b = (Ok v, []).
Proof.
  intros Hx Hh Hid Hu Hg. destruct (ser_total h Hh) as [input Hin]. exists input.
  assert (Hv : xdr_valid v) by (pose proof (valid_getattr id Hu w) as Hs; by rewrite Hg in Hs).
  destruct (ser_total (make_success_reply x)) as [b1 Hb1]; [by apply header_valid|].
  destruct (ser_total NFS3_OK) as [b2 Hb2]; [done|]. destruct (ser_total v Hv) as [b3 Hb3].
  exists (b1 ++ b2 ++ b3). split; [done|]. split.
  - unfold nfsproc3_getattr, arg, lift, asks, ask, reply, mbind, M_bind, decode.
    rewrite <- (app_nil_r input), (ser_de default_ h input Hh Hin []), Hid, Hg.
    unfold lift. by rewrite Hb1, Hb2, Hb3, ser_seq_3.
  - assert (Hd : decodes de_attributes (b1 ++ b2 ++ b3) v);
      [|by rewrite <- (app_nil_r (b1 ++ _)); apply Hd].
    rewrite app_assoc. eapply decodes_bind; [by apply (status_decodes x)|].
    rewrite bool_decide_true by done. by apply ser_de.
Qed.

Lemma mnt_reads x (w : W) log input path inner context id w1 :
  is_u32 x -> zlen path < u32_max -> ser path = Some input ->
  export_path (export_name context) path = Some inner ->
  path_to_id inner w = (Ok id, w1) -> xdr_valid (id_to_fh w1 id) ->
  exists b,
    mountproc3_mnt x input context (mkExported w log) =
      (Ok b, mkExported w1 ((fun l => l ++ [true]) <$> log)) /\
    de_mountres b = (Ok (MNT3_OK, Some (mkMountres (fh_data (id_to_fh w1 id)) [0; 1])), []).
Proof.
  intros Hx Hlen Hin Hpath Hid Hh. set (res := mkMountres (fh_data (id_to_fh w1 id)) [0; 1]).
  assert (Hres : xdr_valid res) by (split; [exact Hh|]; split; [done|]; by repeat constructor).
  destruct (ser_total (make_success_reply x)) as [b1 Hb1]; [by apply header_valid|].
  destruct (ser_total MNT3_OK) as [b2 Hb2]; [done|]. destruct (ser_total res Hres) as [b3 Hb3].
  exists (b1 ++ b2 ++ b3). split.
  - unfold mountproc3_mnt, arg, lift, mbind, M_bind, decode.
    rewrite <- (app_nil_r input), (@ser_de _ _ opaque_laws default_ path input Hlen Hin []), Hpath.
    unfold on_vfs, ask, asks. cbn [vfs mount_signal]. rewrite Hid.
    unfold send, mount_reply, lift. cbn [vfs mount_signal].
    change (auth_flavor_disc AUTH_NULL) with 0. change (auth_flavor_disc AUTH_UNIX) with 1.
    fold res. by rewrite Hb1, Hb2, Hb3, ser_seq_3.
  - assert (Hd : decodes de_mountres (b1 ++ b2 ++ b3) (MNT3_OK, Some res));
      [|by rewrite <- (app_nil_r (b1 ++ _)); apply Hd].
    eapply (decodes_bind _ _ b1 _ (make_success_reply x));
      [apply ser_de; [by apply header_valid|done]|].
    eapply (decodes_bind _ _ b2 _ MNT3_OK); [by apply ser_de|]. rewrite bool_decide_true by done.
    eapply decodes_map; [by apply ser_de|apply decodes_ret].
Qed.

(** Mounting a path of the export gives its file: however many slashes surround the
    path, the MNT reply carries the handle of the file the path names, the mount
    listener hears of it, and a GETATTR sent with that handle through the same
    dispatcher reads that file's attributes. *)
Theorem mounted_handle x1 x2 mnt get context n m p input (w : W) log id w1 v w2 :
  is_u32 x1 -> is_u32 x2 ->
  prog mnt = MOUNT_PROGRAM -> proc mnt = 1 ->
  prog get = NFS_PROGRAM -> vers get = VERSION -> proc get = 1 ->
  let path := export_name context ++ replicate n slash ++ p ++ replicate m slash in
  utf8_valid path = true -> zlen path < u32_max -> ser path = Some input ->
  head p <> Some slash -> head (rev p) <> Some slash -> trim p = p ->
  path_to_id (slash :: p) w = (Ok id, w1) -> is_u64 id ->
  fh_to_id w1 (id_to_fh w1 id) = Ok id -> getattr id w1 = (Ok v, w2) ->
  exists mounted handle asked answer,
    dispatch x1 mnt input context (mkExported w log) =
      (Ok mounted, mkExported w1 ((fun l => l ++ [true]) <$> log)) /\
    de_mountres mounted = (Ok (MNT3_OK, Some (mkMountres handle [0; 1])), []) /\
    ser (mkFh handle) = Some asked /\
    dispatch x2 get asked context (mkExported w1 ((fun l => l ++ [true]) <$> log)) =
      (Ok answer, mkExported w2 ((fun l => l ++ [true]) <$> log)) /\
    de_attributes answer = (Ok v, []).
Proof.
  intros Hx1 Hx2 Hm1 Hm2 Hg1 Hg2 Hg3 path Hu Hlen Hin Hh Hl Ht Hid Hidu Hfh Hget.
  destruct (mnt_reads x1 w log input path (slash :: p) context id w1) as (b & Hb & Hd);
    [done..|by apply export_path_slashes|done|by apply valid_id_to_fh|].
  destruct (getattr_reads x2 w1 (id_to_fh w1 id) id v w2) as (asked & c & Hask & Hc & Hattr);
    [done|by apply valid_id_to_fh|done..|].
  exists b, (fh_data (id_to_fh w1 id)), asked, c. split_and!; [|done| | |done].
  - unfold dispatch. by rewrite Hm1; cbn; unfold handle_mount; rewrite Hm2.
  - by destruct (id_to_fh w1 id).
  - unfold dispatch. rewrite bool_decide_true by done. cbn [RpcServer.handle_nfs nfs_programs].
    unfold on_vfs, NfsHandlers.handle_nfs. rewrite Hg2, Hg3. cbn [vfs].
    rewrite bool_decide_true by done. cbn [negb].
    change (default NFS_INVALID (nfs_program_from_u32 1)) with NFSPROC3_GETATTR.
    cbn [nfs_procedure]. by rewrite Hc.
Qed.
End mounted.
