(* ===== verification/NfsExample.v ===== *)
(** A small file system behind the NFS handlers, and their theorems at it: one directory
    of numbered files, built on the trait's default methods. *)

From Stdlib Require Import ZArith Lia.
From stdpp Require Import base list option.
From S2P Require Import Prelude Text Xdr Rpc RpcServer Nfs Vfs NfsHandlers NfsConform NfsSafety.
From S2P Require Import Mount.

Local Open Scope Z_scope.

(** The files' contents; file [i] is called by the letter after the [i]th. *)
Record demo := mkDemo { demo_rw : bool; demo_files : list (list byte) }.

Definition demo_gen : Z := 7.

(** The first twenty files exist, and show their first 64 bytes. *)
Definition demo_at (id : Z) (w : demo) : option (list byte) :=
  take 64 <$> take 20 (demo_files w) !! Z.to_nat (id - 2).

Definition demo_name (i : nat) : list byte := [z2b (97 + Z.of_nat i)].

Definition demo_attr (id : Z) (w : demo) : result nfsstat3 fattr3 :=
  let t := mkTime 1700000000 5 in
  if bool_decide (id = 1)
  then Ok (mkFattr NF3DIR 0x1ED 2 0 0 0 0 default_ 0 1 t t t)
  else if negb (bool_decide (2 <= id < 22)) then Err NFS3ERR_STALE
  else
    match demo_at id w with
    | Some c => Ok (mkFattr NF3REG 0x1A4 1 0 0 (zlen c) (zlen c) default_ 0 id t t t)
    | None => Err NFS3ERR_NOENT
    end.

Definition demo_entry (w : demo) (i : nat) : option DirEntry :=
  let id := 2 + Z.of_nat i in
  a ← res_ok (demo_attr id w); Some (mkDirEntry id id (demo_name i) a).

Definition demo_entries (w : demo) : list DirEntry := omap (demo_entry w) (seq 0 20).

Definition no_op {A} : M nfsstat3 demo A := fail NFS3ERR_NOTSUPP.

Definition demo_getattr (id : Z) : M nfsstat3 demo fattr3 := fun w => (demo_attr id w, w).

Definition demo_write (id offset : Z) (data : list byte) : M nfsstat3 demo fattr3 := fun w =>
  match demo_at id w with
  | Some c =>
      let o := Z.to_nat offset in
      let c' := take o c ++ data ++ drop (o + length data) c in
      demo_getattr id (mkDemo (demo_rw w) (<[Z.to_nat (id - 2) := c']> (demo_files w)))
  | None => (Err NFS3ERR_NOENT, w)
  end.

Definition demo_lookup (dirid : Z) (name : list byte) : M nfsstat3 demo Z := fun w =>
  match find (fun e => bool_decide (de_name e = name)) (demo_entries w) with
  | Some e => (Ok (de_fileid e), w)
  | None => (Err NFS3ERR_NOENT, w)
  end.

Definition demo_readdir (dirid cookie count : Z) : M nfsstat3 demo ReadDirResult := fun w =>
  let rest := filter (fun e => cookie < de_cookie e) (demo_entries w) in
  let page := take (Z.to_nat count) rest in
  (Ok (mkReadDir page (bool_decide (length page = length rest))), w).

#[global] Arguments demo_getattr : simpl never.
#[global] Arguments demo_write : simpl never.
#[global] Arguments demo_readdir : simpl never.

#[export] Instance demo_fs : NFSFileSystem demo := {|
  capabilities w := if demo_rw w then ReadWrite else ReadOnly;
  root_dir _ := 1;
  lookup := demo_lookup;
  getattr := demo_getattr;
  setattr id _ := demo_getattr id;
  read id offset count w :=
    match demo_at id w with
    | Some c =>
        let d := take (Z.to_nat count) (drop (Z.to_nat offset) c) in
        (Ok (d, bool_decide (zlen c <= offset + zlen d)), w)
    | None => (Err NFS3ERR_NOENT, w)
    end;
  write := demo_write;
  write_stable := default_write_stable demo_write;
  commit := default_commit;
  create _ _ _ := no_op;
  create_exclusive _ _ := no_op;
  mkdir _ _ := no_op;
  create_with_cred _ _ _ _ := no_op;
  create_exclusive_with_cred _ _ _ := no_op;
  mkdir_with_cred _ _ _ := no_op;
  remove _ _ := no_op;
  rename _ _ _ _ := no_op;
  readdir := demo_readdir;
  readdir_simple := default_readdir_simple demo_readdir;
  symlink _ _ _ _ := no_op;
  readlink _ := no_op;
  link _ _ _ := no_op;
  fsinfo := default_fsinfo demo_getattr;
  id_to_fh _ := default_id_to_fh demo_gen;
  fh_to_id _ := default_fh_to_id demo_gen;
  path_to_id := default_path_to_id (fun _ => 1) demo_lookup;
  serverid _ := default_serverid demo_gen;
|}.

Lemma demo_at_short id w c : demo_at id w = Some c -> zlen c <= 64.
Proof.
  unfold demo_at. destruct (_ !! _); [|done]. intros [= <-]. unfold zlen. rewrite length_take. lia.
Qed.

Lemma demo_attr_valid id w v : demo_attr id w = Ok v -> xdr_valid v /\ 1 <= id < 22.
Proof.
  unfold demo_attr. case_bool_decide as H1; [intros [= <-]; split; [|lia]; split_and!; done|].
  case_bool_decide as H2; cbn [negb]; [|done].
  destruct (demo_at id w) as [c|] eqn:Ec; [|done]. intros [= <-]. split; [|lia].
  apply demo_at_short in Ec. pose proof (zlen_nonneg c).
  assert (is_u64 (zlen c)) by (unfold is_u64, u64_max; lia).
  assert (is_u64 id) by (unfold is_u64, u64_max; lia). split_and!; done.
Qed.

Lemma demo_attr_error id w e : demo_attr id w = Err e -> e <> NFS3_OK.
Proof.
  unfold demo_attr. case_bool_decide; [done|]. case_bool_decide; cbn [negb]; [|by intros [= <-]].
  by destruct (demo_at id w); [|intros [= <-]].
Qed.

Lemma demo_getattr_sound id : sound xdr_valid (demo_getattr id).
Proof.
  intros w. unfold demo_getattr. cbn [fst]. destruct (demo_attr id w) eqn:E.
  - by apply demo_attr_valid in E as [? _].
  - by eapply demo_attr_error.
Qed.

Lemma demo_write_sound id offset data : sound xdr_valid (demo_write id offset data).
Proof.
  intros w. unfold demo_write. destruct (demo_at id w); [|done]. apply demo_getattr_sound.
Qed.

Lemma demo_entry_Some w i e :
  demo_entry w i = Some e ->
  exists a, demo_attr (2 + Z.of_nat i) w = Ok a /\
    e = mkDirEntry (2 + Z.of_nat i) (2 + Z.of_nat i) (demo_name i) a.
Proof.
  unfold demo_entry. destruct (demo_attr _ w) as [a|] eqn:Ea; cbn [res_ok mbind option_bind]; [|done].
  intros [= <-]. eauto.
Qed.

Lemma demo_entry_valid w i e : demo_entry w i = Some e -> valid_direntry e.
Proof.
  intros (a & [Hv Hid]%demo_attr_valid & ->)%demo_entry_Some.
  assert (is_u64 (2 + Z.of_nat i)) by (unfold is_u64, u64_max; lia).
  split; [done|]. split; [done|]. split; [|exact Hv]. reflexivity.
Qed.

Lemma Forall_omap_Some {A B} (f : A -> option B) P l :
  (forall x y, f x = Some y -> P y) -> Forall P (omap f l).
Proof.
  intros Hf. induction l as [|x l IH]; [constructor|]. simpl.
  destruct (f x) as [y|] eqn:E; [|done]. constructor; [by eapply Hf|done].
Qed.

Lemma demo_entries_valid w : Forall valid_direntry (demo_entries w).
Proof. apply Forall_omap_Some, demo_entry_valid. Qed.

Lemma demo_readdir_sound dirid cookie count :
  sound (fun r => Forall valid_direntry (rd_entries r)) (demo_readdir dirid cookie count).
Proof.
  intros w. unfold demo_readdir. cbn [fst rd_entries]. apply Forall_take, Forall_forall.
  intros e [_ He]%list_elem_of_In%list_elem_of_filter.
  pose proof (demo_entries_valid w) as Hv. rewrite Forall_forall in Hv.
  by apply Hv, list_elem_of_In.
Qed.

Lemma no_op_sound {A} V : sound V (no_op (A := A)).
Proof. by intros w. Qed.

#[export] Instance demo_valid : ValidVfs demo.
Proof.
  split; intros; try apply no_op_sound; try apply demo_getattr_sound.
  - apply default_fh_to_id_valid.
  - apply default_id_to_fh_valid.
  - apply length_le_bytes.
  - intros w. cbn [lookup demo_fs]. unfold demo_lookup.
    destruct (find _ (demo_entries w)) as [e|] eqn:Ee; [|done].
    apply find_some in Ee as [Hin _].
    pose proof (demo_entries_valid w) as Hv. rewrite Forall_forall in Hv. by apply Hv.
  - intros w. simpl. by destruct (demo_at id w).
  - by apply (sound_map _ _ xdr_valid); [apply demo_write_sound|].
  - by intros w.
  - apply demo_readdir_sound.
  - apply (sound_map _ _ (fun r => Forall valid_direntry (rd_entries r)));
      [apply demo_readdir_sound|].
    intros r Hr. apply Forall_fmap. eapply Forall_impl; [|exact Hr]. by intros e (? & ? & ? & ?).
  - eapply sound_map; [apply sound_ask, demo_getattr_sound|].
    intros r Hr. split; [by apply valid_attributes|]. split_and!; done.
Qed.

#[export] Instance demo_pure (w : demo) : PureReads w.
Proof.
  split; intros; try done.
  - unfold keeps. cbn [lookup demo_fs]. unfold demo_lookup. by destruct (find _ _).
  - unfold keeps. simpl. by destruct (demo_at id w).
Qed.

Module NfsExample.
Definition client : RPCContext := mkContext 2049 (bs "10.0.0.9") default_ (bs "/").
Definition home (rw : bool) : demo := mkDemo rw [bs "alpha"; bs "beta"; []].
Definition bytes_of {A} `{XDR A} (a : A) : list byte := default [] (ser a).
Definition answer (r : result rpc_error (list byte) * demo) : list byte := unwrap_or r.1 [].

Definition fh (id : Z) : nfs_fh3 := default_id_to_fh demo_gen id.

(** Two of the three entries fit 600 bytes. *)
Definition list_args : READDIRPLUS3args :=
  mkREADDIRPLUS3args (fh 1) 0 (replicate 8 (z2b 0)) 512 600.

Definition first_page : list byte := answer (nfsproc3_readdirplus 5 (bytes_of list_args) (home true)).

Example the_first_page :
  (fun r : list entryplus3 * bool => (ep_name <$> r.1, r.2)) <$> (de_listing entryplus3_xdr first_page).1 =
  Ok ([bs "a"; bs "b"], false).
Proof. vm_compute. reflexivity. Qed.

(** Under a reply size of 100 bytes the reply is longer than that. *)
Example small_reply_size_not_kept :
  (100 <? zlen (answer (nfsproc3_readdirplus 5
    (bytes_of (mkREADDIRPLUS3args (fh 1) 0 (replicate 8 (z2b 0)) 512 100)) (home true)))) = true.
Proof. vm_compute. reflexivity. Qed.

Lemma readdirplus_page_witness :
  refuses first_page \/
  exists n eof, de_listing entryplus3_xdr first_page =
    (Ok (take n (entryplus_of (home true) <$> demo_entries (home true)), eof), []).
Proof.
  destruct (readdirplus_page 5 (bytes_of list_args) (home true) list_args [] first_page (home true))
    as [Hr|(dirid & result & n & eof & Hid & Hls & Hd & _)].
  - split; done.
  - vm_compute. reflexivity.
  - split; done.
  - vm_compute. reflexivity.
  - by left.
  - right. exists n, eof. rewrite Hd.
    injection Hid as <-. injection Hls as <-. reflexivity.
Defined.

(** Reading the attributes of the second file. *)
Definition stat_reply : list byte :=
  answer (nfs_procedure NFSPROC3_GETATTR 5 (bytes_of (fh 3)) client (home true)).

Lemma replies_conform_witness :
  conforms NFSPROC3_GETATTR 5 stat_reply \/ irregular NFSPROC3_GETATTR /\ refuses stat_reply.
Proof.
  apply (replies_conform NFSPROC3_GETATTR 5 (bytes_of (fh 3)) client (home true) stat_reply
           (home true)).
  - split; done.
  - vm_compute. reflexivity.
Defined.

(** A REMOVE whose arguments are not even there. *)
Definition remove_call : call_body := mkCall 2 PROGRAM VERSION 12 default_ default_.

Lemma read_only_server_witness :
  (handle_nfs 5 remove_call [] client (home false)).2 = home false /\
  (handle_nfs 5 remove_call [] client (home false)).1 = rofs_reply NFSPROC3_REMOVE 5.
Proof.
  destruct (read_only_server 5 remove_call [] client (home false)) as [H1 H2].
  - reflexivity.
  - apply demo_pure.
  - split; [exact H1|]. apply H2; reflexivity.
Defined.

Definition b_attributes : fattr3 := unwrap_or (demo_attr 3 (home true)) default_.

(** Mounting [//b/] of the export [/], and its attributes. *)
Definition mount_call : call_body := mkCall 2 MOUNT_PROGRAM 3 1 default_ default_.
Definition getattr_call : call_body := mkCall 2 NFS_PROGRAM VERSION 1 default_ default_.

Lemma mounted_handle_witness :
  exists mounted handle asked answer,
    dispatch 5 mount_call (bytes_of (bs "//b/")) client (mkExported (home true) (Some [])) =
      (Ok mounted, mkExported (home true) (Some [true])) /\
    de_mountres mounted = (Ok (MNT3_OK, Some (mkMountres handle [0; 1])), []) /\
    ser (mkFh handle) = Some asked /\
    dispatch 6 getattr_call asked client (mkExported (home true) (Some [true])) =
      (Ok answer, mkExported (home true) (Some [true])) /\
    de_attributes answer = (Ok b_attributes, []).
Proof.
  apply (mounted_handle 5 6 mount_call getattr_call client 1 1 (bs "b") (bytes_of (bs "//b/"))
           (home true) (Some []) 3 (home true)
           b_attributes (home true)).
  all: first [reflexivity | split; done | done].
Defined.
End NfsExample.
