(* ===== verification/Json.v ===== *)
(** JSON values, as serde_json's [Value] and [json!] build them and the handlers read
    them; and the text forms of identifiers, times and quoted strings, which are
    third-party code ([Texts]). *)

From Stdlib Require Import ZArith Lia.
From stdpp Require Import base option list.
From S2P Require Import Prelude Text Errors.

Local Open Scope Z_scope.

(** An object lists its members, each name once; [Float] is a number that is no
    integer. *)
Inductive Value :=
| Null
| Bool (b : bool)
| Number (z : Z)
| Float (text : list byte)
| String (s : list byte)
| Array (l : list Value)
| Object (l : list (list byte * Value)).

Declare Scope json_scope.
Delimit Scope json_scope with json.

(** A member of [json!({ "k": v })]. *)
Notation "k =: v" := (bs k, v) (at level 60, no associativity) : json_scope.

Definition member (k : list byte) (l : list (list byte * Value)) : option Value :=
  snd ∘ snd <$> list_find (fun kv => kv.1 = k) l.

(** [Value::get(key)] and [Value::get(index)] *)
Definition get (k : list byte) (v : Value) : option Value :=
  match v with Object l => member k l | _ => None end.
Definition get_index (i : nat) (v : Value) : option Value :=
  match v with Array l => l !! i | _ => None end.

Definition as_str (v : Value) : option (list byte) :=
  match v with String s => Some s | _ => None end.
Definition as_bool (v : Value) : option bool :=
  match v with Bool b => Some b | _ => None end.
Definition as_u64 (v : Value) : option Z :=
  match v with Number z => if bool_decide (is_u64 z) then Some z else None | _ => None end.

(** [v.get(k1).and_then(|x| x.get(k2)) ...] *)
Definition get_path (ks : list (list byte)) (v : Value) : option Value :=
  foldl (fun o k => o ≫= get k) (Some v) ks.

Definition get_str (ks : list (list byte)) (v : Value) : option (list byte) :=
  get_path ks v ≫= as_str.

Lemma member_cons k k' v l :
  member k ((k', v) :: l) = if decide (k' = k) then Some v else member k l.
Proof.
  unfold member. simpl. destruct (decide (k' = k)); [done|].
  by destruct (list_find _ l) as [[i [? ?]]|].
Qed.

(** What the [uuid] and chrono crates and the standard library's formatting make of
    identifiers, instants, durations and quoted strings. *)
Class Texts := {
  uuid_text : Uuid -> list byte;
  uuid_parse : list byte -> option Uuid;
  debug : list byte -> list byte;
  duration_debug : Z -> list byte;
  rfc3339 : Z -> list byte;
}.

(** A printed identifier is read back, and is not empty. *)
Class TextLaws (T : Texts) : Prop := {
  uuid_parse_text u : uuid_parse (uuid_text u) = Some u;
  uuid_text_nonempty u : uuid_text u <> [];
}.

Lemma uuid_text_inj {T : Texts} {TL : TextLaws T} u v : uuid_text u = uuid_text v -> u = v.
Proof. intros E. pose proof (uuid_parse_text u) as Hu. rewrite E, uuid_parse_text in Hu. congruence. Qed.

(** A concrete choice, for evaluation: an identifier is a tally, a string is not quoted. *)
Module TallyTexts.
Definition tally_parse (s : list byte) : option Uuid :=
  if bool_decide (s <> [] /\ Forall (fun b => b2z b = 120) s) then Some (N.of_nat (length s - 1)) else None.

#[export] Instance texts : Texts := {|
  uuid_text u := replicate (S (N.to_nat u)) (z2b 120);
  uuid_parse := tally_parse;
  debug s := bs "'" ++ s ++ bs "'";
  duration_debug z := dec z ++ bs "ns";
  rfc3339 z := dec z;
|}.

#[export] Instance text_laws : TextLaws texts.
Proof.
  split; [|done]. intros u. cbn [uuid_parse uuid_text texts]. unfold tally_parse.
  rewrite bool_decide_true.
  - rewrite length_replicate. f_equal. lia.
  - split; [done|]. apply Forall_replicate. reflexivity.
Qed.
End TallyTexts.
