(* ===== verification/Ontap.v ===== *)
(** The ONTAP wire shapes of crates/nessie-ontap-protocol/src: links.rs, collection.rs,
    job.rs, records.rs, error.rs and duration.rs, each structure with the JSON value its
    [Serialize] gives, and [Display] of [BackendError] (nessie-backend-core/src/error.rs). *)

From Stdlib Require Import ZArith Lia.
From stdpp Require Import base option list.
From S2P Require Import Prelude Text Digest Errors Volume Json.

Local Open Scope Z_scope.
Local Open Scope json_scope.

(** A member left out when it is [None] ([skip_serializing_if]). *)
Definition optional (k : list byte) (v : option Value) : list (list byte * Value) :=
  match v with Some v => [(k, v)] | None => [] end.

(** ** Links, collections and jobs *)

Record SelfLink := mkSelfLink { href : list byte }.
Record Links := mkLinks { self_link : SelfLink }.

Definition links_to (href : list byte) : Links := mkLinks (mkSelfLink href).

Definition self_link_value (l : SelfLink) : Value := Object ["href" =: String (href l)].
Definition links_value (l : Links) : Value := Object ["self" =: self_link_value (self_link l)].

Record HalCollection (T : Type) := mkCollection {
  records : list T;
  num_records : Z;
  collection_links : Links;
}.
Arguments mkCollection {T}.
Arguments records {T}.
Arguments num_records {T}.
Arguments collection_links {T}.

Definition collection_new {T : Type} (l : list T) (self_href : list byte) : HalCollection T :=
  mkCollection l (zlen l) (links_to self_href).

Definition collection_value {T : Type} (value : T -> Value) (c : HalCollection T) : Value :=
  Object ["records" =: Array (value <$> records c); "num_records" =: Number (num_records c);
          "_links" =: links_value (collection_links c)].

Record JobRef := mkJobRef { job_uuid : list byte; job_links : Links }.

Definition jobs_path : list byte := bs "/api/cluster/jobs/".

Definition job_new (uuid : list byte) : JobRef := mkJobRef uuid (links_to (jobs_path ++ uuid)).

Definition job_value (j : JobRef) : Value :=
  Object ["uuid" =: String (job_uuid j); "_links" =: links_value (job_links j)].

Record CreateResponse (T : Type) := mkCreate { cr_job : JobRef; cr_record : T; cr_num_records : Z }.
Arguments mkCreate {T}.
Arguments cr_job {T}.
Arguments cr_record {T}.
Arguments cr_num_records {T}.

Definition create_response {T : Type} (job_uuid : list byte) (record : T) : CreateResponse T :=
  mkCreate (job_new job_uuid) record 1.

Definition create_value {T : Type} (value : T -> Value) (r : CreateResponse T) : Value :=
  Object ["job" =: job_value (cr_job r); "record" =: value (cr_record r);
          "num_records" =: Number (cr_num_records r)].

Record SimpleJob := mkSimpleJob { sj_uuid : list byte; sj_state : list byte }.
Record DeleteResponse := mkDelete { dr_job : SimpleJob }.

Definition delete_success (uuid : list byte) : DeleteResponse :=
  mkDelete (mkSimpleJob uuid (bs "success")).

Definition delete_value (r : DeleteResponse) : Value :=
  Object ["job" =: Object ["uuid" =: String (sj_uuid (dr_job r));
                           "state" =: String (sj_state (dr_job r))]].

Record JobStatus := mkStatus {
  js_uuid : list byte; js_state : list byte; js_message : list byte; js_links : Links;
}.

Definition job_success (uuid : list byte) : JobStatus :=
  mkStatus uuid (bs "success") (bs "Complete") (links_to (jobs_path ++ uuid)).

Definition job_status_value (j : JobStatus) : Value :=
  Object ["uuid" =: String (js_uuid j); "state" =: String (js_state j);
          "message" =: String (js_message j); "_links" =: links_value (js_links j)].

(** ** Durations *)

(** [write!(out, "{n}X")] for a component that is not zero. *)
Definition component (n : Z) (letter : list byte) : list byte :=
  if bool_decide (0 < n) then dec n ++ letter else [].

Definition iso8601_duration (secs : Z) : list byte :=
  if bool_decide (secs <= 0) then bs "PT0S"
  else
    let h := secs / 3600 in
    let m := secs mod 3600 / 60 in
    let s := secs mod 60 in
    bs "PT" ++ component h (bs "H") ++ component m (bs "M") ++ component s (bs "S").

(** ** Records *)

Record SvmRef := mkSvm { svm_name : list byte; svm_uuid : list byte }.
Record NameRef := mkName { ref_name : list byte }.
Record CloneInfo := mkCloneInfo { is_flexclone : bool; ci_volume : NameRef; ci_snapshot : NameRef }.
Record NasInfo := mkNas { nas_path : list byte }.

Record VolumeRecord := mkVolumeRecord {
  vr_uuid : list byte;
  vr_name : list byte;
  vr_svm : SvmRef;
  vr_size : option Z;
  vr_state : list byte;
  vr_style : list byte;
  vr_type : list byte;
  vr_clone : option CloneInfo;
  vr_nas : option NasInfo;
  vr_links : Links;
}.

Definition with_nas_path (path : list byte) (r : VolumeRecord) : VolumeRecord :=
  mkVolumeRecord (vr_uuid r) (vr_name r) (vr_svm r) (vr_size r) (vr_state r) (vr_style r)
    (vr_type r) (vr_clone r) (Some (mkNas path)) (vr_links r).

Definition svm_value (s : SvmRef) : Value :=
  Object ["name" =: String (svm_name s); "uuid" =: String (svm_uuid s)].
Definition name_value (n : NameRef) : Value := Object ["name" =: String (ref_name n)].
Definition clone_value (c : CloneInfo) : Value :=
  Object ["is_flexclone" =: Bool (is_flexclone c); "parent_volume" =: name_value (ci_volume c);
          "parent_snapshot" =: name_value (ci_snapshot c)].
Definition nas_value (n : NasInfo) : Value := Object ["path" =: String (nas_path n)].

Definition volume_record_value (r : VolumeRecord) : Value :=
  Object (["uuid" =: String (vr_uuid r); "name" =: String (vr_name r);
           "svm" =: svm_value (vr_svm r)] ++
          optional (bs "size") (Number <$> vr_size r) ++
          ["state" =: String (vr_state r); "style" =: String (vr_style r);
           "type" =: String (vr_type r)] ++
          optional (bs "clone") (clone_value <$> vr_clone r) ++
          optional (bs "nas") (nas_value <$> vr_nas r) ++
          ["_links" =: links_value (vr_links r)]).

Definition state_str (s : VolumeState) : list byte :=
  match s with
  | Online => bs "online" | Offline => bs "offline" | Restricted => bs "restricted"
  end.

Definition type_str (t : VolumeType) : list byte :=
  match t with Rw => bs "rw" | Dp => bs "dp" end.

Record SnapshotDelta := mkDelta { sd_size_consumed : Z; sd_time_elapsed : list byte }.

Record SnapshotRecord := mkSnapshotRecord {
  sr_uuid : list byte;
  sr_name : list byte;
  sr_create_time : option DateTime;
  sr_delta : SnapshotDelta;
  sr_links : Links;
}.

Definition delta_value (d : SnapshotDelta) : Value :=
  Object ["size_consumed" =: Number (sd_size_consumed d);
          "time_elapsed" =: String (sd_time_elapsed d)].

(** [(now - t).num_seconds()]: whole seconds, towards zero. *)
Definition seconds_between (t now : DateTime) : Z := Z.quot (now - t) (10 ^ 9).

Definition volumes_path : list byte := bs "/api/storage/volumes".

Section records.
Context {T : Texts}.

Definition volume_record (vol : Volume) (svm : SvmRef) : VolumeRecord :=
  mkVolumeRecord (uuid_text (v_uuid vol)) (v_name vol) svm (size_bytes vol)
    (state_str (v_state vol)) (bs "flexvol") (type_str (vol_type vol))
    ((fun o => mkCloneInfo true (mkName (parent_volume o)) (mkName (parent_snapshot o))) <$> clone vol)
    None (links_to (volumes_path ++ bs "/" ++ uuid_text (v_uuid vol))).

Definition snapshots_path (vol : VolumeUuid) : list byte :=
  volumes_path ++ bs "/" ++ uuid_text vol ++ bs "/snapshots".

Definition snapshot_record (vol : VolumeUuid) (snap : Snapshot) (now : DateTime) : SnapshotRecord :=
  let elapsed :=
    match create_time snap with Some t => Z.max (seconds_between t now) 0 | None => 0 end in
  mkSnapshotRecord (uuid_text (s_uuid snap)) (s_name snap) (create_time snap)
    (mkDelta (size_consumed snap) (iso8601_duration elapsed))
    (links_to (snapshots_path vol ++ bs "/" ++ uuid_text (s_uuid snap))).

Definition snapshot_record_value (r : SnapshotRecord) : Value :=
  Object (["uuid" =: String (sr_uuid r); "name" =: String (sr_name r)] ++
          optional (bs "create_time") (String ∘ rfc3339 <$> sr_create_time r) ++
          ["delta" =: delta_value (sr_delta r); "_links" =: links_value (sr_links r)]).

(** ** Errors *)

(** [Display] of [BackendError]. *)
Definition display (e : BackendError) : list byte :=
  match e with
  | VolumeNotFound v => bs "volume " ++ uuid_text v ++ bs " not found"
  | SnapshotNotFound v s =>
      bs "snapshot " ++ uuid_text s ++ bs " not found on volume " ++ uuid_text v
  | BlobNotFound d => bs "blob " ++ to_string d ++ bs " not found"
  | AttestationUnverified s =>
      bs "attestation from signer " ++ signer_to_string s ++ bs " failed verification"
  | ActionResultConflict a => bs "conflicting confirmed results for action " ++ to_string a
  | VolumeExists n => bs "volume " ++ debug n ++ bs " already exists"
  | SnapshotExists v n =>
      bs "snapshot " ++ debug n ++ bs " already exists on volume " ++ uuid_text v
  | FeatureNotSupported c => bs "backend does not support " ++ c
  | InvalidArgument m => bs "invalid argument: " ++ m
  | CommandTimeout c after =>
      bs "command " ++ debug c ++ bs " timed out after " ++ duration_debug after
  | CommandFailed c stderr => bs "command " ++ debug c ++ bs " failed: " ++ stderr
  | CapacityExceeded used incoming capacity =>
      bs "insufficient storage: " ++ dec used ++ bs " bytes held + " ++ dec incoming ++
      bs " incoming exceeds capacity " ++ dec capacity
  | Underreplicated confirmed required =>
      bs "under-replicated: " ++ dec (Z.of_nat confirmed) ++ bs " of " ++
      dec (Z.of_nat required) ++ bs " peer copies confirmed"
  | Internal m => bs "internal backend error: " ++ m
  end.

Definition status_for (e : BackendError) : Z :=
  match e with
  | VolumeNotFound _ | SnapshotNotFound _ _ => 404
  | VolumeExists _ | SnapshotExists _ _ => 409
  | FeatureNotSupported _ => 501
  | InvalidArgument _ => 400
  | CommandTimeout _ _ => 504
  | _ => 500
  end.

Definition target_for (e : BackendError) : option (list byte) :=
  match e with
  | VolumeNotFound _ | VolumeExists _ => Some (bs "volume")
  | SnapshotNotFound _ _ | SnapshotExists _ _ => Some (bs "snapshot")
  | FeatureNotSupported capability => Some capability
  | InvalidArgument _ => Some (bs "request")
  | _ => None
  end.

Record ErrorBody := mkErrorBody {
  eb_code : list byte; eb_message : list byte; eb_target : option (list byte);
}.
Record ErrorEnvelope := mkEnvelope { ee_error : ErrorBody }.

Definition envelope_for (e : BackendError) : ErrorEnvelope :=
  mkEnvelope (mkErrorBody (dec (status_for e)) (display e) (target_for e)).

Definition envelope_value (e : ErrorEnvelope) : Value :=
  Object ["error" =: Object (["code" =: String (eb_code (ee_error e));
                              "message" =: String (eb_message (ee_error e))] ++
                             optional (bs "target") (String <$> eb_target (ee_error e)))].
End records.
