(* ===== verification/Rest.v ===== *)
(** The ONTAP REST control plane of crates/nessie-store/src: state.rs, error.rs,
    blocking.rs, auth.rs, routes.rs, volumes.rs and snapshots.rs, as handlers over any
    backend of Volume.v's interfaces.

    A handler is given the identifiers it draws ([fresh]) and the instant it reads
    ([now]); axum's extractors have run: path parameters are text, a JSON body is a
    [Value].  A backend call that panics is not modelled. *)

From Stdlib Require Import ZArith Lia.
From stdpp Require Import base option gmap list.
From S2P Require Import Prelude Text Errors Volume Json Ontap.

Local Open Scope Z_scope.
Local Open Scope json_scope.

(** ** State *)

(** The part of the configuration the routes read. *)
Record Config := mkConfig {
  cluster_name : list byte;
  cfg_svm_name : list byte;
  ontap_version : list byte;
  node_serial_number : list byte;
  data_lif : list byte;
  admin_username : list byte;
  admin_password : list byte;
}.

Record Identity := mkIdentity {
  cluster_uuid : list byte;
  id_svm_uuid : list byte;
  node_uuid : list byte;
  aggregate_uuid : list byte;
  lif_uuid : list byte;
}.

(** What every route is given and none changes. *)
Record Env := mkEnv { config : Config; identity : Identity }.

Definition svm_ref (s : Env) : SvmRef := mkSvm (cfg_svm_name (config s)) (id_svm_uuid (identity s)).

(** A backend with the tiers it claims: [as_snapshot], and below it [as_clone] and
    [as_replication]. *)
Class Tiers (B : Type) := {
  tier_volume :: VolumeBackend B;
  as_snapshot : option (SnapshotBackend B);
  as_clone : option (CloneBackend B);
  as_replication : option (ReplicationBackend B);
}.

(** ** Responses *)

Record Response := mkResponse {
  status : Z;
  headers : list (list byte * list byte);
  body : Value;
}.

Definition ok_json (v : Value) : Response := mkResponse 200 [] v.

Definition error_value (code message target : list byte) : Value :=
  Object ["error" =: Object ["code" =: String code; "message" =: String message;
                             "target" =: String target]].

Section rest.
Context {T : Texts}.

(** [ApiError::into_response] *)
Definition api_error (e : BackendError) : Response :=
  mkResponse (status_for e) [] (envelope_value (envelope_for e)).

(** A handler of type [ApiResult<impl IntoResponse>], answered. *)
Definition api {S : Type} (h : M BackendError S Response) (s : S) : Response * S :=
  match h s with
  | (Ok r, s') => (r, s')
  | (Err e, s') => (api_error e, s')
  end.

(** ** Authentication *)

Definition BYPASS : list (list byte) :=
  [bs "/docs"; bs "/openapi.json"; bs "/redoc"; bs "/internal/snapmirror/receive"].

(** The differences of the two texts' bytes, or-ed together. *)
Definition ct_eq (a b : list byte) : bool :=
  if bool_decide (length a <> length b) then false
  else
    bool_decide (foldl (fun diff xy => Z.lor diff (Z.lxor (b2z xy.1) (b2z xy.2))) 0 (zip a b) = 0).

Definition unauthorized (message : list byte) : Response :=
  mkResponse 401 [(bs "www-authenticate", bs "Basic realm=" ++ [z2b 34] ++ bs "ONTAP" ++ [z2b 34])]
    (error_value (bs "401") message (bs "authentication")).

(** [strip_prefix] *)
Definition strip_prefix (p s : list byte) : option (list byte) :=
  if starts_with p s then Some (drop (length p) s) else None.

(** The http crate's [HeaderValue::to_str], [str::trim] of what it returns, and the base64
    crate's [STANDARD.decode]. *)
Context (to_str : list byte -> option (list byte)) (trim : list byte -> list byte)
  (b64_decode : list byte -> option (list byte)).

(** [None] when the request may go on. *)
Definition require_basic_auth (c : Config) (path : list byte) (authorization : option (list byte)) :
    option Response :=
  if bool_decide (path ∈ BYPASS) then None
  else
    match authorization with
    | None => Some (unauthorized (bs "Authentication required"))
    | Some value =>
        match to_str value with
        | None => Some (unauthorized (bs "Invalid credentials"))
        | Some value =>
            match strip_prefix (bs "Basic ") value with
            | None => Some (unauthorized (bs "Authentication required"))
            | Some b64 =>
                match b64_decode (trim b64) with
                | None => Some (unauthorized (bs "Invalid credentials"))
                | Some decoded =>
                    if negb (utf8_valid decoded) then Some (unauthorized (bs "Invalid credentials"))
                    else
                      match split_once (z2b 58) decoded with
                      | None => Some (unauthorized (bs "Invalid credentials"))
                      | Some (user, pass) =>
                          let user_ok := ct_eq user (admin_username c) in
                          let pass_ok := ct_eq pass (admin_password c) in
                          if user_ok && pass_ok then None
                          else Some (unauthorized (bs "Invalid credentials"))
                      end
                end
            end
        end
    end.

(** ** Static metadata *)

Definition link_obj (path : list byte) : Value := Object ["self" =: Object ["href" =: String path]].

Definition version_json (v : list byte) : Value :=
  let parts := omap parse_u64 (split_on (z2b 46) v) in
  Object ["full" =: String (bs "NetApp Release " ++ v);
          "generation" =: Number (default 9 (parts !! 0%nat));
          "major" =: Number (default 0 (parts !! 1%nat));
          "minor" =: Number (default 0 (parts !! 2%nat))].

Definition ontap_404 (target message : list byte) : Response :=
  mkResponse 404 [] (error_value (bs "404") message target).

Definition cluster (s : Env) : Response :=
  ok_json (Object ["name" =: String (cluster_name (config s));
    "uuid" =: String (cluster_uuid (identity s));
    "version" =: version_json (ontap_version (config s));
    "_links" =: link_obj (bs "/api/cluster")]).

(** A collection of one record, or of those given. *)
Definition listing (l : list Value) (path : list byte) : Value :=
  Object ["records" =: Array l; "num_records" =: Number (zlen l); "_links" =: link_obj path].

Definition nodes (s : Env) : Response :=
  ok_json (listing [Object [
      "uuid" =: String (node_uuid (identity s));
      "name" =: String (cluster_name (config s) ++ bs "-01");
      "serial_number" =: String (node_serial_number (config s));
      "_links" =: link_obj (bs "/api/cluster/nodes/" ++ node_uuid (identity s))]]
    (bs "/api/cluster/nodes")).

Definition job (job_uuid : list byte) : Response := ok_json (job_status_value (job_success job_uuid)).

Definition aggregate_obj (s : Env) : Value :=
  Object ["uuid" =: String (aggregate_uuid (identity s)); "name" =: String (bs "aggr1");
    "_links" =: link_obj (bs "/api/storage/aggregates/" ++ aggregate_uuid (identity s))].

Definition svm_obj (s : Env) : Value :=
  Object ["uuid" =: String (id_svm_uuid (identity s)); "name" =: String (cfg_svm_name (config s));
    "state" =: String (bs "running"); "aggregates" =: Array [aggregate_obj s];
    "_links" =: link_obj (bs "/api/svm/svms/" ++ id_svm_uuid (identity s))].

Definition svms (s : Env) : Response := ok_json (listing [svm_obj s] (bs "/api/svm/svms")).

Definition svm_by_uuid (s : Env) (uuid : list byte) : Response :=
  if bool_decide (uuid = id_svm_uuid (identity s)) then ok_json (svm_obj s)
  else ontap_404 (bs "svm") (bs "SVM " ++ uuid ++ bs " not found").

Definition aggregates (s : Env) : Response :=
  ok_json (listing [aggregate_obj s] (bs "/api/storage/aggregates")).

Definition aggregate_by_uuid (s : Env) (uuid : list byte) : Response :=
  if bool_decide (uuid = aggregate_uuid (identity s)) then ok_json (aggregate_obj s)
  else ontap_404 (bs "aggregate") (bs "aggregate " ++ uuid ++ bs " not found").

Definition interfaces (s : Env) : Response :=
  ok_json (listing [Object [
      "uuid" =: String (lif_uuid (identity s));
      "name" =: String (bs "data_nfs");
      "ip" =: Object ["address" =: String (data_lif (config s))];
      "state" =: String (bs "up");
      "enabled" =: Bool true;
      "services" =: Array [String (bs "data_nfs")];
      "svm" =: Object ["name" =: String (cfg_svm_name (config s));
                       "uuid" =: String (id_svm_uuid (identity s))];
      "_links" =: link_obj (bs "/api/network/ip/interfaces/" ++ lif_uuid (identity s))]]
    (bs "/api/network/ip/interfaces")).

(** ** Volumes *)

Section backend.
Context {B : Type} {HB : Tiers B}.

Definition handler : Type := M BackendError B Response.

Definition parse_uuid (s : list byte) : result BackendError VolumeUuid :=
  ok_or (uuid_parse s) (InvalidArgument (bs "invalid uuid " ++ debug s)).

Definition list_volumes (s : Env) (q : gmap (list byte) (list byte)) : handler :=
  vols ← vb_list_volumes;
  let vols :=
    match q !! bs "name" with
    | Some name => filter (fun v => v_name v = name) vols
    | None => vols
    end in
  let records := (fun v => volume_record v (svm_ref s)) <$> vols in
  mret (ok_json (collection_value volume_record_value (collection_new records volumes_path))).

Definition get_volume (s : Env) (uuid : list byte) : handler :=
  id ← lift (parse_uuid uuid);
  vol ← vb_get_volume id;
  mret (ok_json (volume_record_value (volume_record vol (svm_ref s)))).

(** [body.get("name").and_then(Value::as_str).filter(|n| !n.is_empty())] *)
Definition nonempty_name (b : Value) : option (list byte) :=
  n ← get_str [bs "name"] b; if bool_decide (n = []) then None else Some n.

Definition no_feature (capability : list byte) : BackendError := FeatureNotSupported capability.

(** The parents a clone request names. *)
Definition clone_parents (clone_spec : option Value) : result BackendError (list byte * list byte) :=
  c ← ok_or clone_spec (InvalidArgument (bs "clone block required"));
  pv ← ok_or (get_str [bs "parent_volume"; bs "name"] c)
    (InvalidArgument (bs "clone.parent_volume.name is required"));
  ps ← ok_or (get_str [bs "parent_snapshot"; bs "name"] c)
    (InvalidArgument (bs "clone.parent_snapshot.name is required"));
  Ok (pv, ps).

(** [into_iter().find(p)] *)
Definition find_first {A : Type} (P : A -> Prop) `{forall x, Decision (P x)} (l : list A) : option A :=
  snd <$> list_find P l.

(** The backend's part of a FlexClone. *)
Definition clone_by_name (fresh : VolumeUuid) (parent_vol_name parent_snap_name name : list byte) :
    M BackendError B Volume :=
  snap ← lift (ok_or as_snapshot (no_feature (bs "snapshots")));
  cl ← lift (ok_or as_clone (no_feature (bs "clones")));
  vols ← vb_list_volumes;
  parent_vol ← lift (ok_or (find_first (fun v => v_name v = parent_vol_name) vols)
    (InvalidArgument (bs "parent volume " ++ debug parent_vol_name ++ bs " not found")));
  snaps ← @sb_list_snapshots B snap (v_uuid parent_vol);
  parent_snap ← lift (ok_or (find_first (fun sn => s_name sn = parent_snap_name) snaps)
    (InvalidArgument (bs "parent snapshot " ++ debug parent_snap_name ++ bs " not found")));
  @cb_create_clone B cl fresh (v_uuid parent_vol) (s_uuid parent_snap) name.

Definition create_volume (s : Env) (fresh : nat -> Uuid) (b : Value) : handler :=
  name ← lift (ok_or (nonempty_name b) (InvalidArgument (bs "volume name is required")));
  let clone_spec := get (bs "clone") b in
  let is_flexclone := default false (c ← clone_spec; x ← get (bs "is_flexclone") c; as_bool x) in
  let parents : M BackendError B (list byte * list byte) :=
    if is_flexclone then lift (clone_parents clone_spec) else mret ([], []) in
  '(parent_vol_name, parent_snap_name) ← parents;
  let size := get (bs "size") b ≫= as_u64 in
  let create : M BackendError B Volume :=
    if is_flexclone then clone_by_name (fresh 0%nat) parent_vol_name parent_snap_name name
    else vb_create_volume (fresh 0%nat) (mkSpec name size) in
  vol ← create;
  let record := volume_record vol (svm_ref s) in
  let location := volumes_path ++ bs "/" ++ uuid_text (v_uuid vol) in
  mret (mkResponse 201 [(bs "location", location)]
    (create_value volume_record_value (create_response (uuid_text (fresh 1%nat)) record))).

Definition patch_volume (s : Env) (fresh : nat -> Uuid) (uuid : list byte) (b : Value) : handler :=
  id ← lift (parse_uuid uuid);
  let nas := get (bs "nas") b in
  let junction := nas ≫= get_str [bs "path"] in
  let patch := mkPatch (get (bs "size") b ≫= as_u64) junction
    (nas ≫= get_str [bs "export_policy"]) in
  vol ← vb_patch_volume id patch;
  let record := volume_record vol (svm_ref s) in
  let record := match junction with Some j => with_nas_path j record | None => record end in
  mret (mkResponse 202 []
    (create_value volume_record_value (create_response (uuid_text (fresh 0%nat)) record))).

Definition delete_volume (uuid : list byte) : handler :=
  id ← lift (parse_uuid uuid);
  _ ← vb_delete_volume id;
  mret (ok_json (delete_value (delete_success (uuid_text id)))).

(** ** Snapshots *)

Definition vol_uuid (s : list byte) : result BackendError VolumeUuid :=
  ok_or (uuid_parse s) (InvalidArgument (bs "invalid volume uuid " ++ debug s)).

Definition snap_uuid (s : list byte) : result BackendError SnapshotUuid :=
  ok_or (uuid_parse s) (InvalidArgument (bs "invalid snapshot uuid " ++ debug s)).

Definition no_snapshots : BackendError := no_feature (bs "snapshots").

Definition list_snapshots (now : DateTime) (vol : list byte) : handler :=
  vid ← lift (vol_uuid vol);
  b ← lift (ok_or as_snapshot no_snapshots);
  snaps ← @sb_list_snapshots B b vid;
  let records := (fun sn => snapshot_record vid sn now) <$> snaps in
  mret (ok_json (collection_value snapshot_record_value (collection_new records (snapshots_path vid)))).

Definition get_snapshot (now : DateTime) (vol snap : list byte) : handler :=
  vid ← lift (vol_uuid vol);
  sid ← lift (snap_uuid snap);
  b ← lift (ok_or as_snapshot no_snapshots);
  snapshot ← @sb_get_snapshot B b vid sid;
  mret (ok_json (snapshot_record_value (snapshot_record vid snapshot now))).

Definition create_snapshot (now : DateTime) (fresh : nat -> Uuid) (vol : list byte) (bd : Value) :
    handler :=
  vid ← lift (vol_uuid vol);
  name ← lift (ok_or (nonempty_name bd) (InvalidArgument (bs "snapshot name is required")));
  b ← lift (ok_or as_snapshot no_snapshots);
  snap ← @sb_create_snapshot B b (fresh 0%nat) vid name;
  let record := snapshot_record vid snap now in
  let location := snapshots_path vid ++ bs "/" ++ uuid_text (s_uuid snap) in
  mret (mkResponse 201 [(bs "location", location)]
    (create_value snapshot_record_value (create_response (uuid_text (fresh 1%nat)) record))).

Definition delete_snapshot (vol snap : list byte) : handler :=
  vid ← lift (vol_uuid vol);
  sid ← lift (snap_uuid snap);
  b ← lift (ok_or as_snapshot no_snapshots);
  _ ← @sb_delete_snapshot B b vid sid;
  mret (ok_json (delete_value (delete_success (uuid_text sid)))).
End backend.
End rest.
