(* ===== verification/SnapMirror.v ===== *)
(** SnapMirror of crates/nessie-store/src/snapmirror.rs: cluster peers, relationships and
    transfers, the peer-to-peer receive endpoint, and the routes put together behind
    authentication (routes.rs, [app]).

    A [HashMap] is a [gmap] and is walked in [map_to_list] order.  A transfer is a list of
    phases, one per stretch between two awaits or locks, so that other requests can run
    between them; [create_transfer] runs them all.  The network is a parameter: reqwest's
    client, and the request it sends. *)

From Stdlib Require Import ZArith Lia.
From stdpp Require Import base option gmap list.
From S2P Require Import Prelude Text Errors Volume Json Ontap Rest.

Local Open Scope Z_scope.
Local Open Scope json_scope.

Abbreviation text := (list byte).

(** ** State *)

Record Peer := mkPeer {
  p_uuid : text;
  p_name : text;
  p_address : text;
  p_token : text;
}.

Record Relationship := mkRelationship {
  r_uuid : text;
  r_source_path : text;
  r_destination_path : text;
  r_peer_uuid : text;
  r_policy : text;
  r_state : text;
  r_healthy : bool;
  r_base : option text;
  r_transfer_in_progress : bool;
}.

Record Transfer := mkTransfer {
  t_uuid : text;
  t_state : text;
  t_bytes : Z;
  t_snapshot : text;
  t_end_time : text;
}.

Record Inner := mkInner {
  peers : gmap text Peer;
  relationships : gmap text Relationship;
  transfers : gmap text (list Transfer);
}.

Definition empty : Inner := mkInner ∅ ∅ ∅.

Definition set_peers (p : gmap text Peer) (g : Inner) : Inner :=
  mkInner p (relationships g) (transfers g).
Definition set_relationships (r : gmap text Relationship) (g : Inner) : Inner :=
  mkInner (peers g) r (transfers g).
Definition set_transfers (t : gmap text (list Transfer)) (g : Inner) : Inner :=
  mkInner (peers g) (relationships g) t.

(** [if let Some(rel) = relationships.get_mut(uuid) { *rel = f(rel) }] *)
Definition with_relationship (uuid : text) (f : Relationship -> Relationship) (g : Inner) : Inner :=
  set_relationships (alter f uuid (relationships g)) g.

(** [transfers.entry(uuid).or_default().push(t)] *)
Definition push_transfer (uuid : text) (t : Transfer) (g : Inner) : Inner :=
  set_transfers (<[uuid := default [] (transfers g !! uuid) ++ [t]]> (transfers g)) g.

Definition set_in_progress (b : bool) (r : Relationship) : Relationship :=
  mkRelationship (r_uuid r) (r_source_path r) (r_destination_path r) (r_peer_uuid r) (r_policy r)
    (r_state r) (r_healthy r) (r_base r) b.
Definition set_healthy (b : bool) (r : Relationship) : Relationship :=
  mkRelationship (r_uuid r) (r_source_path r) (r_destination_path r) (r_peer_uuid r) (r_policy r)
    (r_state r) b (r_base r) (r_transfer_in_progress r).
Definition set_state (st : text) (r : Relationship) : Relationship :=
  mkRelationship (r_uuid r) (r_source_path r) (r_destination_path r) (r_peer_uuid r) (r_policy r)
    st (r_healthy r) (r_base r) (r_transfer_in_progress r).
Definition set_policy (p : text) (r : Relationship) : Relationship :=
  mkRelationship (r_uuid r) (r_source_path r) (r_destination_path r) (r_peer_uuid r) p
    (r_state r) (r_healthy r) (r_base r) (r_transfer_in_progress r).
Definition set_base (b : option text) (r : Relationship) : Relationship :=
  mkRelationship (r_uuid r) (r_source_path r) (r_destination_path r) (r_peer_uuid r) (r_policy r)
    (r_state r) (r_healthy r) b (r_transfer_in_progress r).

(** The first value of a map, and the first that passes a test. *)
Definition first_value {A : Type} (m : gmap text A) : option A := snd <$> head (map_to_list m).
Definition find_value {A : Type} (P : A -> bool) (m : gmap text A) : option A :=
  snd ∘ snd <$> list_find (fun kv => P kv.2 = true) (map_to_list m).

Definition peer_token_valid (token : text) (g : Inner) : bool :=
  if bool_decide (token = []) then false
  else
    bool_decide (Exists (fun p => p_token p <> [] /\ ct_eq (p_token p) token = true)
                        (snd <$> map_to_list (peers g))).

Definition colon : byte := z2b 58.

Definition svm_of (path : text) : text :=
  match split_once colon path with Some (svm, _) => svm | None => path end.
Definition vol_of (path : text) : text :=
  match split_once colon path with Some (_, vol) => vol | None => path end.

Definition ontap_error (st : Z) (code target message : text) : Response :=
  mkResponse st [] (error_value code message target).

(** ** Cluster peers *)

Definition peer_members (p : Peer) : list (text * Value) :=
  ["uuid" =: String (p_uuid p); "name" =: String (p_name p);
   "ip_address" =: String (p_address p);
   "status" =: Object ["state" =: String (bs "available")];
   "_links" =: link_obj (bs "/api/cluster/peers/" ++ p_uuid p)].

Definition peer_obj (p : Peer) : Value := Object (peer_members p).

Definition peer_obj_with_secret (p : Peer) : Value :=
  Object (peer_members p ++ ["authentication" =: Object ["passphrase" =: String (p_token p)]]).

Definition list_peers (g : Inner) : Response :=
  ok_json (listing (peer_obj <$> (snd <$> map_to_list (peers g))) (bs "/api/cluster/peers")).

Definition peer_not_found (uuid : text) : Response :=
  ontap_error 404 (bs "404") (bs "peer") (bs "peer " ++ uuid ++ bs " not found").

Definition get_peer (uuid : text) (g : Inner) : Response :=
  match peers g !! uuid with Some p => ok_json (peer_obj p) | None => peer_not_found uuid end.

Definition nonempty (s : text) : option text := if bool_decide (s = []) then None else Some s.

(** [a.or_else(|| b)] *)
Definition or_else {A : Type} (a b : option A) : option A := match a with Some _ => a | None => b end.

Section control.
Context {T : Texts}.

Definition create_peer (fresh : nat -> Uuid) (b : Value) (g : Inner) : Response * Inner :=
  let name := default [] (get_str [bs "name"] b) in
  let address := default [] (or_else (get_str [bs "ip_address"] b)
    (l ← get_path [bs "remote"; bs "ip_addresses"] b; x ← get_index 0 l; as_str x)) in
  if bool_decide (name = []) || bool_decide (address = []) then
    (ontap_error 400 (bs "400") (bs "peer") (bs "peer name and ip_address are required"), g)
  else
    let token := default (uuid_text (fresh 0%nat))
      (p ← or_else (get_str [bs "authentication"; bs "passphrase"] b) (get_str [bs "passphrase"] b);
       nonempty p) in
    let uuid := uuid_text (fresh 1%nat) in
    let peer := mkPeer uuid name address token in
    (mkResponse 201 [] (peer_obj_with_secret peer), set_peers (<[uuid := peer]> (peers g)) g).

Definition job_success_value (fresh : Uuid) : Value :=
  Object ["job" =: Object ["uuid" =: String (uuid_text fresh); "state" =: String (bs "success")]].

Definition delete_peer (fresh : nat -> Uuid) (uuid : text) (g : Inner) : Response * Inner :=
  match peers g !! uuid with
  | None => (peer_not_found uuid, g)
  | Some _ =>
      if bool_decide (Exists (fun r => r_peer_uuid r = uuid) (snd <$> map_to_list (relationships g)))
      then (ontap_error 409 (bs "409") (bs "peer")
              (bs "peer is referenced by a SnapMirror relationship"), g)
      else (ok_json (job_success_value (fresh 0%nat)), set_peers (delete uuid (peers g)) g)
  end.

(** ** Relationships *)

Definition relationships_path : text := bs "/api/snapmirror/relationships".

Definition relationship_obj (r : Relationship) (cluster_name cluster_uuid : text) : Value :=
  Object ["uuid" =: String (r_uuid r);
    "source" =: Object ["path" =: String (r_source_path r);
      "svm" =: Object ["name" =: String (svm_of (r_source_path r))];
      "cluster" =: Object ["name" =: String cluster_name; "uuid" =: String cluster_uuid]];
    "destination" =: Object ["path" =: String (r_destination_path r);
      "svm" =: Object ["name" =: String (svm_of (r_destination_path r))]];
    "state" =: String (r_state r); "healthy" =: Bool (r_healthy r);
    "policy" =: Object ["name" =: String (r_policy r); "type" =: String (bs "async")];
    "transfer" =: Object ["state" =: String (bs "idle")];
    "_links" =: link_obj (relationships_path ++ bs "/" ++ r_uuid r)].

Definition relationship_view (s : Env) (r : Relationship) : Value :=
  relationship_obj r (cluster_name (config s)) (cluster_uuid (identity s)).

Definition list_relationships (s : Env) (g : Inner) : Response :=
  ok_json (listing (relationship_view s <$> (snd <$> map_to_list (relationships g)))
    relationships_path).

Definition relationship_not_found (uuid : text) : Response :=
  ontap_error 404 (bs "404") (bs "snapmirror") (bs "relationship " ++ uuid ++ bs " not found").

Definition get_relationship (s : Env) (uuid : text) (g : Inner) : Response :=
  match relationships g !! uuid with
  | Some r => ok_json (relationship_view s r)
  | None => relationship_not_found uuid
  end.

Definition create_relationship (s : Env) (fresh : nat -> Uuid) (b : Value) (g : Inner) :
    Response * Inner :=
  let source_path := default [] (get_str [bs "source"; bs "path"] b) in
  let destination_path := default [] (get_str [bs "destination"; bs "path"] b) in
  if bool_decide (source_path = []) || bool_decide (destination_path = []) then
    (ontap_error 400 (bs "400") (bs "snapmirror")
       (bs "source.path and destination.path are required"), g)
  else
    let policy := default (bs "MirrorAllSnapshots") (get_str [bs "policy"; bs "name"] b) in
    let wanted_cluster := get_str [bs "source"; bs "cluster"; bs "name"] b in
    let peer_uuid := default []
      (or_else
        (name ← wanted_cluster;
         p_uuid <$> find_value (fun p => bool_decide (p_name p = name)) (peers g))
        (p_uuid <$> first_value (peers g))) in
    let uuid := uuid_text (fresh 0%nat) in
    let rel := mkRelationship uuid source_path destination_path peer_uuid policy
      (bs "snapmirrored") true None false in
    (mkResponse 201 []
       (Object ["job" =: Object ["uuid" =: String (uuid_text (fresh 1%nat));
                                 "_links" =: link_obj (bs "/api/cluster/jobs/x")];
                "record" =: relationship_view s rel; "num_records" =: Number 1]),
     set_relationships (<[uuid := rel]> (relationships g)) g).

Definition patch_relationship (s : Env) (uuid : text) (b : Value) (g : Inner) : Response * Inner :=
  match relationships g !! uuid with
  | None => (relationship_not_found uuid, g)
  | Some rel =>
      let rel :=
        match get_str [bs "state"] b with
        | Some st => set_healthy (negb (bool_decide (st = bs "broken_off"))) (set_state st rel)
        | None => rel
        end in
      let rel :=
        match get_str [bs "policy"; bs "name"] b with
        | Some policy => set_policy policy rel
        | None => rel
        end in
      (ok_json (relationship_view s rel), set_relationships (<[uuid := rel]> (relationships g)) g)
  end.

Definition delete_relationship (fresh : nat -> Uuid) (uuid : text) (g : Inner) : Response * Inner :=
  match relationships g !! uuid with
  | None => (relationship_not_found uuid, g)
  | Some _ =>
      (ok_json (job_success_value (fresh 0%nat)),
       mkInner (peers g) (delete uuid (relationships g)) (delete uuid (transfers g)))
  end.

(** ** Transfers *)

Definition transfers_path (rel : text) : text := relationships_path ++ bs "/" ++ rel ++ bs "/transfers".

Definition transfer_obj (rel : text) (t : Transfer) : Value :=
  Object ["uuid" =: String (t_uuid t); "state" =: String (t_state t);
    "bytes_transferred" =: Number (t_bytes t); "end_time" =: String (t_end_time t);
    "snapshot" =: String (t_snapshot t);
    "_links" =: link_obj (transfers_path rel ++ bs "/" ++ t_uuid t)].

Definition list_transfers (uuid : text) (g : Inner) : Response :=
  match relationships g !! uuid with
  | None => relationship_not_found uuid
  | Some _ =>
      ok_json (listing (transfer_obj uuid <$> default [] (transfers g !! uuid)) (transfers_path uuid))
  end.

(** [uuid.chars().take(8)], of a text of ASCII characters. *)
Definition snapshot_name (uuid : text) (seq : nat) : text :=
  bs "snapmirror." ++ firstn 8 uuid ++ bs "." ++ dec (Z.of_nat seq).

(** What a running transfer does next. *)
Inductive phase :=
| PSnapshot (source_path snap_name : text)
| PTarget (source_vol : VolumeUuid) (snap_name : text)
| PSend (source_vol : VolumeUuid) (snap_name : text) (target : text * text * text * option text)
| PStreamed (snap_name : text) (outcome : option (result BackendError Z))
| PRecord (snap_name : text) (bytes_transferred : Z).

(** The first lock: refused, or marked as running. *)
Definition begin_transfer (uuid : text) (g : Inner) : (Response + phase) * Inner :=
  match relationships g !! uuid with
  | None => (inl (relationship_not_found uuid), g)
  | Some rel =>
      if r_transfer_in_progress rel then
        (inl (ontap_error 409 (bs "409") (bs "snapmirror")
                (bs "a transfer is already in progress for this relationship")), g)
      else
        let seq := S (length (default [] (transfers g !! uuid))) in
        (inr (PSnapshot (r_source_path rel) (snapshot_name uuid seq)),
         with_relationship uuid (set_in_progress true) g)
  end.

(** [TransferGuard::drop] *)
Definition end_transfer (uuid : text) (g : Inner) : Inner :=
  with_relationship uuid (set_in_progress false) g.

Definition failed_transfer (fresh : Uuid) (now snapshot : text) : Transfer :=
  mkTransfer (uuid_text fresh) (bs "failed") 0 snapshot now.

(** A failure: the relationship is unhealthy, and the transfer on record. *)
Definition transfer_failed (uuid : text) (t : Transfer) (message : text) (g : Inner) :
    Response * Inner :=
  (ontap_error 500 (bs "500") (bs "snapmirror") message,
   push_transfer uuid t (with_relationship uuid (set_healthy false) g)).

(** [matches!(state, "broken_off" | "paused" | "quiesced")]: left alone by a success. *)
Definition operator_state (st : text) : bool :=
  bool_decide (st ∈ [bs "broken_off"; bs "paused"; bs "quiesced"]).

Definition mark_mirrored (r : Relationship) : Relationship :=
  if operator_state (r_state r) then r else set_healthy true (set_state (bs "snapmirrored") r).

Definition replication_url (address : text) : text :=
  let base := trim_slashes address in
  if contains (bs "://") base then base ++ bs "/internal/snapmirror/receive"
  else bs "https://" ++ base ++ bs "/internal/snapmirror/receive".

(** A [POST]: where to, with which headers and body. *)
Record Post := mkPost { post_url : text; post_headers : list (text * text); post_body : source }.

(** The network, with its state: whether a client can be made, and what comes back from a
    [POST] (no answer; or a status and a body, [None] when that is no JSON).  [status_text]
    is how a status is printed, [json_text] serde_json's printing. *)
Class Network (N : Type) := {
  new_client : M text N ();
  send : Post -> M text N (Z * option Value);
  status_text : Z -> text;
  json_text : Value -> text;
}.

Section transfers.
Context {B N : Type} {HB : Tiers B} {HN : Network N}.

Definition post_replication_stream (address token dest_vol snapshot : text) (base : option text)
    (reader : source) : M BackendError N Z := fun n =>
  match new_client n with
  | (Err e, n) => (Err (Internal (bs "replication client: " ++ e)), n)
  | (Ok (), n) =>
      let req := mkPost (replication_url address)
        ([(bs "X-Replication-Token", token); (bs "X-Destination-Volume", dest_vol);
          (bs "X-Snapshot", snapshot)] ++
         match base with Some b => [(bs "X-Base-Snapshot", b)] | None => [] end) reader in
      match send req n with
      | (Err e, n) => (Err (Internal (bs "replication POST failed: " ++ e)), n)
      | (Ok (st, answer), n) =>
          let b := default Null answer in
          if bool_decide (200 <= st < 300) then (Ok (default 0 (get (bs "bytes") b ≫= as_u64)), n)
          else
            let msg := default (json_text b) (get_str [bs "error"; bs "message"] b) in
            (Err (Internal (bs "peer rejected replication (" ++ status_text st ++ bs "): " ++ msg)), n)
      end
  end.

(** The daemon: its backend, its relationships, and the network. *)
Record App := mkApp { backend : B; mirror : Inner; network : N }.

Definition on_mirror {A : Type} (f : Inner -> A * Inner) (s : App) : A * App :=
  let '(a, g) := f (mirror s) in (a, mkApp (backend s) g (network s)).
Definition on_backend {A : Type} (f : B -> A * B) (s : App) : A * App :=
  let '(a, b) := f (backend s) in (a, mkApp b (mirror s) (network s)).

(** The source volume by its name, and a snapshot of it. *)
Definition snapshot_source (fresh : SnapshotUuid) (vol_name snap_name : text) :
    M BackendError B VolumeUuid :=
  b ← lift (ok_or as_snapshot (no_feature (bs "snapshots")));
  vols ← vb_list_volumes;
  vol ← lift (ok_or (find_first (fun v => v_name v = vol_name) vols)
    (InvalidArgument (bs "source volume " ++ debug vol_name ++ bs " not found")));
  _ ← @sb_create_snapshot B b fresh (v_uuid vol) snap_name;
  mret (v_uuid vol).

(** The peer of a relationship that has one with an address, and what is sent there. *)
Definition transfer_target (uuid : text) (g : Inner) : option (text * text * text * option text) :=
  rel ← relationships g !! uuid;
  p ← peers g !! r_peer_uuid rel;
  if bool_decide (p_address p = []) then None
  else Some (vol_of (r_destination_path rel), p_address p, p_token p, r_base rel).

(** The stream is opened on the source and posted to the peer. *)
Definition stream_to_peer (source_vol : VolumeUuid) (snap_name : text)
    (target : text * text * text * option text) (s : App) : result BackendError Z * App :=
  let '(dest_vol, address, token, base) := target in
  match as_snapshot ≫= fun _ => as_replication with
  | None => (Err (no_feature (bs "replication")), s)
  | Some repl =>
      let '(r, s) := on_backend (@rb_send_stream B repl source_vol snap_name base) s in
      match r with
      | Err e => (Err e, s)
      | Ok reader =>
          let '(r, n) := post_replication_stream address token dest_vol snap_name base reader (network s) in
          (r, mkApp (backend s) (mirror s) n)
      end
  end.

(** One phase: it answers, or goes on to the next. *)
Definition transfer_phase (fresh : nat -> Uuid) (now uuid : text) (p : phase) (s : App) :
    (Response + phase) * App :=
  match p with
  | PSnapshot source_path snap_name =>
      let '(r, s) := on_backend (snapshot_source (fresh 0%nat) (vol_of source_path) snap_name) s in
      match r with
      | Ok v => (inr (PTarget v snap_name), s)
      | Err e =>
          let '(r, s) := on_mirror (transfer_failed uuid (failed_transfer (fresh 1%nat) now [])
            (bs "transfer failed: " ++ display e)) s in (inl r, s)
      end
  | PTarget source_vol snap_name =>
      match transfer_target uuid (mirror s) with
      | Some target => (inr (PSend source_vol snap_name target), s)
      | None => (inr (PStreamed snap_name None), s)
      end
  | PSend source_vol snap_name target =>
      let '(r, s) := stream_to_peer source_vol snap_name target s in
      (inr (PStreamed snap_name (Some r)), s)
  | PStreamed snap_name outcome =>
      match outcome with
      | Some (Ok bytes) =>
          (inr (PRecord snap_name bytes),
           (on_mirror (fun g => ((), with_relationship uuid
             (fun r => set_base (Some snap_name) (mark_mirrored r)) g)) s).2)
      | Some (Err e) =>
          let '(r, s) := on_mirror (transfer_failed uuid (failed_transfer (fresh 0%nat) now snap_name)
            (bs "replication transfer failed: " ++ display e)) s in (inl r, s)
      | None =>
          (inr (PRecord snap_name 0),
           (on_mirror (fun g => ((), with_relationship uuid mark_mirrored g)) s).2)
      end
  | PRecord snap_name bytes =>
      let t := mkTransfer (uuid_text (fresh 0%nat)) (bs "success") bytes snap_name now in
      match relationships (mirror s) !! uuid with
      | None =>
          (inl (ontap_error 404 (bs "404") (bs "snapmirror")
             (bs "relationship " ++ uuid ++ bs " was deleted during the transfer")), s)
      | Some _ =>
          (inl (mkResponse 201 []
             (Object ["job" =: Object ["uuid" =: String (uuid_text (fresh 1%nat))];
                      "record" =: transfer_obj uuid t; "num_records" =: Number 1])),
           (on_mirror (fun g => ((), push_transfer uuid t g)) s).2)
      end
  end.

(** A transfer on its own: at most five phases, then the guard. *)
Fixpoint run_phases (fuel : nat) (fresh : nat -> Uuid) (now uuid : text) (p : phase) (s : App) :
    option Response * App :=
  match fuel with
  | O => (None, s)
  | S fuel =>
      match transfer_phase (fun i => fresh (2 * fuel + i)%nat) now uuid p s with
      | (inl r, s) => (Some r, s)
      | (inr p, s) => run_phases fuel fresh now uuid p s
      end
  end.

Definition create_transfer (fresh : nat -> Uuid) (now uuid : text) (s : App) : option Response * App :=
  match on_mirror (begin_transfer uuid) s with
  | (inl r, s) => (Some r, s)
  | (inr p, s) =>
      let '(r, s) := run_phases 5 fresh now uuid p s in
      (r, (on_mirror (fun g => ((), end_transfer uuid g)) s).2)
  end.

(** ** The receive endpoint *)

(** The headers of the request, by lower-case name, as [to_str] reads them. *)
Definition internal_receive (fresh : nat -> Uuid) (hdr : text -> option text) (bd : source) (s : App) :
    Response * App :=
  match hdr (bs "x-replication-token") with
  | None => (ontap_error 401 (bs "401") (bs "snapmirror")
               (bs "X-Replication-Token header is required"), s)
  | Some token =>
      if negb (peer_token_valid token (mirror s)) then
        (ontap_error 401 (bs "401") (bs "snapmirror") (bs "invalid replication token"), s)
      else
        match hdr (bs "x-destination-volume") with
        | None => (ontap_error 400 (bs "400") (bs "snapmirror")
                     (bs "X-Destination-Volume header is required"), s)
        | Some dest =>
            let '(r, s) :=
              match as_snapshot ≫= fun _ => as_replication with
              | None => (Err (no_feature (bs "replication")), s)
              | Some repl => on_backend (@rb_receive_stream B repl (fresh 0%nat) (fresh 1%nat) dest bd) s
              end in
            match r with
            | Ok applied =>
                (ok_json (Object ["status" =: String (bs "received"); "bytes" =: Number applied;
                                  "destination" =: String dest]), s)
            | Err e => (ontap_error 500 (bs "500") (bs "snapmirror")
                          (bs "receive failed: " ++ display e), s)
            end
        end
  end.
End transfers.
End control.
Arguments App B N : clear implicits.
