(* ===== verification/ControlPlane.v ===== *)
(** The daemon's control plane put together: the route tables of crates/nessie-store/src
    (routes.rs [app], volumes.rs, snapshots.rs, snapmirror.rs), each route behind
    authentication, as one function on the daemon's state.

    axum's path matching is a parameter, of which only what its documentation says of
    literal text is used. *)

From Stdlib Require Import ZArith Lia.
From stdpp Require Import base option gmap list.
From S2P Require Import Prelude Text Errors Volume Json Ontap Rest SnapMirror.

Local Open Scope Z_scope.

Inductive method := GET | POST | PATCH | DELETE.

#[export] Instance method_eq_dec : EqDecision method.
Proof. solve_decision. Defined.

(** What a route's handler extracts of a request. *)
Record Request := mkRequest {
  rq_method : method;
  rq_path : text;
  rq_query : gmap text text;
  rq_authorization : option text;
  rq_header : text -> option text;
  rq_json : Value;
  rq_body : source;
}.

(** axum's matching of a path against a pattern: the texts its [:name]s stand for. *)
Class PathMatcher := { match_path : text -> text -> option (list text) }.

(** The literal text of a pattern before its first [:name]. *)
Definition literal_prefix (pat : text) : text :=
  match split_once colon pat with Some (l, _) => l | None => pat end.

(** A pattern matches only paths that begin with its literal text; without parameters,
    only itself. *)
Class MatcherLaws (P : PathMatcher) : Prop := {
  match_prefix pat path l :
    match_path pat path = Some l ->
    starts_with (literal_prefix pat) path = true /\ (colon ∉ pat -> path = pat);
}.

Section control_plane.
Context {T : Texts} {PM : PathMatcher} {B N : Type} {HB : Tiers B} {HN : Network N}.
Context (to_str : text -> option text) (trim : text -> text) (b64_decode : text -> option text).

(** A request's surroundings: the static state, the identifiers drawn, the time. *)
Context (env : Env) (fresh : nat -> Uuid) (now : DateTime) (now_text : text).

Definition step : Type := App B N -> option Response * App B N.

Definition fixed (r : Response) : step := fun s => (Some r, s).
Definition on_mirror_now (f : Inner -> Response) : step := fun s => (Some (f (mirror s)), s).
Definition changing (f : Inner -> Response * Inner) : step := fun s =>
  let '(r, s) := on_mirror f s in (Some r, s).
Definition served (h : handler (B := B)) : step := fun s =>
  let '(r, s) := on_backend (api h) s in (Some r, s).

(** A route: its pattern, and what each method does with the path's parameters. *)
Definition route : Type := text * (method -> list text -> Request -> option step).

Definition get_only (f : list text -> step) : method -> list text -> Request -> option step :=
  fun m l _ => match m with GET => Some (f l) | _ => None end.

Definition arg (i : nat) (l : list text) : text := default [] (l !! i).

Definition volume_routes : list route :=
  [(bs "/api/storage/volumes", fun m _ rq =>
      match m with
      | GET => Some (served (list_volumes env (rq_query rq)))
      | POST => Some (served (create_volume env fresh (rq_json rq)))
      | _ => None
      end);
   (bs "/api/storage/volumes/:uuid", fun m l rq =>
      match m with
      | GET => Some (served (get_volume env (arg 0 l)))
      | PATCH => Some (served (patch_volume env fresh (arg 0 l) (rq_json rq)))
      | DELETE => Some (served (delete_volume (arg 0 l)))
      | _ => None
      end)].

Definition snapshot_routes : list route :=
  [(bs "/api/storage/volumes/:vol_uuid/snapshots", fun m l rq =>
      match m with
      | GET => Some (served (list_snapshots now (arg 0 l)))
      | POST => Some (served (create_snapshot now fresh (arg 0 l) (rq_json rq)))
      | _ => None
      end);
   (bs "/api/storage/volumes/:vol_uuid/snapshots/:snap_uuid", fun m l rq =>
      match m with
      | GET => Some (served (get_snapshot now (arg 0 l) (arg 1 l)))
      | DELETE => Some (served (delete_snapshot (arg 0 l) (arg 1 l)))
      | _ => None
      end)].

Definition snapmirror_routes : list route :=
  [(bs "/api/cluster/peers", fun m _ rq =>
      match m with
      | GET => Some (on_mirror_now list_peers)
      | POST => Some (changing (create_peer fresh (rq_json rq)))
      | _ => None
      end);
   (bs "/api/cluster/peers/:uuid", fun m l _ =>
      match m with
      | GET => Some (on_mirror_now (get_peer (arg 0 l)))
      | DELETE => Some (changing (delete_peer fresh (arg 0 l)))
      | _ => None
      end);
   (bs "/api/snapmirror/relationships", fun m _ rq =>
      match m with
      | GET => Some (on_mirror_now (list_relationships env))
      | POST => Some (changing (create_relationship env fresh (rq_json rq)))
      | _ => None
      end);
   (bs "/api/snapmirror/relationships/:uuid", fun m l rq =>
      match m with
      | GET => Some (on_mirror_now (get_relationship env (arg 0 l)))
      | PATCH => Some (changing (patch_relationship env (arg 0 l) (rq_json rq)))
      | DELETE => Some (changing (delete_relationship fresh (arg 0 l)))
      | _ => None
      end);
   (bs "/api/snapmirror/relationships/:uuid/transfers", fun m l _ =>
      match m with
      | GET => Some (on_mirror_now (list_transfers (arg 0 l)))
      | POST => Some (create_transfer fresh now_text (arg 0 l))
      | _ => None
      end);
   (bs "/internal/snapmirror/receive", fun m _ rq =>
      match m with
      | POST => Some (fun s => let '(r, s) := internal_receive fresh (rq_header rq) (rq_body rq) s in (Some r, s))
      | _ => None
      end)].

Definition cluster_routes : list route :=
  [(bs "/api/cluster", get_only (fun _ => fixed (cluster env)));
   (bs "/api/cluster/nodes", get_only (fun _ => fixed (nodes env)));
   (bs "/api/cluster/jobs/:job_uuid", get_only (fun l => fixed (job (arg 0 l))));
   (bs "/api/svm/svms", get_only (fun _ => fixed (svms env)));
   (bs "/api/svm/svms/:uuid", get_only (fun l => fixed (svm_by_uuid env (arg 0 l))));
   (bs "/api/storage/aggregates", get_only (fun _ => fixed (aggregates env)));
   (bs "/api/storage/aggregates/:uuid", get_only (fun l => fixed (aggregate_by_uuid env (arg 0 l))));
   (bs "/api/network/ip/interfaces", get_only (fun _ => fixed (interfaces env)))].

Definition routes : list route :=
  cluster_routes ++ volume_routes ++ snapshot_routes ++ snapmirror_routes.

(** The first route that matches; axum's own answers are 404 and 405. *)
Fixpoint dispatch (l : list route) (rq : Request) : step :=
  match l with
  | [] => fixed (mkResponse 404 [] Null)
  | (pat, f) :: l =>
      match match_path pat (rq_path rq) with
      | Some caps =>
          match f (rq_method rq) caps rq with
          | Some h => h
          | None => fixed (mkResponse 405 [] Null)
          end
      | None => dispatch l rq
      end
  end.

Definition app (rq : Request) : step := fun s =>
  match require_basic_auth to_str trim b64_decode (config env) (rq_path rq) (rq_authorization rq) with
  | Some refused => (Some refused, s)
  | None => dispatch routes rq s
  end.
End control_plane.
