(* ===== verification/ControlLaws.v ===== *)
(** What the control plane promises: nothing changes without credentials (an admin's, or a
    registered peer's token on the receive endpoint); at most one transfer of a relationship
    runs at a time, and none is ever wedged; a REST request that fails changes nothing of an
    in-memory backend. *)

From Stdlib Require Import ZArith Lia.
From stdpp Require Import base option gmap list.
From S2P Require Import Prelude Text Errors Volume Json Ontap Rest SnapMirror ControlPlane.

Local Open Scope Z_scope.

(** ** Authentication *)

Lemma lxor_byte_zero x y : Z.lxor (b2z x) (b2z y) = 0 <-> x = y.
Proof. rewrite Z.lxor_eq_0_iff. split; [apply (inj b2z)|by intros ->]. Qed.

Lemma lor_fold_zero l d :
  foldl (fun diff xy => Z.lor diff (Z.lxor (b2z xy.1) (b2z xy.2))) d l = 0 <->
  d = 0 /\ Forall (fun xy : byte * byte => xy.1 = xy.2) l.
Proof.
  revert d. induction l as [|[x y] l IH]; intros d; simpl.
  - split; [by intros ->|by intros [-> _]].
  - rewrite IH, Z.lor_eq_0_iff, lxor_byte_zero, Forall_cons. simpl. tauto.
Qed.

(** The constant-time comparison decides equality. *)
Lemma ct_eq_spec a b : ct_eq a b = true <-> a = b.
Proof.
  unfold ct_eq. case_bool_decide as Hl.
  - split; [done|]. by intros ->.
  - rewrite bool_decide_eq_true, lor_fold_zero. split.
    + intros [_ Hall]. revert b Hl Hall. induction a as [|x a IH]; intros [|y b] Hl; simpl in *; try done.
      intros [E Hall]%Forall_cons. simpl in E. subst y. f_equal. apply IH; [lia|done].
    + intros <-. split; [done|]. clear Hl. induction a as [|x a IH]; [constructor|]. by constructor.
Qed.

Lemma peer_token_valid_spec token g :
  peer_token_valid token g = true <->
  token <> [] /\ exists u p, peers g !! u = Some p /\ p_token p = token.
Proof.
  unfold peer_token_valid. case_bool_decide as Ht; [split; [done|tauto]|].
  rewrite bool_decide_eq_true, Exists_exists. split.
  - intros (p & (kv & -> & Hin)%list_elem_of_fmap & Hne & Heq%ct_eq_spec). split; [done|].
    destruct kv as [u p]. exists u, p. split; [by apply elem_of_map_to_list|done].
  - intros (_ & u & p & Hp & <-). exists p. split; [|by split; [|apply ct_eq_spec]].
    apply list_elem_of_fmap. exists (u, p). split; [done|by apply elem_of_map_to_list].
Qed.

Section auth.
Context {T : Texts} {PM : PathMatcher} {HPM : MatcherLaws PM} {B N : Type} {HB : Tiers B} {HN : Network N}.
Context (to_str : text -> option text) (trim : text -> text) (b64_decode : text -> option text).

(** The request carries the admin's name and password. *)
Definition presents_credentials (c : Config) (authorization : option text) : Prop :=
  exists raw value b64 creds,
    authorization = Some raw /\ to_str raw = Some value /\
    strip_prefix (bs "Basic ") value = Some b64 /\ b64_decode (trim b64) = Some creds /\
    utf8_valid creds = true /\
    split_once colon creds = Some (admin_username c, admin_password c).

Lemma require_basic_auth_None c path authorization :
  require_basic_auth to_str trim b64_decode c path authorization = None <->
  path ∈ BYPASS \/ presents_credentials c authorization.
Proof.
  unfold require_basic_auth. case_bool_decide as Hb; [by split; [left|]|]. split.
  - intros H. right. destruct authorization as [raw|]; [|done].
    destruct (to_str raw) as [value|] eqn:E1; [|done].
    destruct (strip_prefix _ value) as [b64|] eqn:E2; [|done].
    destruct (b64_decode (trim b64)) as [creds|] eqn:E3; [|done].
    destruct (utf8_valid creds) eqn:E4; [|done]. simpl in H.
    destruct (split_once _ creds) as [[user pass]|] eqn:E5; [|done].
    destruct (ct_eq user _ && ct_eq pass _) eqn:E6; [|done].
    apply andb_true_iff in E6 as [->%ct_eq_spec ->%ct_eq_spec].
    by exists raw, value, b64, creds.
  - intros [?|(raw & value & b64 & creds & -> & -> & -> & -> & -> & Hs)]; [done|]. simpl.
    unfold colon in Hs. rewrite Hs. by rewrite !(proj2 (ct_eq_spec _ _) eq_refl).
Qed.

Lemma refusal_is_401 c path authorization r :
  require_basic_auth to_str trim b64_decode c path authorization = Some r -> status r = 401.
Proof. unfold require_basic_auth. intros H. repeat case_match; simplify_eq; done. Qed.

Context (env : Env) (fresh : nat -> Uuid) (now : DateTime) (now_text : text).

Abbreviation the_routes := (routes (B := B) (N := N) env fresh now now_text).

(** The only pattern that matches a path outside authentication is the receive endpoint. *)
Lemma bypass_pattern pat f path l :
  (pat, f) ∈ the_routes -> path ∈ BYPASS -> match_path pat path = Some l ->
  pat = bs "/internal/snapmirror/receive".
Proof.
  intros Hr Hb Hm. apply match_prefix in Hm as [Hp _]. revert Hp.
  assert (Hpat : pat ∈ (fst <$> the_routes)) by (by apply (list_elem_of_fmap_2 fst _ (pat, f))).
  clear Hr. assert (Hcheck : forallb (fun pat => forallb (fun path =>
      negb (starts_with (literal_prefix pat) path) || bool_decide (pat = bs "/internal/snapmirror/receive"))
      BYPASS) (fst <$> the_routes) = true) by (vm_compute; reflexivity).
  intros Hp. apply forallb_forall with (x := pat) in Hcheck; [|by apply list_elem_of_In].
  apply forallb_forall with (x := path) in Hcheck; [|by apply list_elem_of_In].
  rewrite Hp in Hcheck. by apply bool_decide_eq_true in Hcheck.
Qed.

(** Receiving is a peer's: a token that no peer holds changes nothing. *)
Lemma receive_needs_token hdr bd (s : App B N) r s' :
  internal_receive fresh hdr bd s = (r, s') ->
  (exists token u p, hdr (bs "x-replication-token") = Some token /\ token <> [] /\
     peers (mirror s) !! u = Some p /\ p_token p = token /\ mirror s' = mirror s) \/
  s' = s /\ 400 <= status r.
Proof.
  unfold internal_receive. destruct (hdr _) as [token|]; [|intros [= <- <-]; by right].
  destruct (peer_token_valid token (mirror s)) eqn:Ht; simpl; [|intros [= <- <-]; by right].
  apply peer_token_valid_spec in Ht as (Hne & u & p & Hp & Htok).
  destruct (hdr (bs "x-destination-volume")) as [dest|]; [|intros [= <- <-]; by right].
  intros H. left. exists token, u, p. split_and!; try done.
  destruct (as_snapshot ≫= _) as [repl|].
  - unfold on_backend in H. destruct (rb_receive_stream _ _ _ _ (backend s)) as [[|] b]; by simplify_eq.
  - by simplify_eq.
Qed.

Lemma dispatch_bypass l rq s r s' :
  (forall pat f, (pat, f) ∈ l -> (pat, f) ∈ the_routes) ->
  rq_path rq ∈ BYPASS -> dispatch l rq s = (r, s') ->
  s' = s \/ exists r0, r = Some r0 /\ internal_receive fresh (rq_header rq) (rq_body rq) s = (r0, s').
Proof.
  intros Hl Hb. induction l as [|[pat f] l IH]; cbn [dispatch].
  { intros [= <- <-]. by left. }
  destruct (match_path pat (rq_path rq)) as [caps|] eqn:Em.
  - assert (Hin : (pat, f) ∈ the_routes) by (apply Hl, elem_of_cons; by left).
    pose proof (bypass_pattern pat f _ _ Hin Hb Em) as ->.
    assert (Hf : f = fun m _ rq =>
      match m with
      | POST => Some (fun s => let '(r, s) := internal_receive fresh (rq_header rq) (rq_body rq) s in (Some r, s))
      | _ => None
      end).
    { apply list_elem_of_lookup in Hin as [i Hi].
      do 17 (destruct i as [|i];
        [exfalso; apply (f_equal (fmap fst)) in Hi; vm_compute in Hi; discriminate Hi|]).
      destruct i as [|i]; [by injection Hi|discriminate Hi]. }
    rewrite Hf. destruct (rq_method rq); try (intros [= <- <-]; by left).
    destruct (internal_receive _ _ _ s) as [r0 s0]. intros [= <- <-]. right. by exists r0.
  - intros H. apply IH; [|done]. intros pat' f' Hin. apply Hl, elem_of_cons. by right.
Qed.

(** C8. Whatever a request asks, the daemon's state changes only for the admin's name and
    password, or, on the receive endpoint, for the token of a registered peer, which leaves
    peers, relationships and transfers alone; and any other request outside the public
    paths is answered 401. *)
Theorem changes_are_authorized rq (s : App B N) r s' :
  app to_str trim b64_decode env fresh now now_text rq s = (r, s') ->
  presents_credentials (config env) (rq_authorization rq) \/
  (rq_path rq ∈ BYPASS /\
   (s' = s \/
    mirror s' = mirror s /\ exists token u p,
      rq_header rq (bs "x-replication-token") = Some token /\ token <> [] /\
      peers (mirror s) !! u = Some p /\ p_token p = token)) \/
  ((~ rq_path rq ∈ BYPASS) /\ s' = s /\ exists r0, r = Some r0 /\ status r0 = 401).
Proof.
  unfold app. destruct (require_basic_auth _ _ _ _ _ _) as [refused|] eqn:Ea.
  - intros [= <- <-]. right. destruct (decide (rq_path rq ∈ BYPASS)) as [Hb|Hb].
    + left. split; [done|]. by left.
    + right. split; [done|]. split; [done|]. exists refused. split; [done|]. by eapply refusal_is_401.
  - apply require_basic_auth_None in Ea as [Hb|Hc]; [|by left]. intros H. right. left. split; [done|].
    apply dispatch_bypass in H as [->|(r0 & -> & H)]; [by left| |done|done].
    apply receive_needs_token in H as [(token & u & p & H1 & H2 & H3 & H4 & H5)|[-> _]]; [|by left].
    right. split; [done|]. by exists token, u, p.
Qed.
End auth.

(** ** Transfers *)

(** Transfers run beside each other and beside every other request; each step is one
    phase.  A running transfer is known by a number; dropping its future (a client that
    went away) ends it like an answer does. *)
Section running.
Context {T : Texts} {B N : Type} {HB : Tiers B} {HN : Network N}.

Record World := mkWorld { daemon : App B N; running : gmap nat (text * phase) }.

(** A relationship's identifier is drawn anew: no relationship and no transfer has it. *)
Definition unused (u : text) (w : World) : Prop :=
  relationships (mirror (daemon w)) !! u = None /\
  forall t u' p, running w !! t = Some (u', p) -> u' <> u.

(** What the other requests do to relationships: they come with a new identifier, go, or
    change without their running mark. *)
Inductive other_change (w : World) : gmap text Relationship -> Prop :=
| change_none : other_change w (relationships (mirror (daemon w)))
| change_create u r :
    unused u w -> r_transfer_in_progress r = false ->
    other_change w (<[u := r]> (relationships (mirror (daemon w))))
| change_delete u : other_change w (delete u (relationships (mirror (daemon w))))
| change_patch u r r' :
    relationships (mirror (daemon w)) !! u = Some r ->
    r_transfer_in_progress r' = r_transfer_in_progress r ->
    other_change w (<[u := r']> (relationships (mirror (daemon w)))).

(** The other requests about peers and relationships. *)
Inductive mirror_request (w : World) : (Inner -> Response * Inner) -> Prop :=
| request_create_peer fresh b : mirror_request w (create_peer fresh b)
| request_delete_peer fresh u : mirror_request w (delete_peer fresh u)
| request_create env fresh b :
    unused (uuid_text (fresh 0%nat)) w -> mirror_request w (create_relationship env fresh b)
| request_patch env u b : mirror_request w (patch_relationship env u b)
| request_delete fresh u : mirror_request w (delete_relationship fresh u).

(** [step_serve] is any request about volumes, and the work of other peers. *)
Inductive world_step (w : World) : World -> Prop :=
| step_serve b n : world_step w (mkWorld (mkApp b (mirror (daemon w)) n) (running w))
| step_request f r d :
    mirror_request w f -> on_mirror f (daemon w) = (r, d) -> world_step w (mkWorld d (running w))
| step_begin t u p d :
    running w !! t = None -> on_mirror (begin_transfer u) (daemon w) = (inr p, d) ->
    world_step w (mkWorld d (<[t := (u, p)]> (running w)))
| step_phase t u p p' fresh now d :
    running w !! t = Some (u, p) ->
    transfer_phase fresh now u p (daemon w) = (inr p', d) ->
    world_step w (mkWorld d (<[t := (u, p')]> (running w)))
| step_answer t u p r fresh now d :
    running w !! t = Some (u, p) ->
    transfer_phase fresh now u p (daemon w) = (inl r, d) ->
    world_step w (mkWorld (on_mirror (fun g => ((), end_transfer u g)) d).2 (delete t (running w)))
| step_drop t u p :
    running w !! t = Some (u, p) ->
    world_step w (mkWorld (on_mirror (fun g => ((), end_transfer u g)) (daemon w)).2
      (delete t (running w))).

Inductive world_reachable : World -> Prop :=
| world_start b n : world_reachable (mkWorld (mkApp b empty n) ∅)
| world_next w w' : world_reachable w -> world_step w w' -> world_reachable w'.

(** The running mark of each relationship is exact. *)
Definition marks_exact (rels : gmap text Relationship) (run : gmap nat (text * phase)) : Prop :=
  (forall t1 t2 u p1 p2, run !! t1 = Some (u, p1) -> run !! t2 = Some (u, p2) -> t1 = t2) /\
  (forall u r, rels !! u = Some r ->
    (r_transfer_in_progress r = true <-> exists t p, run !! t = Some (u, p))).

(** A phase leaves every running mark as it is. *)
Definition marks (rels : gmap text Relationship) : gmap text bool := r_transfer_in_progress <$> rels.

Lemma marks_alter f u rels :
  (forall r, r_transfer_in_progress (f r) = r_transfer_in_progress r) ->
  marks (alter f u rels) = marks rels.
Proof.
  intros Hf. apply map_eq. intros k. unfold marks. rewrite !lookup_fmap.
  destruct (decide (u = k)) as [<-|]; [|by rewrite lookup_alter_ne].
  rewrite lookup_alter_eq. destruct (rels !! u); simpl; [by rewrite Hf|done].
Qed.

Lemma mark_mirrored_mark r : r_transfer_in_progress (mark_mirrored r) = r_transfer_in_progress r.
Proof. unfold mark_mirrored. by destruct (operator_state _). Qed.

Lemma on_backend_mirror {A : Type} (f : B -> A * B) (d d' : App B N) (a : A) :
  on_backend f d = (a, d') -> mirror d' = mirror d.
Proof. unfold on_backend. destruct (f (backend d)). by intros [= _ <-]. Qed.

Lemma stream_mirror v n tg (d d' : App B N) r :
  stream_to_peer v n tg d = (r, d') -> mirror d' = mirror d.
Proof.
  unfold stream_to_peer. destruct tg as [[[dest addr] tok] base].
  destruct (as_snapshot ≫= _) as [repl|]; [|by intros [= _ <-]].
  destruct (on_backend _ d) as [[reader|e] d1] eqn:E; [|intros [= _ <-]; by eapply on_backend_mirror].
  destruct (post_replication_stream _ _ _ _ _ _ _) as [r1 n1]. intros [= _ <-].
  exact (on_backend_mirror _ _ _ _ E).
Qed.

Lemma phase_marks fresh now u p (d d' : App B N) x :
  transfer_phase fresh now u p d = (x, d') ->
  marks (relationships (mirror d')) = marks (relationships (mirror d)).
Proof.
  destruct p as [path nm|v nm|v nm tg|nm o|nm z]; cbn [transfer_phase].
  - destruct (on_backend _ d) as [[v|e] d1] eqn:E; pose proof (on_backend_mirror _ _ _ _ E) as Hm.
    + intros [= _ <-]. by rewrite Hm.
    + intros [= _ <-]. rewrite <- Hm. by apply marks_alter.
  - destruct (transfer_target _ _); by intros [= _ <-].
  - destruct (stream_to_peer _ _ _ d) as [r d1] eqn:E. intros [= _ <-]. by rewrite (stream_mirror _ _ _ _ _ _ E).
  - destruct o as [[z|e]|]; intros [= _ <-]; apply marks_alter; [|done|apply mark_mirrored_mark].
    intros r. simpl. apply mark_mirrored_mark.
  - destruct (relationships (mirror d) !! u); by intros [= _ <-].
Qed.

Lemma exact_marks rels rels' run :
  marks rels' = marks rels -> marks_exact rels run -> marks_exact rels' run.
Proof.
  intros Hm [H1 H2]. split; [done|]. intros u r' Hr'.
  assert (Hl : marks rels' !! u = Some (r_transfer_in_progress r')) by (unfold marks; by rewrite lookup_fmap, Hr').
  rewrite Hm in Hl. unfold marks in Hl. rewrite lookup_fmap in Hl.
  destruct (rels !! u) as [r|] eqn:Hr; [|done]. simpl in Hl. injection Hl as <-. by apply H2.
Qed.

(** The same relationships are being transferred. *)
Lemma exact_phase rels run t u p p' :
  run !! t = Some (u, p) -> marks_exact rels run -> marks_exact rels (<[t := (u, p')]> run).
Proof.
  intros Ht [H1 H2].
  assert (Hsame : forall t' u' q, <[t := (u, p')]> run !! t' = Some (u', q) ->
    exists q', run !! t' = Some (u', q')).
  { intros t' u' q [[<- [= <- <-]]|[_ Hq]]%lookup_insert_Some; eauto. }
  split.
  - intros t1 t2 v q1 q2 [q1' Hq1]%Hsame [q2' Hq2]%Hsame. by eapply H1.
  - intros v r Hr. rewrite (H2 v r Hr). split.
    + intros (t' & q & Hq). destruct (decide (t = t')) as [<-|].
      * exists t, p'. rewrite lookup_insert_eq. congruence.
      * exists t', q. by rewrite lookup_insert_ne.
    + intros (t' & q & [q' Hq']%Hsame). eauto.
Qed.

(** A transfer that ends takes its mark with it. *)
Lemma exact_end rels run t u p :
  run !! t = Some (u, p) -> marks_exact rels run ->
  marks_exact (alter (set_in_progress false) u rels) (delete t run).
Proof.
  intros Ht [H1 H2]. split.
  - intros t1 t2 v q1 q2 [_ Hq1]%lookup_delete_Some [_ Hq2]%lookup_delete_Some. by eapply H1.
  - intros v r Hr. destruct (decide (u = v)) as [<-|Hne].
    + rewrite lookup_alter_eq in Hr. destruct (rels !! u) as [r0|]; [|done]. injection Hr as <-.
      split; [done|]. intros (t' & q & [Hne Hq]%lookup_delete_Some). exfalso. apply Hne. by eapply H1.
    + rewrite lookup_alter_ne in Hr by done. rewrite (H2 v r Hr). split; intros (t' & q & Hq).
      * exists t', q. rewrite lookup_delete_ne; [done|]. intros <-. congruence.
      * apply lookup_delete_Some in Hq as [_ Hq]. eauto.
Qed.

Lemma exact_begin rels run t u p r :
  run !! t = None -> rels !! u = Some r -> r_transfer_in_progress r = false ->
  marks_exact rels run -> marks_exact (alter (set_in_progress true) u rels) (<[t := (u, p)]> run).
Proof.
  intros Ht Hr Hf [H1 H2].
  assert (Hnone : forall t' q, run !! t' <> Some (u, q)).
  { intros t' q Hq. assert (r_transfer_in_progress r = true) by (apply (H2 u r Hr); eauto). congruence. }
  split.
  - intros t1 t2 v q1 q2 [[<- [= <- _]]|[_ Hq1]]%lookup_insert_Some
      [[<- E]|[_ Hq2]]%lookup_insert_Some; [done|by apply Hnone in Hq2| |by eapply H1].
    injection E as <- _. by apply Hnone in Hq1.
  - intros v r' Hr'. destruct (decide (u = v)) as [<-|Hne].
    + rewrite lookup_alter_eq, Hr in Hr'. injection Hr' as <-. split; [|done].
      intros _. exists t, p. apply lookup_insert_eq.
    + rewrite lookup_alter_ne in Hr' by done. rewrite (H2 v r' Hr'). split; intros (t' & q & Hq).
      * exists t', q. rewrite lookup_insert_ne; [done|congruence].
      * apply lookup_insert_Some in Hq as [[_ [= E _]]|[_ Hq]]; [done|eauto].
Qed.

Lemma exact_other w rels :
  other_change w rels ->
  marks_exact (relationships (mirror (daemon w))) (running w) -> marks_exact rels (running w).
Proof.
  intros [|u r [Hu Hrun] Hf|u|u r r' Hr Hmark] [H1 H2]; (split; [done|]); intros v s Hs.
  - by apply H2.
  - apply lookup_insert_Some in Hs as [[<- <-]|[_ Hs]]; [|by apply H2]. rewrite Hf. split; [done|].
    intros (t & p & Hp). by apply Hrun in Hp.
  - apply lookup_delete_Some in Hs as [_ Hs]. by apply H2.
  - apply lookup_insert_Some in Hs as [[<- <-]|[_ Hs]]; [|by apply H2]. rewrite Hmark. by apply H2.
Qed.

Lemma request_changes w f :
  mirror_request w f -> other_change w (relationships (f (mirror (daemon w))).2).
Proof.
  intros [fresh b|fresh u|env fresh b Hu|env u b|fresh u].
  - unfold create_peer. destruct (_ || _); apply change_none.
  - unfold delete_peer. destruct (peers _ !! u); [|apply change_none].
    case_bool_decide; apply change_none.
  - unfold create_relationship. destruct (_ || _); [apply change_none|by apply change_create].
  - unfold patch_relationship. destruct (relationships _ !! u) as [r|] eqn:Hr; [|apply change_none].
    eapply change_patch; [exact Hr|]. by destruct (get_str _ b), (get_str _ b).
  - unfold delete_relationship. destruct (relationships _ !! u); [apply change_delete|apply change_none].
Qed.

Lemma marks_are_exact w :
  world_reachable w -> marks_exact (relationships (mirror (daemon w))) (running w).
Proof.
  induction 1 as [b n|w w' _ IH Hstep].
  { split; [intros t1 t2 u p1 p2 H; discriminate H|intros u r H; discriminate H]. }
  destruct Hstep as [b n|f r d Hf Hd|t u p d Ht Hb|t u p p' fresh now d Ht Hp|t u p r fresh now d Ht Hp|t u p Ht];
    cbn [daemon running] in *.
  - done.
  - apply exact_other; [|done]. unfold on_mirror in Hd. pose proof (request_changes w f Hf) as Hr.
    destruct (f (mirror (daemon w))) as [r' g]. by injection Hd as _ <-.
  - unfold on_mirror, begin_transfer in Hb.
    destruct (relationships (mirror (daemon w)) !! u) as [r|] eqn:Hr; [|by injection Hb].
    destruct (r_transfer_in_progress r) eqn:Hf; [by injection Hb|]. injection Hb as <- <-.
    by eapply exact_begin.
  - eapply exact_phase; [done|]. eapply exact_marks; [|done]. by eapply phase_marks.
  - eapply exact_end; [done|]. eapply exact_marks; [|done]. by eapply phase_marks.
  - by eapply exact_end.
Qed.

(** C18. Transfers of one relationship never overlap, and none wedges it: however requests,
    transfers and dropped connections interleave, a relationship has at most one transfer
    running, it is marked as running exactly while it has one, and so a request for a
    transfer is refused as already in progress exactly then and otherwise begins one. *)
Theorem one_transfer_at_a_time w u r :
  world_reachable w -> relationships (mirror (daemon w)) !! u = Some r ->
  (forall t1 t2 p1 p2, running w !! t1 = Some (u, p1) -> running w !! t2 = Some (u, p2) -> t1 = t2) /\
  match (begin_transfer u (mirror (daemon w))).1 with
  | inl refused => status refused = 409 /\ exists t p, running w !! t = Some (u, p)
  | inr _ => forall t p, running w !! t <> Some (u, p)
  end.
Proof.
  intros [H1 H2]%marks_are_exact Hr. split; [by intros t1 t2 p1 p2; apply H1|].
  unfold begin_transfer. rewrite Hr. destruct (r_transfer_in_progress r) eqn:Hf; simpl.
  - split; [done|]. by apply (H2 u r Hr).
  - intros t p Hp. assert (r_transfer_in_progress r = true) by (apply (H2 u r Hr); eauto). congruence.
Qed.
End running.
