(* ===== verification/RestMem.v ===== *)
(** The control plane over the in-memory backend: what the REST requests of Rest.v do to
    the state of MemBackend.v, and SnapMirror between two such daemons. *)

From Stdlib Require Import ZArith Lia.
From stdpp Require Import base option gmap list.
From S2P Require Import Prelude Text Errors Volume Json Ontap Rest SnapMirror ControlPlane.
From S2P Require MemBackend.

Local Open Scope Z_scope.

Abbreviation MemState := MemBackend.Inner.

#[export] Instance mem_tiers {T : Texts} : Tiers MemState := {|
  tier_volume := MemBackend.mem_volume_backend debug;
  as_snapshot := Some (MemBackend.mem_snapshot_backend debug);
  as_clone := Some (MemBackend.mem_clone_backend debug);
  as_replication := Some (MemBackend.mem_replication_backend debug);
|}.

(** ** Requests that fail *)

Section rest.
Context {T : Texts} {TL : TextLaws T}.
Implicit Types g : MemState.

(** From [g], [m] keeps the tables well formed, and changes nothing if it fails. *)
Definition safe_at {A : Type} (g : MemState) (m : M BackendError MemState A) : Prop :=
  forall r g', m g = (r, g') -> MemBackend.wf g' /\ (is_ok r = false -> g' = g).

(** So does a handler, and only its failures have an error status. *)
Definition handler_at (g : MemState) (h : handler (B := MemState)) : Prop :=
  forall r g', h g = (r, g') ->
  MemBackend.wf g' /\ match r with Ok resp => 200 <= status resp < 300 | Err _ => g' = g end.

Lemma handler_lift {A : Type} g (x : result BackendError A) (k : A -> M BackendError MemState Response) :
  MemBackend.wf g -> (forall a, x = Ok a -> handler_at g (k a)) -> handler_at g ((lift x : M BackendError MemState A) ≫= k).
Proof.
  intros Hg Hk r g'. unfold mbind, M_bind, lift. destruct x as [a|e]; [by apply Hk|].
  by intros [= <- <-].
Qed.

Lemma handler_look {A : Type} g (m : M BackendError MemState A) (k : A -> M BackendError MemState Response) :
  MemBackend.wf g -> (m g).2 = g -> (forall a, handler_at g (k a)) -> handler_at g (m ≫= k).
Proof.
  intros Hg Hm Hk r g'. unfold mbind, M_bind. destruct (m g) as [[a|e] g1]; simpl in Hm; subst g1;
    [apply Hk|]. by intros [= <- <-].
Qed.

Lemma handler_last {A : Type} g (m : M BackendError MemState A) (f : A -> Response) :
  safe_at g m -> (forall a, 200 <= status (f a) < 300) -> handler_at g (a ← m; mret (f a)).
Proof.
  intros Hm Hf r g'. unfold mbind, M_bind. destruct (m g) as [[a|e] g1] eqn:E; intros [= <- <-].
  - destruct (Hm _ _ E) as [Hwf _]. split; [done|apply Hf].
  - destruct (Hm _ _ E) as [Hwf He]. split; [done|by apply He].
Qed.

Lemma safe_steady {A : Type} g (m : MemBackend.op A) :
  MemBackend.wf g -> MemBackend.steady m -> safe_at g m.
Proof. intros Hg Hm r g' E. by eapply Hm. Qed.

Lemma safe_look {A : Type} g (m : M BackendError MemState A) :
  MemBackend.wf g -> (m g).2 = g -> safe_at g m.
Proof. intros Hg Hm r g' E. rewrite E in Hm. simpl in Hm. by subst g'. Qed.

Lemma safe_look_then {A C : Type} g (m : M BackendError MemState A) (k : A -> M BackendError MemState C) :
  MemBackend.wf g -> (m g).2 = g -> (forall a, safe_at g (k a)) -> safe_at g (m ≫= k).
Proof.
  intros Hg Hm Hk r g'. unfold mbind, M_bind. destruct (m g) as [[a|e] g1]; simpl in Hm; subst g1;
    [apply Hk|]. by intros [= <- <-].
Qed.

Lemma safe_lift_then {A C : Type} g (x : result BackendError A) (k : A -> M BackendError MemState C) :
  MemBackend.wf g -> (forall a, x = Ok a -> safe_at g (k a)) ->
  safe_at g ((lift x : M BackendError MemState A) ≫= k).
Proof.
  intros Hg Hk r g'. unfold mbind, M_bind, lift. destruct x as [a|e]; [by apply Hk|].
  by intros [= <- <-].
Qed.

Lemma list_snapshots_look v g : (MemBackend.list_snapshots v g).2 = g.
Proof.
  unfold MemBackend.list_snapshots, MemBackend.snapshots_of, mbind, M_bind.
  by destruct (MemBackend.snaps_of g !! v).
Qed.

Lemma get_snapshot_look v k g : (MemBackend.get_snapshot v k g).2 = g.
Proof.
  unfold MemBackend.get_snapshot, MemBackend.snapshots_of, mbind, M_bind.
  by destruct (MemBackend.snaps_of g !! v).
Qed.

(** A clone named by its parents. *)
Lemma clone_by_name_safe g fresh pv ps name :
  MemBackend.wf g -> MemBackend.volumes g !! fresh = None ->
  safe_at g (clone_by_name fresh pv ps name).
Proof.
  intros Hg Hf. unfold clone_by_name.
  apply safe_lift_then; [done|]. intros snap [= <-]. apply safe_lift_then; [done|]. intros cl [= <-].
  apply safe_look_then; [done|done|intros vols]. apply safe_lift_then; [done|]. intros parent _.
  apply safe_look_then; [done|apply list_snapshots_look|intros snaps].
  apply safe_lift_then; [done|]. intros sn _. intros r g' E. by eapply MemBackend.create_clone_steady.
Qed.

(** The requests about volumes and snapshots; a creating one draws a new identifier. *)
Inductive rest_request (env : Env) (now : DateTime) (g : MemState) : handler (B := MemState) -> Prop :=
| rest_list_volumes q : rest_request env now g (list_volumes env q)
| rest_get_volume u : rest_request env now g (get_volume env u)
| rest_create_volume fresh b :
    MemBackend.volumes g !! fresh 0%nat = None -> rest_request env now g (create_volume env fresh b)
| rest_patch_volume fresh u b : rest_request env now g (patch_volume env fresh u b)
| rest_delete_volume u : rest_request env now g (delete_volume u)
| rest_list_snapshots v : rest_request env now g (list_snapshots now v)
| rest_get_snapshot v k : rest_request env now g (get_snapshot now v k)
| rest_create_snapshot fresh v b :
    MemBackend.fresh_snap_in (fresh 0%nat) g ->
    rest_request env now g (create_snapshot now fresh v b)
| rest_delete_snapshot v k : rest_request env now g (delete_snapshot v k).

Lemma rest_request_safe env now g h :
  MemBackend.wf g -> rest_request env now g h -> handler_at g h.
Proof.
  intros Hg Hh. destruct Hh as [q|u|fresh b Hf|fresh u b|u|v|v k|fresh v b Hf|v k].
  - unfold list_volumes. apply handler_last; [by apply safe_look|done].
  - apply handler_lift; [done|intros id _]. apply handler_last; [by apply safe_look|done].
  - apply handler_lift; [done|intros name _]. cbv zeta.
    generalize (default false (c ← get (bs "clone") b; x ← get (bs "is_flexclone") c; as_bool x)).
    intros fc.
    assert (Hgo : forall pv ps, handler_at g
      (vol ← ((if fc then clone_by_name (fresh 0%nat) pv ps name
               else vb_create_volume (fresh 0%nat) (mkSpec name (get (bs "size") b ≫= as_u64)))
               : M BackendError MemState Volume);
       mret (mkResponse 201 [(bs "location", volumes_path ++ bs "/" ++ uuid_text (v_uuid vol))]
         (create_value volume_record_value
            (create_response (uuid_text (fresh 1%nat)) (volume_record vol (svm_ref env))))))).
    { intros pv ps. apply handler_last; [|done]. destruct fc.
      - by apply clone_by_name_safe.
      - intros r g' E. by eapply MemBackend.create_volume_steady. }
    destruct fc.
    + apply handler_lift; [done|]. intros [pv ps] _. exact (Hgo pv ps).
    + apply handler_look; [done|done|]. intros [pv ps]. exact (Hgo pv ps).
  - apply handler_lift; [done|intros id _]. apply handler_last; [|done].
    apply safe_steady; [done|apply MemBackend.patch_volume_steady].
  - apply handler_lift; [done|intros id _]. apply handler_last; [|done].
    apply safe_steady; [done|apply MemBackend.delete_volume_steady].
  - do 2 (apply handler_lift; [done|intros ? ?]). apply handler_last; [|done].
    apply safe_look; [done|]. simplify_eq/=. apply list_snapshots_look.
  - do 3 (apply handler_lift; [done|intros ? ?]). apply handler_last; [|done].
    apply safe_look; [done|]. simplify_eq/=. apply get_snapshot_look.
  - do 3 (apply handler_lift; [done|intros ? ?]). apply handler_last; [|done]. simplify_eq/=.
    intros r g' E. eapply MemBackend.create_snapshot_steady; [|exact Hg|exact E].
    intros snaps Hs. exact (Hf _ _ Hs).
  - do 3 (apply handler_lift; [done|intros ? ?]). apply handler_last; [|done]. simplify_eq/=.
    apply safe_steady; [done|apply MemBackend.delete_snapshot_steady].
Qed.

Lemma status_for_error e : 400 <= status_for e.
Proof. by destruct e. Qed.

(** C34. A volume or snapshot request keeps the backend's tables consistent, and one that is
    answered with an error status (and only those) has changed nothing. *)
Theorem rest_failure_changes_nothing env now g h r g' :
  MemBackend.wf g -> rest_request env now g h -> api h g = (r, g') ->
  MemBackend.wf g' /\ (400 <= status r -> g' = g) /\ (g' <> g -> 200 <= status r < 300).
Proof.
  intros Hg Hh E. unfold api in E. destruct (h g) as [x g1] eqn:Eh.
  pose proof (rest_request_safe env now g h Hg Hh x g1 Eh) as [Hwf Hx].
  destruct x as [resp|e]; injection E as <- <-.
  - split; [done|]. split; [lia|done].
  - split; [done|]. split; [done|]. by intros [].
Qed.

(** ** What is created is served *)

(** A creating call that succeeds leaves the new volume in the table. *)
Definition makes (fresh : VolumeUuid) (name : text) (m : M BackendError MemState Volume) : Prop :=
  forall g vol g', m g = (Ok vol, g') ->
  MemBackend.volumes g' !! fresh = Some vol /\ v_uuid vol = fresh /\ v_name vol = name.

Lemma create_volume_makes fresh name size :
  makes fresh name (MemBackend.create_volume fresh (mkSpec name size)).
Proof.
  intros g vol g'. unfold MemBackend.create_volume. case_bool_decide; [done|]. intros [= <- <-].
  split; [apply lookup_insert_eq|done].
Qed.

Lemma clone_makes fresh pv ps name : makes fresh name (clone_by_name fresh pv ps name).
Proof.
  intros g vol g' E. unfold clone_by_name in E.
  apply M_bind_inv in E as (snap & g1 & [= <- <-] & E).
  apply M_bind_inv in E as (cl & g2 & [= <- <-] & E).
  do 4 (apply M_bind_inv in E as (? & ? & _ & E)).
  unfold MemBackend.create_clone in E.
  do 3 (apply M_bind_inv in E as (? & ? & ? & E)).
  unfold MemBackend.insert_clone in E. case_bool_decide; [done|]. injection E as <- <-.
  split; [apply lookup_insert_eq|done].
Qed.

(** A volume request answered 201 made a volume of the name it gives, under the
    identifier in its Location; a GET of that identifier then answers 200 with exactly the
    record the creation showed, for plain volumes and FlexClones. *)
Theorem created_volume_is_served env fresh b g r g' :
  api (create_volume env fresh b) g = (r, g') -> status r = 201 ->
  exists vol, nonempty_name b = Some (v_name vol) /\
    headers r = [(bs "location", volumes_path ++ bs "/" ++ uuid_text (fresh 0%nat))] /\
    get (bs "record") (body r) = Some (volume_record_value (volume_record vol (svm_ref env))) /\
    api (get_volume env (uuid_text (fresh 0%nat))) g' =
      (ok_json (volume_record_value (volume_record vol (svm_ref env))), g').
Proof.
  unfold api. destruct (create_volume env fresh b g) as [[resp|e] g1] eqn:E; intros [= <- <-] Hs.
  2: { simpl in Hs. by destruct e. }
  unfold create_volume in E. apply M_bind_inv in E as (name & ga & Hn & E). injection Hn as Hn <-.
  apply ok_or_Ok in Hn. apply M_bind_inv in E as ([pv ps] & gb & _ & E).
  apply M_bind_inv in E as (vol & gc & Hmk & E). injection E as <- <-.
  assert (Hm : MemBackend.volumes gc !! (fresh 0%nat : VolumeUuid) = Some vol /\ v_uuid vol = fresh 0%nat /\ v_name vol = name).
  { destruct (default false _); [by eapply clone_makes|by eapply create_volume_makes]. }
  destruct Hm as (Hl & Hu & <-). exists vol. cbn [headers body]. rewrite Hu.
  split_and!; [done|done|reflexivity|].
  unfold get_volume, mbind, M_bind, lift, parse_uuid. rewrite uuid_parse_text. cbn [ok_or].
  unfold vb_get_volume. simpl. unfold MemBackend.get_volume, MemBackend.volume_of. by rewrite Hl.
Qed.
End rest.
