(* ===== verification/Mirror.v ===== *)
(** SnapMirror between two daemons with in-memory backends: a source whose relationship
    names the destination as its peer, and the destination as the network the source's
    requests reach. *)

From Stdlib Require Import ZArith Lia.
From stdpp Require Import base option gmap list.
From S2P Require Import Prelude Text Hex Errors Volume Json Ontap Rest SnapMirror ControlLaws RestMem.
From S2P Require MemBackend.

Local Open Scope Z_scope.
Local Open Scope json_scope.

(** ** The destination as a network *)

(** The destination itself sends nothing. *)
Inductive Idle := idle.

Definition no_text (_ : Z) : text := [].
Definition no_json (_ : Value) : text := [].

#[export] Instance idle_network : Network Idle := {|
  new_client := fail (bs "no network");
  send _ := fail (bs "no network");
  status_text := no_text;
  json_text := no_json;
|}.

Record Remote := mkRemote { listens_at : text; remote : App MemState Idle }.

(** A request's header, by its lower-case name. *)
Definition header_of (hs : list (text * text)) (name : text) : option text :=
  snd ∘ snd <$> list_find (fun kv => (Hex.to_lower <$> kv.1) = name) hs.

(** Identifiers that nothing has yet. *)
Definition snap_ids (g : MemState) : gset SnapshotUuid :=
  foldr (fun kv ids => dom (kv.2 : gmap SnapshotUuid Snapshot) ∪ ids) ∅ (map_to_list (MemBackend.snaps_of g)).

Definition new_ids (g : MemState) (i : nat) : Uuid :=
  match i with
  | O => fresh (dom (MemBackend.volumes g) : gset VolumeUuid)
  | _ => fresh (snap_ids g)
  end.

Section mirror.
Context {T : Texts}.

(** The peer answers on its receive endpoint, and nowhere else. *)
Definition deliver (req : Post) : M text Remote (Z * option Value) := fun n =>
  if bool_decide (post_url req = listens_at n) then
    let '(resp, d) := internal_receive (new_ids (SnapMirror.backend (remote n)))
      (header_of (post_headers req)) (post_body req) (remote n) in
    (Ok (status resp, Some (body resp)), mkRemote (listens_at n) d)
  else (Err (bs "connection refused"), n).

#[export] Instance remote_network : Network Remote := {|
  new_client := mret ();
  send := deliver;
  status_text := dec;
  json_text := no_json;
|}.

Lemma elem_of_snap_ids g u snaps k s :
  MemBackend.snaps_of g !! u = Some snaps -> snaps !! k = Some s -> k ∈ snap_ids g.
Proof.
  intros Hu Hk. unfold snap_ids. apply elem_of_map_to_list in Hu.
  induction (map_to_list (MemBackend.snaps_of g)) as [|[u' sn] l IH]; [by apply elem_of_nil in Hu|].
  simpl. apply elem_of_union. apply elem_of_cons in Hu as [[= <- <-]|Hu]; [|right; by apply IH].
  left. apply elem_of_dom. by eexists.
Qed.

Lemma new_volume_id g : MemBackend.volumes g !! new_ids g 0 = None.
Proof. apply not_elem_of_dom. apply is_fresh. Qed.

Lemma new_snapshot_id g : MemBackend.fresh_snap_in (new_ids g 1) g.
Proof.
  intros u snaps Hu. destruct (snaps !! new_ids g 1) as [s|] eqn:Hk; [|done]. exfalso.
  apply (is_fresh (snap_ids g)). by eapply elem_of_snap_ids.
Qed.

(** ** Snapshot names *)

Definition printable (s : text) : Prop := Forall (fun b => in_range 32 126 b = true) s.

Lemma digit_printable b : is_Some (digit_val b) -> in_range 32 126 b = true.
Proof. destruct b; intros [? H]; first [reflexivity|discriminate H]. Qed.

Lemma printable_ascii : forall b, in_range 32 126 b = true -> in_range 0 127 b = true.
Proof. intros []; try done. Qed.

Lemma printable_no_breaks : forall b, in_range 32 126 b = true -> b <> nl /\ b <> cr.
Proof. intros []; try done. Qed.

Lemma snapshot_name_printable u k : printable u -> printable (snapshot_name u k).
Proof.
  intros Hu. unfold snapshot_name, printable. rewrite !Forall_app. split_and!.
  - by repeat constructor.
  - by apply Forall_take.
  - by repeat constructor.
  - eapply Forall_impl; [apply dec_digits; lia|]. apply digit_printable.
Qed.

Lemma printable_ok s : printable s -> s <> [] -> MemBackend.snap_name_ok s.
Proof.
  intros Hs Hne. split_and!; [|done|].
  - split.
    + intros Hin. unfold printable in Hs. rewrite Forall_forall in Hs.
      by destruct (printable_no_breaks _ (Hs _ Hin)).
    + intros Hl. unfold printable in Hs. rewrite Forall_forall in Hs.
      apply last_Some_elem_of in Hl. by destruct (printable_no_breaks _ (Hs _ Hl)).
  - apply utf8_valid_ascii. eapply Forall_impl; [exact Hs|]. apply printable_ascii.
Qed.

Lemma snapshot_name_ok u k : printable u -> MemBackend.snap_name_ok (snapshot_name u k).
Proof. intros Hu. apply printable_ok; [by apply snapshot_name_printable|done]. Qed.

Lemma snapshot_name_inj u j k : snapshot_name u j = snapshot_name u k -> j = k.
Proof.
  unfold snapshot_name. intros E%app_inv_head%app_inv_head%app_inv_head%dec_inj; lia.
Qed.

(** ** One relationship *)

Section relationship.
Context (u : text) (vol : VolumeUuid) (v : Volume) (dest token : text).
Context (Hu : printable u).

(** The snapshot the next transfer is incremental to. *)
Definition last_sent (k : nat) : option text :=
  match k with O => None | _ => Some (snapshot_name u k) end.

(** After [k] transfers the destination volume has exactly the snapshots transferred. *)
Definition copy (k : nat) (g : MemState) : Prop :=
  MemBackend.wf g /\
  match k with
  | O => dest ∉ MemBackend.names g
  | S _ => exists du have, MemBackend.find_volume dest g = Some du /\
      MemBackend.snaps_of g !! du = Some have /\
      forall n, MemBackend.has_name n have = true <->
        exists i, (1 <= i <= k)%nat /\ n = snapshot_name u i
  end.

Definition original (k : nat) (g : MemState) : Prop :=
  MemBackend.wf g /\ MemBackend.volumes g !! vol = Some v /\ MemBackend.sendable v /\
  exists snaps, MemBackend.snaps_of g !! vol = Some snaps /\
    (forall i, MemBackend.has_name (snapshot_name u i) snaps = true -> (i <= k)%nat) /\
    from_option (fun b => MemBackend.has_name b snaps = true) True (last_sent k).

(** The relationship is idle, [k] transfers are on record, and its base is the last. *)
Definition linked (k : nat) (url : text) (g : Inner) : Prop :=
  (exists r p, relationships g !! u = Some r /\ peers g !! r_peer_uuid r = Some p /\
    vol_of (r_source_path r) = v_name v /\ vol_of (r_destination_path r) = dest /\
    r_transfer_in_progress r = false /\ r_base r = last_sent k /\
    p_address p <> [] /\ p_token p = token /\ replication_url (p_address p) = url) /\
  length (default [] (transfers g !! u)) = k.

Record in_sync (k : nat) (s : App MemState Remote) : Prop := {
  sync_linked : linked k (listens_at (network s)) (mirror s);
  sync_original : original k (SnapMirror.backend s);
  sync_token : peer_token_valid token (mirror (remote (network s))) = true;
  sync_copy : copy k (SnapMirror.backend (remote (network s)));
}.

Lemma has_name_insert n (k : SnapshotUuid) snap (snaps : gmap SnapshotUuid Snapshot) :
  snaps !! k = None ->
  MemBackend.has_name n (<[k := snap]> snaps) = true <-> s_name snap = n \/ MemBackend.has_name n snaps = true.
Proof.
  intros Hk. rewrite !MemBackend.has_name_true. split.
  - intros (k' & s & [[<- <-]|[_ Hs]]%lookup_insert_Some & E); [by left|right; eauto].
  - intros [E|(k' & s & Hs & E)]; [exists k, snap; by rewrite lookup_insert_eq|].
    exists k', s. split; [|done]. rewrite lookup_insert_ne; [done|congruence].
Qed.

(** A new snapshot of the original. *)
Lemma original_snapshot k g fresh :
  original k g -> MemBackend.fresh_snap_in fresh g ->
  exists g', snapshot_source fresh (v_name v) (snapshot_name u (S k)) g = (Ok vol, g') /\
    MemBackend.wf g' /\ MemBackend.volumes g' !! vol = Some v /\ MemBackend.sendable v /\
    exists snaps, MemBackend.snaps_of g' !! vol = Some snaps /\
      (forall i, MemBackend.has_name (snapshot_name u i) snaps = true -> (i <= S k)%nat) /\
      MemBackend.has_name (snapshot_name u (S k)) snaps = true /\
      from_option (fun b => MemBackend.has_name b snaps = true) True (last_sent k).
Proof.
  intros (Hwf & Hv & Hsend & snaps & Hs & Hmax & Hbase) Hfresh.
  assert (Hk : snaps !! fresh = None) by exact (Hfresh _ _ Hs).
  assert (Hno : MemBackend.has_name (snapshot_name u (S k)) snaps = false).
  { destruct (MemBackend.has_name _ snaps) eqn:E; [|done]. apply Hmax in E. lia. }
  assert (Hfind : find_first (fun w => v_name w = v_name v) (map_to_list (MemBackend.volumes g)).*2 = Some v).
  { unfold find_first. destruct (list_find _ _) as [[i w]|] eqn:E; simpl.
    - apply list_find_Some in E as (Hi & Hw & _). apply list_elem_of_lookup_2 in Hi.
      apply list_elem_of_fmap in Hi as ([w' x] & -> & Hi%elem_of_map_to_list). simpl in *.
      f_equal. assert (w' = vol) as -> by (by eapply (MemBackend.wf_unique g Hwf)). congruence.
    - exfalso. apply list_find_None in E. rewrite Forall_forall in E.
      apply (E v); [|done]. apply list_elem_of_fmap. exists (vol, v). split; [done|].
      by apply elem_of_map_to_list. }
  set (snap := mkSnapshot fresh (snapshot_name u (S k)) None 0).
  exists (MemBackend.set_snaps vol (<[fresh := snap]> snaps) g).
  split.
  { unfold snapshot_source, mbind, M_bind, lift. cbn [as_snapshot mem_tiers ok_or].
    change (vb_list_volumes g) with (Ok (map_to_list (MemBackend.volumes g)).*2 : result BackendError _, g).
    cbn iota beta. rewrite Hfind. cbn [ok_or].
    rewrite (MemBackend.wf_uuid g Hwf vol v Hv). unfold sb_create_snapshot. simpl.
    unfold MemBackend.create_snapshot, mbind, M_bind, MemBackend.snapshots_of. rewrite Hs.
    cbn [ok_or]. by rewrite Hno. }
  split_and!; [by apply MemBackend.wf_insert_snap|done|apply Hsend..|].
  exists (<[fresh := snap]> snaps). split_and!.
  - apply lookup_insert_eq.
  - intros i. rewrite has_name_insert by done. intros [E|Hi].
    + apply snapshot_name_inj in E. lia.
    + apply Hmax in Hi. lia.
  - apply has_name_insert; [done|]. by left.
  - destruct (last_sent k); [|done]. simpl. apply has_name_insert; [done|]. by right.
Qed.

Definition stream (k : nat) : text :=
  MemBackend.encode_repl_stream (v_name v) (size_bytes v) (snapshot_name u (S k)) (last_sent k).

Lemma last_sent_ok k : from_option (fun b => MemBackend.clean b /\ b <> []) True (last_sent k).
Proof. destruct k; [done|]. simpl. by destruct (snapshot_name_ok u (S k) Hu) as (? & ? & _). Qed.

Lemma last_sent_utf8 k : utf8_valid (default [] (last_sent k)) = true.
Proof. destruct k; [done|]. simpl. by destruct (snapshot_name_ok u (S k) Hu) as (_ & _ & ?). Qed.

Lemma sent_one_more k n :
  (exists i, (1 <= i <= S k)%nat /\ n = snapshot_name u i) <->
  snapshot_name u (S k) = n \/ exists i, (1 <= i <= k)%nat /\ n = snapshot_name u i.
Proof.
  split.
  - intros (i & Hi & ->). destruct (decide (i = S k)) as [->|]; [by left|]. right. exists i. split; [lia|done].
  - intros [<-|(i & Hi & ->)]; [exists (S k)|exists i]; (split; [lia|done]).
Qed.

(** Receiving the next stream makes the next copy. *)
Lemma copy_receive k g fv fs :
  MemBackend.sendable v -> copy k g ->
  MemBackend.volumes g !! fv = None -> MemBackend.fresh_snap_in fs g ->
  exists g', MemBackend.receive_stream debug fv fs dest (cursor (stream k)) g = (Ok (zlen (stream k)), g') /\
    copy (S k) g'.
Proof.
  intros (Nv & Uv & Sv) [Hwf Hcopy] Hfv Hfs.
  destruct (snapshot_name_ok u (S k) Hu) as (Csn & _ & Usn).
  unfold stream. rewrite MemBackend.receive_encoded by
    (done || apply last_sent_ok || apply last_sent_utf8).
  unfold mbind, M_bind, MemBackend.resolve_dest. cbn [MemBackend.rs_base MemBackend.rs_size].
  destruct k as [|k].
  - rewrite (proj2 (MemBackend.find_volume_None dest g Hwf) Hcopy). cbn [last_sent].
    set (g1 := MemBackend.add_volume _ g).
    assert (Hwf1 : MemBackend.wf g1) by (by apply MemBackend.wf_add_volume).
    unfold MemBackend.apply_snapshot.
    assert (Hs1 : MemBackend.snaps_of g1 !! fv = Some ∅) by apply lookup_insert_eq.
    rewrite Hs1. cbn [default from_option id].
    eexists. split; [reflexivity|]. split.
    + by apply MemBackend.wf_insert_snap.
    + exists fv. eexists. split_and!.
      * apply MemBackend.find_volume_Some; [by apply MemBackend.wf_insert_snap|].
        eexists. split; [apply lookup_insert_eq|done].
      * apply lookup_insert_eq.
      * intros n. rewrite has_name_insert, (sent_one_more 0) by done.
        assert (Hno : MemBackend.has_name n (∅ : gmap SnapshotUuid Snapshot) = true <-> False).
        { rewrite MemBackend.has_name_true. split; [|done]. intros (? & ? & H & _). discriminate H. }
        assert (Hno' : (exists i, (1 <= i <= 0)%nat /\ n = snapshot_name u i) <-> False).
        { split; [|done]. intros (i & Hi & _). clear -Hi. lia. }
        by rewrite Hno, Hno'.
  - destruct Hcopy as (du & have & Hdu & Hhave & Hnames). rewrite Hdu. cbn [last_sent].
    rewrite Hhave. cbn [default from_option id].
    assert (Hbase : MemBackend.has_name (snapshot_name u (S k)) have = true).
    { apply Hnames. exists (S k). split; [lia|done]. }
    assert (Hnew : MemBackend.has_name (snapshot_name u (S (S k))) have = false).
    { apply not_true_iff_false. intros E. apply Hnames in E as (i & Hi & E).
      apply snapshot_name_inj in E. lia. }
    rewrite Hbase. unfold MemBackend.apply_snapshot. rewrite Hhave. cbn [default from_option id MemBackend.rs_snapshot].
    rewrite Hnew. eexists. split; [reflexivity|].
    assert (Hwf' : MemBackend.wf (MemBackend.set_snaps du
      (<[fs := mkSnapshot fs (snapshot_name u (S (S k))) None 0]> have) g)).
    { apply MemBackend.wf_insert_snap; [done|done|done|exact (Hfs _ _ Hhave)]. }
    split; [done|]. exists du. eexists. split_and!.
    + apply MemBackend.find_volume_Some; [done|].
      by apply MemBackend.find_volume_Some in Hdu.
    + apply lookup_insert_eq.
    + intros n. rewrite has_name_insert, (sent_one_more (S k)), Hnames by exact (Hfs _ _ Hhave). done.
Qed.

(** The next stream reaches the peer and is applied there. *)
Lemma stream_delivered k address (n : Remote) :
  MemBackend.sendable v -> copy k (SnapMirror.backend (remote n)) ->
  peer_token_valid token (mirror (remote n)) = true -> replication_url address = listens_at n ->
  exists z n',
    post_replication_stream address token dest (snapshot_name u (S k)) (last_sent k)
      (cursor (stream k)) n = (Ok z, n') /\
    copy (S k) (SnapMirror.backend (remote n')) /\
    mirror (remote n') = mirror (remote n) /\ listens_at n' = listens_at n.
Proof.
  intros Hsend Hcopy Htok Hurl.
  destruct (copy_receive k (SnapMirror.backend (remote n)) (new_ids (SnapMirror.backend (remote n)) 0)
    (new_ids (SnapMirror.backend (remote n)) 1) Hsend Hcopy (new_volume_id _) (new_snapshot_id _))
    as (g' & Hrecv & Hcopy').
  unfold post_replication_stream. cbn [new_client send remote_network].
  unfold mret, M_ret, deliver. cbn [post_url post_headers post_body].
  rewrite Hurl, bool_decide_true by done. unfold internal_receive.
  set (hs := _ ++ _). assert (header_of hs (bs "x-replication-token") = Some token) as -> by reflexivity.
  rewrite Htok. cbn [negb].
  assert (header_of hs (bs "x-destination-volume") = Some dest) as -> by reflexivity.
  change (as_snapshot ≫= fun _ => as_replication) with (Some (MemBackend.mem_replication_backend debug)).
  cbn iota beta. unfold on_backend, rb_receive_stream. cbn [MemBackend.mem_replication_backend].
  rewrite Hrecv. cbn [status ok_json body]. rewrite bool_decide_true by done.
  eexists _, _. split; [reflexivity|]. done.
Qed.

(** C23. SnapMirror keeps the snapshots of two daemons in step, by name: over the in-memory
    backend, which holds no file data, if the destination volume has exactly the snapshots
    of the first [k] transfers (none, and no volume, at first), the relationship's base is
    the last of them and no transfer is running, then a transfer succeeds, and leaves the
    destination with exactly the first [k + 1], the base at the new one, and no transfer
    running. *)
Theorem transfer_keeps_in_sync k fresh now (s : App MemState Remote) :
  in_sync k s -> MemBackend.fresh_snap_in (fresh 8%nat) (SnapMirror.backend s) ->
  exists r s', create_transfer fresh now u s = (Some r, s') /\ status r = 201 /\ in_sync (S k) s'.
Proof.
  intros [((r & p & Hr & Hp & Hsrc & Hdst & Hidle & Hbase & Haddr & Htok & Hurl) & Hlen) Horig Hvalid Hcopy] Hfresh.
  destruct (original_snapshot k _ (fresh 8%nat) Horig Hfresh)
    as (g1 & Hsnap & Hwf1 & Hv1 & Hsend & snaps & Hs1 & Hmax & Hhas & Hlast).
  destruct (stream_delivered k (p_address p) (network s) Hsend Hcopy Hvalid Hurl)
    as (z & n' & Hpost & Hcopy' & Hmir & Hlisten).
  unfold create_transfer, on_mirror at 1, begin_transfer. rewrite Hr, Hidle, Hlen.
  set (m1 := with_relationship u (set_in_progress true) (mirror s)).
  assert (Hr1 : relationships m1 !! u = Some (set_in_progress true r)) by (simpl; by rewrite lookup_alter_eq, Hr).
  cbn [run_phases transfer_phase]. unfold on_backend at 1. cbn [SnapMirror.backend].
  rewrite Hsrc. change (2 * 4 + 0)%nat with 8%nat. rewrite Hsnap. cbn [transfer_phase mirror SnapMirror.backend network].
  assert (transfer_target u m1 = Some (dest, p_address p, token, last_sent k)) as ->.
  { unfold transfer_target. rewrite Hr1. change (peers m1) with (peers (mirror s)).
    cbn [mbind option_bind r_peer_uuid set_in_progress]. rewrite Hp. cbn [mbind option_bind].
    rewrite bool_decide_false by done. cbn [r_destination_path r_base set_in_progress].
    by rewrite Hdst, Hbase, Htok. }
  cbn [transfer_phase]. unfold stream_to_peer.
  change (as_snapshot ≫= fun _ => as_replication) with (Some (MemBackend.mem_replication_backend debug)).
  cbn iota beta. unfold on_backend, rb_send_stream. cbn [MemBackend.mem_replication_backend SnapMirror.backend].
  rewrite (MemBackend.send_stream_ok debug vol v snaps _ _ _ Hv1 Hs1 Hhas Hlast).
  cbn [network mirror SnapMirror.backend]. fold (stream k). rewrite Hpost.
  cbn [transfer_phase mirror SnapMirror.backend network on_mirror].
  set (m2 := with_relationship u _ m1).
  assert (Hr2 : relationships m2 !! u =
    Some (set_base (Some (snapshot_name u (S k))) (mark_mirrored (set_in_progress true r)))).
  { unfold m2. simpl. rewrite lookup_alter_eq. change (alter _ u _) with (relationships m1). by rewrite Hr1. }
  cbn [snd mirror SnapMirror.backend network].
  rewrite Hr2. eexists _, _. split; [reflexivity|]. split; [done|].
  cbn [on_mirror snd mirror SnapMirror.backend network].
  split; cbn [mirror SnapMirror.backend network].
  - split.
    + eexists _, p. split; [simpl; rewrite lookup_alter_eq; change (alter _ u (alter _ u _)) with (relationships m2);
        by rewrite Hr2|].
      rewrite Hlisten. unfold mark_mirrored. destruct (operator_state _); by split_and!.
    + simpl. rewrite lookup_insert_eq. cbn [default from_option id]. rewrite length_app. cbn [length]. lia.
  - split_and!; [done..|]. exists snaps. split_and!; [done|done|exact Hhas].
  - by rewrite Hmir.
  - exact Hcopy'.
Qed.
End relationship.
End mirror.
