(* ===== verification/ControlExample.v ===== *)
(** The control plane on concrete values: a path matcher, a session of requests, and two
    daemons in step. *)

From Stdlib Require Import ZArith Lia.
From stdpp Require Import base option gmap list.
From S2P Require Import Prelude Text Errors Volume Json Ontap Rest SnapMirror ControlPlane ControlLaws RestMem Mirror.
From S2P Require MemBackend.

Local Open Scope Z_scope.
Local Open Scope json_scope.

(** ** A path matcher *)

Module SegmentMatcher.
Definition slash : byte := z2b 47.

Fixpoint until_slash (s : text) : text * text :=
  match s with
  | [] => ([], [])
  | b :: s' => if bool_decide (b = slash) then ([], s)
               else let '(l, r) := until_slash s' in (b :: l, r)
  end.

(** A [:name] takes what comes before the next slash, if anything. *)
Fixpoint segments (fuel : nat) (pat path : text) : option (list text) :=
  match fuel with
  | O => None
  | S fuel =>
      match pat with
      | [] => if bool_decide (path = []) then Some [] else None
      | c :: pat' =>
          if bool_decide (c = colon) then
            let '(value, rest) := until_slash path in
            if bool_decide (value = []) then None
            else l ← segments fuel (until_slash pat').2 rest; Some (value :: l)
          else
            match path with
            | b :: path' => if bool_decide (b = c) then segments fuel pat' path' else None
            | [] => None
            end
      end
  end.

#[export] Instance matcher : PathMatcher := {|
  match_path pat path := segments (S (length pat)) pat path
|}.

Lemma segments_prefix fuel pat path l :
  segments fuel pat path = Some l ->
  starts_with (literal_prefix pat) path = true /\ (colon ∉ pat -> path = pat).
Proof.
  revert pat path l. induction fuel as [|fuel IH]; intros pat path l; [done|].
  cbn [segments]. destruct pat as [|c pat].
  - case_bool_decide; [subst|done]. by split.
  - case_bool_decide as Hc.
    + subst c. intros _. split; [|set_solver]. done.
    + destruct path as [|b path]; [done|]. case_bool_decide as Hb; [subst b|done]. intros H.
      apply IH in H as [H1 H2]. split.
      * unfold literal_prefix in *. simpl. rewrite decide_False by done.
        destruct (split_once colon pat) as [[l1 r1]|]; cbn [mbind option_bind]; simpl;
          by rewrite bool_decide_true.
      * intros Hn. f_equal. apply H2. set_solver.
Qed.

#[export] Instance matcher_laws : MatcherLaws matcher.
Proof. split. intros pat path l. apply segments_prefix. Qed.
End SegmentMatcher.

(** ** A session *)

Module ControlExample.
Import TallyTexts SegmentMatcher.

(** Headers are ASCII already, and base64 is taken as decoded. *)
Definition as_is (s : text) : option text := Some s.
Definition no_trim (s : text) : text := s.

Definition env : Env := mkEnv
  (mkConfig (bs "nessie") (bs "svm0") (bs "9.14.1") (bs "4048820-60-9") (bs "10.0.0.5")
     (bs "admin") (bs "secret"))
  (mkIdentity (bs "c") (bs "s") (bs "n") (bs "a") (bs "l")).

Definition ids (i : nat) : Uuid := N.of_nat (5 + i).

Abbreviation Daemon := (App MemState Idle).

Definition blank : Daemon := mkApp MemBackend.empty empty idle.

Definition ask (m : method) (path : text) (credentials : option text) (b : Value) : Request :=
  mkRequest m path ∅ credentials (fun _ => None) b [].

Definition admin : option text := Some (bs "Basic admin:secret").

Definition run (rq : Request) (s : Daemon) : option Response * Daemon :=
  app as_is no_trim as_is env ids 0 (bs "now") rq s.

Definition make_home : Request :=
  ask POST (bs "/api/storage/volumes") admin (Object ["name" =: String (bs "home")]).

(** Made, refused the second time, fetched, and refused without the password. *)
Example session :
  let '(r1, s1) := run make_home blank in
  let '(r2, s2) := run make_home s1 in
  let '(r3, s3) := run (ask GET (bs "/api/storage/volumes/" ++ uuid_text (ids 0)) admin Null) s2 in
  let '(r4, s4) := run (ask DELETE (bs "/api/storage/volumes/" ++ uuid_text (ids 0))
    (Some (bs "Basic admin:guess")) Null) s3 in
  status <$> [default (ok_json Null) r1; default (ok_json Null) r2; default (ok_json Null) r3;
              default (ok_json Null) r4] = [201; 409; 200; 401] /\
  s2 = s1 /\ s4 = s1.
Proof. vm_compute. split; [reflexivity|]. split; reflexivity. Qed.

Theorem changes_are_authorized_witness :
  let rq := ask POST (bs "/internal/snapmirror/receive") None Null in
  let '(r, s') := run rq blank in
  presents_credentials as_is no_trim as_is (config env) (rq_authorization rq) \/
  (rq_path rq ∈ BYPASS /\
   (s' = blank \/
    mirror s' = mirror blank /\ exists token u p,
      rq_header rq (bs "x-replication-token") = Some token /\ token <> [] /\
      peers (mirror blank) !! u = Some p /\ p_token p = token)) \/
  ((~ rq_path rq ∈ BYPASS) /\ s' = blank /\ exists r0, r = Some r0 /\ status r0 = 401).
Proof.
  intros rq. destruct (run rq blank) as [r s'] eqn:E.
  exact (changes_are_authorized as_is no_trim as_is env ids 0 (bs "now") rq blank r s' E).
Defined.

(** A refused duplicate. *)
Theorem rest_failure_changes_nothing_witness :
  let h := create_volume env ids (Object ["name" =: String (bs "home")]) in
  MemBackend.wf MemBackend.MemBackendExample.one /\
  status (api h MemBackend.MemBackendExample.one).1 = 409 /\
  (api h MemBackend.MemBackendExample.one).2 = MemBackend.MemBackendExample.one.
Proof.
  intros h. assert (Hwf : MemBackend.wf MemBackend.MemBackendExample.one).
  { apply MemBackend.wf_add_volume; [apply MemBackend.wf_empty|reflexivity|set_solver]. }
  assert (Hst : status (api h MemBackend.MemBackendExample.one).1 = 409) by (vm_compute; reflexivity).
  assert (Hreq : rest_request env 0 MemBackend.MemBackendExample.one h)
    by (apply rest_create_volume; reflexivity).
  split; [exact Hwf|]. split; [exact Hst|].
  destruct (api h MemBackend.MemBackendExample.one) as [r g'] eqn:E. cbn [fst snd] in *.
  destruct (rest_failure_changes_nothing env 0 MemBackend.MemBackendExample.one h r g' Hwf Hreq E) as (_ & Hsame & _).
  apply Hsame. rewrite Hst. lia.
Defined.

Theorem created_volume_is_served_witness :
  let b := Object ["name" =: String (bs "home"); "size" =: Number 4096] in
  let '(r, g') := api (create_volume env ids b) MemBackend.empty in
  status r = 201 /\
  exists vol, nonempty_name b = Some (v_name vol) /\
    headers r = [(bs "location", volumes_path ++ bs "/" ++ uuid_text (ids 0))] /\
    get (bs "record") (body r) = Some (volume_record_value (volume_record vol (svm_ref env))) /\
    api (get_volume env (uuid_text (ids 0))) g' =
      (ok_json (volume_record_value (volume_record vol (svm_ref env))), g').
Proof.
  intros b. destruct (api (create_volume env ids b) MemBackend.empty) as [r g'] eqn:E.
  assert (Hs : status r = 201).
  { change r with (r, g').1. rewrite <- E. vm_compute. reflexivity. }
  split; [exact Hs|]. exact (created_volume_is_served env ids b MemBackend.empty r g' E Hs).
Defined.

(** ** A transfer that is running *)

Definition make_mirror : Value :=
  Object ["source" =: Object ["path" =: String (bs "svm0:home")];
          "destination" =: Object ["path" =: String (bs "svm0:copy")]].

Definition rel_id : text := uuid_text (ids 0).

Definition linked_daemon : Daemon :=
  (on_mirror (create_relationship env ids make_mirror) blank).2.

Definition busy : World := mkWorld
  (on_mirror (begin_transfer rel_id) linked_daemon).2
  {[ 0%nat := (rel_id, PSnapshot (bs "svm0:home") (snapshot_name rel_id 1)) ]}.

Lemma busy_reachable : world_reachable busy.
Proof.
  apply (world_next (mkWorld linked_daemon ∅)).
  - apply (world_next (mkWorld blank ∅)); [apply world_start|].
    apply (step_request (mkWorld blank ∅) (create_relationship env ids make_mirror)
      (on_mirror (create_relationship env ids make_mirror) blank).1); [|vm_compute; reflexivity].
    apply request_create. split; [reflexivity|]. intros t u' p Hp. discriminate Hp.
  - apply (step_begin (mkWorld linked_daemon ∅) 0%nat rel_id); [reflexivity|]. vm_compute. reflexivity.
Qed.

Theorem one_transfer_at_a_time_witness :
  world_reachable busy /\ is_Some (relationships (mirror (daemon busy)) !! rel_id) /\
  match (begin_transfer rel_id (mirror (daemon busy))).1 with
  | inl refused => status refused = 409 /\ exists t p, running busy !! t = Some (rel_id, p)
  | inr _ => forall t p, running busy !! t <> Some (rel_id, p)
  end.
Proof.
  assert (Hr : is_Some (relationships (mirror (daemon busy)) !! rel_id)) by (vm_compute; eexists; reflexivity).
  split; [exact busy_reachable|]. split; [exact Hr|]. destruct Hr as [r Hr].
  exact (proj2 (one_transfer_at_a_time busy rel_id r busy_reachable Hr)).
Defined.

(** ** Two daemons in step *)

Definition the_peer : Peer := mkPeer (bs "p") (bs "other") (bs "10.0.0.6") (bs "token").

Definition the_link : Relationship := mkRelationship rel_id (bs "svm0:home") (bs "svm0:copy") (bs "p")
  (bs "MirrorAllSnapshots") (bs "snapmirrored") true None false.

Definition source_daemon : App MemBackend.Inner Remote := mkApp
  MemBackend.MemBackendExample.one
  (mkInner {[bs "p" := the_peer]} {[rel_id := the_link]} ∅)
  (mkRemote (bs "https://10.0.0.6/internal/snapmirror/receive")
     (mkApp MemBackend.empty (mkInner {[bs "q" := the_peer]} ∅ ∅) idle)).

Definition home_id : VolumeUuid := 1%N.

Lemma source_in_sync :
  in_sync rel_id home_id MemBackend.MemBackendExample.home (bs "copy") (bs "token") 0 source_daemon.
Proof.
  split.
  - split; [|reflexivity]. exists the_link, the_peer. by split_and!.
  - split; [apply MemBackend.wf_add_volume; [apply MemBackend.wf_empty|reflexivity|set_solver]|].
    split; [reflexivity|]. split; [apply MemBackend.MemBackendExample.home_sendable|].
    exists ∅. split_and!; [reflexivity| |done]. intros i Hi.
    apply MemBackend.has_name_true in Hi as (k & s & Hk & _). discriminate Hk.
  - apply peer_token_valid_spec. split; [done|]. by exists (bs "q"), the_peer.
  - split; [apply MemBackend.wf_empty|]. apply not_elem_of_empty.
Qed.

Theorem transfer_keeps_in_sync_witness :
  in_sync rel_id home_id MemBackend.MemBackendExample.home (bs "copy") (bs "token") 0 source_daemon /\
  exists r s', create_transfer ids (bs "now") rel_id source_daemon = (Some r, s') /\ status r = 201 /\
    in_sync rel_id home_id MemBackend.MemBackendExample.home (bs "copy") (bs "token") 1 s'.
Proof.
  assert (Hp : printable rel_id) by (repeat constructor).
  assert (Hf : MemBackend.fresh_snap_in (ids 8) (backend source_daemon)).
  { apply (bool_decide_unpack _). vm_compute. exact I. }
  split; [exact source_in_sync|].
  exact (transfer_keeps_in_sync rel_id home_id MemBackend.MemBackendExample.home (bs "copy")
    (bs "token") Hp 0 ids (bs "now") source_daemon source_in_sync Hf).
Defined.

(** Two transfers, evaluated: both snapshots are on the other side. *)
Example two_transfers :
  let '(r1, s1) := create_transfer ids (bs "now") rel_id source_daemon in
  let '(r2, s2) := create_transfer (fun i => ids (20 + i)) (bs "later") rel_id s1 in
  (status <$> r1, status <$> r2) = (Some 201, Some 201) /\
  (fun kv => s_name <$> (map_to_list kv.2).*2) <$>
    map_to_list (MemBackend.snaps_of (backend (remote (network s2)))) =
    [[snapshot_name rel_id 2; snapshot_name rel_id 1]].
Proof. vm_compute. split; reflexivity. Qed.

(** A transfer that is dropped after its snapshot leaves no record, so the next one wants
    the same snapshot name and fails. *)
Example dropped_transfer_fails_the_next :
  let '(x, s1) := on_mirror (begin_transfer rel_id) source_daemon in
  match x with
  | inr p =>
      let '(_, s2) := transfer_phase ids (bs "now") rel_id p s1 in
      let s3 := (on_mirror (fun g => ((), end_transfer rel_id g)) s2).2 in
      status <$> (create_transfer (fun i => ids (20 + i)) (bs "later") rel_id s3).1 = Some 500
  | inl _ => False
  end.
Proof. vm_compute. reflexivity. Qed.

(** A transfer that fails after its relationship was deleted leaves a record of it behind. *)
Example orphan_record :
  let s := mkApp MemBackend.empty (mkInner ∅ {[rel_id := the_link]} ∅) idle in
  let '(x, s1) := on_mirror (begin_transfer rel_id) s in
  let '(_, s2) := on_mirror (delete_relationship ids rel_id) s1 in
  match x with
  | inr p =>
      let '(_, s3) := transfer_phase ids (bs "now") rel_id p s2 in
      relationships (mirror s3) = ∅ /\ is_Some (transfers (mirror s3) !! rel_id)
  | inl _ => False
  end.
Proof. vm_compute. split; [reflexivity|eexists; reflexivity]. Qed.
End ControlExample.
