(* ===== verification/S3.v ===== *)
(** The S3 face of crates/nessie-s3/src: key.rs, error.rs and service.rs, over any
    content-addressed backend.

    s3s (the protocol, XML, signatures) is third party: a handler gets its input and gives
    its output or an error.  A request body is a [source]; a response body is what the
    sending task puts on the channel ([pump_all]), of a client that takes it all. *)

From Stdlib Require Import ZArith Lia.
From stdpp Require Import base option gmap list.
From S2P Require Import Prelude Ordered Sort Text Digest Errors Pump Cas Json Ontap.

Local Open Scope Z_scope.

Abbreviation text := (list byte).

Definition slash : byte := z2b 47.

(** ** Keys (key.rs) *)

Inductive ObjectKey :=
| KCas (d : Digest)
| KCompressed
| KNotContentAddressed.

#[export] Instance ObjectKey_eq_dec : EqDecision ObjectKey.
Proof. solve_decision. Defined.

Definition is_kind (segment : text) : bool :=
  bool_decide (segment ∈ [bs "cas"; bs "cas.v2"; bs "ac"; bs "raw"]).

Definition sha256_digest (hash : text) : option Digest :=
  if bool_decide (length hash <> 64%nat) || negb (forallb Hex.is_lower_hex hash) then None
  else res_ok (from_str (bs "sha2-256:" ++ hash)).

(** The last three segments, from the end ([rsplit('/')]). *)
Definition parse (key : text) : option ObjectKey :=
  match rev (split_on slash key) with
  | [] => None
  | hash :: segments =>
      let shard := segments !! 0%nat in
      let kind := segments !! 1%nat in
      let flat :=
        if existsb is_kind (option_list shard ++ option_list kind) then None
        else KCas <$> sha256_digest hash in
      match shard, kind with
      | Some shard, Some kind =>
          if bool_decide (length shard = 2%nat) && starts_with shard hash then
            if bool_decide (kind = bs "cas") then KCas <$> sha256_digest hash
            else if bool_decide (kind = bs "cas.v2") then Some KCompressed
            else if bool_decide (kind = bs "ac" \/ kind = bs "raw") then Some KNotContentAddressed
            else flat
          else flat
      | _, _ => flat
      end
  end.

(** ** Errors (error.rs) *)

Inductive S3ErrorCode :=
| NoSuchKey | InvalidDigest | NotImplemented | AccessDenied | InternalError
| ServiceUnavailable | InvalidRequest | IncompleteBody | Custom (code : text).

Record S3Error := mkS3Error {
  s3_code : S3ErrorCode; s3_message : option text; s3_status : option Z;
}.

(** [s3_error!(code, message)] and [s3_error!(code)] *)
Definition s3_error (code : S3ErrorCode) (message : text) : S3Error :=
  mkS3Error code (Some message) None.
Definition s3_error_bare (code : S3ErrorCode) : S3Error := mkS3Error code None None.

(** [rsplit_once(':')] of the text form, whose algorithm has no colon. *)
Definition etag_of (d : Digest) : text :=
  match rsplit_once Digest.colon (to_string d) with
  | Some (_, hex) => hex
  | None => to_string d
  end.

(** [cas/{xx}/{hex}] *)
Definition canonical_key (d : Digest) : text :=
  let hex := etag_of d in bs "cas/" ++ firstn 2 hex ++ bs "/" ++ hex.

(** [eq_ignore_ascii_case] *)
Definition eq_ignore_case (a b : text) : bool := bool_decide (Hex.to_lower <$> a = Hex.to_lower <$> b).

(** ** Listing pages *)

Definition MAX_KEYS : Z := 1000.

Definition entry : Type := text * Z * Digest.
Definition entry_key (e : entry) : text := e.1.1.

(** Keys with the prefix, after the given one, in order; at most [max]; and the last of
    them when more remain. *)
Definition list_page (blobs : list entry) (prefix : text) (after : option text) (max : nat) :
    list entry * option text :=
  let blobs := filter (fun e => starts_with prefix (entry_key e) = true) blobs in
  let blobs :=
    match after with
    | None => blobs
    | Some a => filter (fun e => klt a (entry_key e)) blobs
    end in
  let blobs := sort_on entry_key blobs in
  let truncated := bool_decide (max < length blobs)%nat && bool_decide (0 < max)%nat in
  let blobs := firstn max blobs in
  (blobs, if truncated then entry_key <$> last blobs else None).

Section s3.
Context {T : Texts}.

Definition s3_error_from_backend (e : BackendError) : S3Error :=
  match e with
  | CapacityExceeded _ _ _ =>
      mkS3Error (Custom (bs "InsufficientStorage")) (Some (display e)) (Some 507)
  | Underreplicated _ _ => s3_error ServiceUnavailable (display e)
  | BlobNotFound _ => s3_error NoSuchKey (display e)
  | InvalidArgument _ => s3_error InvalidDigest (display e)
  | FeatureNotSupported _ => s3_error NotImplemented (display e)
  | AttestationUnverified _ => s3_error AccessDenied (display e)
  | _ => s3_error InternalError (display e)
  end.

(** ** The face (service.rs) *)

(** [dyn Pins], sharing its state with the backend. *)
Class Pins (S : Type) := {
  pins_put_and_pin : Digest -> source -> S -> result BackendError () * S;
  pins_unpin : Digest -> M BackendError S ();
}.

Record NessieS3 (S : Type) := mkS3 { pins : option (Pins S); pin_on_put : bool }.
Arguments mkS3 {S}. Arguments pins {S}. Arguments pin_on_put {S}.

Context {S : Type} {B : CasBackend S}.
Implicit Types (face : NessieS3 S) (s : S).

Definition new : NessieS3 S := mkS3 None false.
Definition with_pins (p : Pins S) (on_put : bool) (face : NessieS3 S) : NessieS3 S :=
  mkS3 (Some p) on_put.

(** A backend call, its error as the face's. *)
Definition on_backend {A : Type} (op : M BackendError S A) : M S3Error S A := fun s =>
  let '(r, s) := op s in (map_err s3_error_from_backend r, s).

Definition unpin face (d : Digest) : M S3Error S () :=
  match pins face with
  | None => mret ()
  | Some p => on_backend (@pins_unpin S p d)
  end.

Definition digest_for_read (key : text) : result S3Error Digest :=
  match parse key with
  | Some (KCas d) => Ok d
  | _ => Err (s3_error NoSuchKey (bs "no content-addressed blob at " ++ debug key))
  end.

Definition size_of (d : Digest) : M S3Error S Z :=
  size ← on_backend (cas_size d);
  lift (ok_or size (s3_error NoSuchKey (bs "no blob for " ++ to_string d))).

Record PutObjectInput := mkPut {
  put_body : option source; put_key : text; put_metadata : option (gmap text text);
}.

Definition PIN_META : text := bs "nessie-pin".

Definition wants_pin face (req : PutObjectInput) : bool :=
  pin_on_put face ||
  match m ← put_metadata req; m !! PIN_META with
  | Some v => eq_ignore_case v (bs "true")
  | None => false
  end.

Definition digest_for_write (key : text) : result S3Error Digest :=
  match parse key with
  | Some (KCas d) => Ok d
  | Some KCompressed =>
      Err (s3_error InvalidRequest (debug key ++
        bs " is a framed blob whose bytes do not hash to its key; this store only accepts content-addressed writes — run the client with uncompressed storage (bazel-remote: --s3.storage_mode uncompressed)"))
  | Some KNotContentAddressed =>
      Err (s3_error NotImplemented (debug key ++
        bs " is keyed by something other than its own content; this face serves the content-addressed prefix only"))
  | None => Err (s3_error InvalidRequest (bs "unrecognized object key " ++ debug key))
  end.

(** The ETag of what was stored. *)
Definition put_object face (req : PutObjectInput) : M S3Error S text :=
  d ← lift (digest_for_write (put_key req));
  b ← lift (ok_or (put_body req) (s3_error_bare IncompleteBody));
  let write : M BackendError S () :=
    match (if wants_pin face req then pins face else None) with
    | Some p => @pins_put_and_pin S p d b
    | None => fun s => let '(r, _, s) := cas_put_keyed d b s in (r, s)
    end in
  _ ← on_backend write;
  mret (etag_of d).

Record GetObjectOutput := mkGet {
  get_body : list (result io_error (list byte)); get_length : Z; get_etag : text;
}.

(** The sending task. *)
Definition send_blob (d : Digest) : M S3Error S (list (result io_error (list byte))) := fun s =>
  match cas_get d s with
  | (Ok reader, s) => (Ok (pump_all None reader), s)
  | (Err e, s) => (Ok [Err (io_other (display e))], s)
  end.

Definition get_object (key : text) : M S3Error S GetObjectOutput :=
  d ← lift (digest_for_read key);
  size ← size_of d;
  body ← send_blob d;
  mret (mkGet body size (etag_of d)).

Definition delete_object face (key : text) : M S3Error S () :=
  match parse key with
  | Some (KCas d) => unpin face d
  | _ => mret ()
  end.

Definition head_object (key : text) : M S3Error S (Z * text) :=
  d ← lift (digest_for_read key);
  size ← size_of d;
  mret (size, etag_of d).

Record ListObjectsV2Input := mkList {
  li_bucket : text; li_prefix : option text; li_delimiter : option text;
  li_start_after : option text; li_continuation_token : option text; li_max_keys : option Z;
}.

Record Object := mkObject { obj_key : text; obj_size : Z; obj_etag : text; obj_last_modified : Z }.

Record ListObjectsV2Output := mkListed {
  lo_name : text; lo_prefix : option text; lo_max_keys : Z; lo_key_count : Z;
  lo_is_truncated : bool; lo_continuation_token : option text;
  lo_next_continuation_token : option text; lo_contents : list Object;
}.

Definition entry_of (b : LocalBlob) : entry := (canonical_key (lb_digest b), lb_size b, lb_digest b).
Definition object_of (e : entry) : Object := mkObject (entry_key e) e.1.2 (etag_of e.2) 0.

Definition list_objects_v2 (as_reclaimable : option (ReclaimableCas S)) (i : ListObjectsV2Input) :
    M S3Error S ListObjectsV2Output :=
  if bool_decide (default [] (li_delimiter i) <> []) then
    fail (s3_error NotImplemented (bs "ListObjectsV2 delimiter is not supported"))
  else
    rec ← lift (ok_or as_reclaimable
      (s3_error NotImplemented (bs "this store cannot enumerate its blobs")));
    local ← on_backend (@iter_local S rec);
    let blobs := entry_of <$> filter (fun b => algo (lb_digest b) = Sha256) local in
    let after :=
      match li_continuation_token i with Some t => Some t | None => li_start_after i end in
    let max :=
      match li_max_keys i with Some m => Z.max 0 (Z.min m MAX_KEYS) | None => MAX_KEYS end in
    let '(page, next) := list_page blobs (default [] (li_prefix i)) after (Z.to_nat max) in
    let contents := object_of <$> page in
    mret (mkListed (li_bucket i) (li_prefix i) max (zlen contents) (bool_decide (is_Some next))
      (li_continuation_token i) next contents).
End s3.
Arguments NessieS3 S : clear implicits.
