(* ===== verification/S3Laws.v ===== *)
(** What the S3 face promises: a key names one blob, what it serves is the blob the key
    names, and a client that follows the continuation tokens of a listing is given every
    blob once. *)

From Stdlib Require Import ZArith Lia.
From stdpp Require Import base option gmap list sorting.
From S2P Require Import Prelude Ordered Sort Text Digest Errors Pump Cas Json Ontap S3.

Local Open Scope Z_scope.

(** ** Keys *)

Lemma etag_hex d : etag_of d = Hex.encode (bytes d).
Proof.
  unfold etag_of, to_string. change (bs ":" ++ Hex.encode (bytes d)) with (Digest.colon :: Hex.encode (bytes d)).
  rewrite rsplit_once_app; [done|]. by apply Hex.hex_no.
Qed.

Lemma encode_inj l1 l2 : Hex.encode l1 = Hex.encode l2 -> l1 = l2.
Proof. intros E. pose proof (Hex.decode_encode l1) as H. rewrite E, Hex.decode_encode in H. congruence. Qed.

Lemma split_on_snoc c l r : split_on c (l ++ c :: r) = split_on c l ++ split_on c r.
Proof.
  induction l as [|b l IH]; simpl; [by rewrite decide_True|].
  case_decide; [by rewrite IH|]. rewrite IH.
  destruct (split_on c l) as [|p ps] eqn:E; [|done]. destruct l; simpl in E; [done|].
  repeat case_match; done.
Qed.

Lemma split_on_nonempty c s : split_on c s <> [].
Proof. destruct s; simpl; [done|]. repeat case_match; done. Qed.

Lemma join_on_snoc c l x :
  join_on c (l ++ [x]) = match l with [] => x | _ => join_on c l ++ c :: x end.
Proof.
  induction l as [|y l IH]; [done|]. destruct l as [|z l]; [done|].
  cbn [app join_on] in *. rewrite IH. by rewrite <- app_assoc.
Qed.

(** A digest named by 64 lower-case hexadecimal digits. *)
Lemma sha256_digest_Some hash d :
  sha256_digest hash = Some d -> digest_wf d /\ algo d = Sha256 /\ hash = Hex.encode (bytes d).
Proof.
  unfold sha256_digest. destruct (_ || _) eqn:Ec; [done|].
  apply orb_false_iff in Ec as [_ Hlow]. apply negb_false_iff in Hlow. rewrite forallb_forall in Hlow.
  destruct (from_str _) as [d'|] eqn:E; [|done]. intros [= ->].
  destruct (from_str_Ok _ _ E) as (Hwf & hex & Es & Eh). split; [done|].
  change (bs "sha2-256:" ++ hash) with (name Sha256 ++ Digest.colon :: hash) in Es.
  apply (f_equal (split_once Digest.colon)) in Es. rewrite !split_once_app in Es by apply name_no_colon.
  injection Es as En ->. split; [destruct (algo d); [vm_compute in En; discriminate|done]|].
  rewrite Eh. rewrite <- (list_fmap_id hex) at 1. apply list_fmap_ext. intros i c Hc. simpl.
  symmetry. apply Hex.to_lower_lower, Hlow, list_elem_of_In. by eapply list_elem_of_lookup_2.
Qed.

Lemma sha256_digest_encode d :
  digest_wf d -> algo d = Sha256 -> sha256_digest (Hex.encode (bytes d)) = Some d.
Proof.
  intros Hwf Ha. unfold sha256_digest. rewrite Hex.length_encode.
  assert (length (bytes d) = 32%nat) as -> by (unfold digest_wf in Hwf; by rewrite Hwf, Ha).
  rewrite bool_decide_false by (intros H; by apply H).
  assert (forallb Hex.is_lower_hex (Hex.encode (bytes d)) = true) as ->.
  { apply forallb_forall. intros c Hc. pose proof (Hex.encode_lower (bytes d)) as Hall.
    rewrite Forall_forall in Hall. apply Hall. by apply list_elem_of_In. }
  cbn [negb orb]. change (bs "sha2-256:") with (name Sha256 ++ bs ":").
  rewrite <- Ha, <- app_assoc. fold (to_string d). by rewrite from_str_to_string.
Qed.

(** What is before a key: nothing, or a path. *)
Definition is_prefix (p : text) : Prop := p = [] \/ exists q, p = q ++ [slash].

Lemma parse_last key d :
  parse key = Some (KCas d) ->
  exists hash p, key = p ++ hash /\ is_prefix p /\ sha256_digest hash = Some d.
Proof.
  unfold parse. destruct (rev (split_on slash key)) as [|hash segs] eqn:E; [done|].
  assert (Hkey : key = join_on slash (rev segs ++ [hash])).
  { rewrite <- (join_split_on slash key). f_equal. rewrite <- (rev_involutive (split_on slash key)), E.
    done. }
  intros Hp. assert (Hd : sha256_digest hash = Some d).
  { destruct (segs !! 0%nat), (segs !! 1%nat);
      repeat (case_match || (progress simplify_eq/=)); try done;
      destruct (sha256_digest hash); simpl in *; congruence. }
  exists hash. rewrite join_on_snoc in Hkey. destruct (rev segs) as [|x l].
  - exists []. split; [done|]. split; [by left|done].
  - exists (join_on slash (x :: l) ++ [slash]). rewrite <- app_assoc. split; [done|].
    split; [right; by eexists|done].
Qed.

Lemma parse_canonical p d :
  is_prefix p -> digest_wf d -> algo d = Sha256 -> parse (p ++ canonical_key d) = Some (KCas d).
Proof.
  intros Hp Hwf Ha. unfold canonical_key. rewrite etag_hex. set (hex := Hex.encode (bytes d)).
  assert (Hlen : length hex = 64%nat).
  { unfold hex. rewrite Hex.length_encode. unfold digest_wf in Hwf. by rewrite Hwf, Ha. }
  assert (Hns : slash ∉ hex) by (by apply Hex.hex_no).
  assert (Hx : slash ∉ firstn 2 hex) by (intros Hin; apply Hns; by eapply subseteq_take).
  set (tail := bs "cas/" ++ firstn 2 hex ++ bs "/" ++ hex).
  assert (Htail : split_on slash tail = [bs "cas"; firstn 2 hex; hex]).
  { unfold tail. change (bs "cas/" ++ ?x) with (bs "cas" ++ slash :: x). rewrite split_on_app by (by vm_compute; set_solver).
    change (bs "/" ++ hex) with (slash :: hex). rewrite split_on_app by done. by rewrite split_on_nosep. }
  assert (Hrev : exists more, rev (split_on slash (p ++ tail)) = hex :: firstn 2 hex :: bs "cas" :: more).
  { destruct Hp as [->|[q ->]]; [exists []; cbn [app]; by rewrite Htail|].
    rewrite <- app_assoc. cbn [app]. rewrite split_on_snoc, Htail, rev_app_distr. by eexists. }
  destruct Hrev as [more Hrev]. unfold parse. rewrite Hrev. cbn [lookup list_lookup].
  rewrite length_firstn, Hlen. rewrite (bool_decide_true (Nat.min 2 64 = 2%nat)) by done.
  assert (starts_with (firstn 2 hex) hex = true) as ->.
  { rewrite <- (firstn_skipn 2 hex) at 2. apply starts_with_app. }
  cbn [andb]. rewrite bool_decide_true by done. unfold hex. by rewrite sha256_digest_encode.
Qed.

Lemma canonical_key_inj d1 d2 :
  algo d1 = Sha256 -> algo d2 = Sha256 -> canonical_key d1 = canonical_key d2 -> d1 = d2.
Proof.
  unfold canonical_key. rewrite !etag_hex. intros H1 H2 E.
  assert (Hlast : forall d, rsplit_once slash (bs "cas/" ++ firstn 2 (Hex.encode (bytes d)) ++ bs "/" ++ Hex.encode (bytes d))
    = Some (bs "cas/" ++ firstn 2 (Hex.encode (bytes d)), Hex.encode (bytes d))).
  { intros d. change (bs "/" ++ Hex.encode (bytes d)) with (slash :: Hex.encode (bytes d)).
    rewrite app_assoc. apply rsplit_once_app. by apply Hex.hex_no. }
  apply (f_equal (rsplit_once slash)) in E. rewrite !Hlast in E. injection E as _ E.
  apply encode_inj in E. destruct d1, d2. simpl in *. congruence.
Qed.

(** A key names one blob and every blob has its key: a key read as content-addressed
    ends in the 64 lower-case hexadecimal digits of the digest it is read as, which is a
    SHA-256 digest; and under any path, the canonical key of a SHA-256 digest is read back
    as that digest. *)
Theorem key_names_one_blob (key p : text) (d : Digest) :
  (parse key = Some (KCas d) ->
   digest_wf d /\ algo d = Sha256 /\
   exists q, is_prefix q /\ key = q ++ Hex.encode (bytes d)) /\
  (is_prefix p -> digest_wf d -> algo d = Sha256 -> parse (p ++ canonical_key d) = Some (KCas d)).
Proof.
  split; [|apply parse_canonical]. intros (hash & q & -> & Hq & Hd)%parse_last.
  destruct (sha256_digest_Some _ _ Hd) as (Hwf & Ha & ->). eauto.
Qed.

Section face.
Context {T : Texts} {S : Type} {Hs : Hashers} {B : CasBackend S} {R : ReclaimableCas S}
  {V : CasModel S} {L : CasLaws S}.
Implicit Types (s : S) (i : ListObjectsV2Input).

(** ** Serving *)

Lemma on_backend_Ok {A} (op : M BackendError S A) s a s' :
  on_backend op s = (Ok a, s') <-> op s = (Ok a, s').
Proof. unfold on_backend. destruct (op s) as [[x|e] s1]; simpl; split; congruence. Qed.

Lemma size_of_spec d s r s' :
  cas_valid s -> size_of d s = (r, s') ->
  same_content s s' /\ cas_valid s' /\ forall n, r = Ok n -> zlen <$> held s !! d = Some n.
Proof.
  intros Hv E. destruct (law_size d s Hv) as [Hspec Hv']. unfold size_spec in Hspec.
  unfold size_of, mbind, M_bind, on_backend, lift in E.
  destruct (cas_size d s) as [[n|e] s1]; simpl in *; destruct Hspec as [Hsame Hn]; simplify_eq/=.
  - split_and!; [done..|]. intros m Hm. apply ok_or_Ok in Hm. congruence.
  - split_and!; done.
Qed.

(** C25. What is served is what the key names: a GetObject changes nothing, and when it is
    answered, the key names a blob the store holds, Content-Length is its length and the
    ETag its digest; the body is its bytes, which hash to the digest, in chunks of at most
    64 KiB; or a prefix of them and an interrupted read; or an error alone, when the store
    refuses the blob after it gave the length. *)
Theorem served_is_what_the_key_names key s r s' :
  cas_valid s -> get_object key s = (r, s') ->
  same_content s s' /\
  forall out, r = Ok out -> exists d data,
    parse key = Some (KCas d) /\ held s !! d = Some data /\
    get_length out = zlen data /\ get_etag out = Hex.encode (bytes d) /\
    (verify d data = true /\ delivered data (get_body out) \/ exists e, get_body out = [Err e]).
Proof.
  intros Hv E. unfold get_object, digest_for_read in E. unfold mbind, M_bind, lift in E.
  destruct (parse key) as [[d| |]|] eqn:Ek; try (by injection E as <- <-; split; [split|]).
  destruct (size_of d s) as [[n|e] s1] eqn:Es; destruct (size_of_spec _ _ _ _ Hv Es) as (Hs1 & Hv1 & Hn);
    [|by injection E as <- <-].
  specialize (Hn n eq_refl). unfold send_blob in E.
  destruct (law_get d s1 Hv1) as [Hget _]. unfold get_spec in Hget.
  destruct Hs1 as [Hh Hq]. rewrite Hh in Hget.
  destruct (held s !! d) as [data|] eqn:Ed; [|done]. injection Hn as <-.
  destruct (cas_get d s1) as [[src|e] s2]; destruct Hget as [[Hh2 Hq2] Hget];
    injection E as <- <-; (split; [split; congruence|]); intros out [= <-]; exists d, data;
    cbn [get_length get_etag get_body]; rewrite etag_hex; split_and!; try done.
  - left. destruct Hget as (data' & [= <-] & Hver & Hread). split; [done|].
    by apply (pump_all_delivers None _ _ _ I Hread).
  - right. by eexists.
Qed.

(** ** Listing *)

(** A client that asks for the next page for as long as there is one. *)
Definition next_page i (t : text) : ListObjectsV2Input :=
  mkList (li_bucket i) (li_prefix i) (li_delimiter i) (li_start_after i) (Some t) (li_max_keys i).

Fixpoint list_all (fuel : nat) i s : option (result S3Error (list ListObjectsV2Output)) * S :=
  match fuel with
  | O => (None, s)
  | Datatypes.S fuel =>
      match list_objects_v2 (Some R) i s with
      | (Err e, s) => (Some (Err e), s)
      | (Ok out, s) =>
          match lo_next_continuation_token out with
          | None => (Some (Ok [out]), s)
          | Some t =>
              let '(r, s) := list_all fuel (next_page i t) s in
              (fmap (M := result S3Error) (cons out) <$> r, s)
          end
      end
  end.

(** The blobs a listing may show, in any order. *)
Definition listable s : list entry :=
  (fun kv => (canonical_key kv.1, zlen kv.2, kv.1)) <$>
    filter (fun kv => algo kv.1 = Sha256) (map_to_list (held s)).

Lemma listable_keys s : NoDup (entry_key <$> listable s).
Proof.
  unfold listable. rewrite <- list_fmap_compose.
  assert (Hn : NoDup (fst <$> filter (fun kv => algo kv.1 = Sha256) (map_to_list (held s)))).
  { eapply sublist_NoDup; [apply (NoDup_fst_map_to_list (held s))|]. apply fmap_sublist, sublist_filter. }
  assert (Ha : Forall (fun kv => algo kv.1 = Sha256) (filter (fun kv => algo kv.1 = Sha256) (map_to_list (held s)))).
  { apply Forall_forall. intros kv. by intros [? _]%list_elem_of_filter. }
  revert Hn Ha. generalize (filter (fun kv : Digest * list byte => algo kv.1 = Sha256) (map_to_list (held s))).
  induction l as [|kv l IH]; csimpl; [constructor|].
  intros [Hk Hn]%NoDup_cons [Ha Hl]%Forall_cons. constructor; [|auto].
  intros (kv' & E & Hin)%list_elem_of_fmap. apply Hk. cbn in E.
  rewrite Forall_forall in Hl. rewrite (canonical_key_inj _ _ Ha (Hl _ Hin) E).
  by apply list_elem_of_fmap_2.
Qed.

Lemma entries_listable (local : list LocalBlob) s :
  local ≡ₚ (fun kv => mkLocalBlob kv.1 (zlen kv.2)) <$> map_to_list (held s) ->
  entry_of <$> filter (fun b => algo (lb_digest b) = Sha256) local ≡ₚ listable s.
Proof.
  intros ->. unfold listable. rewrite filter_of_fmap, <- list_fmap_compose. done.
Qed.

Definition has_prefix i (e : entry) : Prop := starts_with (default [] (li_prefix i)) (entry_key e) = true.
Definition after_of i : option text :=
  match li_continuation_token i with Some t => Some t | None => li_start_after i end.
Definition is_after (a : option text) (e : entry) : Prop :=
  match a with Some a => klt a (entry_key e) | None => True end.
#[local] Instance is_after_dec a e : Decision (is_after a e).
Proof. destruct a; simpl; apply _. Defined.
#[local] Instance has_prefix_dec i e : Decision (has_prefix i e).
Proof. unfold has_prefix. apply _. Defined.

(** The whole listing: in order, after the point the client starts at. *)
Definition full i s : list entry :=
  filter (is_after (after_of i)) (sort_on entry_key (filter (has_prefix i) (listable s))).

Definition page_limit i : nat :=
  Z.to_nat (match li_max_keys i with Some m => Z.max 0 (Z.min m MAX_KEYS) | None => MAX_KEYS end).

Lemma full_sorted i s : StronglySorted klt (entry_key <$> full i s).
Proof.
  apply ascending_filter, sort_on_strict. eapply sublist_NoDup; [apply (listable_keys s)|].
  apply fmap_sublist, sublist_filter.
Qed.

Lemma list_page_full i s (blobs : list entry) :
  blobs ≡ₚ listable s ->
  list_page blobs (default [] (li_prefix i)) (after_of i) (page_limit i) =
  (firstn (page_limit i) (full i s),
   if bool_decide (page_limit i < length (full i s))%nat && bool_decide (0 < page_limit i)%nat
   then entry_key <$> last (firstn (page_limit i) (full i s)) else None).
Proof.
  intros Hp. unfold list_page.
  set (P := filter (fun e => starts_with _ (entry_key e) = true) blobs).
  assert (HP : filter (has_prefix i) (listable s) ≡ₚ P).
  { unfold P. by rewrite Hp. }
  assert (Hn : NoDup (entry_key <$> filter (has_prefix i) (listable s))).
  { eapply sublist_NoDup; [apply (listable_keys s)|]. apply fmap_sublist, sublist_filter. }
  assert (sort_on entry_key (match after_of i with None => P
    | Some a => filter (fun e => klt a (entry_key e)) P end) = full i s) as ->; [|done].
  unfold full. rewrite <- (sort_on_filter entry_key _ _ P Hn HP).
  destruct (after_of i) as [a|]; simpl; [done|]. f_equal. symmetry. apply filter_keep.
  by apply Forall_forall.
Qed.

Lemma list_objects_page i s r s' :
  cas_valid s -> default [] (li_delimiter i) = [] -> list_objects_v2 (Some R) i s = (r, s') ->
  same_content s s' /\ cas_valid s' /\
  forall out, r = Ok out ->
    lo_contents out = object_of <$> firstn (page_limit i) (full i s) /\
    lo_key_count out = zlen (lo_contents out) /\
    lo_is_truncated out = bool_decide (is_Some (lo_next_continuation_token out)) /\
    lo_next_continuation_token out =
      if bool_decide (page_limit i < length (full i s))%nat && bool_decide (0 < page_limit i)%nat
      then entry_key <$> last (firstn (page_limit i) (full i s)) else None.
Proof.
  intros Hv Hd E. unfold list_objects_v2 in E. rewrite bool_decide_false in E by (intros H; by apply H).
  cbn [ok_or] in E. unfold mbind at 1, M_bind at 1, lift at 1 in E. cbn beta iota in E.
  destruct (law_iter_local s Hv) as [Hspec Hv']. unfold iter_local_spec in Hspec.
  unfold mbind, M_bind, on_backend in E.
  destruct (iter_local s) as [[local|e] s1]; destruct Hspec as [Hsame Hl]; cbn [map_err] in E;
    [|injection E as <- <-; by split_and!].
  fold (after_of i) (page_limit i) in E.
  rewrite (list_page_full i s) in E by (by apply entries_listable).
  injection E as <- <-. split_and!; [done..|]. by intros out [= <-].
Qed.

Lemma full_content i s s' : held s' = held s -> full i s' = full i s.
Proof. intros E. unfold full, listable. by rewrite E. Qed.

(** The page after the one that ended at [t]. *)
Lemma full_next i s l1 l2 t :
  full i s = l1 ++ l2 -> entry_key <$> last l1 = Some t -> full (next_page i t) s = l2.
Proof.
  intros E Ht. pose proof (full_sorted i s) as Hsort. rewrite E in Hsort.
  rewrite <- fmap_last in Ht. rewrite <- (ascending_after entry_key l1 l2 t Hsort Ht), <- E.
  unfold full at 1. change (after_of (next_page i t)) with (Some t).
  change (has_prefix (next_page i t)) with (has_prefix i).
  transitivity (filter (fun e => klt t (entry_key e)) (sort_on entry_key (filter (has_prefix i) (listable s))));
    [by apply list_filter_iff|].
  symmetry. apply list_filter_filter_l. intros e Hlt.
  assert (Hin : t ∈ entry_key <$> full i s).
  { rewrite E, fmap_app. apply elem_of_app. left. rewrite last_lookup in Ht. by eapply list_elem_of_lookup_2. }
  apply list_elem_of_fmap in Hin as (e' & -> & He'). unfold full in He'.
  apply list_elem_of_filter in He' as [He' _]. destruct (after_of i) as [a|]; simpl in *; [|done].
  by trans (entry_key e').
Qed.

(** The pages of a list, at most [m] entries each: a page is truncated when more is to come. *)
Inductive paged (m : nat) : list entry -> list ListObjectsV2Output -> Prop :=
| paged_last l p :
    (length l <= m)%nat -> lo_contents p = object_of <$> l -> lo_key_count p = zlen (lo_contents p) ->
    lo_is_truncated p = false -> paged m l [p]
| paged_more l p ps :
    (m < length l)%nat -> lo_contents p = object_of <$> firstn m l -> lo_key_count p = zlen (lo_contents p) ->
    lo_is_truncated p = true -> paged m (skipn m l) ps -> paged m l (p :: ps).

Lemma paged_contents m l ps : paged m l ps -> mjoin (lo_contents <$> ps) = object_of <$> l.
Proof.
  induction 1 as [l p Hl Hc Hk Ht|l p ps Hl Hc Hk Ht Hps IH]; csimpl; [by rewrite Hc, app_nil_r|].
  by rewrite IH, Hc, <- fmap_app, firstn_skipn.
Qed.

Lemma paged_count m l ps :
  (0 < m)%nat -> paged m l ps -> length ps = Nat.max 1 ((length l + m - 1) / m).
Proof.
  intros Hm. induction 1 as [l p Hl Hc Hk Ht|l p ps Hl Hc Hk Ht Hps IH].
  - assert ((length l + m - 1) / m < 2)%nat by (apply Nat.Div0.div_lt_upper_bound; lia). simpl. lia.
  - rewrite length_skipn in IH. cbn [length]. rewrite IH.
    assert (Hd : ((length l + m - 1) / m = 1 + (length l - m + m - 1) / m)%nat).
    { replace (length l + m - 1)%nat with (1 * m + (length l - m + m - 1))%nat by lia.
      by rewrite Nat.div_add_l by lia. }
    assert (1 <= (length l - m + m - 1) / m)%nat by (apply Nat.div_le_lower_bound; lia). lia.
Qed.

(** Each page holds its slice, and says truly whether more is to come. *)
Lemma paged_page m l ps j p :
  paged m l ps -> ps !! j = Some p ->
  lo_contents p = object_of <$> firstn m (skipn (j * m) l) /\ lo_key_count p = zlen (lo_contents p) /\
  lo_is_truncated p = bool_decide (Datatypes.S j < length ps)%nat.
Proof.
  intros Hp. revert j p. induction Hp as [l p Hl Hc Hk Ht|l p ps Hl Hc Hk Ht Hps IH]; intros j q Hj.
  - destruct j as [|j]; [|done]. injection Hj as <-. cbn. rewrite firstn_all2 by done. done.
  - assert (Hne : (0 < length ps)%nat) by (destruct Hps; simpl; lia).
    destruct j as [|j]; cbn in Hj.
    + injection Hj as <-. rewrite bool_decide_true by (simpl; lia). by rewrite skipn_0.
    + destruct (IH j q Hj) as (H1 & H2 & H3). rewrite drop_drop in H1. split_and!; [exact H1|exact H2|].
      rewrite H3. cbn [length]. apply bool_decide_ext. lia.
Qed.

Lemma list_all_full fuel i s :
  cas_valid s -> default [] (li_delimiter i) = [] -> (0 < page_limit i)%nat ->
  (length (full i s) < fuel)%nat ->
  exists r s', list_all fuel i s = (Some r, s') /\ same_content s s' /\
    forall ps, r = Ok ps -> paged (page_limit i) (full i s) ps.
Proof.
  revert i s. induction fuel as [|fuel IH]; intros i s Hv Hd Hm Hf; [lia|]. cbn [list_all].
  destruct (list_objects_v2 (Some R) i s) as [[out|e] s1] eqn:E;
    destruct (list_objects_page _ _ _ _ Hv Hd E) as (Hs1 & Hv1 & Hout); [|by eexists _, _].
  destruct (Hout out eq_refl) as (Hc & Hk & Ht & Hnx). rewrite (bool_decide_true (0 < _)%nat) in Hnx by done.
  rewrite andb_true_r in Hnx. rewrite Hnx in Ht. clear Hout E. revert Hnx Ht. case_bool_decide as Hmore.
  - destruct (last (firstn (page_limit i) (full i s))) as [e|] eqn:Elast.
    2:{ apply last_None in Elast. apply (f_equal length) in Elast. rewrite length_firstn in Elast. simpl in *. lia. }
    cbn [fmap option_fmap option_map]. intros -> Ht.
    assert (Hnext : full (next_page i (entry_key e)) s1 = skipn (page_limit i) (full i s)).
    { rewrite (full_content _ s s1) by apply Hs1.
      apply (full_next i s (firstn (page_limit i) (full i s))); [by rewrite firstn_skipn|]. by rewrite Elast. }
    destruct (IH (next_page i (entry_key e)) s1) as (r & s2 & -> & Hs2 & Hr); [done..| |].
    { rewrite Hnext, length_skipn. lia. }
    eexists _, s2. split; [reflexivity|]. split; [by destruct Hs1, Hs2; split; congruence|].
    intros ps Hps. destruct r as [ps'|]; [|done]. injection Hps as <-.
    apply paged_more; [done..|]. rewrite <- Hnext. by apply Hr.
  - intros -> Ht. eexists _, s1. split; [reflexivity|]. split; [done|]. intros ps [= <-].
    apply paged_last; [lia| |done..]. by rewrite Hc, firstn_all2 by lia.
Qed.

(** The objects of the whole listing. *)
Lemma full_objects i s o :
  o ∈ object_of <$> full i s <-> exists d data,
    held s !! d = Some data /\ algo d = Sha256 /\
    starts_with (default [] (li_prefix i)) (canonical_key d) = true /\
    from_option (fun a => klt a (canonical_key d)) True (after_of i) /\
    o = mkObject (canonical_key d) (zlen data) (Hex.encode (bytes d)) 0.
Proof.
  rewrite list_elem_of_fmap. unfold full. setoid_rewrite list_elem_of_filter.
  setoid_rewrite (sort_on_perm entry_key). setoid_rewrite list_elem_of_filter. unfold listable.
  setoid_rewrite list_elem_of_fmap. setoid_rewrite list_elem_of_filter. split.
  - intros (e & -> & Hafter & Hp & [d data] & -> & Ha & Hin). apply elem_of_map_to_list in Hin.
    exists d, data. rewrite <- etag_hex. split_and!; [done..|by destruct (after_of i)|done].
  - intros (d & data & Hin & Ha & Hp & Hafter & ->). exists (canonical_key d, zlen data, d).
    rewrite <- etag_hex. split_and!; [done|by destruct (after_of i)|done|].
    exists (d, data). split_and!; [done..|]. by apply elem_of_map_to_list.
Qed.

(** C30. A listing is exact.  A client that follows the continuation tokens comes to an end,
    and unless a page fails it is given, in strictly ascending order of key, an object for
    each SHA-256 blob held whose canonical key has the prefix and is after the start: its
    key, its length and its digest; and nothing else.  No delimiter is asked for, and the page
    size [m] is positive, at most [MAX_KEYS].  Where [n] objects are listed, there are [n / m]
    pages, rounded up, or one if nothing is listed: page [j] holds the objects from the [j * m]th on, [m] of them
    or what is left, counts them right, and says that the listing is truncated exactly if
    another page follows. *)
Theorem listing_is_exact i s :
  cas_valid s -> default [] (li_delimiter i) = [] -> from_option (fun m => 0 < m) True (li_max_keys i) ->
  exists r s', list_all (Datatypes.S (size (held s))) i s = (Some r, s') /\ same_content s s' /\
    forall ps, r = Ok ps ->
      let objs := mjoin (lo_contents <$> ps) in
      let m := page_limit i in
      StronglySorted klt (obj_key <$> objs) /\
      (forall o, o ∈ objs <-> exists d data,
        held s !! d = Some data /\ algo d = Sha256 /\
        starts_with (default [] (li_prefix i)) (canonical_key d) = true /\
        from_option (fun a => klt a (canonical_key d)) True (after_of i) /\
        o = mkObject (canonical_key d) (zlen data) (Hex.encode (bytes d)) 0) /\
      length ps = Nat.max 1 ((length objs + m - 1) / m) /\
      forall j p, ps !! j = Some p ->
        lo_contents p = firstn m (skipn (j * m) objs) /\ lo_key_count p = zlen (lo_contents p) /\
        lo_is_truncated p = bool_decide (Datatypes.S j < length ps)%nat.
Proof.
  intros Hv Hd Hm. assert (Hl : (0 < page_limit i)%nat).
  { unfold page_limit, MAX_KEYS. destruct (li_max_keys i) as [m|]; simpl in *; lia. }
  destruct (list_all_full (Datatypes.S (size (held s))) i s) as (r & s' & -> & Hs' & Hr);
    [done|done|done| |exists r, s'; split_and!; [done..|]].
  - unfold full. apply Nat.lt_succ_r. etrans; [apply length_filter|]. rewrite sort_on_perm.
    etrans; [apply length_filter|]. unfold listable. rewrite length_fmap.
    etrans; [apply length_filter|]. by rewrite length_map_to_list.
  - intros ps Hps%Hr. rewrite (paged_contents _ _ _ Hps). cbv zeta. split; [|split; [|split]].
    + rewrite <- list_fmap_compose. apply full_sorted.
    + apply full_objects.
    + rewrite length_fmap. by apply paged_count.
    + intros j p Hj. destruct (paged_page _ _ _ _ _ Hps Hj) as (H1 & H2 & H3).
      split_and!; [|done..]. by rewrite H1, fmap_take, fmap_drop.
Qed.
End face.

(** ** Witnesses *)

Module S3Example.
Import Checksum TallyTexts.

Definition body1 : list byte := bs "one".
Definition body2 : list byte := bs "two!".
Definition d1 : Digest := compute_with Sha256 body1.
Definition d2 : Digest := compute_with Sha256 body2.
Definition d3 : Digest := compute (bs "not listed").

Definition store : Mem.MemCas :=
  Mem.mkMemCas (<[d1 := body1]> (<[d2 := body2]> {[d3 := bs "not listed"]})).

Lemma sample_valid : cas_valid store.
Proof.
  intros d b. cbn. intros [[<- <-]|[_ H]]%lookup_insert_Some; [reflexivity|].
  apply lookup_insert_Some in H as [[<- <-]|[_ H]]; [reflexivity|].
  apply lookup_singleton_Some in H as [<- <-]. reflexivity.
Defined.

Definition ask (max : Z) : ListObjectsV2Input :=
  mkList (bs "bucket") (Some (bs "cas/")) None None None (Some max).

Theorem key_names_one_blob_witness :
  parse (bs "bazel/" ++ canonical_key d1) = Some (KCas d1) /\ digest_wf d1.
Proof.
  destruct (key_names_one_blob (bs "bazel/" ++ canonical_key d1) (bs "bazel/") d1) as [H1 H2].
  assert (Hp : parse (bs "bazel/" ++ canonical_key d1) = Some (KCas d1)).
  { apply H2; [right; by exists (bs "bazel")|vm_compute; reflexivity|reflexivity]. }
  split; [exact Hp|]. by destruct (H1 Hp).
Defined.

Theorem served_is_what_the_key_names_witness :
  exists out, (get_object (canonical_key d1) store).1 = Ok out /\ get_length out = 3 /\
    exists d data, held store !! d = Some data /\ get_length out = zlen data.
Proof.
  destruct (get_object (canonical_key d1) store) as [r s'] eqn:E.
  destruct (served_is_what_the_key_names _ _ _ _ sample_valid E) as [_ H].
  assert (Hr : r = (get_object (canonical_key d1) store).1) by (by rewrite E).
  destruct r as [out|e]; [|vm_compute in Hr; discriminate Hr].
  exists out. split; [reflexivity|]. split; [clear E H; vm_compute in Hr; injection Hr as ->; reflexivity|].
  destruct (H out eq_refl) as (d & data & _ & Hd & Hl & _). exists d, data. exact (conj Hd Hl).
Defined.

(** Two pages of one key each, and no third. *)
Theorem listing_is_exact_witness :
  exists ps, (list_all 4 (ask 1) store).1 = Some (Ok ps) /\ length ps = 2%nat /\
    lo_is_truncated <$> ps = [true; false] /\ StronglySorted klt (obj_key <$> mjoin (lo_contents <$> ps)).
Proof.
  destruct (listing_is_exact (ask 1) store sample_valid eq_refl ltac:(simpl; lia)) as (r & s' & E & _ & H).
  assert (Hn : size (held store) = 3%nat) by (vm_compute; reflexivity). rewrite Hn in E.
  assert (Hr : (list_all 4 (ask 1) store).1 = Some r) by (by rewrite E).
  destruct r as [ps|e]; [|vm_compute in Hr; discriminate Hr].
  exists ps. split; [exact Hr|]. split; [|split; [|exact (proj1 (H ps eq_refl))]];
    clear E H; vm_compute in Hr; injection Hr as <-; reflexivity.
Defined.

Definition no_pins : NessieS3 Mem.MemCas := new.

(** Bytes that do not hash to the key are refused, framed and action keys too. *)
Example refused :
  let put key := (put_object no_pins (mkPut (Some (cursor body2)) key None) store).1 in
  map_err s3_code (put (canonical_key (compute_with Sha256 (bs "other")))) = Err InvalidDigest /\
  map_err s3_code (put (bs "cas.v2/ab/ab")) = Err InvalidRequest /\
  map_err s3_code (put (bs "ac/ab/ab")) = Err NotImplemented.
Proof. vm_compute. split_and!; reflexivity. Qed.

End S3Example.
