(* ===== verification/Reapi.v ===== *)
(** The remote-execution cache face of crates/nessie-reapi/src: resource names, the SHA-256
    digest boundary, the translation of action results, the development signer, and the
    handlers of the Capabilities, ContentAddressableStorage, ByteStream and ActionCache
    services, over any content-addressed backend.

    The messages are those of the [.proto] files; what prost makes of a message's bytes is
    the class [Prost].  tonic (transport, framing) is third party: a handler gets its
    request, or the request stream it reads, and gives its response, or what it puts on the
    response channel of a client that takes it all. *)

From Stdlib Require Import ZArith Lia.
From stdpp Require Import base option gmap sets list.
From S2P Require Import Prelude Ordered Hex Text Digest Errors Pump Canonical Attestation Cas ActionCache Json Ontap.

Local Open Scope Z_scope.

Abbreviation text := (list byte).

Definition slash : byte := z2b 47.

(** [n as i64] of an unsigned 64-bit [n]. *)
Definition as_i64 (n : Z) : Z := if bool_decide (n < 2 ^ 63) then n else n - 2 ^ 64.

(** The text of a signed integer. *)
Definition dec_signed (z : Z) : text := if bool_decide (z < 0) then bs "-" ++ dec (- z) else dec z.

(** ** gRPC statuses *)

Module Code.
Inductive t :=
| Ok | InvalidArgument | NotFound | PermissionDenied | ResourceExhausted
| FailedPrecondition | Unimplemented | Internal | Unavailable.

(** [code as i32] *)
Definition number (c : t) : Z :=
  match c with
  | Ok => 0 | InvalidArgument => 3 | NotFound => 5 | PermissionDenied => 7
  | ResourceExhausted => 8 | FailedPrecondition => 9 | Unimplemented => 12 | Internal => 13
  | Unavailable => 14
  end.
End Code.

#[export] Instance Code_eq_dec : EqDecision Code.t.
Proof. solve_decision. Defined.

Record Status := mkStatus { code : Code.t; message : text }.

Definition invalid (msg : text) : Status := mkStatus Code.InvalidArgument msg.
Definition unimplemented (msg : text) : Status := mkStatus Code.Unimplemented msg.
Definition not_found (msg : text) : Status := mkStatus Code.NotFound msg.
Definition internal (msg : text) : Status := mkStatus Code.Internal msg.

(** ** Messages (remote_execution.proto) *)

Record RDigest := mkRDigest { hash : text; size_bytes : Z }.
Record NodeProperty := mkProperty { np_name : text; np_value : text }.
Record Timestamp := mkTimestamp { ts_seconds : Z; ts_nanos : Z }.
Record NodeProperties := mkProperties {
  properties : list NodeProperty; mtime : option Timestamp; unix_mode : option Z }.
Record FileNode := mkFileNode {
  fn_name : text; fn_digest : option RDigest; fn_executable : bool;
  fn_properties : option NodeProperties }.
Record DirectoryNode := mkDirNode { dn_name : text; dn_digest : option RDigest }.
Record SymlinkNode := mkSymlink {
  sn_name : text; sn_target : text; sn_properties : option NodeProperties }.
Record Directory := mkDirectory {
  files : list FileNode; directories : list DirectoryNode; symlinks : list SymlinkNode;
  dir_properties : option NodeProperties }.

Record OutputFile := mkOutput {
  path : text; of_digest : option RDigest; is_executable : bool; contents : list byte;
  node_properties : option NodeProperties }.
Record OutputSymlink := mkOutputSymlink {
  os_path : text; os_target : text; os_properties : option NodeProperties }.
Record OutputDirectory := mkOutputDirectory {
  od_path : text; tree_digest : option RDigest; is_topologically_sorted : bool;
  root_directory_digest : option RDigest }.

(** [ExecutedActionMetadata], of which only the presence is looked at, is [Meta]. *)
Record RActionResult (Meta : Type) := mkResult {
  output_files : list OutputFile;
  output_file_symlinks : list OutputSymlink;
  output_symlinks : list OutputSymlink;
  output_directories : list OutputDirectory;
  output_directory_symlinks : list OutputSymlink;
  exit_code : Z;
  stdout_raw : list byte;
  stdout_digest : option RDigest;
  stderr_raw : list byte;
  stderr_digest : option RDigest;
  execution_metadata : option Meta }.
Arguments mkResult {Meta}. Arguments output_files {Meta}. Arguments output_file_symlinks {Meta}. Arguments output_symlinks {Meta}.
Arguments output_directories {Meta}. Arguments output_directory_symlinks {Meta}. Arguments exit_code {Meta}. Arguments stdout_raw {Meta}.
Arguments stdout_digest {Meta}. Arguments stderr_raw {Meta}. Arguments stderr_digest {Meta}. Arguments execution_metadata {Meta}.

#[export] Instance RDigest_eq_dec : EqDecision RDigest.
Proof. solve_decision. Defined.
#[export] Instance Directory_eq_dec : EqDecision Directory.
Proof.
  assert (EqDecision NodeProperty) by solve_decision.
  assert (EqDecision Timestamp) by solve_decision.
  assert (EqDecision NodeProperties) by solve_decision.
  assert (EqDecision FileNode) by solve_decision.
  assert (EqDecision DirectoryNode) by solve_decision.
  assert (EqDecision SymlinkNode) by solve_decision.
  solve_decision.
Defined.

(** [Directory::decode]: what prost makes of a message's bytes, or its error's text. *)
Class Prost := { decode_directory : list byte -> result text Directory }.

Section reapi.
Context {T : Texts}.

(** ** [status.rs] *)

Definition code_of (e : BackendError) : Code.t :=
  match e with
  | BlobNotFound _ | VolumeNotFound _ => Code.NotFound
  | InvalidArgument _ => Code.InvalidArgument
  | FeatureNotSupported _ => Code.Unimplemented
  | ActionResultConflict _ => Code.FailedPrecondition
  | AttestationUnverified _ => Code.PermissionDenied
  | CapacityExceeded _ _ _ => Code.ResourceExhausted
  | Underreplicated _ _ => Code.Unavailable
  | _ => Code.Internal
  end.

Definition status_from_backend (e : BackendError) : Status := mkStatus (code_of e) (display e).

(** ** The digest boundary (boundary.rs) *)

Definition parse_error_display (e : DigestParseError) : text :=
  match e with
  | MissingSeparator => bs "digest string is missing the ':' separator"
  | UnknownAlgo n => bs "unknown digest algorithm: " ++ n
  | UnknownMulticodec c => bs "unknown multihash multicodec: 0x" ++ Hex.encode [c]
  | BadHex => bs "digest hex payload is not valid hex"
  | Truncated => bs "multihash byte form is truncated"
  | WrongLength expected actual =>
      bs "digest length " ++ dec (Z.of_nat actual) ++ bs " does not match algorithm's " ++
      dec (Z.of_nat expected)
  end.

Definition is_sha256_hex (h : text) : bool :=
  bool_decide (length h = 64%nat) && forallb Hex.is_lower_hex h.

Definition to_native (r : RDigest) : result Status Digest :=
  if negb (is_sha256_hex (hash r)) then
    Err (invalid (bs "REAPI digest hash must be 64 lowercase-hex characters, got " ++ debug (hash r)))
  else
    map_err (fun e => invalid (bs "invalid sha2-256 digest: " ++ parse_error_display e))
      (from_str (bs "sha2-256:" ++ hash r)).

Definition to_reapi (d : Digest) (size : Z) : RDigest :=
  mkRDigest (Hex.encode (bytes d)) (as_i64 size).

(** [compressor::Value::Identity as i32] and [digest_function::Value::Sha256 as i32] *)
Definition IDENTITY : Z := 0.
Definition SHA256 : Z := 1.

(** ** ByteStream resource names (resource.rs) *)

Inductive ResourceName :=
| RRead (instance sha256 : text) (size : Z)
| RWrite (instance uuid sha256 : text) (size : Z).

Definition parse_hash (s : text) : result Status text :=
  if is_sha256_hex s then Ok s
  else Err (invalid (bs "resource hash must be 64 lowercase-hex chars, got " ++ debug s)).

Definition parse_size (s : text) : result Status Z :=
  ok_or (parse_u64 s)
    (invalid (bs "resource size must be a non-negative integer, got " ++ debug s)).

Definition position (s : text) (segs : list text) : option nat := fst <$> list_find (fun x => x = s) segs.

Definition parse_upload (segs : list text) (up : nat) : result Status ResourceName :=
  uuid ← ok_or (segs !! (up + 1)%nat) (invalid (bs "missing upload uuid"));
  marker ← ok_or (segs !! (up + 2)%nat) (invalid (bs "missing 'blobs' after uploads/{uuid}"));
  if bool_decide (marker = bs "compressed-blobs") then
    Err (invalid (bs "compressed-blobs are not supported in v0"))
  else if bool_decide (marker <> bs "blobs") then
    Err (invalid (bs "expected 'blobs' after uploads/{uuid}"))
  else
    hash ← ok_or (segs !! (up + 3)%nat) (invalid (bs "missing hash"));
    size ← ok_or (segs !! (up + 4)%nat) (invalid (bs "missing size"));
    hash ← parse_hash hash;
    size ← parse_size size;
    Ok (RWrite (join_on slash (firstn up segs)) uuid hash size).

Definition parse_blob (segs : list text) (bp : nat) : result Status ResourceName :=
  hash ← ok_or (segs !! (bp + 1)%nat) (invalid (bs "missing hash"));
  size ← ok_or (segs !! (bp + 2)%nat) (invalid (bs "missing size"));
  hash ← parse_hash hash;
  size ← parse_size size;
  Ok (RRead (join_on slash (firstn bp segs)) hash size).

Definition resource_parse (n : text) : result Status ResourceName :=
  let segs := split_on slash n in
  match position (bs "uploads") segs with
  | Some up => parse_upload segs up
  | None =>
      match position (bs "blobs") segs with
      | Some bp => parse_blob segs bp
      | None =>
          if bool_decide (bs "compressed-blobs" ∈ segs) then
            Err (invalid (bs "compressed-blobs are not supported in v0"))
          else Err (invalid (bs "resource name must contain 'blobs' or 'uploads/{uuid}/blobs'"))
      end
  end.

(** ** Configuration and capabilities (config.rs, capabilities.rs) *)

Record ReapiConfig := mkConfig {
  instance_name : text; max_batch_total_size_bytes : Z; ac_update_enabled : bool }.

Definition config_default : ReapiConfig := mkConfig [] (4 * 1024 * 1024) true.

Record ServerCapabilities := mkCapabilities {
  digest_functions : list Z;
  update_enabled : bool;
  cap_max_batch_total_size_bytes : Z;
  symlink_absolute_path_strategy : Z;
  supported_compressors : list Z;
  supported_batch_update_compressors : list Z;
  exec_digest_function : Z;
  exec_enabled : bool;
  low_api_version : Z * Z;
  high_api_version : Z * Z }.

(** [symlink_absolute_path_strategy::Value::Disallowed] *)
Definition DISALLOWED : Z := 1.

Definition server_capabilities (cfg : ReapiConfig) (ac_enabled : bool) : ServerCapabilities :=
  mkCapabilities [SHA256] (ac_enabled && ac_update_enabled cfg) (max_batch_total_size_bytes cfg)
    DISALLOWED [IDENTITY] [IDENTITY] SHA256 false (2, 0) (2, 3).
End reapi.

(** ** The services' store *)

Section services.
Context {T : Texts} {P : Prost} {S : Type} {Hs : Hashers} {B : CasBackend S}.
Implicit Type s : S.

(** [.map_err(|e| status_from_backend(&e))] *)
Definition on_backend {A : Type} (op : M BackendError S A) : M Status S A := fun s =>
  let '(r, s) := op s in (map_err status_from_backend r, s).

(** A keyed write of bytes in memory. *)
Definition put_bytes (d : Digest) (data : list byte) : M Status S () := fun s =>
  let '(r, _, s) := cas_put_keyed d (cursor data) s in (map_err status_from_backend r, s).

(** [read_to_end] of a blob's reader, with the prefix of its error's message. *)
Definition read_whole (what : text) (d : Digest) : M Status S (list byte) :=
  reader ← on_backend (cas_get d);
  lift (map_err (fun e => internal (what ++ ie_display e)) (read_to_end reader).1).

(** ** ContentAddressableStorage (services/cas.rs) *)

(** [google.rpc.Status], without details. *)
Record RpcStatus := mkRpcStatus { rpc_code : Z; rpc_message : text }.

Definition rpc_status (outcome : result Status ()) : RpcStatus :=
  match outcome with
  | Ok () => mkRpcStatus (Code.number Code.Ok) []
  | Err st => mkRpcStatus (Code.number (code st)) (message st)
  end.

Record UpdateItem := mkItem { item_digest : option RDigest; item_data : list byte; item_compressor : Z }.

Definition update_one (item : UpdateItem) : M Status S () :=
  if bool_decide (item_compressor item <> IDENTITY) then
    lift (Err (invalid (bs "only the IDENTITY compressor is supported")))
  else
    digest ← lift (ok_or (item_digest item) (invalid (bs "batch item is missing its digest")));
    if bool_decide (size_bytes digest < 0 \/ size_bytes digest <> zlen (item_data item)) then
      lift (Err (invalid (bs "data length " ++ dec (zlen (item_data item)) ++
        bs " does not match digest size_bytes " ++ dec_signed (size_bytes digest))))
    else
      native ← lift (to_native digest);
      put_bytes native (item_data item).

Record ReadResponse := mkRead {
  rd_digest : option RDigest; rd_data : list byte; rd_compressor : Z; rd_status : RpcStatus }.

Definition read_item (d : RDigest) : M Status S (list byte) :=
  native ← lift (to_native d);
  read_whole (bs "reading blob: ") native.

Definition read_one (d : RDigest) s : ReadResponse * S :=
  let '(r, s) := read_item d s in
  (match r with
   | Ok data => mkRead (Some d) data IDENTITY (rpc_status (Ok ()))
   | Err st => mkRead (Some d) [] IDENTITY (rpc_status (Err st))
   end, s).

Definition read_blob_bytes (d : Digest) : M Status S (list byte) :=
  read_whole (bs "reading Directory blob: ") d.

(** The digests of a directory's sub-directories, in order. *)
Fixpoint child_dirs (nodes : list DirectoryNode) : result Status (list Digest) :=
  match nodes with
  | [] => Ok []
  | node :: nodes =>
      match dn_digest node with
      | None => child_dirs nodes
      | Some child =>
          d ← to_native child;
          rest ← child_dirs nodes;
          Ok (d :: rest)
      end
  end.

(** One directory read and decoded, and its sub-directories' digests. *)
Definition open_dir (d : Digest) : M Status S (Directory * list Digest) :=
  bytes ← read_blob_bytes d;
  dir ← lift (map_err (fun e => invalid (bs "blob is not a REAPI Directory: " ++ e))
    (decode_directory bytes));
  children ← lift (child_dirs (directories dir));
  mret (dir, children).

(** The walk's loop; [None] is running out of fuel. *)
Fixpoint collect_loop (fuel : nat) (visited : gset Digest) (queue : list Digest)
    (out : list Directory) s : option (result Status (list Directory)) * S :=
  match fuel with
  | O => (None, s)
  | Datatypes.S fuel =>
      match queue with
      | [] => (Some (Ok out), s)
      | dg :: queue =>
          if bool_decide (dg ∈ visited) then collect_loop fuel visited queue out s
          else
            match open_dir dg s with
            | (Err e, s) => (Some (Err e), s)
            | (Ok (dir, children), s) =>
                collect_loop fuel (visited ∪ {[dg]}) (queue ++ children) (out ++ [dir]) s
            end
      end
  end.

Definition collect_tree (fuel : nat) (root : Digest) s : option (result Status (list Directory)) * S :=
  collect_loop fuel ∅ [root] [] s.

Fixpoint find_missing_blobs (digests : list RDigest) : M Status S (list RDigest) :=
  match digests with
  | [] => mret []
  | d :: digests =>
      native ← lift (to_native d);
      held ← on_backend (cas_has native);
      rest ← find_missing_blobs digests;
      mret (if held : bool then rest else d :: rest)
  end.

Definition UpdateResponse : Type := option RDigest * RpcStatus.

Fixpoint update_each (items : list UpdateItem) s : list UpdateResponse * S :=
  match items with
  | [] => ([], s)
  | item :: items =>
      let '(r, s) := update_one item s in
      let '(rest, s) := update_each items s in
      ((item_digest item, rpc_status r) :: rest, s)
  end.

Definition batch_update_blobs (cfg : ReapiConfig) (items : list UpdateItem) :
    M Status S (list UpdateResponse) := fun s =>
  let total := sum_list_with (fun i => length (item_data i)) items in
  if bool_decide (max_batch_total_size_bytes cfg < Z.of_nat total) then
    (Err (mkStatus Code.ResourceExhausted (bs "batch of " ++ dec (Z.of_nat total) ++
      bs " bytes exceeds max_batch_total_size_bytes " ++ dec_signed (max_batch_total_size_bytes cfg))), s)
  else let '(l, s) := update_each items s in (Ok l, s).

Fixpoint batch_read_blobs (digests : list RDigest) s : list ReadResponse * S :=
  match digests with
  | [] => ([], s)
  | d :: digests =>
      let '(r, s) := read_one d s in
      let '(rest, s) := batch_read_blobs digests s in
      (r :: rest, s)
  end.

Record GetTreeRequest := mkGetTree {
  root_digest : option RDigest; page_size : Z; page_token : text }.
Record TreePage := mkPage { page_directories : list Directory; next_page_token : text }.

Definition DEFAULT_GET_TREE_PAGE_SIZE : nat := 1000.

(** The root, the page size and how many directories to skip. *)
Definition tree_request (req : GetTreeRequest) : result Status (Digest * nat * nat) :=
  root ← ok_or (root_digest req) (invalid (bs "missing root_digest"));
  root ← to_native root;
  let size :=
    if bool_decide (page_size req <= 0) then DEFAULT_GET_TREE_PAGE_SIZE
    else Z.to_nat (page_size req) in
  skip ←
    (if bool_decide (page_token req = []) then Ok 0
     else ok_or (parse_u64 (page_token req)) (invalid (bs "invalid page_token")));
  Ok (root, size, Z.to_nat skip).

(** The sending loop. *)
Fixpoint tree_pages (fuel : nat) (size delivered : nat) (remaining : list Directory) : list TreePage :=
  match fuel with
  | O => []
  | Datatypes.S fuel =>
      let take := Nat.min size (length remaining) in
      let chunk := firstn take remaining in
      let remaining := skipn take remaining in
      let delivered := (delivered + take)%nat in
      match remaining with
      | [] => [mkPage chunk []]
      | _ => mkPage chunk (dec (Z.of_nat delivered)) :: tree_pages fuel size delivered remaining
      end
  end.

Definition send_pages (size skip : nat) (all : list Directory) : list TreePage :=
  let start := Nat.min skip (length all) in
  let remaining := skipn start all in
  tree_pages (Datatypes.S (length remaining)) size start remaining.

(** The walk's fuel is the caller's: [None] is running out of it. *)
Definition get_tree (fuel : nat) (req : GetTreeRequest) s :
    option (result Status (list (result Status TreePage))) * S :=
  match tree_request req with
  | Err e => (Some (Err e), s)
  | Ok (root, size, skip) =>
      match collect_tree fuel root s with
      | (None, s) => (None, s)
      | (Some (Err e), s) => (Some (Ok [Err e]), s)
      | (Some (Ok all), s) => (Some (Ok (Ok <$> send_pages size skip all)), s)
      end
  end.

Definition split_blob : result Status () := Err (unimplemented (bs "SplitBlob is not supported (cache subset)")).
Definition splice_blob : result Status () := Err (unimplemented (bs "SpliceBlob is not supported (cache subset)")).

(** ** ByteStream (services/bytestream.rs) *)

Definition native_for (sha256 : text) (size : Z) : result Status Digest :=
  to_native (mkRDigest sha256 (as_i64 size)).

Record WriteRequest := mkWrite { w_resource_name : text; w_offset : Z; w_finish : bool; w_data : list byte }.

(** The request stream read to its end: the resource first named and the data. *)
Fixpoint write_collect (resource : option ResourceName) (data : list byte)
    (stream : list (result Status WriteRequest)) : result Status (option ResourceName * list byte) :=
  match stream with
  | [] => Ok (resource, data)
  | msg :: stream =>
      msg ← msg;
      resource ←
        (match resource with
         | None =>
             if bool_decide (w_resource_name msg = []) then Ok None
             else r ← resource_parse (w_resource_name msg); Ok (Some r)
         | Some r => Ok (Some r)
         end);
      let data := data ++ w_data msg in
      if w_finish msg then Ok (resource, data) else write_collect resource data stream
  end.

(** The digest an upload names, once its length is checked. *)
Definition write_target (resource : option ResourceName) (data : list byte) : result Status (Digest * Z) :=
  match resource with
  | Some (RWrite _ _ sha256 size) =>
      if bool_decide (zlen data <> size) then
        Err (invalid (bs "wrote " ++ dec (zlen data) ++ bs " bytes but the resource declared " ++ dec size))
      else native ← native_for sha256 size; Ok (native, size)
  | Some _ => Err (invalid (bs "write resource must be an uploads/{uuid}/blobs/ path"))
  | None => Err (invalid (bs "write stream carried no resource_name"))
  end.

(** The committed size. *)
Definition write_stream (stream : list (result Status WriteRequest)) : M Status S Z :=
  '(resource, data) ← lift (write_collect None [] stream);
  '(native, size) ← lift (write_target resource data);
  _ ← put_bytes native data;
  mret (as_i64 size).

Record ReadRequest := mkReadReq { r_resource_name : text; read_offset : Z; read_limit : Z }.

(** [io::copy(&mut reader.by_ref().take(n), &mut sink())]: how the reader is left; the
    outcome is not looked at. *)
Fixpoint skip_copy (n : Z) (src : source) : source :=
  if bool_decide (n <= 0) then src
  else
    match src with
    | [] => []
    | RErr e :: src' => if bool_decide (ie_kind e = Interrupted) then skip_copy n src' else src'
    | RData [] :: src' => src'
    | RData b :: src' =>
        if bool_decide (zlen b <= n) then skip_copy (n - zlen b) src'
        else RData (skipn (Z.to_nat n) b) :: src'
    end.

Definition read_limit_of (req : ReadRequest) : option Z :=
  if bool_decide (0 < read_limit req) then Some (read_limit req) else None.

(** The pump task: what goes on the channel. *)
Definition read_task (native : Digest) (offset : Z) (limit : option Z) s :
    list (result Status (list byte)) * S :=
  match cas_get native s with
  | (Err e, s) => ([Err (status_from_backend e)], s)
  | (Ok reader, s) =>
      (map_err (fun e => internal (bs "reading blob: " ++ ie_display e)) <$>
         pump_all limit (skip_copy offset reader), s)
  end.

Definition read_blob (req : ReadRequest) (native : Digest) : M Status S (list (result Status (list byte))) :=
  fun s =>
    let '(l, s) := read_task native (Z.max 0 (read_offset req)) (read_limit_of req) s in (Ok l, s).

Definition bytestream_read (req : ReadRequest) : M Status S (list (result Status (list byte))) :=
  name ← lift (resource_parse (r_resource_name req));
  match name with
  | RRead _ sha256 size =>
      native ← lift (native_for sha256 size);
      read_blob req native
  | RWrite _ _ _ _ => lift (Err (invalid (bs "read resource must be a blobs/ path")))
  end.

(** The committed size and whether the write is complete. *)
Definition query_write_status (resource_name : text) : M Status S (Z * bool) :=
  name ← lift (resource_parse resource_name);
  let '(sha256, size) := match name with RRead _ h n | RWrite _ _ h n => (h, n) end in
  native ← lift (native_for sha256 size);
  present ← on_backend (cas_has native);
  _ ← (if present : bool then on_backend (cas_ensure_replicated native) else mret ());
  mret (if present : bool then as_i64 size else 0, present).
End services.

(** ** Action results (size.rs, map.rs) *)

Section map.
Context {T : Texts} {P : Prost} {Meta : Type}.

(** [SizeSource]: where the length of a blob comes from. *)
Definition SizeSource (S : Type) : Type := Digest -> M Status S Z.

(** [CasSizeSource] *)
Definition cas_size_source {S} {Hs : Hashers} {B : CasBackend S} : SizeSource S := fun d =>
  size ← on_backend (cas_size d);
  lift (ok_or size (not_found (bs "blob " ++ to_string d ++ bs " not found"))).

Section emit.
Context {S : Type} (sizes : SizeSource S).

Fixpoint emit_outputs (l : list (text * ActionResult.OutputFile)) : M Status S (list OutputFile) :=
  match l with
  | [] => mret []
  | (p, f) :: l =>
      size ← sizes (ActionResult.of_digest f);
      rest ← emit_outputs l;
      mret (mkOutput p (Some (to_reapi (ActionResult.of_digest f) size))
              (ActionResult.is_executable f) [] None :: rest)
  end.

Definition opt_to_reapi (d : option Digest) : M Status S (option RDigest) :=
  match d with
  | None => mret None
  | Some d => size ← sizes d; mret (Some (to_reapi d size))
  end.

Definition ar_to_reapi (ar : ActionResult.t) : M Status S (RActionResult Meta) :=
  output_files ← emit_outputs (ActionResult.outputs ar);
  so ← opt_to_reapi (ActionResult.stdout_digest ar);
  se ← opt_to_reapi (ActionResult.stderr_digest ar);
  mret (mkResult output_files [] [] [] [] (ActionResult.exit_code ar) [] so [] se None).
End emit.

(** The loop over the output files; [outputs.insert] answers what was there. *)
Fixpoint native_outputs (l : list OutputFile) (outputs : list (text * ActionResult.OutputFile)) :
    result Status (list (text * ActionResult.OutputFile)) :=
  match l with
  | [] => Ok outputs
  | f :: l =>
      digest ← ok_or (of_digest f) (invalid (bs "output_file is missing its digest"));
      native ← to_native digest;
      if bool_decide (path f ∈ outputs.*1) then
        Err (invalid (bs "duplicate output path " ++ debug (path f)))
      else
        native_outputs l (bt_insert (path f) (ActionResult.mkOutputFile native (is_executable f)) outputs)
  end.

(** [.as_ref().map(|d| boundary.to_native(d)).transpose()] *)
Definition opt_to_native (d : option RDigest) : result Status (option Digest) :=
  match d with
  | None => Ok None
  | Some d => d ← to_native d; Ok (Some d)
  end.

Definition ar_from_reapi (ar : RActionResult Meta) : result Status ActionResult.t :=
  if bool_decide (length (output_directories ar) <> 0%nat \/ length (output_symlinks ar) <> 0%nat) then
    Err (invalid (bs "output_directories / output_symlinks are not yet representable"))
  else if match execution_metadata ar with Some _ => true | None => false end then
    Err (invalid (bs "execution_metadata is not represented"))
  else if negb (bool_decide (stdout_raw ar = [])) || negb (bool_decide (stderr_raw ar = [])) then
    Err (invalid (bs "inline stdout_raw/stderr_raw is not supported; upload the bytes and use a digest"))
  else
    outputs ← native_outputs (output_files ar) [];
    so ← opt_to_native (stdout_digest ar);
    se ← opt_to_native (stderr_digest ar);
    Ok (ActionResult.mk outputs (exit_code ar) so se).

Fixpoint child_files (nodes : list FileNode) : result Status (list Digest) :=
  match nodes with
  | [] => Ok []
  | node :: nodes =>
      match fn_digest node with
      | None => child_files nodes
      | Some child =>
          d ← to_native child;
          rest ← child_files nodes;
          Ok (d :: rest)
      end
  end.

Definition dir_child_digests (bytes : list byte) : result Status (list Digest) :=
  dir ← map_err (fun e => invalid (bs "not a REAPI Directory: " ++ e)) (decode_directory bytes);
  fs ← child_files (files dir);
  ds ← child_dirs (directories dir);
  Ok (fs ++ ds).
End map.

(** ** Signing (signer.rs) *)

Record AttestationSigner := mkSigner {
  the_signer_id : SignerId; sign_statement : Digest -> Digest -> SignedAttestation }.

Section signer.
Context {Hs : Hashers}.

Definition mac (secret message : list byte) : Signature :=
  mkSignature (bytes (compute (secret ++ message))).

Record DevSelfSigner := mkDev { dev_id : SignerId; dev_secret : list byte }.

Definition dev_derive (kind n : text) : list byte :=
  bytes (compute (bs "nessie-reapi-dev-signer/" ++ kind ++ bs "/" ++ n)).

Definition dev_new (n : text) : DevSelfSigner :=
  mkDev (mkSignerId (dev_derive (bs "id") n)) (dev_derive (bs "secret") n).

Definition dev_verifier (d : DevSelfSigner) : verifier := fun sid message sig =>
  bool_decide (sid = dev_id d) && bool_decide (mac (dev_secret d) message = sig).

Definition dev_signer (d : DevSelfSigner) : AttestationSigner :=
  mkSigner (dev_id d) (fun action result =>
    mkSigned (mkAttestation (dev_id d) result)
      (mac (dev_secret d) (statement_signing_bytes action result))).
End signer.

(** ** ActionCache (services/action_cache.rs) *)

Section action_cache.
Context {T : Texts} {S : Type} {Hs : Hashers} {B : CasBackend S} {Meta : Type}.
(** [cas.as_action_cache()] *)
Context (as_action_cache : option (ActionCacheBackend S)).

Definition no_action_cache : Status := unimplemented (bs "this instance has no action cache").

(** The backend's answer for an action, as the client is told. *)
Definition cached_result (ac : ActionCacheBackend S) (action : Digest) : M Status S ActionResult.t := fun s =>
  match acb_get action s with
  | (Ok (Some ar), s) => (Ok ar, s)
  | (Ok None, s) => (Err (not_found (bs "no cached result for this action")), s)
  | (Err (ActionResultConflict _), s) | (Err (BlobNotFound _), s) =>
      (Err (not_found (bs "no confirmed result for this action")), s)
  | (Err e, s) => (Err (status_from_backend e), s)
  end.

Definition get_action_result (action_digest : option RDigest) : M Status S (RActionResult Meta) :=
  action_digest ← lift (ok_or action_digest (invalid (bs "missing action_digest")));
  action ← lift (to_native action_digest);
  ac ← lift (ok_or as_action_cache no_action_cache);
  ar ← cached_result ac action;
  ar_to_reapi cas_size_source ar.

(** The body stored under its digest, then the statement signed and delivered. *)
Definition attest_result (ac : ActionCacheBackend S) (signer : AttestationSigner) (action : Digest)
    (ar : ActionResult.t) : M Status S () := fun s =>
  match cas_put (cursor (ActionResult.to_canonical_bytes ar)) s with
  | (Err e, _, s) => (Err (status_from_backend e), s)
  | (Ok _, _, s) =>
      on_backend (acb_attest action (sign_statement signer action (ActionResult.result_digest ar))) s
  end.

Definition update_action_result (cfg : ReapiConfig) (signer : option AttestationSigner)
    (action_digest : option RDigest) (action_result : option (RActionResult Meta)) :
    M Status S (RActionResult Meta) :=
  if negb (ac_update_enabled cfg) then
    lift (Err (mkStatus Code.PermissionDenied (bs "action cache updates are disabled")))
  else
    signer ← lift (ok_or signer (unimplemented (bs "no signer configured for updates")));
    action_digest ← lift (ok_or action_digest (invalid (bs "missing action_digest")));
    action ← lift (to_native action_digest);
    proto_ar ← lift (ok_or action_result (invalid (bs "missing action_result")));
    native_ar ← lift (ar_from_reapi proto_ar);
    ac ← lift (ok_or as_action_cache no_action_cache);
    _ ← attest_result ac signer action native_ar;
    mret proto_ar.
End action_cache.

(** ** The router (server.rs) *)

Inductive Service := Capabilities | ContentAddressableStorage | ByteStream | ActionCacheService.

Definition services {S : Type} (as_action_cache : option (ActionCacheBackend S)) : list Service :=
  [Capabilities; ContentAddressableStorage; ByteStream] ++
  (match as_action_cache with Some _ => [ActionCacheService] | None => [] end).
