(* ===== verification/ReapiLaws.v ===== *)
(** What the remote-execution cache face promises: a digest that crosses its boundary is
    the same digest, a directory tree is walked breadth first, once, and page by page, a
    read delivers the slice asked for, an acknowledged upload is held, and a result that
    was updated is the result then served. *)

From Stdlib Require Import ZArith Lia.
From stdpp Require Import base option gmap sets list sorting.
From S2P Require Import Prelude Ordered Hex Text Digest Errors Pump Cursor Canonical Attestation Cas Reach ActionCache Json Ontap S3 S3Laws Reapi.

Local Open Scope Z_scope.

(** ** The digest boundary *)

Section boundary.
Context {T : Texts}.

Lemma to_native_sha256 r : res_ok (to_native r) = sha256_digest (hash r).
Proof.
  unfold to_native, is_sha256_hex, sha256_digest. rewrite negb_andb, <- bool_decide_not.
  destruct (_ || _); [done|]. by destruct (from_str _).
Qed.

(** A REAPI digest is the hexadecimal text of a SHA-256 digest. *)
Lemma to_native_Ok r d :
  to_native r = Ok d <-> digest_wf d /\ algo d = Sha256 /\ hash r = Hex.encode (bytes d).
Proof.
  pose proof (to_native_sha256 r) as E. split.
  - intros Hr. rewrite Hr in E. by apply sha256_digest_Some.
  - intros (Hwf & Ha & Hh). rewrite Hh, sha256_digest_encode in E by done.
    destruct (to_native r); simpl in E; congruence.
Qed.

Lemma to_native_to_reapi d n : digest_wf d -> algo d = Sha256 -> to_native (to_reapi d n) = Ok d.
Proof. intros. by apply to_native_Ok. Qed.
End boundary.

(** ** The directory walk *)

Section walk.
Context {T : Texts} {P : Prost} {S : Type} {Hs : Hashers} {B : CasBackend S} {R : ReclaimableCas S}
  {V : CasModel S} {L : CasLaws S}.
Implicit Types (s : S).

(** The sub-directories a stored directory refers to. *)
Definition dir_refs : resolver := fun _ data =>
  match decode_directory data with
  | Ok dir => default [] (res_ok (child_dirs (directories dir)))
  | Err _ => []
  end.

Abbreviation children m := (edges dir_refs m).

(** [d] is [n] sub-directories below the root. *)
Inductive Walk (m : gmap Digest (list byte)) (root : Digest) : nat -> Digest -> Prop :=
| walk_root : Walk m root 0 root
| walk_child n p d : Walk m root n p -> d ∈ children m p -> Walk m root (Datatypes.S n) d.

Definition distance m root (d : Digest) (n : nat) : Prop :=
  Walk m root n d /\ forall k, Walk m root k d -> (n <= k)%nat.

Lemma open_dir_spec d s r s' :
  cas_valid s -> open_dir d s = (r, s') ->
  same_content s s' /\ cas_valid s' /\
  forall dir cs, r = Ok (dir, cs) -> exists data,
    held s !! d = Some data /\ decode_directory data = Ok dir /\ cs = children (held s) d.
Proof.
  intros Hv E. destruct (law_get d s Hv) as [Hget Hv1]. unfold get_spec in Hget.
  unfold open_dir, read_blob_bytes, read_whole, mbind, M_bind, on_backend, lift in E.
  destruct (cas_get d s) as [[src|e] s1]; destruct Hget as [Hs1 Hget]; cbn [map_err] in E;
    [|injection E as <- <-; by split_and!].
  destruct Hget as (data & Hd & _ & Hread). rewrite Hread in E. cbn [fst map_err] in E.
  destruct (decode_directory data) as [dir|e] eqn:Edir; cbn [map_err] in E;
    [|injection E as <- <-; by split_and!].
  destruct (child_dirs (directories dir)) as [cs|e] eqn:Ec; injection E as <- <-; [|by split_and!].
  split_and!; [done..|]. intros ? ? [= <- <-]. exists data. split_and!; [done..|].
  unfold edges, dir_refs. by rewrite Hd, Edir, Ec.
Qed.

(** The invariant: what was sent and what waits carry their depths, in order; the waiting
    are at most one level deeper than the first of them; children are sent or wait. *)
Record walk_inv m root (out queue : list (Digest * nat)) : Prop := {
  wi_sorted : StronglySorted le (out ++ queue).*2;
  wi_near : forall h q x, queue = h :: q -> x ∈ q -> (x.2 <= Datatypes.S h.2)%nat;
  wi_walk : forall x, x ∈ out ++ queue -> Walk m root x.2 x.1;
  wi_nodup : NoDup out.*1;
  wi_root : (root, 0%nat) ∈ out ++ queue;
  wi_children : forall x c, x ∈ out -> c ∈ children m x.1 ->
    (exists k, (c, k) ∈ out /\ (k <= Datatypes.S x.2)%nat) \/ (c, Datatypes.S x.2) ∈ queue;
}.

Lemma walk_inv_start m root : walk_inv m root [] [(root, 0%nat)].
Proof.
  split; csimpl.
  - repeat constructor.
  - intros h q x [= <- <-]. set_solver.
  - intros x ->%list_elem_of_singleton. constructor.
  - constructor.
  - set_solver.
  - set_solver.
Qed.

Lemma NoDup_fst_unique {A W} (l : list (A * W)) a w w' :
  NoDup l.*1 -> (a, w) ∈ l -> (a, w') ∈ l -> w = w'.
Proof.
  intros Hl [i Hi]%list_elem_of_lookup [j Hj]%list_elem_of_lookup.
  assert (i = j) as ->; [|congruence].
  eapply (NoDup_lookup l.*1); [done|..]; rewrite list_lookup_fmap; [by rewrite Hi|by rewrite Hj].
Qed.

Lemma sorted_skip {A} (R' : A -> A -> Prop) l1 x l2 :
  StronglySorted R' (l1 ++ x :: l2) -> StronglySorted R' (l1 ++ l2).
Proof.
  intros (H1 & H2 & H3)%StronglySorted_app. apply StronglySorted_app.
  inversion H3; subst. split_and!; [|done..]. intros. apply H1; [done|by right].
Qed.

(** A directory met again is dropped. *)
Lemma walk_inv_skip m root out h q :
  walk_inv m root out (h :: q) -> h.1 ∈ out.*1 -> walk_inv m root out q.
Proof.
  intros [Hso Hn Hw Hd Hr Hc] Hin. apply list_elem_of_fmap in Hin as ([d k] & Ed & Hin).
  assert (Hk : (k <= h.2)%nat).
  { rewrite fmap_app in Hso. apply StronglySorted_app in Hso as (Hso & _).
    apply Hso; [by apply (list_elem_of_fmap_2 snd) in Hin|by left]. }
  split.
  - rewrite fmap_app in *. by eapply sorted_skip.
  - intros h' q' x -> Hx. transitivity (Datatypes.S h.2); [by apply (Hn h (h' :: q')); [done|right]|].
    rewrite fmap_app in Hso. apply StronglySorted_app in Hso as (_ & _ & Hso).
    inversion Hso as [|? ? _ Hall]. subst. csimpl. inversion Hall; subst. lia.
  - intros x Hx. apply Hw. set_solver.
  - done.
  - destruct h as [hd hk]. apply elem_of_app in Hr as [Hr|[Hr|Hr]%elem_of_cons]; [set_solver| |set_solver].
    injection Hr as <- <-. simpl in *. subst d. assert (k = 0%nat) as -> by lia. set_solver.
  - intros x c Hx Hcx. destruct (Hc x c Hx Hcx) as [?|[E|?]%elem_of_cons]; [by left| |by right].
    left. exists k. destruct h as [hd hk]. injection E as <- <-. simpl in *. by subst.
Qed.

(** A directory sent: its children wait, one level deeper. *)
Lemma walk_inv_send m root out h q :
  walk_inv m root out (h :: q) -> h.1 ∉ out.*1 ->
  walk_inv m root (out ++ [h]) (q ++ ((fun c => (c, Datatypes.S h.2)) <$> children m h.1)).
Proof.
  intros [Hso Hn Hw Hd Hr Hc] Hin. set (cs := (fun c => (c, Datatypes.S h.2)) <$> children m h.1).
  assert (Hcs : forall x, x ∈ cs -> x.2 = Datatypes.S h.2 /\ x.1 ∈ children m h.1).
  { intros x Hx. apply list_elem_of_fmap in Hx as (c & -> & Hc'). done. }
  assert (Happ : (out ++ [h]) ++ q ++ cs = (out ++ h :: q) ++ cs) by (by rewrite <- !app_assoc).
  assert (Hle : forall x, x ∈ out ++ h :: q -> (x.2 <= Datatypes.S h.2)%nat).
  { intros x [Hx|[->|Hx]%elem_of_cons]%elem_of_app; [|lia|by eapply Hn].
    rewrite fmap_app in Hso. apply StronglySorted_app in Hso as (Hso & _).
    apply (Nat.le_trans _ h.2); [|lia]. apply Hso; [by apply list_elem_of_fmap_2|by left]. }
  split.
  - rewrite Happ, fmap_app. apply StronglySorted_app. split_and!; [|done|].
    + intros k k' (x & -> & Hx)%list_elem_of_fmap (y & -> & Hy)%list_elem_of_fmap.
      destruct (Hcs y Hy) as [-> _]. auto.
    + assert (Hall : Forall (fun k => k = Datatypes.S h.2) cs.*2).
      { apply Forall_forall. intros k (x & -> & Hx)%list_elem_of_fmap. by apply Hcs. }
      induction Hall as [|k l -> Hl IH]; constructor; [done|].
      eapply Forall_impl; [exact Hl|]. by intros ? ->.
  - intros h' q' x E Hx.
    assert (Hh' : (h.2 <= h'.2)%nat).
    { assert (Hin' : h' ∈ q ++ cs) by (rewrite E; by left). apply elem_of_app in Hin' as [Hq|Hq].
      - rewrite fmap_app in Hso. apply StronglySorted_app in Hso as (_ & _ & Hso).
        inversion Hso as [|? ? _ Hall]. subst. rewrite Forall_forall in Hall. apply Hall.
        by apply list_elem_of_fmap_2.
      - destruct (Hcs _ Hq) as [-> _]. lia. }
    assert (Hin' : x ∈ q ++ cs) by (rewrite E; by right). apply elem_of_app in Hin' as [Hq|Hq].
    + assert (x.2 <= Datatypes.S h.2)%nat by (by eapply Hn). lia.
    + destruct (Hcs _ Hq) as [-> _]. lia.
  - intros x. rewrite Happ. intros [Hx|Hx]%elem_of_app; [auto|].
    destruct x as [c k]. destruct (Hcs _ Hx) as [Ek Hc']. simpl in *. subst k.
    econstructor; [|exact Hc']. apply Hw. set_solver.
  - rewrite fmap_app. apply NoDup_app. split_and!; [done| |apply NoDup_singleton].
    intros x Hx ->%list_elem_of_singleton. done.
  - rewrite Happ. set_solver.
  - intros x c [Hx|Hx%list_elem_of_singleton]%elem_of_app Hcx; [|subst x].
    + destruct (Hc x c Hx Hcx) as [(k & Hk & Hle')|[E|Hq]%elem_of_cons].
      * left. exists k. split; [set_solver|done].
      * left. exists (Datatypes.S x.2). split; [set_solver|done].
      * right. set_solver.
    + right. apply elem_of_app. right. apply list_elem_of_fmap. by exists c.
Qed.

(** When nothing waits, what was sent is what is reachable, at its distance. *)
Lemma walk_inv_end m root out :
  walk_inv m root out [] -> forall d n, (d, n) ∈ out <-> distance m root d n.
Proof.
  intros [Hso _ Hw Hd Hr Hc]. rewrite app_nil_r in *.
  assert (Hfound : forall k d, Walk m root k d -> exists n, (d, n) ∈ out /\ (n <= k)%nat).
  { induction 1 as [|k p d _ (n & Hn & Hle) Hcd]; [by exists 0%nat|].
    destruct (Hc (p, n) d Hn Hcd) as [(k' & Hk' & Hle')|Hq]; [|set_solver].
    exists k'. split; [done|]. simpl in Hle'. lia. }
  assert (Huniq : forall d n n', (d, n) ∈ out -> (d, n') ∈ out -> n = n').
  { intros d n n' H1 H2. by eapply NoDup_fst_unique. }
  intros d n. split.
  - intros Hin. split; [by apply (Hw (d, n))|]. intros k Hk.
    destruct (Hfound k d Hk) as (n' & Hn' & Hle). by rewrite (Huniq d n n').
  - intros [Hwk Hmin]. destruct (Hfound n d Hwk) as (n' & Hn' & Hle).
    assert (n <= n')%nat by (apply Hmin, (Hw _ Hn')). by assert (n = n') as -> by lia.
Qed.

(** The directories sent are those the digests name. *)
Definition decodes (m : gmap Digest (list byte)) (d : Digest) (dir : Directory) : Prop :=
  exists data, m !! d = Some data /\ decode_directory data = Ok dir.

(** What aborts a walk: a directory below the root that does not open. *)
Definition aborted m root (e : Status) : Prop :=
  exists d n s, Walk m root n d /\ held s = m /\ (open_dir d s).1 = Err e.

(** The fuel that always suffices. *)
Definition walk_fuel (m : gmap Digest (list byte)) : nat := closure_fuel dir_refs m ∅ + 1.

Lemma collect_loop_spec m fuel root (out queue : list (Digest * nat)) dirs s :
  cas_valid s -> held s = m -> walk_inv m root out queue -> Forall2 (decodes m) out.*1 dirs ->
  zlen queue + todo dir_refs m (list_to_set out.*1) < Z.of_nat fuel ->
  exists r s', collect_loop fuel (list_to_set out.*1) queue.*1 dirs s = (Some r, s') /\
    same_content s s' /\
    match r with
    | Ok dirs' => exists l, NoDup l.*1 /\ StronglySorted le l.*2 /\
        (forall d n, (d, n) ∈ l <-> distance m root d n) /\ Forall2 (decodes m) l.*1 dirs'
    | Err e => aborted m root e
    end.
Proof.
  revert out queue dirs s. induction fuel as [|fuel IH]; intros out queue dirs s Hv Hm Hinv Hdirs Hf.
  { pose proof (todo_nonneg dir_refs m (list_to_set out.*1)). pose proof (zlen_nonneg queue). lia. }
  destruct queue as [|h queue]; cbn [fmap list_fmap collect_loop].
  { eexists _, s. split; [done|]. split; [done|]. exists out. split_and!; [apply Hinv| | |done].
    - pose proof (wi_sorted _ _ _ _ Hinv) as Hso. by rewrite app_nil_r in Hso.
    - by apply walk_inv_end. }
  rewrite zlen_cons in Hf. case_bool_decide as Hin; rewrite elem_of_list_to_set in Hin.
  { apply IH; [done|done|by eapply walk_inv_skip|done|lia]. }
  destruct (open_dir h.1 s) as [r s1] eqn:Eo.
  destruct (open_dir_spec _ _ _ _ Hv Eo) as (Hs1 & Hv1 & Hr).
  destruct r as [[dir cs]|e].
  - destruct (Hr _ _ eq_refl) as (data & Hd & Hdir & ->). rewrite Hm in *.
    assert (Eset : list_to_set out.*1 ∪ {[h.1]} =@{gset Digest} list_to_set (out ++ [h]).*1).
    { rewrite fmap_app, list_to_set_app_L. csimpl. set_solver. }
    assert (Equeue : queue.*1 ++ children m h.1 =
      (queue ++ ((fun c => (c, Datatypes.S h.2)) <$> children m h.1)).*1).
    { rewrite fmap_app, <- list_fmap_compose. f_equal. symmetry. apply list_fmap_id. }
    rewrite Eset, Equeue.
    destruct (IH (out ++ [h]) (queue ++ ((fun c => (c, Datatypes.S h.2)) <$> children m h.1))
      (dirs ++ [dir]) s1) as (r & s' & -> & Hs' & Hout).
    + done.
    + destruct Hs1. congruence.
    + by apply walk_inv_send.
    + rewrite fmap_app. apply Forall2_app; [done|]. repeat constructor. by exists data.
    + rewrite <- Eset, zlen_app. unfold zlen at 2. rewrite length_fmap.
      rewrite (todo_visit dir_refs m _ h.1) in Hf by (by rewrite elem_of_list_to_set).
      unfold zlen in *. lia.
    + exists r, s'. split; [done|]. split; [by destruct Hs1, Hs'; split; congruence|done].
  - exists (Err e), s1. split_and!; [done|done|]. exists h.1, h.2, s. split_and!; [|done|by rewrite Eo].
    apply (wi_walk _ _ _ _ Hinv). apply elem_of_app. right. by left.
Qed.

(** C16. A directory tree is walked breadth first: with as much fuel as there are
    references held, the walk ends without changing the store; when it succeeds, it gives
    the directories that can be reached from the root through sub-directories, each once,
    in order of their distance from the root; and when it does not, one of those could not
    be opened. *)
Theorem tree_walk_is_breadth_first (root : Digest) s (fuel : nat) :
  cas_valid s -> (walk_fuel (held s) <= fuel)%nat ->
  exists r s', collect_tree fuel root s = (Some r, s') /\ same_content s s' /\
    match r with
    | Ok dirs => exists l, NoDup l.*1 /\ StronglySorted le l.*2 /\
        (forall d n, (d, n) ∈ l <-> distance (held s) root d n) /\
        Forall2 (decodes (held s)) l.*1 dirs
    | Err e => aborted (held s) root e
    end.
Proof.
  intros Hv Hf. apply (collect_loop_spec (held s) fuel root [] [(root, 0%nat)] [] s); try done.
  - apply walk_inv_start.
  - unfold walk_fuel, closure_fuel in Hf. rewrite size_empty in Hf. csimpl.
    assert (Ht : todo dir_refs (held s) ∅ = msum (edge_count dir_refs (held s))).
    { unfold todo. f_equal. apply map_filter_id. set_solver. }
    assert (0 <= msum (edge_count dir_refs (held s))) by (rewrite <- Ht; apply todo_nonneg).
    rewrite Ht. unfold zlen. simpl length. lia.
Qed.

(** ** Pages *)

Lemma tree_pages_concat fuel size delivered dirs :
  (0 < size)%nat -> (length dirs < fuel)%nat ->
  concat (page_directories <$> tree_pages fuel size delivered dirs) = dirs.
Proof.
  intros Hsize. revert delivered dirs. induction fuel as [|fuel IH]; intros delivered dirs Hf; [lia|].
  cbn [tree_pages]. set (take_ := Nat.min size (length dirs)).
  destruct (skipn take_ dirs) as [|d rest] eqn:E; csimpl.
  - rewrite app_nil_r. rewrite <- (firstn_skipn take_ dirs) at 2. by rewrite E, app_nil_r.
  - rewrite IH.
    + rewrite <- E. apply firstn_skipn.
    + assert (Hl : length (skipn take_ dirs) = length (d :: rest)) by (by rewrite E).
      rewrite length_skipn in Hl. unfold take_ in Hl. simpl in *. lia.
Qed.

(** Sending is the same from where a page left off. *)
Lemma tree_pages_fuel fuel fuel' size delivered dirs :
  (0 < size)%nat -> (length dirs < fuel)%nat -> (length dirs < fuel')%nat ->
  tree_pages fuel size delivered dirs = tree_pages fuel' size delivered dirs.
Proof.
  intros Hsize. revert fuel' delivered dirs. induction fuel as [|fuel IH]; intros fuel' delivered dirs Hf Hf'; [lia|].
  destruct fuel' as [|fuel']; [lia|]. cbn [tree_pages].
  destruct (skipn (Nat.min size (length dirs)) dirs) as [|d rest] eqn:E; [done|]. f_equal.
  assert (Hl : (length (skipn (Nat.min size (length dirs)) dirs) < length dirs)%nat).
  { rewrite length_skipn. destruct dirs; [rewrite skipn_nil in E; done|]. simpl length. lia. }
  rewrite E in Hl. apply IH; lia.
Qed.

Lemma tree_pages_S fuel size delivered dirs :
  tree_pages (Datatypes.S fuel) size delivered dirs =
  let tk := Nat.min size (length dirs) in
  match skipn tk dirs with
  | [] => [mkPage (firstn tk dirs) []]
  | d :: rest => mkPage (firstn tk dirs) (dec (Z.of_nat (delivered + tk))) ::
      tree_pages fuel size (delivered + tk) (d :: rest)
  end.
Proof. cbn [tree_pages]. by destruct (skipn _ dirs). Qed.

Lemma tree_pages_some fuel size delivered dirs :
  (0 < length (tree_pages (Datatypes.S fuel) size delivered dirs))%nat.
Proof. rewrite tree_pages_S. cbv zeta. destruct (skipn _ dirs); simpl; lia. Qed.

(** A page of a stream that started after [skip] directories. *)
Lemma tree_pages_lookup fuel size delivered dirs i pg :
  (0 < size)%nat -> (length dirs < fuel)%nat -> tree_pages fuel size delivered dirs !! i = Some pg ->
  exists rest, rest = skipn (i * size) dirs /\
    page_directories pg = firstn size rest /\
    (next_page_token pg = [] /\ (length rest <= size)%nat /\
       length (tree_pages fuel size delivered dirs) = Datatypes.S i \/
     (size < length rest)%nat /\
     next_page_token pg = dec (Z.of_nat (delivered + i * size + size)) /\
     skipn (Datatypes.S i) (tree_pages fuel size delivered dirs) =
       tree_pages (Datatypes.S (length (skipn size rest))) size (delivered + i * size + size) (skipn size rest)).
Proof.
  intros Hsize. revert delivered dirs i. induction fuel as [|fuel IH]; intros delivered dirs i Hf E; [lia|].
  rewrite (tree_pages_S fuel size delivered dirs) in E |- *. cbv zeta in *.
  set (tk := Nat.min size (length dirs)) in *.
  assert (Htk : firstn tk dirs = firstn size dirs).
  { unfold tk. destruct (le_dec size (length dirs)); [by rewrite Nat.min_l|].
    rewrite Nat.min_r by lia. by rewrite !firstn_all2 by lia. }
  destruct (skipn tk dirs) as [|d rest] eqn:Er.
  - apply (f_equal length) in Er. rewrite length_skipn in Er. simpl in Er.
    destruct i as [|i]; [|done]. injection E as <-. exists dirs. cbn. split_and!; [done..|].
    left. split_and!; [done|unfold tk in Er; lia|done].
  - assert (Hlt : (size < length dirs)%nat).
    { apply (f_equal length) in Er. rewrite length_skipn in Er. simpl in Er. unfold tk in Er. lia. }
    assert (Etk : tk = size) by (unfold tk; lia). rewrite Etk in *.
    assert (Hrest : (length (d :: rest) < fuel)%nat) by (rewrite <- Er, length_skipn; lia).
    destruct i as [|i].
    + injection E as <-. exists dirs. cbn [Nat.mul skipn page_directories next_page_token].
      split_and!; [done..|]. right. split; [done|]. rewrite Nat.add_0_r. split; [done|].
      rewrite Er. apply tree_pages_fuel; [done|done|lia].
    + cbn [lookup list_lookup] in E. destruct (IH (delivered + size)%nat (d :: rest) i Hrest E) as (rest' & -> & Hp & Ht).
      rewrite <- Er in Hp, Ht. rewrite skipn_skipn in Hp, Ht.
      assert (Ea : (Datatypes.S i * size = i * size + size)%nat) by lia. rewrite Ea.
      exists (skipn (i * size + size) dirs). split_and!; [done|done|].
      destruct Ht as [(Ht & Hlen & Hn)|(Hlen & Ht & Hn)].
      * left. split_and!; [done|done|]. rewrite Er in Hn. simpl. by rewrite Hn.
      * right. split; [done|]. rewrite Ht. split; [f_equal; f_equal; lia|].
        rewrite Er in Hn. cbn [skipn]. rewrite Hn. f_equal. lia.
Qed.

(** The same content gives the same walk. *)
Lemma collect_loop_same fuel1 fuel2 visited queue out s1 s2 d1 d2 s1' s2' :
  cas_valid s1 -> cas_valid s2 -> held s1 = held s2 ->
  collect_loop fuel1 visited queue out s1 = (Some (Ok d1), s1') ->
  collect_loop fuel2 visited queue out s2 = (Some (Ok d2), s2') -> d1 = d2.
Proof.
  revert fuel2 visited queue out s1 s2. induction fuel1 as [|fuel1 IH];
    intros [|fuel2] visited queue out s1 s2 Hv1 Hv2 Hh E1 E2; try done.
  cbn [collect_loop] in E1, E2. destruct queue as [|dg queue]; [congruence|].
  case_bool_decide; [by eapply (IH fuel2 _ _ _ s1 s2)|].
  destruct (open_dir dg s1) as [r1 t1] eqn:F1. destruct (open_dir dg s2) as [r2 t2] eqn:F2.
  destruct (open_dir_spec _ _ _ _ Hv1 F1) as ([Ht1 _] & Hw1 & H1).
  destruct (open_dir_spec _ _ _ _ Hv2 F2) as ([Ht2 _] & Hw2 & H2).
  destruct r1 as [[dir1 cs1]|]; [|done]. destruct r2 as [[dir2 cs2]|]; [|done].
  destruct (H1 _ _ eq_refl) as (b1 & Hb1 & Hd1 & ->). destruct (H2 _ _ eq_refl) as (b2 & Hb2 & Hd2 & ->).
  rewrite Hh in *. assert (b1 = b2) as -> by congruence. assert (dir1 = dir2) as -> by congruence.
  eapply (IH fuel2 _ _ _ t1 t2); [done|done|congruence|exact E1|exact E2].
Qed.

Lemma tree_request_Ok req root size skip :
  tree_request req = Ok (root, size, skip) ->
  (0 < size)%nat /\
  forall n, 0 <= n <= u64_max ->
    tree_request (mkGetTree (root_digest req) (page_size req) (dec n)) = Ok (root, size, Z.to_nat n).
Proof.
  unfold tree_request. cbn [root_digest page_size page_token]. rewrite bind_Ok.
  intros (r & -> & E). rewrite bind_Ok in E. destruct E as (r' & Hr & E). cbv zeta in E.
  rewrite bind_Ok in E. destruct E as (k & _ & E). injection E as <- <- _. split.
  - unfold DEFAULT_GET_TREE_PAGE_SIZE. case_bool_decide; lia.
  - intros n Hn. assert (Hp : parse_u64 (dec n) = Some n) by (by apply parse_dec).
    rewrite bind_Ok_l, Hr, bind_Ok_l. rewrite (bool_decide_false (dec n = [])) by (intros E; by rewrite E in Hp).
    rewrite Hp. done.
Qed.

Lemma send_pages_skip size skip all i pg :
  (0 < size)%nat -> send_pages size skip all !! i = Some pg ->
  (length (page_directories pg) <= size)%nat /\
  (next_page_token pg = [] /\ length (send_pages size skip all) = Datatypes.S i \/
   exists n, next_page_token pg = dec (Z.of_nat n) /\ (n <= length all)%nat /\
     length (page_directories pg) = size /\
     send_pages size n all = skipn (Datatypes.S i) (send_pages size skip all) /\
     (Datatypes.S i < length (send_pages size skip all))%nat).
Proof.
  intros Hsize E. unfold send_pages in *. set (st := Nat.min skip (length all)) in *.
  destruct (tree_pages_lookup _ _ _ _ _ _ Hsize (Nat.lt_succ_diag_r _) E) as (rest & Hrest & -> & Ht).
  split; [rewrite length_firstn; lia|].
  destruct Ht as [(-> & Hlen & Hn)|(Hlen & -> & Hn)]; [by left|right].
  rewrite skipn_skipn in Hrest. assert (Hl : length rest = (length all - (st + i * size))%nat)
    by (rewrite Hrest, length_skipn; lia).
  exists (st + i * size + size)%nat. split; [done|]. split; [lia|].
  split; [rewrite length_firstn; lia|].
  rewrite (Nat.min_l (st + i * size + size)) by lia. rewrite Hn.
  assert (Eskip : skipn size rest = skipn (st + i * size + size) all) by (rewrite Hrest, !skipn_skipn; f_equal; lia).
  rewrite Eskip. split; [done|]. rewrite Eskip in Hn. apply (f_equal length) in Hn.
  rewrite length_skipn in Hn.
  pose proof (tree_pages_some (length (skipn (st + i * size + size) all)) size
    (st + i * size + size) (skipn (st + i * size + size) all)). lia.
Qed.

(** A tree comes in pages that chain: the directories of the pages are, in order, those
    of the walk that are not skipped, no page has more than asked for; only the last has no
    token; every other is full, and a call with its token, on a store of the same content,
    is sent exactly the pages that come after it, or the error of its walk. *)
Theorem tree_pages_chain (req : GetTreeRequest) fuel s s' root size skip all :
  cas_valid s -> tree_request req = Ok (root, size, skip) ->
  collect_tree fuel root s = (Some (Ok all), s') -> Z.of_nat (length all) <= u64_max ->
  exists ps, get_tree fuel req s = (Some (Ok (Ok <$> ps)), s') /\
    concat (page_directories <$> ps) = skipn skip all /\
    forall i pg, ps !! i = Some pg ->
      (length (page_directories pg) <= size)%nat /\
      (next_page_token pg = [] <-> Datatypes.S i = length ps) /\
      (next_page_token pg <> [] -> length (page_directories pg) = size /\
       forall fuel2 s2 s3 sent, cas_valid s2 -> held s2 = held s ->
         get_tree fuel2 (mkGetTree (root_digest req) (page_size req) (next_page_token pg)) s2 =
           (Some (Ok sent), s3) ->
         sent = Ok <$> skipn (Datatypes.S i) ps \/ exists e, sent = [Err e]).
Proof.
  intros Hv Hreq Hall Hlen. destruct (tree_request_Ok _ _ _ _ Hreq) as [Hsize Hnext].
  exists (send_pages size skip all). split; [unfold get_tree; by rewrite Hreq, Hall|]. split.
  { unfold send_pages. rewrite tree_pages_concat by (done || lia).
    destruct (le_dec skip (length all)); [by rewrite Nat.min_l|].
    rewrite Nat.min_r, !skipn_all2 by lia. done. }
  intros i pg Hpg. destruct (send_pages_skip _ _ _ _ _ Hsize Hpg) as [Hle Ht]. split; [done|].
  destruct Ht as [[-> Hn]|(n & -> & Hn & Hfull & Hsend & Hlt)]; [by rewrite Hn|].
  assert (Hne : dec (Z.of_nat n) <> []).
  { intros E. pose proof (parse_dec u64_max (Z.of_nat n) ltac:(lia)) as Hp. by rewrite E in Hp. }
  split; [split; [done|lia]|]. intros _. split; [done|]. intros fuel2 s2 s3 sent Hv2 Hh E.
  unfold get_tree in E. rewrite Hnext, Nat2Z.id in E by lia.
  destruct (collect_tree fuel2 root s2) as [[[all2|e]|] s4] eqn:E2; [| |done]; injection E as <- <-.
  - left. rewrite <- Hsend. f_equal. f_equal. unfold collect_tree in *.
    by eapply (collect_loop_same fuel2 fuel _ _ _ s2 s).
  - right. by exists e.
Qed.
End walk.

(** ** Reads and writes *)

Section bytestream.
Context {T : Texts} {S : Type} {Hs : Hashers} {B : CasBackend S} {R : ReclaimableCas S}
  {V : CasModel S} {L : CasLaws S}.
Implicit Types (s : S).

(** Skipping leaves the rest of the blob. *)
Lemma skip_copy_rest n src data :
  read_to_end src = (Ok data, []) -> read_to_end (skip_copy n src) = (Ok (skipn (Z.to_nat n) data), []).
Proof.
  revert n data. induction src as [|[b|e] src IH]; intros n data E; cbn [skip_copy]; case_bool_decide as Hn;
    try (replace (Z.to_nat n) with O by lia; exact E).
  - injection E as <-. by rewrite skipn_nil.
  - cbn [read_to_end] in E. destruct b as [|x b].
    + injection E as <- ->. by rewrite skipn_nil.
    + destruct (read_to_end src) as [[d|e] rest] eqn:Es; cbn in E; [|done]. injection E as <- ->.
      change (x :: b ++ d) with ((x :: b) ++ d).
      case_bool_decide as Hle; unfold zlen in *; simpl length in *.
      * rewrite (IH _ d) by done. f_equal. f_equal. rewrite skipn_app, (skipn_all2 (x :: b)) by (simpl length; lia).
        cbn [app]. f_equal. simpl length. lia.
      * rewrite skipn_app. simpl length. replace (Z.to_nat n - Datatypes.S (length b))%nat with O by lia.
        assert (Hl : length (skipn (Z.to_nat n) (x :: b)) <> O) by (rewrite length_skipn; simpl length; lia).
        destruct (skipn (Z.to_nat n) (x :: b)) as [|y t]; [done|]. cbn [read_to_end].
        by rewrite Es.
  - cbn [read_to_end] in E. case_bool_decide; [by apply IH|done].
Qed.

(** A read serves the slice asked for: it changes nothing, and when it is answered,
    the name is that of a blob; what is sent, while no read is interrupted, is the bytes
    of the stored blob that hash to the digest named, from the offset on (a negative one
    is zero) and up to the limit (none, unless positive), in chunks of at most 64 KiB; or
    an error alone, when the store does not serve the blob. *)
Theorem read_serves_the_slice (req : ReadRequest) s r s' :
  cas_valid s -> bytestream_read req s = (r, s') ->
  same_content s s' /\
  forall sent, r = Ok sent -> exists inst h n d,
    resource_parse (r_resource_name req) = Ok (RRead inst h n) /\
    algo d = Sha256 /\ h = Hex.encode (bytes d) /\
    ((exists data out, held s !! d = Some data /\ verify d data = true /\
        Pump.delivered (up_to (read_limit_of req) (skipn (Z.to_nat (Z.max 0 (read_offset req))) data)) out /\
        sent = map_err (fun e => internal (bs "reading blob: " ++ ie_display e)) <$> out) \/
     exists e, sent = [Err e]).
Proof.
  intros Hv E. unfold bytestream_read in E. unfold mbind at 1, M_bind at 1, lift at 1 in E.
  destruct (resource_parse (r_resource_name req)) as [[inst h n|inst u h n]|e] eqn:En;
    [|by injection E as <- <-|by injection E as <- <-].
  unfold mbind, M_bind, lift in E. destruct (native_for h n) as [d|e] eqn:Ed; [|by injection E as <- <-].
  apply to_native_Ok in Ed as (_ & Ha & Hh). unfold read_blob, read_task in E.
  destruct (law_get d s Hv) as [Hget _]. unfold get_spec in Hget.
  destruct (cas_get d s) as [[src|e] s1]; destruct Hget as [Hs1 Hget]; injection E as <- <-;
    (split; [done|]); intros sent [= <-]; exists inst, h, n, d; split_and!; try done.
  - left. destruct Hget as (data & Hd & Hver & Hread). eexists data, _. split_and!; [done|done| |reflexivity].
    eapply pump_all_delivers; [|by apply skip_copy_rest].
    unfold read_limit_of. case_bool_decide; simpl; [lia|done].
  - right. by eexists.
Qed.

(** An acknowledged upload is held: when a write is answered, its stream named an
    upload and carried as many bytes as the name says, and the store holds the digest the
    name gives, these bytes if it had none; and a write that fails changes nothing. *)
Theorem acknowledged_upload_is_held (stream : list (result Status WriteRequest)) s r s' :
  cas_valid s -> write_stream stream s = (r, s') ->
  cas_valid s' /\
  match r with
  | Ok committed => exists inst uuid h data d,
      write_collect None [] stream = Ok (Some (RWrite inst uuid h (zlen data)), data) /\
      algo d = Sha256 /\ h = Hex.encode (bytes d) /\ committed = as_i64 (zlen data) /\
      is_Some (held s' !! d) /\ (stores s d data s' \/ same_content s s')
  | Err _ => same_content s s'
  end.
Proof.
  intros Hv E. unfold write_stream in E. unfold mbind at 1, M_bind at 1, lift at 1 in E.
  destruct (write_collect None [] stream) as [[res data]|e]; [|by injection E as <- <-].
  unfold mbind at 1, M_bind at 1, lift at 1 in E.
  destruct (write_target res data) as [[d n]|e] eqn:Et; [|by injection E as <- <-].
  destruct res as [[|inst uuid h n']|]; try done. cbn [write_target] in Et.
  case_bool_decide as Hn; [done|]. subst n'.
  destruct (native_for h (zlen data)) as [d'|e] eqn:Ed; [|done]. injection Et as -> <-.
  apply to_native_Ok in Ed as (_ & Ha & Hh).
  unfold mbind, M_bind, put_bytes in E.
  destruct (law_put_keyed d (cursor data) s Hv) as [Hspec Hv1]. unfold put_keyed_spec in Hspec.
  destruct (cas_put_keyed d (cursor data) s) as [[[[]|e] rest] s1]; destruct Hspec as [_ Hspec];
    injection E as <- <-; [|done].
  split; [done|]. exists inst, uuid, h, data, d. split_and!; try done; destruct Hspec as [(data' & Hr & Hst)|(_ & Hin & Hsame)].
  - rewrite read_to_end_cursor in Hr. injection Hr as <- _. destruct Hst as (_ & _ & Hst).
    destruct (held s !! d) as [old|] eqn:Eo; [destruct Hst as [->|[_ ->]]|rewrite Hst];
      rewrite ?Eo, ?lookup_insert_eq; by eexists.
  - destruct Hsame as [-> _]. done.
  - rewrite read_to_end_cursor in Hr. injection Hr as <- _. by left.
  - by right.
Qed.
End bytestream.

(** ** Results *)

Section results.
Context {T : Texts} {Meta : Type} {Hs : Hashers}.

(** Every digest of a result is a SHA-256 one: what the boundary can name. *)
Definition sha256_result (ar : ActionResult.t) : Prop :=
  Forall (fun d => algo d = Sha256) (ActionResult.references ar).

(** What a message can hold: its strings are UTF-8, its numbers 32 bits. *)
Definition message_ok (p : RActionResult Meta) : Prop :=
  Forall (fun f => utf8_valid (path f) = true) (output_files p) /\ is_i32 (exit_code p).

Definition emitted (n : Digest -> Z) (kv : text * ActionResult.OutputFile) : OutputFile :=
  mkOutput kv.1 (Some (to_reapi (ActionResult.of_digest kv.2) (n (ActionResult.of_digest kv.2))))
    (ActionResult.is_executable kv.2) [] None.

Definition emitted_result (n : Digest -> Z) (ar : ActionResult.t) : RActionResult Meta :=
  mkResult (emitted n <$> ActionResult.outputs ar) [] [] [] [] (ActionResult.exit_code ar)
    [] ((fun d => to_reapi d (n d)) <$> ActionResult.stdout_digest ar)
    [] ((fun d => to_reapi d (n d)) <$> ActionResult.stderr_digest ar) None.

Lemma native_outputs_emitted n l acc :
  bt_sorted (acc ++ l) ->
  Forall (fun kv => digest_wf (ActionResult.of_digest kv.2) /\ algo (ActionResult.of_digest kv.2) = Sha256) l ->
  native_outputs (emitted n <$> l) acc = Ok (acc ++ l).
Proof.
  revert acc. induction l as [|[k [d x]] l IH]; intros acc Hso Hl; [by rewrite app_nil_r|].
  apply Forall_cons in Hl as [[Hwf Ha] Hl]. cbn [ActionResult.of_digest snd] in Hwf, Ha.
  rewrite fmap_cons. cbn [native_outputs].
  cbn [emitted fst snd of_digest path is_executable ActionResult.of_digest ActionResult.is_executable ok_or].
  rewrite bind_Ok_l, to_native_to_reapi, bind_Ok_l by done.
  pose proof (bt_sorted_app _ _ _ _ Hso) as Hlast.
  rewrite bool_decide_false.
  2:{ intros Hin. rewrite Forall_forall in Hlast. specialize (Hlast k Hin). by apply klt_irrefl in Hlast. }
  rewrite bt_insert_last by done. rewrite IH; [by rewrite <- app_assoc|by rewrite <- app_assoc|done].
Qed.

Lemma opt_to_native_emitted n (d : option Digest) :
  opt_digest_wf d -> Forall (fun d => algo d = Sha256) (option_list d) ->
  opt_to_native ((fun d => to_reapi d (n d)) <$> d) = Ok d.
Proof.
  destruct d as [d|]; [|done]. intros Hwf [Ha _]%Forall_cons. cbn. by rewrite to_native_to_reapi.
Qed.

(** What the face emits of a result is read back as that result. *)
Lemma emitted_read_back n ar :
  ActionResult.wf ar -> sha256_result ar -> ar_from_reapi (emitted_result n ar) = Ok ar.
Proof.
  intros (Hso & Hout & _ & H1 & H2) Hsha. unfold sha256_result, ActionResult.references in Hsha.
  rewrite !Forall_app, Forall_fmap in Hsha. destruct Hsha as (Ho & Hs1 & Hs2).
  unfold ar_from_reapi, emitted_result. cbn [output_directories output_symlinks execution_metadata
    stdout_raw stderr_raw output_files stdout_digest stderr_digest exit_code length].
  rewrite !bool_decide_false by (intros [? | ?]; congruence). cbn [negb orb bool_decide].
  rewrite (native_outputs_emitted n _ []); [|done|].
  - rewrite bind_Ok_l, !opt_to_native_emitted by done. rewrite !bind_Ok_l. by destruct ar.
  - rewrite Forall_forall in *. intros kv Hin. split; [by apply Hout|by apply (Ho kv)].
Qed.

Section emit.
Context {S : Type} (sizes : SizeSource S) (n : Digest -> Z) (s : S).

Lemma emit_outputs_Ok l :
  Forall (fun kv => sizes (ActionResult.of_digest kv.2) s = (Ok (n (ActionResult.of_digest kv.2)), s)) l ->
  emit_outputs sizes l s = (Ok (emitted n <$> l), s).
Proof.
  induction 1 as [|[k f] l E _ IH]; [done|]. cbn [emit_outputs]. cbn [snd] in E.
  unfold mbind, M_bind. rewrite E, IH. done.
Qed.

Lemma ar_to_reapi_Ok ar :
  Forall (fun d => sizes d s = (Ok (n d), s)) (ActionResult.references ar) ->
  ar_to_reapi sizes ar s = (Ok (emitted_result n ar), s).
Proof.
  unfold ActionResult.references. rewrite !Forall_app, Forall_fmap. intros (Ho & H1 & H2).
  unfold ar_to_reapi. unfold mbind, M_bind. rewrite emit_outputs_Ok by done.
  assert (Hopt : forall o, Forall (fun d => sizes d s = (Ok (n d), s)) (option_list o) ->
    opt_to_reapi sizes o s = (Ok ((fun d => to_reapi d (n d)) <$> o), s)).
  { intros [d|]; [|done]. intros [E _]%Forall_cons. unfold opt_to_reapi, mbind, M_bind. by rewrite E. }
  by rewrite !Hopt.
Qed.
End emit.

(** What the face reads of a message is well formed. *)
Lemma native_outputs_wf l acc outs :
  bt_sorted acc -> Forall (fun f => utf8_valid (path f) = true) l ->
  native_outputs l acc = Ok outs ->
  bt_sorted outs /\
  forall kv, kv ∈ outs -> kv ∈ acc \/ utf8_valid kv.1 = true /\ ActionResult.output_wf kv.2 /\
    algo (ActionResult.of_digest kv.2) = Sha256.
Proof.
  intros Hso Hl. revert acc Hso. induction Hl as [|f l Hf Hl IH]; intros acc Hso E; cbn [native_outputs] in E.
  { injection E as <-. split; [done|]. intros kv. by left. }
  rewrite bind_Ok in E. destruct E as (r & _ & E). rewrite bind_Ok in E. destruct E as (d & Hd & E).
  apply to_native_Ok in Hd as (Hwf & Ha & _). case_bool_decide; [done|].
  destruct (IH _ (bt_insert_sorted _ _ _ Hso) E) as [Hso' Hall]. split; [done|].
  intros kv Hkv. destruct (Hall kv Hkv) as [[->|Hin]%bt_insert_elem|?]; [|by left|by right].
  right. split_and!; done.
Qed.

Lemma opt_to_native_wf o d :
  opt_to_native o = Ok d -> opt_digest_wf d /\ Forall (fun d => algo d = Sha256) (option_list d).
Proof.
  destruct o as [r|]; cbn [opt_to_native]; [|by intros [= <-]].
  rewrite bind_Ok. intros (x & (Hwf & Ha & _)%to_native_Ok & [= <-]). cbn. by repeat constructor.
Qed.

Lemma from_reapi_wf (p : RActionResult Meta) ar :
  message_ok p -> ar_from_reapi p = Ok ar -> ActionResult.wf ar /\ sha256_result ar.
Proof.
  intros [Hp Hx] E. unfold ar_from_reapi in E. repeat (case_match; try done).
  rewrite bind_Ok in E. destruct E as (outs & Ho & E). rewrite bind_Ok in E. destruct E as (o1 & Ho1 & E).
  rewrite bind_Ok in E. destruct E as (o2 & Ho2 & E). injection E as <-.
  apply native_outputs_wf in Ho as [Hso Hall]; [|constructor|done].
  apply opt_to_native_wf in Ho1 as [Hw1 Hs1]. apply opt_to_native_wf in Ho2 as [Hw2 Hs2].
  assert (Hall' : forall kv, kv ∈ outs -> utf8_valid kv.1 = true /\ ActionResult.output_wf kv.2 /\
    algo (ActionResult.of_digest kv.2) = Sha256) by (intros kv Hkv; destruct (Hall kv Hkv); set_solver).
  split.
  - split_and!; try done. apply Forall_forall. intros kv Hkv. destruct (Hall' kv Hkv) as (? & ? & ?). done.
  - unfold sha256_result, ActionResult.references. cbn. rewrite !Forall_app, Forall_fmap. split_and!; [|done|done].
    apply Forall_forall. intros kv Hkv. by apply Hall'.
Qed.
End results.

(** ** The keystone: a result updated is a result served *)

Section keystone.
Context {T : Texts} {Meta : Type} {Hs : Hashers} {HL : HasherLaws Hs}.
Implicit Types (ac : MemActionCache Mem.MemCas).

(** The daemon's cache: it admits what its own signer signs. *)
Definition own_tier (dev : DevSelfSigner) : ActionCacheBackend (MemActionCache Mem.MemCas) :=
  ac_tier (dev_verifier dev).

Lemma dev_signed_verifies dev action res :
  let sg := sign_statement (dev_signer dev) action res in
  dev_verifier dev (signer (attestation sg))
    (statement_signing_bytes action (att_result (attestation sg))) (signature sg) = true.
Proof. cbn. unfold dev_verifier. by rewrite !bool_decide_true. Qed.

Definition stored_size ac (d : Digest) : Z := zlen (default [] (Mem.blobs (ac_cas ac) !! d)).

Definition body_put ac (ar : ActionResult.t) : Mem.MemCas :=
  Mem.or_insert (ActionResult.result_digest ar) (ActionResult.to_canonical_bytes ar) (ac_cas ac).

Lemma attest_result_own dev ac action ar :
  exists ac1, attest_result (own_tier dev) (dev_signer dev) action ar ac = (Ok (), ac1) /\
    ac_cas ac1 = body_put ac ar /\ threshold ac1 = threshold ac /\
    attested ac1 action = {[mkAttestation (dev_id dev) (ActionResult.result_digest ar)]} ∪ attested ac action.
Proof.
  unfold attest_result. cbn [cas_put ac_backend]. unfold ac_put. cbn [cas_put Mem.mem_backend].
  unfold Mem.put. rewrite read_to_end_cursor. unfold on_backend. cbn [acb_attest own_tier ac_tier].
  unfold attest_action_result. rewrite dev_signed_verifies. eexists. split; [reflexivity|].
  cbn [ac_cas threshold entries]. split_and!; [done|done|].
  unfold attested. cbn [entries]. rewrite lookup_insert_eq. cbn.
  by destruct (entries ac !! action).
Qed.

Lemma body_put_lookup ac ar d b :
  Mem.blobs (ac_cas ac) !! d = Some b -> Mem.blobs (body_put ac ar) !! d = Some b.
Proof.
  intros Hd. unfold body_put, Mem.or_insert. destruct (Mem.blobs (ac_cas ac) !! ActionResult.result_digest ar) eqn:E; [done|].
  cbn [Mem.blobs]. rewrite lookup_insert_ne; [done|]. intros Ed. rewrite Ed, Hd in E. done.
Qed.

Lemma body_put_own ac ar :
  (forall b, Mem.blobs (ac_cas ac) !! ActionResult.result_digest ar = Some b ->
     b = ActionResult.to_canonical_bytes ar) ->
  Mem.blobs (body_put ac ar) !! ActionResult.result_digest ar = Some (ActionResult.to_canonical_bytes ar).
Proof.
  intros Hbody. unfold body_put, Mem.or_insert.
  destruct (Mem.blobs (ac_cas ac) !! ActionResult.result_digest ar) as [b|] eqn:E.
  - by rewrite E, (Hbody b).
  - cbn [Mem.blobs]. apply lookup_insert_eq.
Qed.

(** C20. A result updated is the result served.  Where one signer is enough (a threshold of
    one), updates are enabled, no other result was attested for the action, the message is
    one the store can represent, nothing else is stored under the result's digest and every
    output it names is held, an update is acknowledged, and the action's result then served
    is it: the same native result with the lengths of the stored blobs.  Without the condition
    on other results it is not: [second_result_is_lost]. *)
Theorem updated_result_is_served (dev : DevSelfSigner) (cfg : ReapiConfig) ac (a : RDigest)
    (action : Digest) (p : RActionResult Meta) (ar : ActionResult.t) :
  threshold ac = 1%positive -> ac_update_enabled cfg = true -> to_native a = Ok action ->
  message_ok p -> ar_from_reapi p = Ok ar -> ActionResult.fits ar ->
  (forall b, Mem.blobs (ac_cas ac) !! ActionResult.result_digest ar = Some b ->
     b = ActionResult.to_canonical_bytes ar) ->
  (forall t, t ∈ attested ac action -> att_result t = ActionResult.result_digest ar) ->
  Forall (fun d => is_Some (Mem.blobs (ac_cas ac) !! d)) (ActionResult.references ar) ->
  exists ac1,
    update_action_result (Some (own_tier dev)) cfg (Some (dev_signer dev)) (Some a) (Some p) ac = (Ok p, ac1) /\
    exists out, get_action_result (Some (own_tier dev)) (Some a) ac1 = (Ok out, ac1) /\
      out = emitted_result (Meta := Meta) (stored_size ac) ar /\ ar_from_reapi out = Ok ar.
Proof.
  intros Hk Hcfg Ha Hp Har Hfit Hbody Hatt Hrefs.
  destruct (from_reapi_wf _ _ Hp Har) as [Hwf Hsha].
  destruct (attest_result_own dev ac action ar) as (ac1 & E1 & Hcas & Hthr & Hnew).
  exists ac1. split.
  { unfold update_action_result. rewrite Hcfg. cbn [negb ok_or]. unfold mbind, M_bind, lift.
    by rewrite Ha, Har, E1. }
  exists (emitted_result (stored_size ac) ar). split_and!; [|done|by apply emitted_read_back].
  assert (Hget : acb_get (ActionCacheBackend := own_tier dev) action ac1 = (Ok (Some ar), ac1)).
  { cbn [acb_get own_tier ac_tier]. unfold ActionCache.get_action_result.
    pose proof (attested_resolve ac1 action (threshold ac1)) as Hr.
    rewrite (resolve_unanimous _ _ (ActionResult.result_digest ar)) in Hr by (cbn; rewrite Hnew; set_solver).
    unfold is_confirmed in Hr. rewrite bool_decide_true in Hr.
    2:{ rewrite Hthr, Hk. assert (Hin : dev_id dev ∈ signers_for (mkAttSet (attested ac1 action)) (ActionResult.result_digest ar)).
        { apply elem_of_signers. cbn. rewrite Hnew. set_solver. }
        assert (size (signers_for (mkAttSet (attested ac1 action)) (ActionResult.result_digest ar)) <> 0)%nat; [|lia].
        intros E0%size_empty_inv. set_solver. }
    destruct (entries ac1 !! action) as [set|]; [|done]. rewrite Hr.
    unfold materialize, mbind, M_bind, ac_get, on_cas. cbn [cas_get Mem.mem_backend]. unfold Mem.get.
    rewrite Hcas, body_put_own by done. cbn [ok_or fmap result_fmap]. rewrite read_to_end_cursor.
    unfold lift. cbn [fst map_err]. rewrite ActionResult.ar_from_to_canonical by done. cbn.
    rewrite <- Hcas. by destruct ac1. }
  unfold get_action_result. cbn [ok_or]. unfold mbind, M_bind, lift. rewrite Ha.
  unfold cached_result. rewrite Hget. apply ar_to_reapi_Ok.
  eapply Forall_impl; [exact Hrefs|]. intros d [b Hb]. unfold cas_size_source, mbind, M_bind, on_backend.
  cbn [cas_size ac_backend]. unfold ac_size, on_cas. cbn [cas_size Mem.mem_backend]. unfold Mem.size.
  rewrite Hcas, (body_put_lookup _ _ _ _ Hb). unfold stored_size. rewrite Hb. cbn.
  rewrite <- Hcas. by destruct ac1.
Qed.
End keystone.

(** ** A small tree, an upload and an action *)

Module ReapiExample.
Import Checksum TallyTexts.

(** Directories in a format of our own: the children's hashes, then a file's name. *)
Fixpoint chunks (fuel : nat) (b : list byte) : list DirectoryNode * list FileNode :=
  match fuel with
  | O => ([], [])
  | S fuel =>
      if bool_decide (length b < 64)%nat then ([], [mkFileNode b None false None])
      else
        let '(ds, fs) := chunks fuel (skipn 64 b) in
        (mkDirNode [] (Some (mkRDigest (firstn 64 b) 0)) :: ds, fs)
  end.

#[local] Instance prost : Prost := {|
  decode_directory b := let '(ds, fs) := chunks (S (length b)) b in Ok (mkDirectory fs ds [] None);
|}.

Definition sha (b : list byte) : Digest := compute_with Sha256 b.
Definition hex (b : list byte) : list byte := Hex.encode (bytes (sha b)).

Definition leaf : list byte := bs "leaf".
Definition left_ : list byte := hex leaf ++ bs "left".
Definition right_ : list byte := hex leaf ++ bs "right".
Definition top : list byte := hex left_ ++ hex right_ ++ bs "top".

Definition put1 (b : list byte) (m : gmap Digest (list byte)) : gmap Digest (list byte) := <[sha b := b]> m.
Definition store : Mem.MemCas := Mem.mkMemCas (put1 leaf (put1 left_ (put1 right_ (put1 top ∅)))).

Lemma store_holds : cas_valid store.
Proof.
  assert (Hin : forall x, verify (sha x) x = true) by (intros x; apply verify_compute_with).
  intros d b H. change (put1 leaf (put1 left_ (put1 right_ (put1 top ∅))) !! d = Some b) in H.
  unfold put1 in H.
  apply lookup_insert_Some in H as [[<- <-]|[_ H]]; [apply Hin|].
  apply lookup_insert_Some in H as [[<- <-]|[_ H]]; [apply Hin|].
  apply lookup_insert_Some in H as [[<- <-]|[_ H]]; [apply Hin|].
  apply lookup_insert_Some in H as [[<- <-]|[_ H]]; [apply Hin|].
  discriminate H.
Defined.

Lemma tree_walk_is_breadth_first_witness :
  exists dirs s', collect_tree 20 (sha top) store = (Some (Ok dirs), s') /\
    fn_name <$> (dirs ≫= files) = [bs "top"; bs "left"; bs "right"; bs "leaf"] /\
    exists l : list (Digest * nat), NoDup l.*1 /\ StronglySorted le l.*2 /\ length l = 4%nat.
Proof.
  assert (Hf : (walk_fuel (held store) <= 20)%nat) by (apply (bool_decide_unpack _); vm_compute; exact I).
  destruct (tree_walk_is_breadth_first (sha top) store 20 store_holds Hf) as (r & s' & E & _ & Hr).
  assert (Er : (fun dirs => fn_name <$> (dirs ≫= files)) <$> res_ok (default (Err (internal []))
    (collect_tree 20 (sha top) store).1) = Some [bs "top"; bs "left"; bs "right"; bs "leaf"])
    by (clear; vm_compute; reflexivity).
  assert (El : length <$> res_ok (default (Err (internal [])) (collect_tree 20 (sha top) store).1) = Some 4%nat)
    by (clear; vm_compute; reflexivity).
  rewrite E in Er, El. destruct r as [dirs|e]; [|discriminate Er]. injection Er as Er. injection El as El.
  exists dirs, s'. split; [exact E|]. split; [exact Er|].
  destruct Hr as (l & H1 & H2 & _ & H4). exists l. split; [exact H1|]. split; [exact H2|].
  apply Forall2_length in H4. rewrite length_fmap in H4. rewrite H4. exact El.
Defined.

Definition ask (n : Z) (token : list byte) : GetTreeRequest := mkGetTree (Some (mkRDigest (hex top) 0)) n token.

(** The tokens of the pages sent. *)
Definition tokens (r : option (result Status (list (result Status TreePage)))) : list (list byte) :=
  match r with Some (Ok l) => next_page_token <$> omap res_ok l | _ => [] end.

(** Two pages of two directories: the second is what the token of the first asks for. *)
Lemma tree_pages_chain_witness :
  exists ps s', get_tree 20 (ask 2 []) store = (Some (Ok (Ok <$> ps)), s') /\
    next_page_token <$> ps = [bs "2"; []] /\
    exists s2, get_tree 20 (ask 2 (bs "2")) store = (Some (Ok (Ok <$> skipn 1 ps)), s2).
Proof.
  destruct (collect_tree 20 (sha top) store) as [r s'] eqn:E.
  assert (El : length <$> res_ok (default (Err (internal [])) (collect_tree 20 (sha top) store).1) = Some 4%nat)
    by (clear; vm_compute; reflexivity).
  rewrite E in El. destruct r as [[all|e]|]; try discriminate El. injection El as El.
  destruct (tree_pages_chain (ask 2 []) 20 store s' (sha top) 2 0 all store_holds) as (ps & Eg & _ & Hps);
    [vm_compute; reflexivity|exact E|rewrite El; vm_compute; discriminate|].
  exists ps, s'. split; [exact Eg|].
  assert (Et : tokens (get_tree 20 (ask 2 []) store).1 = [bs "2"; []]) by (clear; vm_compute; reflexivity).
  rewrite Eg in Et. cbn [tokens fst] in Et.
  assert (Ho : omap res_ok (Ok (E := Status) <$> ps) = ps)
    by (clear; induction ps as [|p ps IH]; [reflexivity|]; csimpl; rewrite IH; reflexivity).
  rewrite Ho in Et. split; [exact Et|].
  destruct ps as [|pg ps]; [discriminate Et|]. injection Et as E1 E2.
  destruct (Hps 0%nat pg eq_refl) as (_ & _ & Hnext). rewrite E1 in Hnext.
  destruct (Hnext ltac:(discriminate)) as [_ Hsent].
  destruct (get_tree 20 (ask 2 (bs "2")) store) as [r s2] eqn:E3.
  assert (Er : tokens (get_tree 20 (ask 2 (bs "2")) store).1 = [[]]) by (clear; vm_compute; reflexivity).
  rewrite E3 in Er. destruct r as [[sent|e]|]; try discriminate Er.
  destruct (Hsent 20%nat store s2 sent store_holds eq_refl E3) as [->|[e ->]]; [|discriminate Er].
  exists s2. reflexivity.
Defined.

Lemma read_serves_the_slice_witness :
  let name := bs "inst/blobs/" ++ hex leaf ++ bs "/4" in
  exists sent s', bytestream_read (mkReadReq name 1 2) store = (Ok sent, s') /\
    sent = [Ok (bs "ea")] /\ same_content store s'.
Proof.
  cbv zeta. destruct (bytestream_read (mkReadReq (bs "inst/blobs/" ++ hex leaf ++ bs "/4") 1 2) store) as [r s'] eqn:E.
  destruct (read_serves_the_slice _ _ _ _ store_holds E) as [Hsame _].
  assert (Er : (bytestream_read (mkReadReq (bs "inst/blobs/" ++ hex leaf ++ bs "/4") 1 2) store).1 = Ok [Ok (bs "ea")])
    by (clear; vm_compute; reflexivity).
  rewrite E in Er. cbn in Er. exists [Ok (bs "ea")], s'. rewrite Er. split; [reflexivity|]. split; [reflexivity|exact Hsame].
Defined.

Definition upload : list (result Status WriteRequest) :=
  [Ok (mkWrite (bs "uploads/u/blobs/" ++ hex (bs "new one") ++ bs "/7") 0 false (bs "new "));
   Ok (mkWrite [] 4 true (bs "one"))].

Lemma acknowledged_upload_is_held_witness :
  exists s', write_stream upload store = (Ok 7, s') /\ cas_valid s' /\
    exists data d, algo d = Sha256 /\ hex (bs "new one") = Hex.encode (bytes d) /\ (stores store d data s' \/ same_content store s').
Proof.
  destruct (write_stream upload store) as [r s'] eqn:E.
  destruct (acknowledged_upload_is_held _ _ _ _ store_holds E) as [Hv H].
  assert (Er : (write_stream upload store).1 = Ok 7) by (clear; vm_compute; reflexivity).
  rewrite E in Er. cbn in Er. subst r. exists s'. split; [reflexivity|]. split; [exact Hv|].
  destruct H as (inst & uuid & h & data & d & Ec & Ha & Hh & _ & _ & Hst).
  exists data, d. split; [exact Ha|]. split; [|exact Hst]. rewrite <- Hh.
  assert (Ec' : match write_collect None [] upload with Ok (Some (RWrite _ _ h _), _) => h | _ => [] end = hex (bs "new one"))
    by (clear; vm_compute; reflexivity).
  rewrite Ec in Ec'. symmetry. exact Ec'.
Defined.

Definition dev : DevSelfSigner := dev_new (bs "node").
Definition cache : MemActionCache Mem.MemCas := shared store 1.
Definition action : RDigest := mkRDigest (hex (bs "cc -c a.c")) 9.
Definition outcome : RActionResult () :=
  mkResult [mkOutput (bs "out/a") (Some (mkRDigest (hex leaf) 0)) true [] None;
            mkOutput (bs "b") (Some (mkRDigest (hex top) 12)) false [] None]
    [] [] [] [] 0 [] (Some (mkRDigest (hex left_) 68)) [] None None.

(** A test of the native result a message is read as. *)
Definition read_as (p : RActionResult ()) (test : ActionResult.t -> bool) : bool :=
  match ar_from_reapi p with Ok ar => test ar | Err _ => false end.

Definition is_read (test : ActionResult.t -> bool) : Prop := read_as outcome test = true.

Lemma outcome_facts :
  is_read (fun ar => bool_decide (ActionResult.fits ar)) /\
  is_read (fun ar => bool_decide (Mem.blobs (ac_cas cache) !! ActionResult.result_digest ar = None)) /\
  is_read (fun ar => bool_decide (Forall (fun d => is_Some (Mem.blobs (ac_cas cache) !! d)) (ActionResult.references ar))) /\
  is_read (fun ar => bool_decide (path <$> (emitted (stored_size cache) <$> ActionResult.outputs ar) = [bs "b"; bs "out/a"])).
Proof. split_and!; vm_compute; reflexivity. Qed.

Lemma is_read_Ok (P : ActionResult.t -> Prop) {D : forall ar, Decision (P ar)} ar :
  is_read (fun ar => bool_decide (P ar)) -> ar_from_reapi outcome = Ok ar -> P ar.
Proof. unfold is_read, read_as. intros H E. rewrite E in H. by apply bool_decide_eq_true in H. Qed.

Lemma action_native : to_native action = Ok (sha (bs "cc -c a.c")).
Proof. vm_compute. reflexivity. Qed.

Lemma outcome_ok : message_ok outcome.
Proof. apply (bool_decide_unpack _). vm_compute. exact I. Qed.

Lemma outcome_read : exists ar, ar_from_reapi outcome = Ok ar.
Proof.
  destruct outcome_facts as [H _]. unfold is_read, read_as in H.
  destruct (ar_from_reapi outcome) as [ar|]; [by exists ar|done].
Qed.

Lemma updated_result_is_served_witness :
  exists ac1 out, update_action_result (Some (own_tier dev)) config_default (Some (dev_signer dev))
      (Some action) (Some outcome) cache = (Ok outcome, ac1) /\
    get_action_result (Meta := ()) (Some (own_tier dev)) (Some action) ac1 = (Ok out, ac1) /\
    path <$> output_files out = [bs "b"; bs "out/a"].
Proof.
  destruct outcome_read as [ar Ear]. destruct outcome_facts as (H1 & H2 & H3 & H4).
  apply (is_read_Ok _ ar) in H1, H2, H3, H4; [|exact Ear..].
  destruct (updated_result_is_served (Meta := ()) dev config_default cache action _ outcome ar
    eq_refl eq_refl action_native outcome_ok Ear H1) as (ac1 & E1 & out & E2 & Eout & _).
  - intros b Hb. rewrite H2 in Hb. discriminate Hb.
  - intros t Ht. unfold attested, cache, shared in Ht. cbn [entries] in Ht. rewrite lookup_empty in Ht.
    apply not_elem_of_empty in Ht. contradiction.
  - exact H3.
  - exists ac1, out. split; [exact E1|]. split; [exact E2|]. rewrite Eout. exact H4.
Defined.

(** A second upload that differs is acknowledged as well, and from then on neither result is
    served: the attestations conflict, which is answered as not found. *)
Definition other_outcome : RActionResult () :=
  mkResult [] [] [] [] [] 1 [] (Some (mkRDigest (hex left_) 68)) [] None None.

Definition update (p : RActionResult ()) :=
  update_action_result (Some (own_tier dev)) config_default (Some (dev_signer dev)) (Some action) (Some p).

Lemma second_result_is_lost :
  let '(r1, c1) := update outcome cache in
  let '(r2, c2) := update other_outcome c1 in
  r1 = Ok outcome /\ r2 = Ok other_outcome /\
  is_ok (get_action_result (Meta := ()) (Some (own_tier dev)) (Some action) c1).1 = true /\
  (get_action_result (Meta := ()) (Some (own_tier dev)) (Some action) c2).1 =
    Err (not_found (bs "no confirmed result for this action")).
Proof. vm_compute. split_and!; reflexivity. Qed.

(** A read that fails while the offset is skipped is not reported: what is sent is not at
    the offset asked for. *)
Example skipped_error :
  skip_copy 3 [RData (bs "ab"); RErr (io_other (bs "disk")); RData (bs "cdef")] = [RData (bs "cdef")].
Proof. reflexivity. Qed.
End ReapiExample.
