(* ===== verification/Config.v ===== *)
(** The daemon's configuration (crates/nessie-store/src/config.rs) and what a [cas] block
    makes of a node: its policy and how many peer copies a write waits for
    (crates/nessie-store/src/cas_node.rs).

    Reading and parsing the file (serde, toml) is third party: [load] gets the parsed value
    or the error; the environment is a function.  A socket address and a path are their
    text. *)

From Stdlib Require Import ZArith Lia.
From stdpp Require Import base option list sets.
From S2P Require Import Prelude Text Errors Cas Store Peers.

Local Open Scope Z_scope.

Abbreviation text := (list byte).

Inductive CasMode := CmLru | CmWriteOnly.
Inductive CasBackendKind := CbMem | CbDisk.
Inductive BackendKind := BkMem | BkZfs.

#[export] Instance CasMode_eq_dec : EqDecision CasMode.
Proof. solve_decision. Defined.

Record CasPeer := mkCasPeer { cp_url : text; cp_durable : bool }.

Record CasConfig := mkCas {
  cc_mode : CasMode;
  cc_backend : CasBackendKind;
  cc_path : option text;
  gc_grace_secs : Z;
  maintenance_interval_secs : Z;
  cc_byte_budget : option Z;
  cc_peers : list CasPeer;
  peer_api : bool;
  advertise_url : option text;
  replication_factor : option nat;
  scrub_bytes_per_pass : Z }.

Definition DEFAULT_SCRUB_BYTES_PER_PASS : Z := Z.shiftl 1 30.

Definition cas_default : CasConfig :=
  mkCas CmLru CbMem None 300 300 None [] false None None DEFAULT_SCRUB_BYTES_PER_PASS.

Record ReapiServerConfig := mkReapi {
  rc_enabled : bool; rc_listen : text; rc_instance_name : text; rc_ac_update_enabled : bool }.
Definition reapi_default : ReapiServerConfig := mkReapi false (bs "0.0.0.0:8980") [] true.

Record S3ServerConfig := mkS3Config {
  sc_enabled : bool; sc_listen : text; access_key : text; secret_key : text; sc_pin_on_put : bool }.
Definition s3_default : S3ServerConfig :=
  mkS3Config false (bs "0.0.0.0:9000") (bs "nessie") (bs "nessie") false.

Record TlsConfig := mkTls {
  tls_authorized_keys : option text; mtls : bool; tls_names : list text; tls_peer_listen : text;
  tls_revocation_log : option text }.
Definition tls_default : TlsConfig := mkTls None false [] (bs "0.0.0.0:8443") None.

Record Config := mkConfig {
  listen : text; data_dir : text; cfg_backend : BackendKind;
  admin_username : text; admin_password : text;
  cluster_name : text; svm_name : text; node_serial_number : text; ontap_version : text;
  data_lif : text;
  zfs_pool : text; zfs_nfs_clients : list text; zfs_dataset_owner : option text;
  zfs_dataset_mode : option text;
  nfs_enabled : bool; nfs_listen : text; nfs_export_root : text; nfs_export_name : text;
  cfg_cas : option CasConfig; cfg_reapi : option ReapiServerConfig; cfg_s3 : option S3ServerConfig;
  cfg_tls : option TlsConfig }.

Definition default_data_dir : text := bs ".nessie-store".

Definition config_default : Config :=
  mkConfig (bs "0.0.0.0:8443") default_data_dir BkMem (bs "admin") (bs "admin")
    (bs "nessie-store") (bs "svm0") (bs "SIM-1-0000000001") (bs "9.14.1") (bs "127.0.0.1")
    (bs "ontap-sim") [] None None
    false (bs "0.0.0.0:2049") (bs "/srv") []
    None None None None.

(** ** Peers *)

(** The loop of [effective_peers]; [inl] names the URL listed twice. *)
Fixpoint keep_peers (me : option text) (seen : list text) (peers : list CasPeer) : text + list CasPeer :=
  match peers with
  | [] => inr []
  | p :: peers =>
      let url := trim_slashes (cp_url p) in
      if bool_decide (url ∈ seen) then inl url
      else
        match keep_peers me (url :: seen) peers with
        | inl u => inl u
        | inr out =>
            if bool_decide (me = Some url) then inr out
            else inr (mkCasPeer url (cp_durable p) :: out)
        end
  end.

(** What [anyhow] carries is the message. *)
Definition effective_peers (cas : CasConfig) : result text (list CasPeer) :=
  match keep_peers (trim_slashes <$> advertise_url cas) [] (cc_peers cas) with
  | inl url => Err (bs "[cas] peers lists " ++ url ++ bs " twice")
  | inr out => Ok out
  end.

(** ** Loading *)

Definition mtls_enabled (cfg : Config) : bool :=
  match cfg_tls cfg with Some t => mtls t | None => false end.

(** [apply_env] *)
Definition set_admin_password (pw : text) (c : Config) : Config :=
  mkConfig (listen c) (data_dir c) (cfg_backend c) (admin_username c) pw (cluster_name c) (svm_name c)
    (node_serial_number c) (ontap_version c) (data_lif c) (zfs_pool c) (zfs_nfs_clients c)
    (zfs_dataset_owner c) (zfs_dataset_mode c) (nfs_enabled c) (nfs_listen c) (nfs_export_root c)
    (nfs_export_name c) (cfg_cas c) (cfg_reapi c) (cfg_s3 c) (cfg_tls c).
Definition set_s3 (s3 : option S3ServerConfig) (c : Config) : Config :=
  mkConfig (listen c) (data_dir c) (cfg_backend c) (admin_username c) (admin_password c) (cluster_name c)
    (svm_name c) (node_serial_number c) (ontap_version c) (data_lif c) (zfs_pool c) (zfs_nfs_clients c)
    (zfs_dataset_owner c) (zfs_dataset_mode c) (nfs_enabled c) (nfs_listen c) (nfs_export_root c)
    (nfs_export_name c) (cfg_cas c) (cfg_reapi c) s3 (cfg_tls c).

Definition apply_env (env : text -> option text) (c : Config) : Config :=
  let c :=
    match env (bs "NESSIE_ADMIN_PASSWORD") with Some pw => set_admin_password pw c | None => c end in
  set_s3 ((fun s3 =>
    mkS3Config (sc_enabled s3) (sc_listen s3)
      (default (access_key s3) (env (bs "NESSIE_S3_ACCESS_KEY")))
      (default (secret_key s3) (env (bs "NESSIE_S3_SECRET_KEY"))) (sc_pin_on_put s3)) <$> cfg_s3 c) c.

(** [Config::load], of what reading and parsing the file gave. *)
Definition load (env : text -> option text) (parsed : result text Config) : result text Config :=
  cfg ← parsed;
  let cfg := apply_env env cfg in
  match cfg_cas cfg with
  | None => Ok cfg
  | Some cas =>
      peers ← effective_peers cas;
      match mtls_enabled cfg, list_find (fun p => starts_with (bs "https://") (cp_url p) = false) peers with
      | true, Some (_, p) =>
          Err (bs "[tls] mtls = true but [cas] peer " ++ cp_url p ++ bs " is not https://")
      | _, _ => Ok cfg
      end
  end.

Definition tls_dir (c : Config) : text := path_join (data_dir c) (bs "tls").
Definition mesh_identity_dir (c : Config) : text := path_join (data_dir c) (bs "identity").
Definition peer_listen (c : Config) : text := tls_peer_listen (default tls_default (cfg_tls c)).
Definition revocation_log (c : Config) : option text := t ← cfg_tls c; tls_revocation_log t.
Definition authorized_keys_path (c : Config) : text :=
  default (path_join (data_dir c) (bs "authorized_keys")) (t ← cfg_tls c; tls_authorized_keys t).
Definition identity_path (c : Config) : text := path_join (data_dir c) (bs "identity.json").

(** ** What a node is built from (cas_node.rs) *)

(** Seconds; the policy's grace is in nanoseconds of the clock. *)
Definition SECOND : Z := 1000000000.

Definition mode_text (m : CasMode) : text := match m with CmLru => bs "lru" | CmWriteOnly => bs "write_only" end.

Definition retention_policy (cfg : CasConfig) : result text RetentionPolicy :=
  budget ← ok_or (cc_byte_budget cfg)
    (bs "[cas] mode = " ++ [z2b 34] ++ mode_text (cc_mode cfg) ++ [z2b 34] ++ bs " requires byte_budget");
  Ok (match cc_mode cfg with
      | CmLru => lru budget (gc_grace_secs cfg * SECOND)
      | CmWriteOnly => write_only budget
      end).

Definition DEFAULT_REPLICATION_FACTOR : nat := 2.

(** [NonZeroUsize::new] *)
Definition nonzero (n : nat) : option positive := match n with O => None | S _ => Some (Pos.of_nat n) end.

Definition durable_count (peers : list CasPeer) : nat := length (filter (fun p => cp_durable p = true) peers).

Definition peer_copies (cfg : CasConfig) : result text (option positive) :=
  match cc_mode cfg with
  | CmLru =>
      match replication_factor cfg with
      | Some _ => Err (bs "[cas] replication_factor applies only to mode = " ++ [z2b 34] ++ bs "write_only" ++ [z2b 34])
      | None => Ok None
      end
  | CmWriteOnly =>
      let r := default DEFAULT_REPLICATION_FACTOR (replication_factor cfg) in
      if negb (bool_decide (1 <= r)%nat) then Err (bs "[cas] replication_factor must be at least 1")
      else
        peers ← effective_peers cfg;
        let durable := durable_count peers in
        if negb (bool_decide (r - 1 <= durable)%nat) then
          Err (bs "[cas] replication_factor = " ++ dec (Z.of_nat r) ++ bs " needs " ++
            dec (Z.of_nat (r - 1)) ++ bs " durable peers but only " ++ dec (Z.of_nat durable) ++
            bs " are configured")
        else Ok (nonzero (r - 1))
  end.

(** The peers of the node. *)
Definition node_peers (peers : list CasPeer) : list Peer :=
  peer_set ((fun p => mkPeer (cp_url p) (cp_durable p)) <$> peers).

(** ** Distinct peers *)

Lemma trim_slashes_idem s : trim_slashes (trim_slashes s) = trim_slashes s.
Proof.
  unfold trim_slashes at 1 3. f_equal. unfold trim_slashes. rewrite rev_involutive.
  induction (rev s) as [|b l IH]; [done|]. case_bool_decide as Hb; [done|]. by rewrite bool_decide_false.
Qed.

Lemma keep_peers_spec me seen peers out :
  keep_peers me seen peers = inr out ->
  NoDup (cp_url <$> out) /\ Forall (fun p => trim_slashes (cp_url p) = cp_url p) out /\
  forall u, u ∈ (cp_url <$> out) -> (u ∉ seen) /\ me <> Some u.
Proof.
  revert seen out. induction peers as [|p peers IH]; intros seen out E; cbn [keep_peers] in E.
  { injection E as <-. split_and!; [constructor|constructor|set_solver]. }
  case_bool_decide as Hs; [done|].
  destruct (keep_peers me (trim_slashes (cp_url p) :: seen) peers) as [u|out'] eqn:E'; [done|].
  destruct (IH _ _ E') as (Hn & Ht & Hu). case_bool_decide as Hme; injection E as <-.
  - split_and!; [done|done|]. intros u Hin. destruct (Hu u Hin). set_solver.
  - csimpl. split_and!.
    + constructor; [|done]. intros Hin. destruct (Hu _ Hin) as [Hx _]. set_solver.
    + constructor; [apply trim_slashes_idem|done].
    + intros u [->|Hin]%elem_of_cons; [done|]. destruct (Hu u Hin). set_solver.
Qed.

Lemma distinct_peers_all seen peers :
  NoDup (base_url <$> peers) -> (forall u, u ∈ (base_url <$> peers) -> u ∉ seen) ->
  distinct_peers seen peers = peers.
Proof.
  revert seen. induction peers as [|p peers IH]; intros seen Hn Hs; [done|].
  rewrite fmap_cons in *. apply NoDup_cons in Hn as [Hp Hn]. cbn [distinct_peers].
  rewrite bool_decide_false by (apply Hs; by left). rewrite IH; [done|done|].
  intros u Hu [->|Hin]%elem_of_cons; [done|]. by apply (Hs u); [right|].
Qed.

(** The peers a node pushes to are those configured, none dropped. *)
Lemma node_peers_effective cfg peers :
  effective_peers cfg = Ok peers ->
  node_peers peers = (fun p => mkPeer (cp_url p) (cp_durable p)) <$> peers /\
  NoDup (base_url <$> node_peers peers).
Proof.
  unfold effective_peers. destruct (keep_peers _ _ _) as [u|out] eqn:E; [done|]. intros [= ->].
  apply keep_peers_spec in E as (Hn & Ht & _).
  assert (Eb : base_url <$> ((fun p => mkPeer (cp_url p) (cp_durable p)) <$> peers) = cp_url <$> peers).
  { rewrite <- list_fmap_compose. apply Forall_fmap_ext_1. eapply Forall_impl; [exact Ht|]. done. }
  assert (Ep : node_peers peers = (fun p => mkPeer (cp_url p) (cp_durable p)) <$> peers).
  { apply distinct_peers_all; rewrite Eb; [done|set_solver]. }
  split; [done|]. by rewrite Ep, Eb.
Qed.

(** None of them is the node itself. *)
Lemma node_peers_not_self cfg peers me p :
  effective_peers cfg = Ok peers -> advertise_url cfg = Some me -> p ∈ node_peers peers ->
  base_url p <> trim_slashes me.
Proof.
  intros Ep Hme Hp. rewrite (proj1 (node_peers_effective _ _ Ep)) in Hp.
  apply list_elem_of_fmap in Hp as (cp & -> & Hcp).
  unfold effective_peers in Ep. rewrite Hme in Ep. destruct (keep_peers _ _ _) as [u|out] eqn:Ek; [done|].
  injection Ep as ->. apply keep_peers_spec in Ek as (_ & Ht & Hu).
  rewrite Forall_forall in Ht. unfold base_url. cbn [peer_url]. rewrite (Ht cp Hcp).
  intros Eu. destruct (Hu (cp_url cp)) as [_ Hne]; [by apply list_elem_of_fmap_2|]. simpl in Hne. congruence.
Qed.

(** The copies asked for can be met by the durable peers configured. *)
Lemma peer_copies_met cfg copies :
  peer_copies cfg = Ok copies ->
  (cc_mode cfg = CmLru -> peer_copies cfg = Ok None) /\
  (cc_mode cfg = CmWriteOnly ->
    (copies = None /\ replication_factor cfg = Some 1%nat) \/
    exists k, copies = Some k /\ forall peers, effective_peers cfg = Ok peers ->
      (Pos.to_nat k <= length (filter (fun p => peer_durable p = true) (node_peers peers)))%nat /\
      (Pos.to_nat k = default DEFAULT_REPLICATION_FACTOR (replication_factor cfg) - 1)%nat).
Proof.
  unfold peer_copies. destruct (cc_mode cfg); [by destruct (replication_factor cfg)|].
  destruct (negb (bool_decide (1 <= _)%nat)) eqn:Hr; [done|]. apply negb_false_iff, bool_decide_eq_true in Hr.
  destruct (effective_peers cfg) as [peers|e] eqn:Ep; [|done]. cbn.
  destruct (negb (bool_decide (_ <= durable_count peers)%nat)) eqn:Hd; [done|].
  apply negb_false_iff, bool_decide_eq_true in Hd. intros [= Hk]. split; [done|]. intros _. subst copies. unfold nonzero.
  destruct (default DEFAULT_REPLICATION_FACTOR (replication_factor cfg) - 1)%nat as [|k] eqn:Ek.
  - left. split; [done|]. unfold DEFAULT_REPLICATION_FACTOR in *. destruct (replication_factor cfg); simpl in *; [|lia].
    f_equal. lia.
  - right. eexists. split; [done|]. intros ? [= <-]. rewrite Nat2Pos.id by done. split; [|done].
    rewrite (proj1 (node_peers_effective _ _ Ep)). etrans; [exact Hd|]. unfold durable_count. clear.
    induction peers as [|p peers IH]; [done|].
    rewrite fmap_cons, !filter_cons. cbn [peer_durable]. repeat case_decide; simpl; try done; lia.
Qed.
