(* ===== verification/CasRoutes.v ===== *)
(** The peer wire of crates/nessie-store/src/cas_routes.rs: the blob and root routes a node
    serves to its peers, and a fleet of such nodes as the network another node speaks to.

    axum (routing, header and body parsing) is third party: a handler gets the digest
    segment of the path and the body, and gives a status, headers and a body. *)

From Stdlib Require Import ZArith Lia.
From stdpp Require Import base option gmap sets list.
From S2P Require Import Prelude Text Digest Errors Cas Store Reach Evict StoreInv Pins Peers.

Local Open Scope Z_scope.

Abbreviation text := (list byte).

Record Reply := mkReply { reply_status : Z; reply_headers : list (text * text); reply_body : list byte }.

Definition empty_reply (status : Z) : Reply := mkReply status [] [].

Definition MAX_BLOB : Z := 256 * 1024 * 1024.
Definition MODE_HEADER : text := bs "x-nessie-mode".

(** [parse(&d)]: [None] is 400. *)
Definition parse (d : text) : option Digest := res_ok (from_str d).

Definition status (e : BackendError) : Z :=
  match e with
  | BlobNotFound _ => 404
  | InvalidArgument _ => 400
  | CapacityExceeded _ _ _ => 507
  | _ => 500
  end.

Section routes.
Context {C T : Type} {Hs : Hashers} {B : CasBackend C} {R : ReclaimableCas C} {Rt : ContentRouter T}.
Implicit Types (n : CasNode (C := C) (T := T)).

(** [CasNode::mode_name] *)
Definition mode_name n : text :=
  match mode (policy (store n)) with WriteOnly _ => bs "write_only" | Lru _ => bs "lru" end.

(** An operation of the store the node holds its blobs in ([CasNode::local], of a node
    without peers). *)
Definition on_local {A} (op : M BackendError (CasStore C T) A) n : result BackendError A * CasNode :=
  let '(r, st) := op (store n) in (r, set_store st n).

Definition read_local (d : Digest) n : result BackendError (list byte) * CasNode :=
  match on_local (get d) n with
  | (Ok reader, n) => (map_err (fun e => Internal (ie_display e)) (read_to_end reader).1, n)
  | (Err e, n) => (Err e, n)
  end.

Definition get_blob (d : text) n : Reply * CasNode :=
  match parse d with
  | None => (empty_reply 400, n)
  | Some digest =>
      match read_local digest n with
      | (Ok body, n') => (mkReply 200 [(MODE_HEADER, mode_name n)] body, n')
      | (Err e, n') => (empty_reply (status e), n')
      end
  end.

Definition head_blob (d : text) n : Reply * CasNode :=
  match parse d with
  | None => (empty_reply 400, n)
  | Some digest =>
      match on_local (size digest) n with
      | (Ok (Some len), n') =>
          (mkReply 200 [(bs "content-length", dec len); (MODE_HEADER, mode_name n)] [], n')
      | (Ok None, n') => (empty_reply 404, n')
      | (Err e, n') => (empty_reply (status e), n')
      end
  end.

(** Behind the body limit of the routes. *)
Definition put_blob (d : text) (body : list byte) n : Reply * CasNode :=
  if bool_decide (MAX_BLOB < zlen body) then (empty_reply 413, n)
  else
    match parse d with
    | None => (empty_reply 400, n)
    | Some digest =>
        match node_put_keyed digest (cursor body) n with
        | (Ok (), n') => (empty_reply 201, n')
        | (Err e, n') => (empty_reply (status e), n')
        end
    end.

(** [fault] and [sync] are how publishing the pins goes, as in Pins.v. *)
Definition pin_root (fault : option pub_fault) (sync : result io_error ()) (d : text) n : Reply * CasNode :=
  match parse d with
  | None => (empty_reply 400, n)
  | Some digest =>
      match pin fault sync digest n with
      | (Ok (), n') => (empty_reply 201, n')
      | (Err e, n') => (empty_reply (status e), n')
      end
  end.

Definition unpin_root (fault : option pub_fault) (sync : result io_error ()) (d : text) n : Reply * CasNode :=
  match parse d with
  | None => (empty_reply 400, n)
  | Some digest =>
      match unpin fault sync digest n with
      | (Ok (), n') => (empty_reply 204, n')
      | (Err e, n') => (empty_reply (status e), n')
      end
  end.

(** ** A fleet: nodes that serve these routes, each under its base URL *)

Abbreviation fleet_of := (gmap text (CasNode (C := C) (T := T))).

Definition slash : byte := z2b 47.
Definition BLOBS : text := bs "/cas/v1/blobs".

(** The base and the digest segment of a blob's URL. *)
Definition split_url (url : text) : option (text * text) :=
  '(prefix, d) ← rsplit_once slash url;
  base ← strip_suffix BLOBS prefix;
  Some (base, d).

(** The body the client sends: none of it if it cannot be read or is not as long as said. *)
Definition sent_body (body : option (source * option Z)) : option (list byte) :=
  match body with
  | None => Some []
  | Some (src, len) =>
      match (read_to_end src).1, len with
      | Ok data, Some z => if bool_decide (zlen data = z) then Some data else None
      | Ok data, None => Some data
      | Err _, _ => None
      end
  end.

Definition serve (v : verb) (d : text) (body : list byte) n : Reply * CasNode :=
  match v with HEAD => head_blob d n | GET => get_blob d n | PUT => put_blob d body n end.

(** The reply as the client sees it. *)
Definition to_http (r : Reply) : HttpResponse :=
  mkHttp (reply_status r)
    (fun name => snd <$> head (filter (fun kv => kv.1 = name) (reply_headers r)))
    (cursor (reply_body r)).

#[global] Instance fleet_http : Http fleet_of := {|
  http_send v url body fleet :=
    match split_url url, sent_body body with
    | Some (base, d), Some data =>
        match fleet !! base with
        | Some n => let '(r, n) := serve v d data n in (Some (to_http r), <[base := n]> fleet)
        | None => (None, fleet)
        end
    | _, _ => (None, fleet)
    end;
|}.
End routes.
Abbreviation Fleet C T := (gmap text (CasNode (C := C) (T := T))).
