(* ===== verification/Node.v ===== *)
(** A node with peers: crates/nessie-store/src/cas_node.rs over the peer swarm, its
    acknowledged writes, and the maintenance pass with its scrub
    (crates/nessie-store/src/cas_node/scrub.rs).

    The node of Pins.v holds its blobs in a store over any backend; a node with peers has
    it over [SwarmCas], and its own blobs are those
    of the swarm's local store, which is what the replicator reads. *)

From Stdlib Require Import ZArith Lia.
From stdpp Require Import base option gmap sets list.
From S2P Require Import Prelude Ordered Sort Text Digest Errors Cas Store Reach Evict StoreInv Pins Peers.

Local Open Scope Z_scope.

Abbreviation text := (list byte).

(** The [HttpReplicator] of a node that mirrors, over the store's backend [X]. *)
Class Mirrors (X : Type) := {
  mirror_push : Digest -> positive -> M BackendError X nat;
  mirror_push_counting : Digest -> positive -> M BackendError X Pushed;
}.

(** Over the swarm it is the one of Peers.v. *)
#[export] Instance swarm_mirrors {N C} {HN : Http N} {Hs : Hashers} {B : CasBackend C} {R : ReclaimableCas C} :
    Mirrors (SwarmCas N C) := {|
  mirror_push := push;
  mirror_push_counting := push_counting;
|}.

(** The node over its store's backend: the swarm, or without peers the blobs themselves. *)
Section node.
Context {X T : Type} {Hs : Hashers} {B : CasBackend X} {R : ReclaimableCas X}
  {Rt : ContentRouter T} {Mi : Mirrors X}.

Abbreviation Inner := (CasNode (C := X) (T := T)).

(** The node, the copies on peers a write waits for, and the scrub's budget and cursors. *)
Record PeeredNode := mkPeered {
  pn_node : Inner;
  pn_mirror : option positive;
  scrub_budget : Z;
  scrub_cursor : option text;
  pending_cursor : option text }.
Implicit Types (n : PeeredNode).

Definition set_node (x : Inner) n : PeeredNode :=
  mkPeered x (pn_mirror n) (scrub_budget n) (scrub_cursor n) (pending_cursor n).
Definition set_scrub_cursor (c : option text) n : PeeredNode :=
  mkPeered (pn_node n) (pn_mirror n) (scrub_budget n) c (pending_cursor n).
Definition set_pending_cursor (c : option text) n : PeeredNode :=
  mkPeered (pn_node n) (pn_mirror n) (scrub_budget n) (scrub_cursor n) c.

(** An operation of the node's store. *)
Definition on_store {A} (op : M BackendError (CasStore X T) A) : M BackendError PeeredNode A :=
  fun n => let '(r, st) := op (store (pn_node n)) in (r, set_node (set_store st (pn_node n)) n).

(** An operation of the backend beneath it: what the replicator does. *)
Definition on_swarm {A} (op : M BackendError X A) : M BackendError PeeredNode A :=
  on_store (on_inner op).

Definition put_keyed_local (d : Digest) (src : source) : M BackendError PeeredNode () := fun n =>
  let '(r, x) := node_put_keyed d src (pn_node n) in (r, set_node x n).

(** [CasNode::mirror] *)
Definition mirror (d : Digest) : M BackendError PeeredNode () := fun n =>
  match pn_mirror n with
  | None => (Ok (), n)
  | Some copies =>
      match on_swarm (mirror_push d copies) n with
      | (Err e, n) => (Err e, n)
      | (Ok confirmed, n) =>
          if bool_decide (confirmed < Pos.to_nat copies)%nat
          then (Err (Underreplicated confirmed (Pos.to_nat copies)), n)
          else (Ok (), n)
      end
  end.

Definition peered_put_keyed (d : Digest) (src : source) : M BackendError PeeredNode () :=
  _ ← put_keyed_local d src; mirror d.

Definition peered_put (src : source) : M BackendError PeeredNode Digest := fun n =>
  let '(r, x) := node_put src (pn_node n) in
  match r with
  | Err e => (Err e, set_node x n)
  | Ok d => (_ ← mirror d; mret d) (set_node x n)
  end.

Definition peered_has (d : Digest) : M BackendError PeeredNode bool := on_store (Store.has d).
Definition peered_get (d : Digest) : M BackendError PeeredNode source := on_store (Store.get d).
Definition peered_size (d : Digest) : M BackendError PeeredNode (option Z) := on_store (Store.size d).

Definition peered_ensure_replicated (d : Digest) : M BackendError PeeredNode () := fun n =>
  match pn_mirror n with
  | None => (Ok (), n)
  | Some _ =>
      match peered_has d n with
      | (Err e, n) => (Err e, n)
      | (Ok false, n) => (Err (BlobNotFound d), n)
      | (Ok true, n) => mirror d n
      end
  end.

(** ** The scrub (scrub.rs) *)

Record ScrubReport := mkReport {
  scanned : nat; corrupt : nat; restored : nat; unrestored : nat; quarantined_total : nat;
  pending_restore : nat; pending_no_capacity : nat; deferred : nat; reclaimed : nat;
  under_replicated : nat; replicated : nat }.

#[export] Instance ScrubReport_eq_dec : EqDecision ScrubReport.
Proof. solve_decision. Defined.

Definition report_default : ScrubReport := mkReport 0 0 0 0 0 0 0 0 0 0 0.

(** The counters a report is changed by. *)
Definition add_scanned (k : nat) (r : ScrubReport) : ScrubReport :=
  mkReport (scanned r + k) (corrupt r) (restored r) (unrestored r) (quarantined_total r)
    (pending_restore r) (pending_no_capacity r) (deferred r) (reclaimed r) (under_replicated r) (replicated r).
Definition add_corrupt (k : nat) (r : ScrubReport) : ScrubReport :=
  mkReport (scanned r) (corrupt r + k) (restored r) (unrestored r) (quarantined_total r)
    (pending_restore r) (pending_no_capacity r) (deferred r) (reclaimed r) (under_replicated r) (replicated r).
Definition add_restored (k : nat) (r : ScrubReport) : ScrubReport :=
  mkReport (scanned r) (corrupt r) (restored r + k) (unrestored r) (quarantined_total r)
    (pending_restore r) (pending_no_capacity r) (deferred r) (reclaimed r) (under_replicated r) (replicated r).
Definition add_unrestored (k : nat) (r : ScrubReport) : ScrubReport :=
  mkReport (scanned r) (corrupt r) (restored r) (unrestored r + k) (quarantined_total r)
    (pending_restore r) (pending_no_capacity r) (deferred r) (reclaimed r) (under_replicated r) (replicated r).
Definition set_quarantine_counts (total pending : nat) (r : ScrubReport) : ScrubReport :=
  mkReport (scanned r) (corrupt r) (restored r) (unrestored r) total pending
    (pending_no_capacity r) (deferred r) (reclaimed r) (under_replicated r) (replicated r).
Definition add_no_capacity (k : nat) (r : ScrubReport) : ScrubReport :=
  mkReport (scanned r) (corrupt r) (restored r) (unrestored r) (quarantined_total r)
    (pending_restore r) (pending_no_capacity r + k) (deferred r) (reclaimed r) (under_replicated r) (replicated r).
Definition add_deferred (k : nat) (r : ScrubReport) : ScrubReport :=
  mkReport (scanned r) (corrupt r) (restored r) (unrestored r) (quarantined_total r)
    (pending_restore r) (pending_no_capacity r) (deferred r + k) (reclaimed r) (under_replicated r) (replicated r).
Definition add_reclaimed (k : nat) (r : ScrubReport) : ScrubReport :=
  mkReport (scanned r) (corrupt r) (restored r) (unrestored r) (quarantined_total r)
    (pending_restore r) (pending_no_capacity r) (deferred r) (reclaimed r + k) (under_replicated r) (replicated r).
Definition add_under_replicated (k : nat) (r : ScrubReport) : ScrubReport :=
  mkReport (scanned r) (corrupt r) (restored r) (unrestored r) (quarantined_total r)
    (pending_restore r) (pending_no_capacity r) (deferred r) (reclaimed r) (under_replicated r + k) (replicated r).
Definition add_replicated (k : nat) (r : ScrubReport) : ScrubReport :=
  mkReport (scanned r) (corrupt r) (restored r) (unrestored r) (quarantined_total r)
    (pending_restore r) (pending_no_capacity r) (deferred r) (reclaimed r) (under_replicated r) (replicated r + k).

Definition usize (b : bool) : nat := if b then 1 else 0.

Inductive Room := NoPeer | NoCapacity | Fits (len : Z).

Definition is_write_only n : bool :=
  match mode (policy (store (pn_node n))) with WriteOnly _ => true | Lru _ => false end.

Definition room_for (d : Digest) n : Room * PeeredNode :=
  let '(r, n) := peered_size d n in
  (match r with
   | Ok (Some z) => if Store.admits z (store (pn_node n)) then Fits z else NoCapacity
   | _ => NoPeer
   end, n).

Definition restore (d : Digest) : M BackendError PeeredNode () :=
  reader ← peered_get d;
  bytes ← lift (map_err (fun e => Internal (bs "refetch " ++ to_string d ++ bs ": " ++ ie_display e))
    (read_to_end reader).1);
  put_keyed_local d (cursor bytes).

Definition restore_if_room (d : Digest) : M BackendError PeeredNode () := fun n =>
  match room_for d n with
  | (Fits _, n) => restore d n
  | (NoPeer, n) => (Err (BlobNotFound d), n)
  | (NoCapacity, n) => (Err (Internal (bs "no capacity to restore " ++ to_string d)), n)
  end.

(** Under the pin lock: nothing runs between the check and the removal. *)
Definition reclaim_if_still_corrupt (d : Digest) (report : ScrubReport) n :
    result BackendError bool * ScrubReport * PeeredNode :=
  match on_store (Store.verify_local d) n with
  | (Ok false, n) =>
      match on_store (Store.reclaim_corrupt d) n with
      | (Ok b, n) => (Ok false, add_reclaimed (usize b) report, n)
      | (Err e, n) => (Err e, report, n)
      end
  | (Ok true, n) | (Err (BlobNotFound _), n) => (Ok false, report, n)
  | (Err e, n) => (Err e, report, n)
  end.

(** What the mode makes of a corrupt copy: [None] where nothing is counted as an outcome. *)
Definition take_out (d : Digest) (report : ScrubReport) n :
    option (result BackendError bool) * ScrubReport * PeeredNode :=
  if is_write_only n then
    match on_store (Store.quarantine d) n with
    | (Ok (Moved _), n) =>
        let '(r, n) := restore_if_room d n in (Some ((fun _ => true) <$> r), report, n)
    | (Ok Absent, n) => (Some (Ok false), report, n)
    | (Ok Deferred, n) => (None, add_deferred 1 report, n)
    | (Err e, n) => (Some (Err e), report, n)
    end
  else let '(r, report, n) := reclaim_if_still_corrupt d report n in (Some r, report, n).

Definition take_out_corrupt (d : Digest) (report : ScrubReport) n : bool * ScrubReport * PeeredNode :=
  match take_out d report n with
  | (None, report, n) => (false, report, n)
  | (Some (Ok back), report, n) => (back, add_restored (usize back) report, n)
  | (Some (Err _), report, n) => (false, add_unrestored 1 report, n)
  end.

Definition repair (d : Digest) (report : ScrubReport) n : ScrubReport * PeeredNode :=
  match pn_mirror n with
  | None => (report, n)
  | Some copies =>
      match on_swarm (mirror_push_counting d copies) n with
      | (Ok p, n) =>
          (if bool_decide (Pos.to_nat copies <= held_ p)%nat
           then add_replicated (usize (bool_decide (0 < sent p)%nat)) report
           else add_under_replicated 1 report, n)
      | (Err _, n) => (add_under_replicated 1 report, n)
      end
  end.

Definition scrub_one (blob : LocalBlob) (report : ScrubReport) n : ScrubReport * PeeredNode :=
  let d := lb_digest blob in
  match on_store (Store.verify_local d) n with
  | (Ok true, n) => repair d (add_scanned 1 report) n
  | (Ok false, n) =>
      let '(back, report, n) := take_out_corrupt d (add_corrupt 1 (add_scanned 1 report)) n in
      if back then repair d report n else (report, n)
  | (Err _, n) => (report, n)
  end.

(** [partition_point] after the cursor. *)
Definition resume (cursor : option text) (keys : list text) : nat :=
  match cursor with
  | None => 0
  | Some after => length (filter (fun k => kle_b k after = true) keys)
  end.

(** Where the cursor is left: after [next - 1], or wrapped. *)
Definition leave_cursor (start next : nat) (keys : list text) : option text :=
  if bool_decide (start < next)%nat && bool_decide (next < length keys)%nat
  then keys !! (next - 1)%nat else None.

(** The digests in quarantine without a live copy, each once; a failed [has] ends it. *)
Fixpoint pending_of (qs : list QuarantinedBlob) (seen : gset Digest) : M BackendError PeeredNode (list Digest) :=
  match qs with
  | [] => mret []
  | q :: qs =>
      if bool_decide (q_digest q ∈ seen) then pending_of qs seen
      else
        held ← peered_has (q_digest q);
        rest ← pending_of qs (seen ∪ {[q_digest q]});
        mret (if held : bool then rest else q_digest q :: rest)
  end.

Definition pending_digests : M BackendError PeeredNode (list Digest) :=
  qs ← on_store Store.list_quarantined; pending_of qs ∅.

(** The loop of [retry_pending], over what is left of the sorted digests: the report, the
    bytes spent and how many were tried. *)
Fixpoint retry_loop (ds : list Digest) (report : ScrubReport) (spent : Z) (tried : nat) n :
    ScrubReport * Z * nat * PeeredNode :=
  match ds with
  | [] => (report, spent, tried, n)
  | d :: ds =>
      if bool_decide (scrub_budget n <= spent) then (report, spent, tried, n)
      else
        match room_for d n with
        | (NoPeer, n) => retry_loop ds report spent (S tried) n
        | (NoCapacity, n) => retry_loop ds (add_no_capacity 1 report) spent (S tried) n
        | (Fits z, n) =>
            let '(r, n) := restore d n in
            retry_loop ds (match r with Ok () => add_restored 1 report | Err _ => report end)
              (sat_add64 spent z) (S tried) n
        end
  end.

Definition retry_pending (report : ScrubReport) (spent : Z) n :
    result BackendError (ScrubReport * Z) * PeeredNode :=
  if negb (is_write_only n) then (Ok (report, spent), n)
  else
    match pending_digests n with
    | (Err e, n) => (Err e, n)
    | (Ok pending, n) =>
        let pending := sort_on to_string pending in
        let keys := to_string <$> pending in
        let start := resume (pending_cursor n) keys in
        let '(report, spent, tried, n) := retry_loop (skipn start pending) report spent 0 n in
        (Ok (report, spent), set_pending_cursor (leave_cursor start (start + tried) keys) n)
    end.

(** The loop of [scrub_pass]: the report and how many blobs were visited. *)
Fixpoint scan_loop (blobs : list LocalBlob) (report : ScrubReport) (spent : Z) (visited : nat) n :
    ScrubReport * nat * PeeredNode :=
  match blobs with
  | [] => (report, visited, n)
  | blob :: blobs =>
      if bool_decide (scrub_budget n <= spent) && (bool_decide (0 < visited)%nat || bool_decide (0 < spent))
      then (report, visited, n)
      else
        let '(report, n) := scrub_one blob report n in
        scan_loop blobs report (sat_add64 spent (lb_size blob)) (S visited) n
  end.

Definition count_quarantine (report : ScrubReport) : M BackendError PeeredNode ScrubReport := fun n =>
  if is_write_only n then
    (qs ← on_store Store.list_quarantined;
     pending ← pending_digests;
     mret (set_quarantine_counts (length qs) (length pending) report)) n
  else (Ok report, n).

(** The live scan, after the pending restores spent [spent]. *)
Definition scan (report : ScrubReport) (spent : Z) : M BackendError PeeredNode ScrubReport := fun n =>
  match on_store Store.local_blobs n with
  | (Err e, n) => (Err e, n)
  | (Ok blobs, n) =>
      let blobs := sort_on (to_string ∘ lb_digest) blobs in
      let keys := to_string ∘ lb_digest <$> blobs in
      let start := resume (scrub_cursor n) keys in
      let '(report, visited, n) := scan_loop (skipn start blobs) report spent 0 n in
      let n :=
        if bool_decide (0 < visited)%nat || bool_decide (length blobs <= start)%nat
        then set_scrub_cursor (leave_cursor start (start + visited) keys) n else n in
      count_quarantine report n
  end.

Definition scrub_pass : M BackendError PeeredNode ScrubReport := fun n =>
  if bool_decide (scrub_budget n = 0) then (Ok report_default, n)
  else
    match retry_pending report_default 0 n with
    | (Err e, n) => (Err e, n)
    | (Ok (report, spent), n) => scan report spent n
    end.

(** ** The maintenance pass *)

Inductive MaintenanceReport :=
| MEvict (evicted : nat) (bytes : Z) (scrub : ScrubReport)
| MRetained (scrub : ScrubReport).

(** [orc] is what the durable peers answer during the eviction; what the pass pushes to
    them is in Evict.v's report. *)
Definition maintain_once (orc : oracle) : M BackendError PeeredNode MaintenanceReport := fun n =>
  match mode (policy (store (pn_node n))) with
  | WriteOnly _ => (report ← scrub_pass; mret (MRetained report)) n
  | Lru _ =>
      match on_store (evict_to_budget (roots (registry (pn_node n))) orc) n with
      | (Err e, n) => (Err e, n)
      | (Ok (report, _), n) =>
          (scrub ← scrub_pass; mret (MEvict (Z.to_nat (Evict.evicted report)) (bytes_evicted report) scrub)) n
      end
  end.
End node.
