(* ===== verification/NodeLaws.v ===== *)
(** What a node with peers promises: a write it acknowledged is held by as many durable
    nodes as configured, and a scrub takes out only what is corrupt. *)

From Stdlib Require Import ZArith Lia.
From stdpp Require Import base option gmap sets list.
From S2P Require Import Prelude Ordered Sort Hex Text Digest Errors Cas Store Reach Evict StoreInv Pins Peers PeersLaws CasRoutes Node.

Local Open Scope Z_scope.

(** ** A blob's URL *)

Lemma to_string_no_slash d : slash ∉ to_string d.
Proof.
  unfold to_string. rewrite !not_elem_of_app. split_and!; [| |by apply Hex.hex_no].
  - destruct (algo d); apply (bool_decide_unpack _); vm_compute; exact I.
  - apply (bool_decide_unpack _). vm_compute. exact I.
Qed.

Lemma strip_suffix_app p s : strip_suffix p (s ++ p) = Some s.
Proof.
  unfold strip_suffix. rewrite rev_app_distr, starts_with_app, length_app.
  f_equal. replace (length s + length p - length p)%nat with (length s) by lia. apply take_app_length.
Qed.

Lemma split_blob_url p d : split_url (blob_url p d) = Some (base_url p, to_string d).
Proof.
  unfold split_url, blob_url.
  change (bs "/cas/v1/blobs/" ++ to_string d) with ((BLOBS ++ [slash]) ++ to_string d).
  rewrite <- app_assoc, app_assoc. cbn [app].
  rewrite rsplit_once_app by apply to_string_no_slash. cbn. by rewrite strip_suffix_app.
Qed.

(** ** The operations of a store, on the store beneath *)

Section inner.
Context {C T : Type} {Hs : Hashers} {B : CasBackend C} {R : ReclaimableCas C} {Rt : ContentRouter T}
  {V : CasModel C} {L : CasLaws C}.
Implicit Types (s : CasStore C T).

Lemma put_keyed_valid d src s :
  cas_valid (inner s) -> cas_valid (inner (put_keyed d src s).2).
Proof.
  intros Hv. unfold put_keyed.
  assert (H : forall src0 s0, cas_valid (inner s0) ->
    cas_valid (let '(r, _, c) := cas_put_keyed d src0 (inner s0) in c)).
  { intros src0 s0 H0. destruct (law_put_keyed d src0 (inner s0) H0) as [_ H].
    by destruct (cas_put_keyed d src0 (inner s0)) as [[? ?] ?]. }
  destruct (mode (policy s)) as [p|p].
  - specialize (H src s Hv). destruct (cas_put_keyed d src (inner s)) as [[[[]|e] l] c]; done.
  - unfold put_keyed_write_only.
    assert (Ha : cas_valid (inner (already_held d s).2)).
    { unfold already_held. case_bool_decide; [done|]. unfold on_inner.
      destruct (law_has d (inner s) Hv) as [_ Hh]. by destruct (cas_has d (inner s)). }
    destruct (already_held d s) as [[] s1]; simpl in Ha.
    + specialize (H src (update_state (set_fast (fast_register d)) s1) Ha).
      destruct (cas_put_keyed d src _) as [[[[]|e] l] c]; done.
    + specialize (H (gate_reads (capacity p) (committed s1) (pending s1) 0 src) s1 Ha).
      destruct (cas_put_keyed d _ (inner s1)) as [[out l] c]. destruct (gate_after _ _ _ _ _ _ _) as [mine []]; [done|].
      destruct out as [[]|e]; [|done]. unfold account. repeat case_match; done.
Qed.
End inner.

(** ** The peer routes of a node *)

Section routes.
Context {C T : Type} {Hs : Hashers} {B : CasBackend C} {R : ReclaimableCas C} {Rt : ContentRouter T}
  {V : CasModel C} {L : CasLaws C}.
Implicit Types (f : Fleet C T) (x : CasNode (C := C) (T := T)).

(** A node that may serve: its store is in order. *)
Definition fleet_ok f : Prop := map_Forall (fun _ x => cas_valid (inner (store x))) f.

(** The node at [u] never reclaims, and holds the blob. *)
Definition durable_at f (u : text) (d : Digest) : Prop :=
  exists x, f !! u = Some x /\ mode_name x = bs "write_only" /\ is_Some (held (inner (store x)) !! d).

Lemma fleet_ok_insert f u x : fleet_ok f -> cas_valid (inner (store x)) -> fleet_ok (<[u := x]> f).
Proof.
  intros Hf Hx u' x' Hu. apply lookup_insert_Some in Hu as [[_ <-]|[_ Hu]]; [done|]. by apply (Hf u').
Qed.

Lemma parse_to_string d : digest_wf d -> parse (to_string d) = Some d.
Proof. intros Hd. unfold parse. by rewrite from_str_to_string. Qed.

Lemma head_blob_spec d x r x' :
  digest_wf d -> cas_valid (inner (store x)) -> head_blob (to_string d) x = (r, x') ->
  cas_valid (inner (store x')) /\
  (is_success (to_http r) = true ->
   http_header (to_http r) (bs "x-nessie-mode") = Some (mode_name x') /\
   is_Some (held (inner (store x')) !! d)).
Proof.
  intros Hd Hv. unfold head_blob. rewrite parse_to_string by done. unfold on_local, size, on_inner.
  destruct (law_size d (inner (store x)) Hv) as [Hs1 Hv1]. unfold size_spec in Hs1.
  destruct (cas_size d (inner (store x))) as [[[len|]|e] c]; destruct Hs1 as [[Hh _] Hlen];
    intros [= <- <-]; (split; [done|]); try done.
  - intros _. split; [done|]. cbn. rewrite Hh. destruct (held (inner (store x)) !! d); [by eexists|done].
  - unfold is_success. destruct e; done.
Qed.

(** One request to a peer of the fleet changes the node at its base alone. *)
Lemma holds_durably_fleet p d f b f' :
  fleet_ok f -> digest_wf d -> holds_durably p d f = (b, f') ->
  fleet_ok f' /\ (forall u, u <> base_url p -> f' !! u = f !! u) /\
  (b = true -> durable_at f' (base_url p) d).
Proof.
  intros Hf Hd E. unfold holds_durably, peer_head in E. cbn [http_send fleet_http] in E.
  rewrite split_blob_url in E. cbn [sent_body] in E.
  destruct (f !! base_url p) as [x|] eqn:Ex; [|by injection E as <- <-].
  cbn [serve] in E. destruct (head_blob (to_string d) x) as [r x'] eqn:Eh.
  destruct (head_blob_spec _ _ _ _ Hd (Hf _ _ Ex) Eh) as [Hv Hok]. cbn [mbind option_bind] in E.
  destruct (is_success (to_http r)) eqn:Es; injection E as <- <-; (split; [by apply fleet_ok_insert|]);
    (split; [by intros; apply lookup_insert_ne|]); [|done].
  intros Hb%bool_decide_eq_true. cbn [head_mode] in Hb. destruct (Hok eq_refl) as [Hm Hin].
  change (http_header (to_http r) (bs "x-nessie-mode") = Some (bs "write_only")) in Hb.
  rewrite Hm in Hb. apply (inj Some) in Hb. exists x'. by rewrite lookup_insert_eq.
Qed.

Lemma peer_put_fleet p d body len f b f' :
  fleet_ok f -> peer_put p d body len f = (b, f') ->
  fleet_ok f' /\ forall u, u <> base_url p -> f' !! u = f !! u.
Proof.
  intros Hf E. unfold peer_put in E. cbn [http_send fleet_http] in E. rewrite split_blob_url in E.
  destruct (sent_body _) as [data|]; [|by injection E as <- <-].
  destruct (f !! base_url p) as [x|] eqn:Ex; [|by injection E as <- <-].
  cbn [serve] in E. destruct (put_blob (to_string d) data x) as [r x'] eqn:Ep. injection E as _ <-.
  split; [|by intros; apply lookup_insert_ne]. apply fleet_ok_insert; [done|].
  unfold put_blob in Ep. case_bool_decide; [injection Ep as _ <-; by apply (Hf _ _ Ex)|].
  destruct (parse (to_string d)) as [d'|]; [|injection Ep as _ <-; by apply (Hf _ _ Ex)].
  unfold node_put_keyed in Ep. pose proof (put_keyed_valid d' (cursor data) (store x) (Hf _ _ Ex)) as Hv.
  destruct (put_keyed d' (cursor data) (store x)) as [[[[]|e] l] st]; injection Ep as _ <-; exact Hv.
Qed.
End routes.

(** ** The replicator *)

Section push_local.
Context {N C : Type} {HN : Http N} {Hs : Hashers} {B : CasBackend C} {R : ReclaimableCas C}
  {V : CasModel C} {L : CasLaws C}.
Implicit Types (s : SwarmCas N C).

Lemma local_size_spec d s r s' :
  cas_valid (sw_inner s) -> local (cas_size d) s = (r, s') ->
  cas_valid (sw_inner s') /\ same_content (sw_inner s) (sw_inner s') /\ sw_net s' = sw_net s /\ sw_peers s' = sw_peers s.
Proof.
  intros Hv. unfold local. destruct (law_size d (sw_inner s) Hv) as [Hspec Hv1]. unfold size_spec in Hspec.
  destruct (cas_size d (sw_inner s)) as [r1 c], Hspec. by intros [= <- <-].
Qed.

Lemma local_get_spec d s r s' :
  cas_valid (sw_inner s) -> local (cas_get d) s = (r, s') ->
  cas_valid (sw_inner s') /\ same_content (sw_inner s) (sw_inner s') /\ sw_net s' = sw_net s /\ sw_peers s' = sw_peers s.
Proof.
  intros Hv. unfold local. destruct (law_get d (sw_inner s) Hv) as [Hspec Hv1]. unfold get_spec in Hspec.
  destruct (cas_get d (sw_inner s)) as [r1 c], Hspec. by intros [= <- <-].
Qed.

(** A push reads the local store and leaves it as it was. *)
Lemma push_loop_local l d target held sent s r s' :
  cas_valid (sw_inner s) -> push_loop l d target held sent s = (r, s') ->
  cas_valid (sw_inner s') /\ same_content (sw_inner s) (sw_inner s') /\ sw_peers s' = sw_peers s.
Proof.
  revert held sent s. induction l as [|p l IH]; intros held sent s Hv E; cbn [push_loop] in E.
  { injection E as <- <-. by split_and!. }
  destruct (negb (peer_durable p)); [by eapply IH|]. case_bool_decide as Ht; [by injection E as <- <-|].
  destruct (holds_durably p d (sw_net s)) as [[] f1]; [by apply IH in E|].
  destruct (local (cas_size d) _) as [[len|e] s2] eqn:E2; apply local_size_spec in E2 as (Hv2 & Hs2 & _ & Hp2); [|done| |done];
    cbn [sw_inner sw_peers set_sw_net] in Hs2, Hp2; [|by injection E as <- <-].
  destruct (local (cas_get d) s2) as [[body|e] s3] eqn:E3; apply local_get_spec in E3 as (Hv3 & Hs3 & _ & Hp3); [|done| |done];
    pose proof (same_content_trans _ _ _ Hs2 Hs3) as Hs23.
  2:{ injection E as <- <-. split_and!; [done|done|congruence]. }
  destruct (peer_put p d body len (sw_net s3)) as [ok f4].
  assert (H : cas_valid (sw_inner s') /\ same_content (sw_inner s3) (sw_inner s') /\ sw_peers s' = sw_peers s3).
  { destruct (negb ok); [by apply IH in E|].
    destruct (holds_durably p d _) as [[] f5]; by apply IH in E. }
  destruct H as (Hv' & Hs' & Hp'). split_and!; [done|by eapply same_content_trans|congruence].
Qed.
End push_local.

(** Where the peers are nodes of a fleet, those counted hold the blob, and never reclaim. *)
Section push_fleet.
Context {C T C' T' : Type} {Hs : Hashers} {B : CasBackend C} {R : ReclaimableCas C}
  {V : CasModel C} {L : CasLaws C}.
Context {B' : CasBackend C'} {R' : ReclaimableCas C'} {Rt' : ContentRouter T'}
  {V' : CasModel C'} {L' : CasLaws C'}.
Implicit Types (s : SwarmCas (Fleet C' T') C).

(** [us] are bases of distinct durable peers of [l] that hold [d] in the fleet [f]. *)
Definition confirmed (l : list Peer) (f : Fleet C' T') (d : Digest) (us : list text) : Prop :=
  NoDup us /\ forall u, u ∈ us ->
    durable_at f u d /\ exists p, p ∈ l /\ peer_durable p = true /\ base_url p = u.

Lemma confirmed_weaken l p f d us : confirmed l f d us -> confirmed (p :: l) f d us.
Proof.
  intros [Hn Hu]. split; [done|]. intros u Hin. destruct (Hu u Hin) as (Hd & q & Hq & ? & ?).
  split; [done|]. exists q. split; [by right|done].
Qed.

(** What a push from the fleet [f], with [k] peers counted before [l], comes to. *)
Definition pushed_ok (d : Digest) (l : list Peer) (f : Fleet C' T') (k : nat)
    (r : result BackendError Pushed) (f' : Fleet C' T') : Prop :=
  fleet_ok f' /\ (forall u, u ∉ (base_url <$> l) -> f' !! u = f !! u) /\
  forall p, r = Ok p -> exists us, confirmed l f' d us /\ held_ p = (k + length us)%nat.

Definition differ_at (u : text) (f f' : Fleet C' T') : Prop := forall v, v <> u -> f' !! v = f !! v.

Lemma pushed_stop d l f k r f' :
  fleet_ok f' -> (forall u, u ∉ (base_url <$> l) -> f' !! u = f !! u) ->
  (forall p, r = Ok p -> held_ p = k) -> pushed_ok d l f k r f'.
Proof.
  intros Hf Hu Hr. split_and!; [done|done|]. intros p Hp. exists [].
  split; [split; [constructor|set_solver]|]. rewrite (Hr p Hp). simpl. lia.
Qed.

Lemma pushed_skip d p l f f1 k r f' :
  differ_at (base_url p) f f1 -> pushed_ok d l f1 k r f' -> pushed_ok d (p :: l) f k r f'.
Proof.
  intros Hd (Hf & Hu & Hr). split_and!; [done| |].
  - intros u Hin. rewrite fmap_cons in Hin. rewrite Hu, Hd; [done|set_solver|set_solver].
  - intros q Hq. destruct (Hr q Hq) as (us & Hus & ->). exists us. split; [by apply confirmed_weaken|done].
Qed.

Lemma pushed_count d p l f f1 k r f' :
  base_url p ∉ (base_url <$> l) -> differ_at (base_url p) f f1 ->
  peer_durable p = true -> durable_at f1 (base_url p) d ->
  pushed_ok d l f1 (S k) r f' -> pushed_ok d (p :: l) f k r f'.
Proof.
  intros Hp Hd Hdur Hat Hok. pose proof Hok as (Hf & Hu & Hr).
  destruct (pushed_skip d p l f f1 (S k) r f' Hd Hok) as (_ & Hu' & _). split_and!; [done|done|].
  intros q Hq. destruct (Hr q Hq) as (us & Hus & ->). exists (base_url p :: us). split; [|simpl; lia].
  destruct (confirmed_weaken _ p _ _ _ Hus) as [Hn Hall]. split.
  - constructor; [|done]. intros Hin. destruct (proj2 Hus _ Hin) as (_ & q' & Hq' & _ & Eb).
    apply Hp. rewrite <- Eb. by apply list_elem_of_fmap_2.
  - intros u [->|Hin]%elem_of_cons; [|by apply Hall]. split; [|exists p; split; [by left|done]].
    destruct Hat as (x & Hx & ?). exists x. by rewrite (Hu _ Hp).
Qed.

Lemma push_loop_fleet l d target held sent s r s' :
  cas_valid (sw_inner s) -> fleet_ok (sw_net s) -> digest_wf d -> NoDup (base_url <$> l) ->
  push_loop l d target held sent s = (r, s') -> pushed_ok d l (sw_net s) held r (sw_net s').
Proof.
  intros Hv Hf Hd. revert held sent s Hv Hf. induction l as [|p l IH]; intros held sent s Hv Hf Hn E; cbn [push_loop] in E.
  { injection E as <- <-. apply pushed_stop; [done|done|]. by intros ? [= <-]. }
  rewrite fmap_cons in Hn. apply NoDup_cons in Hn as [Hp Hn].
  destruct (negb (peer_durable p)) eqn:Hdur; [by eapply pushed_skip; [|by eapply IH]|]. apply negb_false_iff in Hdur.
  case_bool_decide as Ht.
  { injection E as <- <-. apply pushed_stop; [done|done|]. by intros ? [= <-]. }
  destruct (holds_durably p d (sw_net s)) as [b f1] eqn:E1.
  destruct (holds_durably_fleet _ _ _ _ _ Hf Hd E1) as (Hf1 & Hu1 & Hat1).
  destruct b; [eapply pushed_count; [done|exact Hu1|done|by apply Hat1|by eapply (IH _ _ (set_sw_net f1 s))]|].
  assert (Hstop : forall e, pushed_ok d (p :: l) (sw_net s) held (Err e) f1).
  { intros e. apply pushed_stop; [done| |done]. intros u Hu. apply Hu1. rewrite fmap_cons in Hu. set_solver. }
  destruct (local (cas_size d) _) as [[len|e] s2] eqn:E2; apply local_size_spec in E2 as (Hv2 & _ & Hn2 & _); [|done| |done];
    cbn [sw_net set_sw_net] in Hn2; [|injection E as <- <-; by rewrite Hn2].
  destruct (local (cas_get d) s2) as [[body|e] s3] eqn:E3; apply local_get_spec in E3 as (Hv3 & _ & Hn3 & _); [|done| |done];
    rewrite Hn2 in Hn3; [|injection E as <- <-; by rewrite Hn3].
  destruct (peer_put p d body len (sw_net s3)) as [ok f4] eqn:E4. rewrite Hn3 in E4.
  destruct (peer_put_fleet _ _ _ _ _ _ _ Hf1 E4) as (Hf4 & Hu4).
  assert (Hd4 : differ_at (base_url p) (sw_net s) f4) by (intros u Hu; by rewrite Hu4, Hu1).
  destruct (negb ok); [eapply pushed_skip; [exact Hd4|by eapply (IH _ _ (set_sw_net f4 s3))]|].
  destruct (holds_durably p d (sw_net (set_sw_net f4 s3))) as [b f5] eqn:E5. cbn [sw_net set_sw_net] in E5.
  destruct (holds_durably_fleet _ _ _ _ _ Hf4 Hd E5) as (Hf5 & Hu5 & Hat5).
  assert (Hd5 : differ_at (base_url p) (sw_net s) f5) by (intros u Hu; by rewrite Hu5, Hd4).
  destruct b.
  - eapply pushed_count; [done|exact Hd5|done|by apply Hat5|by eapply (IH _ _ (set_sw_net f5 (set_sw_net f4 s3)))].
  - eapply pushed_skip; [exact Hd5|by eapply (IH _ _ (set_sw_net f5 (set_sw_net f4 s3)))].
Qed.
End push_fleet.

(** ** The local store beneath a node *)

Section local.
Context {N C T : Type} {HN : Http N} {Hs : Hashers} {B : CasBackend C} {R : ReclaimableCas C}
  {Rt : ContentRouter T} {V : CasModel C} {L : CasLaws C}.
Implicit Types (c : C) (s : CasStore (SwarmCas N C) T).

(** Healthy blobs stay, what is new verifies, and nothing leaves the quarantine. *)
Record sound_step c c' : Prop := {
  ss_valid : cas_valid c';
  ss_keeps : forall d data, held c !! d = Some data -> verify d data = true -> held c' !! d = Some data;
  ss_new : forall d data, held c' !! d = Some data -> held c !! d = Some data \/ verify d data = true;
  ss_quarantine : quarantined_at c ⊆ quarantined_at c';
}.

Lemma sound_same c c' : same_content c c' -> cas_valid c' -> sound_step c c'.
Proof. intros [Hh Hq] Hv. split; rewrite ?Hh, ?Hq; auto. Qed.

Lemma sound_trans c1 c2 c3 : sound_step c1 c2 -> sound_step c2 c3 -> sound_step c1 c3.
Proof.
  intros [V1 K1 N1 Q1] [V2 K2 N2 Q2]. split; [done|auto| |by etrans].
  intros d data Hd. destruct (N2 d data Hd); auto.
Qed.

Lemma sound_stores c d data c' : stores c d data c' -> cas_valid c' -> sound_step c c'.
Proof.
  intros (Hver & Hq & Hst) Hv. split; [done| | |by rewrite Hq].
  - intros e b Hb Hvb. destruct (held c !! d) as [old|] eqn:Eo.
    + destruct Hst as [->|[Hbad ->]]; [done|]. rewrite lookup_insert_ne; [done|]. intros <-. congruence.
    + rewrite Hst, lookup_insert_ne; [done|]. intros <-. congruence.
  - intros e b Hb.
    assert (H : held c' = held c \/ held c' = <[d := data]> (held c))
      by (destruct (held c !! d); [destruct Hst as [?|[_ ?]]|]; auto).
    destruct H as [E|E]; rewrite E in Hb; [by left|].
    apply lookup_insert_Some in Hb as [[<- <-]|[_ Hb]]; [by right|by left].
Qed.

Lemma sound_gains c d c' : gains d c c' -> cas_valid c' -> sound_step c c'.
Proof.
  intros (Hn & data & Hver & Hh & Hq) Hv. apply (sound_stores c d data); [|done].
  split_and!; [done|done|]. by rewrite Hn.
Qed.

(** What of a store's state an operation may change: the blobs held here, soundly. *)
Definition loc s : C := sw_inner (inner s).
Definition steps s s' : Prop :=
  sound_step (loc s) (loc s') /\ sw_peers (inner s') = sw_peers (inner s) /\
  sw_cache_fills (inner s') = sw_cache_fills (inner s) /\ policy s' = policy s.
Definition quiet s s' : Prop := steps s s' /\ sw_net (inner s') = sw_net (inner s).

Lemma steps_trans s1 s2 s3 : steps s1 s2 -> steps s2 s3 -> steps s1 s3.
Proof. intros (H1 & P1 & F1 & Q1) (H2 & P2 & F2 & Q2). split_and!; [by eapply sound_trans|congruence..]. Qed.

(** An operation of the local store alone. *)
Lemma on_local_quiet {A} (op : M BackendError C A) s r s' :
  (forall c, cas_valid c -> sound_step c (op c).2) -> cas_valid (loc s) ->
  on_inner (local op) s = (r, s') -> quiet s s'.
Proof.
  intros Hop Hv. unfold on_inner, local. specialize (Hop (loc s) Hv). unfold loc in *.
  destruct (op (sw_inner (inner s))) as [r1 c]. intros [= <- <-]. by split_and!.
Qed.

Lemma has_sound d c : cas_valid c -> sound_step c (cas_has d c).2.
Proof.
  intros Hv. destruct (law_has d c Hv) as [Hspec Hv']. unfold has_spec in Hspec.
  destruct (cas_has d c) as [r c'], Hspec. by apply sound_same.
Qed.

Lemma verify_sound d c : cas_valid c -> sound_step c (cas_verify d c).2.
Proof.
  intros Hv. destruct (law_verify d c Hv) as [Hspec Hv']. unfold verify_spec in Hspec.
  destruct (cas_verify d c) as [r c'], Hspec. by apply sound_same.
Qed.

Lemma iter_local_sound c : cas_valid c -> sound_step c (iter_local c).2.
Proof.
  intros Hv. destruct (law_iter_local c Hv) as [Hspec Hv']. unfold iter_local_spec in Hspec.
  destruct (iter_local c) as [r c'], Hspec. by apply sound_same.
Qed.

Lemma iter_quarantine_sound c : cas_valid c -> sound_step c (iter_quarantine c).2.
Proof.
  intros Hv. destruct (law_iter_quarantine c Hv) as [Hspec Hv']. unfold iter_quarantine_spec in Hspec.
  destruct (iter_quarantine c) as [r c'], Hspec. by apply sound_same.
Qed.

Lemma reclaim_if_corrupt_sound d c : cas_valid c -> sound_step c (reclaim_if_corrupt d c).2.
Proof.
  intros Hv. destruct (law_reclaim_if_corrupt d c Hv) as [Hspec Hv']. unfold reclaim_if_corrupt_spec in Hspec.
  destruct (reclaim_if_corrupt d c) as [[b|e] c']; [|by apply sound_same].
  destruct Hspec as [Hb [Hq Hh]]. simpl in *. destruct b; [|by apply sound_same].
  destruct (proj1 Hb eq_refl) as (bad & Hbad & Hver). split; [done| | |by rewrite Hq].
  - intros e data Hd Hvd. rewrite Hh, lookup_delete_ne; [done|]. intros <-. congruence.
  - intros e data Hd. rewrite Hh in Hd. apply lookup_delete_Some in Hd as [_ Hd]. by left.
Qed.

(** A corrupt copy taken aside. *)
Lemma quarantine_sound d c :
  cas_valid c -> (exists data, held c !! d = Some data /\ verify d data = false) ->
  sound_step c (cas_quarantine d c).2.
Proof.
  intros Hv (bad & Hbad & Hver). destruct (law_quarantine d c Hv) as [Hspec Hv']. unfold quarantine_spec in Hspec.
  destruct (cas_quarantine d c) as [[[q|]|e] c']; [|by apply sound_same; [apply Hspec|]|by apply sound_same].
  destruct Hspec as (data & Hd & Hh & _ & _ & Hnew & Hq). simpl in *. split; [done| | |].
  - intros e x Hx Hvx. rewrite Hh, lookup_delete_ne; [done|]. intros <-. congruence.
  - intros e x Hx. rewrite Hh in Hx. apply lookup_delete_Some in Hx as [_ Hx]. by left.
  - rewrite Hq. by apply insert_subseteq.
Qed.

Lemma put_keyed_sound d src c r l c' :
  cas_valid c -> cas_put_keyed d src c = (r, l, c') ->
  sound_step c c' /\ (r = Ok () -> is_Some (held c' !! d)).
Proof.
  intros Hv E. destruct (law_put_keyed d src c Hv) as [Hspec Hv']. unfold put_keyed_spec in Hspec.
  rewrite E in Hspec, Hv'. destruct Hspec as [_ Hspec]. destruct r as [[]|e].
  - destruct Hspec as [(data & _ & Hst)|(_ & Hin & Hsame)].
    + split; [by eapply sound_stores|]. intros _. destruct Hst as (_ & _ & Hst).
      destruct (held c !! d) as [old|] eqn:Eo; [destruct Hst as [->|[_ ->]]|rewrite Hst];
        rewrite ?Eo, ?lookup_insert_eq; by eexists.
    + split; [by apply sound_same|]. intros _. by destruct Hsame as [-> _].
  - split; [by apply sound_same|done].
Qed.

Lemma get_steps d s r s' :
  cas_valid (loc s) -> get d s = (r, s') -> steps s s'.
Proof.
  intros Hv. unfold get, on_inner. destruct (cas_get d (inner s)) as [r1 w] eqn:E. intros Hget.
  assert (Hw : sound_step (loc s) (sw_inner w) /\ sw_peers w = sw_peers (inner s) /\
    sw_cache_fills w = sw_cache_fills (inner s)).
  { destruct (swarm_get_spec d (inner s) r1 w Hv E) as (Hv' & Hp & Hf & Hc & _). split_and!; [|done|done].
    destruct Hc as [Hc|[_ Hc]]; [by apply sound_same|by eapply sound_gains]. }
  destruct Hw as (H1 & H2 & H3). destruct r1; injection Hget as <- <-; by split_and!.
Qed.

Lemma quiet_seq s1 s2 s3 : quiet s1 s2 -> quiet s2 s3 -> quiet s1 s3.
Proof. intros [H1 N1] [H2 N2]. split; [by eapply steps_trans|congruence]. Qed.

(** Bookkeeping leaves what is beneath as it is. *)
Lemma quiet_books s s1 s2 : inner s2 = inner s1 -> policy s2 = policy s1 -> quiet s s1 -> quiet s s2.
Proof. unfold quiet, steps, loc. by intros -> ->. Qed.

Lemma inner_put_quiet d src s r l w :
  cas_valid (loc s) -> cas_put_keyed d src (inner s) = (r, l, w) ->
  quiet s (set_inner w s) /\ (r = Ok () -> is_Some (held (sw_inner w) !! d)).
Proof.
  intros Hv. cbn [cas_put_keyed swarm_backend].
  destruct (cas_put_keyed d src (sw_inner (inner s))) as [[r1 l1] c] eqn:E. intros [= <- <- <-].
  destruct (put_keyed_sound _ _ _ _ _ _ Hv E) as [Hst Hok]. by split_and!.
Qed.

Lemma already_held_quiet d s b s1 : cas_valid (loc s) -> already_held d s = (b, s1) -> quiet s s1.
Proof.
  intros Hv. unfold already_held. case_bool_decide.
  { intros [= <- <-]. split; [|done]. split; [by apply sound_same|done]. }
  destruct (on_inner (cas_has d) s) as [r s2] eqn:E. intros [= _ <-].
  eapply on_local_quiet; [by apply has_sound|done|exact E].
Qed.

Lemma account_inner d z s : inner (account d z s) = inner s /\ policy (account d z s) = policy s.
Proof. unfold account. repeat case_match; done. Qed.

(** A store's write puts the blob among those held here, and asks nothing of the peers. *)
Lemma store_put_quiet d src s r l s' :
  cas_valid (loc s) -> put_keyed d src s = (r, l, s') ->
  quiet s s' /\ (r = Ok () -> is_Some (held (loc s') !! d)).
Proof.
  intros Hv E. unfold put_keyed in E. destruct (mode (policy s)) as [p|p].
  - destruct (cas_put_keyed d src (inner s)) as [[r1 l1] w] eqn:Ep.
    destruct (inner_put_quiet _ _ _ _ _ _ Hv Ep) as [Hq Hok].
    destruct r1 as [[]|e]; injection E as <- _ <-; [|by split]. split; [by eapply quiet_books; [| |exact Hq]|done].
  - unfold put_keyed_write_only in E. destruct (already_held d s) as [b s1] eqn:Ea.
    pose proof (already_held_quiet _ _ _ _ Hv Ea) as Ha. pose proof (ss_valid _ _ (proj1 (proj1 Ha))) as Hv1.
    destruct b.
    + destruct (cas_put_keyed d src _) as [[r1 l1] w] eqn:Ep.
      destruct (inner_put_quiet d src (update_state (set_fast (fast_register d)) s1) _ _ _ Hv1 Ep) as [Hq Hok].
      assert (Hq' : quiet s (set_inner w s1)) by (eapply quiet_seq; [exact Ha|by eapply quiet_books; [| |exact Hq]]).
      destruct r1 as [[]|e]; injection E as <- _ <-; (split; [by eapply quiet_books; [| |exact Hq']|done]).
    + destruct (cas_put_keyed d _ (inner s1)) as [[r1 l1] w] eqn:Ep.
      destruct (inner_put_quiet _ _ s1 _ _ _ Hv1 Ep) as [Hq Hok]. pose proof (quiet_seq _ _ _ Ha Hq) as Hq'.
      destruct (gate_after _ _ _ _ _ _ _) as [mine []]; [injection E as <- _ <-; split; [by eapply quiet_books; [| |exact Hq']|done]|].
      destruct r1 as [[]|e]; injection E as <- _ <-; [|split; [by eapply quiet_books; [| |exact Hq']|done]].
      match goal with |- context [account d mine ?x] => destruct (account_inner d mine x) as [Hi Hp] end. split.
      * eapply quiet_books; [exact Hi|exact Hp|]. by eapply quiet_books; [| |exact Hq'].
      * intros _. unfold loc. cbn. rewrite Hi. by apply Hok.
Qed.
End local.

(** ** The node's operations, on the blobs it holds *)

Section node_steps.
Context {N C T : Type} {HN : Http N} {Hs : Hashers} {B : CasBackend C} {R : ReclaimableCas C}
  {Rt : ContentRouter T} {V : CasModel C} {L : CasLaws C}.
Abbreviation Node := (PeeredNode (X := SwarmCas N C) (T := T)).
Implicit Types (n : Node).

Definition nstore n : CasStore (SwarmCas N C) T := store (pn_node n).
Definition nloc n : C := loc (nstore n).

(** What an operation of a node may change: its blobs soundly, its network, its books and
    its cursors; never its pins or its configuration. *)
Definition nsteps n n' : Prop :=
  steps (nstore n) (nstore n') /\ registry (pn_node n') = registry (pn_node n) /\
  pn_mirror n' = pn_mirror n /\ scrub_budget n' = scrub_budget n.

Lemma nsteps_refl n : cas_valid (nloc n) -> nsteps n n.
Proof. intros Hv. split; [|done]. split; [by apply sound_same|done]. Qed.

Lemma nsteps_trans n1 n2 n3 : nsteps n1 n2 -> nsteps n2 n3 -> nsteps n1 n3.
Proof.
  intros (S1 & R1 & M1 & B1) (S2 & R2 & M2 & B2). split_and!; [by eapply steps_trans|congruence..].
Qed.

Lemma nsteps_valid n n' : nsteps n n' -> cas_valid (nloc n').
Proof. intros [[Hs' _] _]. apply Hs'. Qed.

Lemma nsteps_sound n n' : nsteps n n' -> sound_step (nloc n) (nloc n').
Proof. by intros [[Hs' _] _]. Qed.

Lemma nsteps_mode n n' : nsteps n n' -> is_write_only n' = is_write_only n.
Proof. intros [(_ & _ & _ & Hp) _]. unfold is_write_only, nstore in *. by rewrite Hp. Qed.

Lemma on_store_steps {A} (op : M BackendError (CasStore (SwarmCas N C) T) A) n r n' :
  (forall r s', op (nstore n) = (r, s') -> steps (nstore n) s') ->
  on_store op n = (r, n') -> nsteps n n'.
Proof.
  intros Hop. unfold on_store, nstore in *. destruct (op (store (pn_node n))) as [r1 st] eqn:E.
  intros [= _ <-]. by split; [apply (Hop _ _ eq_refl)|].
Qed.

Lemma on_local_steps {A} (op : M BackendError C A) n r n' :
  (forall c, cas_valid c -> sound_step c (op c).2) -> cas_valid (nloc n) ->
  on_store (on_inner (local op)) n = (r, n') -> nsteps n n'.
Proof.
  intros Hop Hv. apply on_store_steps. intros r1 s1 E1. by destruct (on_local_quiet op _ _ _ Hop Hv E1).
Qed.

Lemma peered_has_steps d n r n' : cas_valid (nloc n) -> peered_has d n = (r, n') -> nsteps n n'.
Proof. apply on_local_steps. by apply has_sound. Qed.

Lemma peered_get_steps d n r n' : cas_valid (nloc n) -> peered_get d n = (r, n') -> nsteps n n'.
Proof. intros Hv. apply on_store_steps. intros r1 s1. by apply get_steps. Qed.

Lemma peered_size_steps d n r n' : cas_valid (nloc n) -> peered_size d n = (r, n') -> nsteps n n'.
Proof.
  intros Hv. apply on_store_steps. intros r1 s1. unfold size, on_inner. cbn [cas_size swarm_backend].
  unfold swarm_size. destruct (local (cas_size d) (inner (nstore n))) as [r2 w] eqn:E.
  destruct (local_size_spec d _ _ _ Hv E) as (Hv' & Hsame & _ & Hp).
  assert (Hf : sw_cache_fills w = sw_cache_fills (inner (nstore n))).
  { unfold local in E. destruct (cas_size d _). by injection E as _ <-. }
  assert (H : steps (nstore n) (set_inner w (nstore n))) by (split_and!; [by apply sound_same|done..]).
  destruct r2 as [[z|]|e]; [by intros [= _ <-]| |by intros [= _ <-]].
  destruct (first_size _ _ _) as [z f]. by intros [= _ <-].
Qed.

Lemma put_local_steps d src n r n' :
  cas_valid (nloc n) -> put_keyed_local d src n = (r, n') ->
  nsteps n n' /\ sw_net (inner (nstore n')) = sw_net (inner (nstore n)) /\
  (r = Ok () -> is_Some (held (nloc n') !! d)).
Proof.
  intros Hv. unfold put_keyed_local, node_put_keyed.
  destruct (put_keyed d src (store (pn_node n))) as [[r1 l] st] eqn:E.
  destruct (store_put_quiet _ _ _ _ _ _ Hv E) as [[Hst Hn] Hok].
  by destruct r1 as [[]|e]; intros [= <- <-].
Qed.

Lemma on_swarm_eq {A} (op : M BackendError (SwarmCas N C) A) n :
  on_swarm op n = ((op (inner (nstore n))).1,
    set_node (set_store (set_inner (op (inner (nstore n))).2 (nstore n)) (pn_node n)) n).
Proof. unfold on_swarm, on_store, on_inner, nstore. by destruct (op (inner (store (pn_node n)))). Qed.

Lemma push_loop_fills l d target held sent (w : SwarmCas N C) :
  sw_cache_fills (push_loop l d target held sent w).2 = sw_cache_fills w.
Proof.
  revert held sent w. induction l as [|p l IH]; intros held sent w; cbn [push_loop]; [done|].
  destruct (negb _); [apply IH|]. case_bool_decide; [done|]. destruct (holds_durably p d _) as [[] f]; [by rewrite IH|].
  unfold local. destruct (cas_size d _) as [[z|e] c]; [|done]. destruct (cas_get d _) as [[b|e] c']; [|done].
  destruct (peer_put p d b z _) as [ok f']. destruct (negb ok); [by rewrite IH|].
  destruct (holds_durably p d _) as [[] f'']; by rewrite IH.
Qed.

Lemma push_counting_steps d target n r n' :
  cas_valid (nloc n) -> on_swarm (push_counting d target) n = (r, n') -> nsteps n n' /\ held (nloc n') = held (nloc n).
Proof.
  intros Hv. rewrite on_swarm_eq. intros [= _ <-]. unfold push_counting.
  pose proof (push_loop_fills (sw_peers (inner (nstore n))) d target 0 0 (inner (nstore n))) as Hf.
  destruct (push_loop _ _ _ _ _ _) as [r1 w] eqn:E. simpl in Hf.
  destruct (push_loop_local _ _ _ _ _ _ _ _ Hv E) as (Hv' & Hsame & Hp). split; [|apply Hsame].
  split; [|done]. split_and!; [by apply sound_same|done..].
Qed.

Lemma push_counts d target (w : SwarmCas N C) :
  push d target w = (held_ <$> (push_counting d target w).1, (push_counting d target w).2).
Proof. unfold push, mbind, M_bind. by destruct (push_counting d target w) as [[]]. Qed.

Lemma mirror_steps d n r n' :
  cas_valid (nloc n) -> mirror d n = (r, n') -> nsteps n n' /\ held (nloc n') = held (nloc n).
Proof.
  intros Hv. unfold mirror. cbn [mirror_push swarm_mirrors]. destruct (pn_mirror n) as [k|]; [|intros [= _ <-]; by split; [apply nsteps_refl|]].
  destruct (on_swarm (push d k) n) as [r1 n1] eqn:E. intros E'.
  assert (n1 = n') as -> by (destruct r1; [case_bool_decide|]; by injection E').
  eapply (push_counting_steps d k); [done|]. rewrite on_swarm_eq, push_counts in E.
  rewrite on_swarm_eq. injection E as _ <-. done.
Qed.
End node_steps.

(** ** An acknowledged write *)

Lemma distinct_peers_urls seen ps :
  NoDup (base_url <$> distinct_peers seen ps) /\
  forall p, p ∈ distinct_peers seen ps -> base_url p ∉ seen.
Proof.
  revert seen. induction ps as [|p ps IH]; intros seen; cbn [distinct_peers].
  { split; [constructor|]. by intros p ?%elem_of_nil. }
  case_bool_decide as Hp; [apply IH|]. destruct (IH (base_url p :: seen)) as [Hn Hs]. split.
  - rewrite fmap_cons. constructor; [|done].
    intros (q & Eq & Hq)%list_elem_of_fmap. apply (Hs q Hq). rewrite Eq. by left.
  - intros q [->|Hq]%elem_of_cons; [done|]. specialize (Hs q Hq). by intros ?; apply Hs; right.
Qed.

Lemma distinct_peers_listed seen ps p : p ∈ distinct_peers seen ps -> p ∈ ps.
Proof.
  revert seen. induction ps as [|q ps IH]; intros seen; cbn [distinct_peers]; [by intros ?%elem_of_nil|].
  case_bool_decide; [intros Hp; right; by eapply IH|]. intros [->|Hp]%elem_of_cons; [by left|right; by eapply IH].
Qed.

Section acknowledged.
Context {C T C' T' : Type} {Hs : Hashers} {B : CasBackend C} {R : ReclaimableCas C} {Rt : ContentRouter T}
  {V : CasModel C} {L : CasLaws C}.
Context {B' : CasBackend C'} {R' : ReclaimableCas C'} {Rt' : ContentRouter T'}
  {V' : CasModel C'} {L' : CasLaws C'}.
Abbreviation Node := (PeeredNode (X := SwarmCas (Fleet C' T') C) (T := T)).
Implicit Types (n : Node).

Definition fleet_of n : Fleet C' T' := sw_net (inner (nstore n)).
Definition peers_of n : list Peer := sw_peers (inner (nstore n)).

Lemma mirror_confirmed d k n r n' :
  cas_valid (nloc n) -> fleet_ok (fleet_of n) -> digest_wf d -> NoDup (base_url <$> peers_of n) ->
  pn_mirror n = Some k -> mirror d n = (r, n') ->
  r = Ok () -> exists us, confirmed (peers_of n) (fleet_of n') d us /\ (Pos.to_nat k <= length us)%nat.
Proof.
  intros Hv Hf Hd Hn Hk. unfold mirror. cbn [mirror_push swarm_mirrors]. rewrite Hk, on_swarm_eq, push_counts. unfold push_counting.
  destruct (push_loop _ _ _ _ _ _) as [r1 w] eqn:E.
  destruct (push_loop_fleet _ _ _ _ _ _ _ _ Hv Hf Hd Hn E) as (_ & _ & Hus).
  destruct r1 as [p|e]; cbn [fst snd fmap result_fmap]; [|by intros [= <- _]].
  destruct (Hus p eq_refl) as (us & Hc & Hl). case_bool_decide; intros [= <- <-]; [done|].
  intros _. exists us. split; [exact Hc|lia].
Qed.

(** C3. A write a node acknowledges is held by the node itself and, where it mirrors to [k]
    copies, by at least [k] distinct durable peers, each of which answers that it never
    reclaims; a mirror that falls short fails the write, and leaves the local copy and
    every healthy blob where they are. *)
Theorem acknowledged_write_is_replicated d src k ps n r n' :
  cas_valid (nloc n) -> fleet_ok (fleet_of n) -> digest_wf d -> peers_of n = peer_set ps ->
  pn_mirror n = Some k -> peered_put_keyed d src n = (r, n') ->
  (r = Ok () ->
    is_Some (held (nloc n') !! d) /\
    exists us, NoDup us /\ (Pos.to_nat k <= length us)%nat /\ forall u, u ∈ us ->
      (exists p, p ∈ ps /\ peer_durable p = true /\ base_url p = u) /\
      exists x, fleet_of n' !! u = Some x /\ mode_name x = bs "write_only" /\
        is_Some (held (inner (store x)) !! d)) /\
  ((put_keyed_local d src n).1 = Ok () -> is_Some (held (nloc n') !! d)) /\
  (forall d' data, held (nloc n) !! d' = Some data -> verify d' data = true -> held (nloc n') !! d' = Some data).
Proof.
  intros Hv Hf Hd Hps Hk. unfold peered_put_keyed, mbind, M_bind.
  destruct (put_keyed_local d src n) as [r1 n1] eqn:E1.
  destruct (put_local_steps _ _ _ _ _ Hv E1) as (Hst & Hnet & Hok).
  assert (Hkept := ss_keeps _ _ (nsteps_sound _ _ Hst)).
  destruct r1 as [[]|e]; [|intros [= <- <-]; by split_and!]. intros E2.
  assert (Hp1 : peers_of n1 = peer_set ps) by (rewrite <- Hps; apply Hst).
  destruct (mirror_steps _ _ _ _ (nsteps_valid _ _ Hst) E2) as [_ Hheld].
  rewrite Hheld. split_and!; [|by intros _; apply Hok|done]. intros Hr. split; [by apply Hok|].
  assert (Hf1 : fleet_ok (fleet_of n1)) by (unfold fleet_of; rewrite Hnet; exact Hf).
  assert (Hk1 : pn_mirror n1 = Some k) by (rewrite <- Hk; apply Hst).
  assert (Hn1 : NoDup (base_url <$> peers_of n1)) by (rewrite Hp1; apply distinct_peers_urls).
  destruct (mirror_confirmed d k n1 r n' (nsteps_valid _ _ Hst) Hf1 Hd Hn1 Hk1 E2 Hr) as (us & [Hnd Hus] & Hl).
  exists us. split_and!; [done|done|]. intros u Hu. destruct (Hus u Hu) as [Hat (p & Hp & Hdur & Hb)].
  split; [|exact Hat]. exists p. split; [|done]. rewrite Hp1 in Hp. by apply distinct_peers_listed in Hp.
Qed.
End acknowledged.

(** ** The scrub *)

Section scrub.
Context {N C T : Type} {HN : Http N} {Hs : Hashers} {B : CasBackend C} {R : ReclaimableCas C}
  {Rt : ContentRouter T} {V : CasModel C} {L : CasLaws C}.
Abbreviation Node := (PeeredNode (X := SwarmCas N C) (T := T)).
Implicit Types (n : Node) (c : C) (rep : ScrubReport).

(** No corrupt copy of [d] is held. *)
Definition clean (d : Digest) c : Prop := forall data, held c !! d = Some data -> verify d data = true.

Lemma clean_step d c c' : sound_step c c' -> clean d c -> clean d c'.
Proof. intros Hst Hc data Hd. destruct (ss_new _ _ Hst d data Hd); [by apply Hc|done]. Qed.

Lemma room_for_steps d n rm n' : cas_valid (nloc n) -> room_for d n = (rm, n') -> nsteps n n'.
Proof.
  intros Hv. unfold room_for. destruct (peered_size d n) as [r n1] eqn:E. intros [= _ <-].
  by eapply peered_size_steps.
Qed.

Lemma restore_steps d n r n' : cas_valid (nloc n) -> restore d n = (r, n') -> nsteps n n'.
Proof.
  intros Hv. unfold restore, mbind, M_bind. destruct (peered_get d n) as [[src|e] n1] eqn:E1;
    pose proof (peered_get_steps _ _ _ _ Hv E1) as H1; [|by intros [= _ <-]].
  unfold lift. destruct (map_err _ _) as [bytes|e]; [|by intros [= _ <-]].
  intros E2. eapply nsteps_trans; [exact H1|]. by eapply put_local_steps; [eapply nsteps_valid|].
Qed.

Lemma restore_if_room_steps d n r n' : cas_valid (nloc n) -> restore_if_room d n = (r, n') -> nsteps n n'.
Proof.
  intros Hv. unfold restore_if_room. destruct (room_for d n) as [[| |z] n1] eqn:E1;
    pose proof (room_for_steps _ _ _ _ Hv E1) as H1; [by intros [= _ <-]..|].
  intros E2. eapply nsteps_trans; [exact H1|]. by eapply restore_steps; [eapply nsteps_valid|].
Qed.

Lemma verify_local_steps d n r n' :
  cas_valid (nloc n) -> on_store (Store.verify_local d) n = (r, n') ->
  nsteps n n' /\ held (nloc n') = held (nloc n) /\
  match r with
  | Ok true | Err (BlobNotFound _) => clean d (nloc n')
  | Ok false => exists data, held (nloc n') !! d = Some data /\ verify d data = false
  | Err _ => True
  end.
Proof.
  intros Hv E. split; [by eapply (on_local_steps (cas_verify d)); [apply verify_sound| |]|].
  destruct (law_verify d _ Hv) as [Hspec _]. unfold verify_spec in Hspec.
  unfold on_store, Store.verify_local, on_inner in E. cbn [cas_verify swarm_reclaimable] in E. unfold local in E.
  unfold nloc, nstore, loc in Hspec. destruct (cas_verify d (sw_inner _)) as [r1 c1]. injection E as <- <-.
  destruct Hspec as [[Hh _] Hr]. unfold clean, nloc, nstore, loc. cbn. rewrite Hh. split; [done|].
  destruct r1 as [[]|e]; [|by destruct Hr as (data & ? & ?); exists data|].
  - destruct Hr as (data & -> & Hd). by intros ? [= <-].
  - destruct e; try done. by rewrite Hr.
Qed.

Lemma quarantine_steps d n r n' :
  cas_valid (nloc n) -> (exists data, held (nloc n) !! d = Some data /\ verify d data = false) ->
  on_store (Store.quarantine d) n = (r, n') ->
  nsteps n n' /\ match r with Ok (Moved _) | Ok Absent => clean d (nloc n') | _ => True end.
Proof.
  intros Hv Hbad E. unfold on_store, Store.quarantine, on_inner in E. cbn [cas_quarantine swarm_reclaimable] in E.
  unfold local in E. case_bool_decide; [injection E as <- <-; split; [exact (nsteps_refl n Hv)|done]|].
  destruct (law_quarantine d _ Hv) as [Hspec _]. unfold quarantine_spec in Hspec.
  pose proof (quarantine_sound _ _ Hv Hbad) as Hst. unfold nloc, nstore, loc in Hspec, Hst.
  destruct (cas_quarantine d (sw_inner _)) as [[[q|]|e] c1]; injection E as <- <-;
    (split; [by repeat split; apply Hst|]); [| |done]; unfold clean, nloc, nstore, loc; cbn.
  - destruct Hspec as (data & _ & -> & _). by rewrite lookup_delete_eq.
  - destruct Hspec as [[-> _] Hc]. exact Hc.
Qed.

Lemma reclaim_corrupt_steps d n r n' :
  cas_valid (nloc n) -> on_store (Store.reclaim_corrupt d) n = (r, n') ->
  nsteps n n' /\ match r with Ok _ => clean d (nloc n') | _ => True end.
Proof.
  intros Hv E. unfold on_store, Store.reclaim_corrupt, on_inner in E. cbn [reclaim_if_corrupt swarm_reclaimable] in E.
  unfold local in E. destruct (law_reclaim_if_corrupt d _ Hv) as [Hspec _]. unfold reclaim_if_corrupt_spec in Hspec.
  pose proof (reclaim_if_corrupt_sound d _ Hv) as Hst. unfold nloc, nstore, loc in Hspec, Hst.
  destruct (reclaim_if_corrupt d (sw_inner _)) as [[[]|e] c1]; injection E as <- <-;
    (split; [by repeat split; apply Hst|]); [| |done]; unfold clean, nloc, nstore, loc; cbn;
    destruct Hspec as (Hb & _ & ->).
  - by rewrite lookup_delete_eq.
  - intros data Hd. destruct (verify d data) eqn:Hver; [done|]. by discriminate (proj2 Hb (ex_intro _ data (conj Hd Hver))).
Qed.

(** What a pass could not settle: no copy could be put back, or a writer was at work. *)
Definition trouble rep : nat := unrestored rep + deferred rep.

Lemma repair_spec d rep n rep' n' :
  cas_valid (nloc n) -> repair d rep n = (rep', n') ->
  nsteps n n' /\ scanned rep' = scanned rep /\ trouble rep' = trouble rep.
Proof.
  intros Hv. unfold repair. cbn [mirror_push_counting swarm_mirrors]. destruct (pn_mirror n) as [k|]; [|intros [= <- <-]; by split; [apply nsteps_refl|]].
  destruct (on_swarm (push_counting d k) n) as [[p|e] n1] eqn:E;
    pose proof (proj1 (push_counting_steps _ _ _ _ _ Hv E)); intros [= <- <-]; [case_bool_decide|]; done.
Qed.

Lemma reclaim_if_still_corrupt_spec d rep n r rep' n' :
  cas_valid (nloc n) -> reclaim_if_still_corrupt d rep n = (r, rep', n') ->
  nsteps n n' /\ scanned rep' = scanned rep /\ trouble rep' = trouble rep /\
  (is_ok r = true -> clean d (nloc n')).
Proof.
  intros Hv. unfold reclaim_if_still_corrupt.
  destruct (on_store (verify_local d) n) as [r1 n1] eqn:E1.
  destruct (verify_local_steps _ _ _ _ Hv E1) as (H1 & _ & Hr1). destruct r1 as [[]|e].
  - intros [= <- <- <-]. by split_and!.
  - destruct (on_store (reclaim_corrupt d) n1) as [r2 n2] eqn:E2.
    destruct (reclaim_corrupt_steps _ _ _ _ (nsteps_valid _ _ H1) E2) as [H2 Hr2].
    pose proof (nsteps_trans _ _ _ H1 H2). destruct r2; intros [= <- <- <-]; by split_and!.
  - destruct e; intros [= <- <- <-]; by split_and!.
Qed.

Lemma take_out_corrupt_spec d rep n b rep' n' :
  cas_valid (nloc n) -> (exists data, held (nloc n) !! d = Some data /\ verify d data = false) ->
  take_out_corrupt d rep n = (b, rep', n') ->
  nsteps n n' /\ scanned rep' = scanned rep /\ (trouble rep <= trouble rep')%nat /\
  (trouble rep' = trouble rep -> clean d (nloc n')).
Proof.
  intros Hv Hbad. unfold take_out_corrupt, take_out. destruct (is_write_only n).
  - destruct (on_store (quarantine d) n) as [r1 n1] eqn:E1.
    destruct (quarantine_steps _ _ _ _ Hv Hbad E1) as [H1 Hr1]. destruct r1 as [[q| |]|e].
    + destruct (restore_if_room d n1) as [r2 n2] eqn:E2.
      pose proof (restore_if_room_steps _ _ _ _ (nsteps_valid _ _ H1) E2) as H2.
      pose proof (nsteps_trans _ _ _ H1 H2). pose proof (clean_step d _ _ (nsteps_sound _ _ H2) Hr1).
      destruct r2; intros [= <- <- <-]; split_and!; try done; unfold trouble; simpl; lia.
    + intros [= <- <- <-]. split_and!; try done; unfold trouble; simpl; lia.
    + intros [= <- <- <-]. split_and!; try done; unfold trouble; simpl; lia.
    + intros [= <- <- <-]. split_and!; try done; unfold trouble; simpl; lia.
  - destruct (reclaim_if_still_corrupt d rep n) as [[r1 rep1] n1] eqn:E1.
    destruct (reclaim_if_still_corrupt_spec _ _ _ _ _ _ Hv E1) as (H1 & Hs1 & Ht1 & Hc).
    unfold trouble in *. destruct r1; intros [= <- <- <-]; (split; [done|]); simpl;
      split_and!; try lia; intros; first [by apply Hc|lia].
Qed.

Lemma scrub_one_spec blob rep n rep' n' :
  cas_valid (nloc n) -> scrub_one blob rep n = (rep', n') ->
  nsteps n n' /\ (scanned rep <= scanned rep' <= S (scanned rep))%nat /\ (trouble rep <= trouble rep')%nat /\
  (scanned rep' = S (scanned rep) -> trouble rep' = trouble rep -> clean (lb_digest blob) (nloc n')).
Proof.
  intros Hv. unfold scrub_one. destruct (on_store (verify_local (lb_digest blob)) n) as [r1 n1] eqn:E1.
  destruct (verify_local_steps _ _ _ _ Hv E1) as (H1 & _ & Hr1). pose proof (nsteps_valid _ _ H1) as Hv1.
  destruct r1 as [[]|e].
  - intros E2. destruct (repair_spec _ _ _ _ _ Hv1 E2) as (H2 & Hs2 & Ht2).
    split; [by eapply nsteps_trans|]. unfold trouble in *. simpl in Hs2, Ht2. split_and!; [lia..|].
    intros _ _. by eapply clean_step; [apply nsteps_sound|].
  - destruct (take_out_corrupt _ _ n1) as [[b rep2] n2] eqn:E2.
    destruct (take_out_corrupt_spec _ _ _ _ _ _ Hv1 Hr1 E2) as (H2 & Hs2 & Ht2 & Hc2).
    pose proof (nsteps_trans _ _ _ H1 H2) as H12. unfold trouble in *. simpl in Hs2, Ht2, Hc2.
    destruct b; [|intros [= <- <-]; split_and!; [done|lia..|intros _ Ht; apply Hc2; lia]].
    intros E3. destruct (repair_spec _ _ _ _ _ (nsteps_valid _ _ H2) E3) as (H3 & Hs3 & Ht3).
    split; [by eapply nsteps_trans|]. unfold trouble in *. split_and!; [lia..|].
    intros _ Ht. eapply clean_step; [by apply nsteps_sound|]. apply Hc2. lia.
  - intros [= <- <-]. split_and!; try done; lia.
Qed.

Lemma scan_loop_spec blobs rep spent visited n rep' v' n' :
  cas_valid (nloc n) -> scan_loop blobs rep spent visited n = (rep', v', n') ->
  nsteps n n' /\ (scanned rep <= scanned rep' <= scanned rep + length blobs)%nat /\
  (trouble rep <= trouble rep')%nat /\
  (scanned rep' = scanned rep + length blobs -> trouble rep' = trouble rep ->
    Forall (fun b => clean (lb_digest b) (nloc n')) blobs)%nat.
Proof.
  revert rep spent visited n. induction blobs as [|b blobs IH]; intros rep spent visited n Hv; cbn [scan_loop].
  { intros [= <- <- <-]. split_and!; [by apply nsteps_refl|simpl; lia..|constructor]. }
  case_match.
  { intros [= <- <- <-]. split_and!; [by apply nsteps_refl|simpl; lia..|simpl; lia]. }
  destruct (scrub_one b rep n) as [rep1 n1] eqn:E1. destruct (scrub_one_spec _ _ _ _ _ Hv E1) as (H1 & Hs1 & Ht1 & Hc1).
  intros E2. destruct (IH _ _ _ _ (nsteps_valid _ _ H1) E2) as (H2 & Hs2 & Ht2 & Hc2). simpl.
  split; [by eapply nsteps_trans|]. split_and!; [lia..|]. intros Hs' Ht'. constructor.
  - eapply clean_step; [by apply nsteps_sound|]. apply Hc1; lia.
  - apply Hc2; lia.
Qed.

Lemma pending_of_steps qs seen n r n' : cas_valid (nloc n) -> pending_of qs seen n = (r, n') -> nsteps n n'.
Proof.
  revert seen n r n'. induction qs as [|q qs IH]; intros seen n r n' Hv; cbn [pending_of].
  { intros [= _ <-]. by apply nsteps_refl. }
  case_bool_decide; [by apply IH|]. unfold mbind, M_bind.
  destruct (peered_has (q_digest q) n) as [[b|e] n1] eqn:E1; pose proof (peered_has_steps _ _ _ _ Hv E1) as H1;
    [|by intros [= _ <-]].
  destruct (pending_of qs _ n1) as [r2 n2] eqn:E2. pose proof (IH _ _ _ _ (nsteps_valid _ _ H1) E2) as H2.
  intros E. assert (n' = n2) as -> by (by destruct r2; injection E). by eapply nsteps_trans.
Qed.

Lemma list_quarantined_steps n r n' : cas_valid (nloc n) -> on_store Store.list_quarantined n = (r, n') -> nsteps n n'.
Proof. apply on_local_steps. by apply iter_quarantine_sound. Qed.

Lemma pending_digests_steps n r n' : cas_valid (nloc n) -> pending_digests n = (r, n') -> nsteps n n'.
Proof.
  intros Hv. unfold pending_digests, mbind, M_bind. destruct (on_store list_quarantined n) as [[qs|e] n1] eqn:E1;
    pose proof (list_quarantined_steps _ _ _ Hv E1) as H1; [|by intros [= _ <-]].
  intros E2. eapply nsteps_trans; [done|]. by eapply pending_of_steps; [eapply nsteps_valid|].
Qed.

Lemma retry_loop_steps ds rep spent tried n rep' s' t' n' :
  cas_valid (nloc n) -> retry_loop ds rep spent tried n = (rep', s', t', n') -> nsteps n n'.
Proof.
  revert rep spent tried n. induction ds as [|d ds IH]; intros rep spent tried n Hv; cbn [retry_loop].
  { intros [= <- <- <- <-]. by apply nsteps_refl. }
  case_bool_decide; [intros [= <- <- <- <-]; by apply nsteps_refl|].
  destruct (room_for d n) as [rm n1] eqn:E1. pose proof (room_for_steps _ _ _ _ Hv E1) as H1.
  pose proof (nsteps_valid _ _ H1) as Hv1.
  destruct rm as [| |z]; [intros E; eapply nsteps_trans; [done|by eapply IH]..|].
  destruct (restore d n1) as [r2 n2] eqn:E2. pose proof (restore_steps _ _ _ _ Hv1 E2) as H2.
  intros E. eapply nsteps_trans; [exact H1|]. eapply nsteps_trans; [exact H2|]. by eapply IH; [eapply nsteps_valid|].
Qed.

Lemma retry_pending_steps rep spent n r n' :
  cas_valid (nloc n) -> retry_pending rep spent n = (r, n') -> nsteps n n'.
Proof.
  intros Hv. unfold retry_pending. destruct (negb _); [intros [= _ <-]; by apply nsteps_refl|].
  destruct (pending_digests n) as [[ds|e] n1] eqn:E1; pose proof (pending_digests_steps _ _ _ Hv E1) as H1;
    [|by intros [= _ <-]].
  destruct (retry_loop _ rep spent 0 n1) as [[[rep2 s2] t2] n2] eqn:E2. intros [= _ <-].
  eapply nsteps_trans; [exact H1|]. exact (retry_loop_steps _ _ _ _ _ _ _ _ _ (nsteps_valid _ _ H1) E2).
Qed.

Lemma count_quarantine_spec rep n r n' :
  cas_valid (nloc n) -> count_quarantine rep n = (r, n') ->
  nsteps n n' /\ forall rep', r = Ok rep' -> scanned rep' = scanned rep /\ trouble rep' = trouble rep.
Proof.
  intros Hv. unfold count_quarantine. destruct (is_write_only n).
  2:{ intros [= <- <-]. split; [by apply nsteps_refl|]. by intros ? [= <-]. }
  unfold mbind, M_bind. destruct (on_store list_quarantined n) as [[qs|e] n1] eqn:E1;
    pose proof (list_quarantined_steps _ _ _ Hv E1) as H1; [|by intros [= <- <-]].
  destruct (pending_digests n1) as [[ds|e] n2] eqn:E2;
    pose proof (nsteps_trans _ _ _ H1 (pending_digests_steps _ _ _ (nsteps_valid _ _ H1) E2)) as H2;
    intros [= <- <-]; [|done].
  split; [done|]. by intros ? [= <-].
Qed.

Lemma scan_spec rep spent n r n' :
  cas_valid (nloc n) -> scan rep spent n = (r, n') ->
  nsteps n n' /\
  (scrub_cursor n = None -> forall blobs m rep', on_store local_blobs n = (Ok blobs, m) ->
    r = Ok rep' -> scanned rep' = (scanned rep + length blobs)%nat -> trouble rep' = trouble rep ->
    forall d, clean d (nloc n')).
Proof.
  intros Hv. unfold scan. destruct (on_store local_blobs n) as [[blobs|e] n1] eqn:E1;
    (assert (H1 : nsteps n n1) by (eapply (on_local_steps iter_local); [by apply iter_local_sound|done|exact E1]));
    [|intros [= <- <-]; by split].
  pose proof (nsteps_valid _ _ H1) as Hv1.
  set (sorted := sort_on (to_string ∘ lb_digest) blobs). set (start := resume _ _).
  destruct (scan_loop (skipn start sorted) rep spent 0 n1) as [[rep2 v2] n2] eqn:E2.
  destruct (scan_loop_spec _ _ _ _ _ _ _ _ Hv1 E2) as (H2 & Hs2 & Ht2 & Hc2). intros E3.
  match type of E3 with count_quarantine _ ?m = _ => assert (Hm : nsteps n1 m) by (case_match; exact H2) end.
  destruct (count_quarantine_spec _ _ _ _ (nsteps_valid _ _ Hm) E3) as [H3 Hr3].
  assert (H13 : nsteps n1 n') by (by eapply nsteps_trans). split; [by eapply nsteps_trans|].
  intros Hcur ? ? rep' [= <- <-] -> Hsc Htr d. destruct (Hr3 _ eq_refl) as [Hs3 Ht3].
  assert (Hcur1 : scrub_cursor n1 = None).
  { unfold on_store in E1. destruct (local_blobs _) as [? ?]. injection E1 as _ <-. exact Hcur. }
  assert (Hstart : start = 0%nat) by (unfold start; by rewrite Hcur1). rewrite Hstart, drop_0 in Hc2.
  assert (Hlen : length sorted = length blobs) by (apply Permutation_length, sort_on_perm).
  destruct (held (nloc n1) !! d) as [data|] eqn:Ed.
  2:{ eapply clean_step; [apply nsteps_sound, H13|]. intros ?. by rewrite Ed. }
  assert (Hall : Forall (fun b => clean (lb_digest b) (nloc n2)) sorted) by (apply Hc2; lia).
  assert (Hin : mkLocalBlob d (zlen data) ∈ sorted).
  { unfold sorted. rewrite sort_on_perm. destruct (law_iter_local _ Hv) as [Hspec _]. unfold iter_local_spec in Hspec.
    unfold on_store, local_blobs, on_inner in E1. cbn [iter_local swarm_reclaimable] in E1. unfold local in E1.
    unfold nloc, nstore, loc in Hspec. destruct (iter_local (sw_inner _)) as [r1 c1]. injection E1 as -> <-.
    destruct Hspec as [[Hh _] Hperm]. rewrite Hperm. apply list_elem_of_fmap. exists (d, data). split; [done|].
    apply elem_of_map_to_list. unfold nloc, nstore, loc in Ed. cbn in Ed. by rewrite Hh in Ed. }
  pose proof (proj1 (Forall_forall _ _) Hall _ Hin) as Hc. simpl in Hc.
  assert (Hm2 : nloc (if bool_decide (0 < v2)%nat || bool_decide (length sorted <= start)%nat
    then set_scrub_cursor (leave_cursor start (start + v2) (to_string ∘ lb_digest <$> sorted)) n2 else n2) = nloc n2)
    by (by case_match).
  eapply clean_step; [apply nsteps_sound, H3|]. by rewrite Hm2.
Qed.

Lemma scrub_pass_steps n r n' : cas_valid (nloc n) -> scrub_pass n = (r, n') -> nsteps n n'.
Proof.
  intros Hv. unfold scrub_pass. case_bool_decide; [intros [= _ <-]; by apply nsteps_refl|].
  destruct (retry_pending report_default 0 n) as [[[rep spent]|e] n1] eqn:E1;
    pose proof (retry_pending_steps _ _ _ _ _ Hv E1) as H1; [|by intros [= _ <-]].
  intros E2. eapply nsteps_trans; [exact H1|]. by apply (scan_spec rep spent n1 r); [eapply nsteps_valid|].
Qed.

(** C10. A scrub pass takes out only what is corrupt, whatever the peers answer: every
    healthy blob a node holds is still held with the same bytes, everything it holds that it
    did not hold before verifies against its digest, nothing leaves the quarantine, and the
    pins are untouched, also when the pass ends in an error. *)
Theorem scrub_takes_only_the_corrupt n r n' :
  cas_valid (nloc n) -> scrub_pass n = (r, n') ->
  (forall d data, held (nloc n) !! d = Some data -> verify d data = true -> held (nloc n') !! d = Some data) /\
  (forall d data, held (nloc n') !! d = Some data -> held (nloc n) !! d = Some data \/ verify d data = true) /\
  quarantined_at (nloc n) ⊆ quarantined_at (nloc n') /\
  registry (pn_node n') = registry (pn_node n).
Proof.
  intros Hv E. pose proof (scrub_pass_steps _ _ _ Hv E) as H. destruct (nsteps_sound _ _ H) as [_ Hk Hn Hq].
  split_and!; [exact Hk|exact Hn|exact Hq|apply H].
Qed.

(** A scan that starts without a cursor and whose report says it verified every blob of
    the listing, deferred none and failed to settle none leaves no corrupt blob: each one
    the node still holds verifies, whatever was damaged before the scan and whatever the
    peers sent as replacements. *)
Theorem whole_scan_leaves_nothing_corrupt rep spent n blobs m rep' n' :
  cas_valid (nloc n) -> scrub_cursor n = None -> on_store local_blobs n = (Ok blobs, m) ->
  scan rep spent n = (Ok rep', n') ->
  scanned rep' = (scanned rep + length blobs)%nat ->
  (unrestored rep' + deferred rep' = unrestored rep + deferred rep)%nat ->
  forall d data, held (nloc n') !! d = Some data -> verify d data = true.
Proof.
  intros Hv Hcur El E Hs' Ht d. destruct (scan_spec _ _ _ _ _ Hv E) as [_ H].
  exact (H Hcur blobs m rep' El eq_refl Hs' Ht d).
Qed.
End scrub.

(** ** A node and its durable peer *)

Module NodeExample.
Import Checksum.

Definition me : PeerId := mkPeerId (bs "me").
Definition blob : list byte := bs "kept on two nodes".
Definition d : Digest := compute blob.
Definition url : text := bs "http://peer".
Definition listed : list Peer := [mkPeer (bs "http://peer/") true; mkPeer (bs "http://other") false].

Definition opened {C} `{CasBackend C, ReclaimableCas C} (c : C) : CasStore C Swarm.MemRouter :=
  match new c (write_only 1000) (Swarm.new me) (clock_at 0) me with
  | Ok s => s
  | Err _ => mkStore c (write_only 1000) (Swarm.new me) (clock_at 0) me state_default 0 0
  end.

(** A fleet of one write-only node, and a node that mirrors to it. *)
Definition fleet : Fleet Mem.MemCas Swarm.MemRouter :=
  {[url := mkNode (opened Mem.new) registry_new None false]}.

Definition alone : PeeredNode (X := SwarmCas (Fleet Mem.MemCas Swarm.MemRouter) Mem.MemCas) (T := Swarm.MemRouter) :=
  mkPeered (mkNode (opened (swarm_new Mem.new fleet listed)) registry_new None false) (Some 1%positive) 4096 None None.

Definition written := (peered_put_keyed d (cursor blob) alone).2.

Lemma fleet_valid : fleet_ok fleet.
Proof. intros u x Hx. unfold fleet in Hx. apply lookup_singleton_Some in Hx as [_ <-]. intros e b Hb. vm_compute in Hb. discriminate Hb. Qed.

Lemma alone_valid : cas_valid (nloc alone).
Proof. intros e b Hb. vm_compute in Hb. discriminate Hb. Qed.

Lemma write_runs : peered_put_keyed d (cursor blob) alone = (Ok (), written).
Proof. unfold written. apply pair_of_fst. vm_compute. reflexivity. Qed.

Lemma written_valid : cas_valid (nloc written).
Proof.
  apply (bool_decide_unpack (map_Forall (fun e b => verify e b = true) (Mem.blobs (nloc written)))).
  vm_compute. exact I.
Qed.

Lemma acknowledged_write_is_replicated_witness :
  peered_put_keyed d (cursor blob) alone = (Ok (), written) /\ is_Some (held (nloc written) !! d).
Proof.
  split; [exact write_runs|].
  apply (acknowledged_write_is_replicated d (cursor blob) 1 listed alone (Ok ()) written);
    [exact alone_valid|exact fleet_valid|apply (bool_decide_unpack _); vm_compute; exact I|reflexivity|reflexivity|
     exact write_runs|reflexivity].
Defined.

Lemma scrub_takes_only_the_corrupt_witness :
  held (nloc (scrub_pass written).2) !! d = Some blob.
Proof.
  apply (scrub_takes_only_the_corrupt written (scrub_pass written).1 (scrub_pass written).2);
    [exact written_valid|apply surjective_pairing|vm_compute; reflexivity|vm_compute; reflexivity].
Defined.

Definition report : ScrubReport := mkReport 1 0 0 0 0 0 0 0 0 0 0.

Lemma scan_runs : scan report_default 0 written = (Ok report, (scan report_default 0 written).2).
Proof. apply pair_of_fst. vm_compute. reflexivity. Qed.

Lemma scan_holds : held (nloc (scan report_default 0 written).2) !! d = Some blob.
Proof. vm_compute. reflexivity. Qed.

Lemma written_lists : on_store local_blobs written = (Ok [mkLocalBlob d (zlen blob)], (on_store local_blobs written).2).
Proof. apply pair_of_fst. vm_compute. reflexivity. Qed.

Lemma whole_scan_leaves_nothing_corrupt_witness : verify d blob = true.
Proof.
  apply (whole_scan_leaves_nothing_corrupt report_default 0 written [mkLocalBlob d (zlen blob)]
    (on_store local_blobs written).2 report (scan report_default 0 written).2);
    [exact written_valid|vm_compute; reflexivity|exact written_lists|exact scan_runs|reflexivity|reflexivity|exact scan_holds].
Defined.
End NodeExample.
