(* ===== verification/NodePins.v ===== *)
(** What a node's life does to its pins: the operations of Pins.v and Node.v one after the
    other, with the whole maintenance pass (the eviction and the scrub of
    crates/nessie-store/src/cas_node/scrub.rs), crashes and restarts.

    The node is one without peers: its store is over its own blobs, and no mirror waits for
    copies. *)

From Stdlib Require Import ZArith Lia.
From stdpp Require Import base option gmap sets list.
From S2P Require Import Prelude Ordered Sort Text Digest Errors Cursor Canonical Cas Store Reach Evict StoreInv Pins Peers Node.

Local Open Scope Z_scope.

Create HintDb quiet.

Section life.
Context {C T : Type} {Hs : Hashers} {Hl : HasherLaws Hs} {B : CasBackend C}
  {R : ReclaimableCas C} {Rt : ContentRouter T} {Mi : Mirrors C} {V : CasModel C} {L : CasLaws C}.
Abbreviation Node := (PeeredNode (X := C) (T := T)).
Implicit Types (n : Node) (rep : ScrubReport).

(** [CasNode::put_and_pin] *)
Definition put_and_pin fault sync (d : Digest) (src : source) : M BackendError Node () := fun n =>
  match peered_put_keyed d src n with
  | (Ok (), n) => let '(r, x) := apply_pins fault sync (PinInsert d) (pn_node n) in (r, set_node x n)
  | (Err e, n) => (Err e, n)
  end.

(** ** The invariant, and what leaves it alone *)

Definition nst n : CasStore C T := store (pn_node n).
Definition nblobs n : C := inner (nst n).

Definition life_ok n : Prop := node_ok (pn_node n) /\ pn_mirror n = None.

(** A step that changes no pin: the policy, the pins, the ref and the configuration are the
    same, the books still balance, and every healthy blob is still held. *)
Record quiet n n' : Prop := {
  q_books : books (nst n');
  q_policy : policy (nst n') = policy (nst n);
  q_adds : only_adds (nblobs n) (nblobs n');
  q_registry : registry (pn_node n') = registry (pn_node n);
  q_refs : refs (pn_node n') = refs (pn_node n);
  q_mirror : pn_mirror n' = pn_mirror n;
}.

Lemma quiet_self n : books (nst n) -> quiet n n.
Proof. intros Hb. split; [done..|by intros ? ?|done|done|done]. Qed.

Lemma quiet_then n1 n2 n3 : quiet n1 n2 -> quiet n2 n3 -> quiet n1 n3.
Proof.
  intros [? ? Ha1 ? ? ?] [? ? Ha2 ? ? ?]. split; [done|congruence| |congruence..].
  by eapply only_adds_trans.
Qed.

(** What the store must be for its operations to be quiet. *)
Definition ready n : Prop := policy_ok (policy (nst n)) /\ books (nst n) /\ pn_mirror n = None.

Lemma quiet_ready n n' : ready n -> quiet n n' -> ready n'.
Proof. intros (Hp & _ & Hm) [? Hpol]. unfold ready. rewrite Hpol. split_and!; [done..|congruence]. Qed.

Lemma life_ready n : life_ok n -> ready n.
Proof. by intros [(Hp & Hb & _) Hm]. Qed.

Lemma node_ok_same (x y : CasNode (C := C) (T := T)) :
  node_ok x -> policy_ok (policy (store y)) -> books (store y) -> registry y = registry x ->
  refs y = refs x -> only_adds (inner (store x)) (inner (store y)) -> node_ok y.
Proof.
  intros (_ & _ & Hst & Hname) Hp Hb Hr Hf Ha. unfold node_ok, roots_name in *. rewrite Hr, Hf.
  split; [done|split; [done|split; [done|]]]. destruct (refs x) as [dir|]; [|done].
  destruct (roots_file dir); [|done]. destruct Hname as (H1 & H2 & H3). split_and!; [done..|].
  apply Ha; [done|apply verify_compute].
Qed.

Lemma quiet_life n n' : life_ok n -> quiet n n' -> life_ok n'.
Proof.
  intros Hok Hq. pose proof (quiet_ready _ _ (life_ready _ Hok) Hq) as (Hp & Hb & Hm). destruct Hq, Hok.
  split; [|done]. by eapply node_ok_same.
Qed.

(** ** The scrub is quiet *)

(** An operation on the node that is quiet whatever it returns. *)
Definition quietly {A} (op : M BackendError Node A) : Prop :=
  forall n r n', ready n -> op n = (r, n') -> quiet n n'.

Lemma quietly_ret {A} (a : A) : quietly (mret a).
Proof. intros n r n' (_ & Hb & _) [= _ <-]. by apply quiet_self. Qed.

Lemma quietly_lift {A} (r : result BackendError A) : quietly (lift r).
Proof. intros n r' n' (_ & Hb & _) [= _ <-]. by apply quiet_self. Qed.

Lemma quietly_bind {A A'} (op : M BackendError Node A) (k : A -> M BackendError Node A') :
  quietly op -> (forall a, quietly (k a)) -> quietly (op ≫= k).
Proof.
  intros Hop Hk n r n' Hn E. unfold mbind, M_bind in E. destruct (op n) as [[a|e] n1] eqn:E1.
  - pose proof (Hop _ _ _ Hn E1) as H1. eapply quiet_then; [exact H1|].
    eapply Hk; [by eapply quiet_ready|exact E].
  - injection E as _ <-. by eapply Hop.
Qed.

Lemma quietly_store {A} (op : M BackendError (CasStore C T) A) :
  (forall s r s', policy_ok (policy s) -> books s -> op s = (r, s') ->
    keeps s s' /\ only_adds (inner s) (inner s')) -> quietly (on_store op).
Proof.
  intros Hop n r n' (Hp & Hb & Hm) E. unfold on_store in E.
  destruct (op (store (pn_node n))) as [r1 st] eqn:E1. injection E as _ <-.
  destruct (Hop _ _ _ Hp Hb E1) as [(Hpol & Hb' & _) Ha]. by split.
Qed.

Lemma quietly_inner {A} (op : M BackendError C A) :
  (forall c, cas_valid c -> same_content c (op c).2 /\ cas_valid (op c).2) ->
  quietly (on_store (on_inner op)).
Proof.
  intros Hop. apply quietly_store. intros s r s' _ Hb E. split; [by eapply on_inner_keeps|].
  unfold on_inner in E. destruct (Hop (inner s) (proj1 Hb)) as [Hsame _].
  destruct (op (inner s)) as [r1 c]. injection E as _ <-. by apply same_content_adds.
Qed.

(** Each operation of the store that the scrub calls. *)
Ltac by_law H :=
  apply quietly_inner; intros c Hc; destruct (H c Hc) as [Hspec Hv]; split; [|exact Hv];
  revert Hspec.

Lemma quietly_has d : quietly (peered_has d).
Proof. by_law (law_has d). unfold has_spec. by destruct (cas_has d c) as [? ?], 1. Qed.

Lemma quietly_get d : quietly (peered_get d).
Proof.
  apply quietly_store. intros s r s' _ Hb E. split; [by eapply get_keeps|].
  unfold get, on_inner in E. destruct (law_get d (inner s) (proj1 Hb)) as [Hspec _]. unfold get_spec in Hspec.
  destruct (cas_get d (inner s)) as [[x|e] c]; destruct Hspec as [Hsc _]; injection E as _ <-;
    by apply same_content_adds.
Qed.

Lemma quietly_size d : quietly (peered_size d).
Proof. by_law (law_size d). unfold size_spec. by destruct (cas_size d c) as [? ?], 1. Qed.

Lemma quietly_verify d : quietly (on_store (Store.verify_local d)).
Proof. by_law (law_verify d). unfold verify_spec. by destruct (cas_verify d c) as [? ?], 1. Qed.

Lemma quietly_blobs : quietly (on_store Store.local_blobs).
Proof. by_law law_iter_local. unfold iter_local_spec. by destruct (iter_local c) as [? ?], 1. Qed.

Lemma quietly_listed : quietly (on_store Store.list_quarantined).
Proof.
  by_law law_iter_quarantine. unfold iter_quarantine_spec. by destruct (iter_quarantine c) as [? ?], 1.
Qed.

Lemma quietly_reclaim d : quietly (on_store (Store.reclaim_corrupt d)).
Proof.
  apply quietly_store. intros s r s' _ Hb E. split; [by eapply reclaim_corrupt_keeps|].
  unfold reclaim_corrupt, on_inner in E. destruct (law_reclaim_if_corrupt d (inner s) (proj1 Hb)) as [Hspec _].
  unfold reclaim_if_corrupt_spec in Hspec. destruct (reclaim_if_corrupt d (inner s)) as [[[]|e] c];
    injection E as _ <-; simpl.
  - destruct Hspec as ((Hbad & _) & _ & Hh). destruct (Hbad eq_refl) as (bad & Hd & Hver).
    intros d' data Hd' Hv'. rewrite Hh, lookup_delete_ne; [done|]. intros <-. congruence.
  - destruct Hspec as (_ & Hq & Hh). apply same_content_adds. by split.
  - by apply same_content_adds.
Qed.

Lemma quietly_put_local d src : quietly (put_keyed_local d src).
Proof.
  intros n r n' (Hp & Hb & Hm) E. unfold put_keyed_local, node_put_keyed in E.
  destruct (put_keyed d src (store (pn_node n))) as [[r1 l] st] eqn:E1.
  destruct (put_keyed_adds _ _ _ _ _ _ Hp Hb E1) as [Ha _].
  destruct (put_keyed_keeps _ _ _ _ _ _ Hp Hb E1) as [Hk _].
  destruct r1 as [[]|e]; injection E as _ <-.
  - destruct (keeps_release d _ _ Hk) as (H1 & H2 & _). by split.
  - destruct Hk as (H1 & H2 & _). by split.
Qed.

Lemma quietly_put src : quietly (peered_put src).
Proof.
  intros n r n' (Hp & Hb & Hm) E. unfold peered_put, node_put in E.
  destruct (put src (store (pn_node n))) as [[r1 l] st] eqn:E1.
  destruct (put_adds _ _ _ _ _ Hp Hb E1) as [Ha _]. destruct (put_keeps _ _ _ _ _ Hp Hb E1) as [Hk _].
  destruct r1 as [d|e].
  - unfold mbind, M_bind, mirror, set_node in E. cbn in E. rewrite Hm in E. injection E as _ <-.
    destruct (keeps_release d _ _ Hk) as (H1 & H2 & _). by split.
  - injection E as _ <-. destruct Hk as (H1 & H2 & _). by split.
Qed.

Lemma quietly_mirror d : quietly (mirror d).
Proof.
  intros n r n' (_ & Hb & Hm) E. unfold mirror in E. rewrite Hm in E. injection E as _ <-.
  by apply quiet_self.
Qed.

#[local] Hint Resolve quietly_ret quietly_lift quietly_bind quietly_has quietly_get quietly_size
  quietly_verify quietly_blobs quietly_listed quietly_reclaim quietly_put_local quietly_put
  quietly_mirror : quiet.

Lemma quietly_put_keyed d src : quietly (peered_put_keyed d src).
Proof. unfold peered_put_keyed. auto with quiet. Qed.

Lemma quietly_restore d : quietly (restore d).
Proof. unfold restore. auto 6 with quiet. Qed.

Lemma room_quiet d n rm n' : ready n -> room_for d n = (rm, n') -> quiet n n'.
Proof.
  intros Hn E. unfold room_for in E. destruct (peered_size d n) as [r n1] eqn:E1.
  injection E as _ <-. by eapply quietly_size.
Qed.

Lemma quietly_restore_if_room d : quietly (restore_if_room d).
Proof.
  intros n r n' Hn E. unfold restore_if_room in E. destruct (room_for d n) as [rm n1] eqn:E1.
  pose proof (room_quiet _ _ _ _ Hn E1) as H1. destruct rm as [| |z]; [by injection E as _ <-..|].
  eapply quiet_then; [exact H1|]. eapply quietly_restore; [by eapply quiet_ready|exact E].
Qed.

(** A quarantine straight after the verdict takes a corrupt copy. *)
Lemma verdict_quarantine_quiet d n n1 r n' :
  ready n -> on_store (Store.verify_local d) n = (Ok false, n1) ->
  on_store (Store.quarantine d) n1 = (r, n') -> quiet n1 n'.
Proof.
  intros Hn E1 E. pose proof (quiet_ready _ _ Hn (quietly_verify _ _ _ _ Hn E1)) as Hn1.
  assert (Hbad : exists bad, held (nblobs n1) !! d = Some bad /\ verify d bad = false).
  { unfold on_store, Store.verify_local, on_inner in E1.
    destruct Hn as (_ & Hb & _). destruct (law_verify d (nblobs n) (proj1 Hb)) as [Hspec _].
    unfold verify_spec, nblobs, nst in *. destruct (cas_verify d _) as [r1 c]. injection E1 as -> <-.
    destruct Hspec as ((Hh & _) & bad & Hd & Hver). exists bad. cbn. by rewrite Hh. }
  destruct Hbad as (bad & Hd & Hver). destruct Hn1 as (Hp & Hb & Hm). unfold on_store in E.
  destruct (Store.quarantine d (store (pn_node n1))) as [r1 st] eqn:E2. injection E as _ <-.
  destruct (quarantine_keeps _ _ _ _ Hb E2) as (H1 & H2 & _). split; try done.
  unfold nblobs, nst in *. unfold Store.quarantine, on_inner in E2. case_bool_decide; [injection E2 as _ <-; by intros ? ?|].
  destruct (law_quarantine d (inner (store (pn_node n1))) (proj1 Hb)) as [Hspec _].
  unfold quarantine_spec in Hspec. destruct (cas_quarantine d _) as [[[q|]|e] c]; injection E2 as _ <-; cbn.
  - destruct Hspec as (? & _ & Hh & _). intros d' data Hd' Hv'.
    rewrite Hh, lookup_delete_ne; [done|]. intros <-. congruence.
  - destruct Hspec as [Hsc _]. by apply same_content_adds.
  - by apply same_content_adds.
Qed.

Lemma reclaim_if_still_corrupt_quiet d rep n r rep' n' :
  ready n -> reclaim_if_still_corrupt d rep n = (r, rep', n') -> quiet n n'.
Proof.
  intros Hn E. unfold reclaim_if_still_corrupt in E.
  destruct (on_store (Store.verify_local d) n) as [r1 n1] eqn:E1.
  pose proof (quietly_verify _ _ _ _ Hn E1) as H1. destruct r1 as [[]|e]; [by injection E as _ _ <-| |].
  - destruct (on_store (Store.reclaim_corrupt d) n1) as [r2 n2] eqn:E2.
    pose proof (quietly_reclaim _ _ _ _ (quiet_ready _ _ Hn H1) E2) as H2.
    assert (n' = n2) as -> by (by destruct r2; injection E). by eapply quiet_then.
  - assert (n' = n1) as -> by (by destruct e; injection E). done.
Qed.

Lemma repair_quiet d rep n rep' n' : ready n -> repair d rep n = (rep', n') -> quiet n n'.
Proof.
  intros (_ & Hb & Hm) E. unfold repair in E. rewrite Hm in E. injection E as _ <-. by apply quiet_self.
Qed.

Lemma take_out_corrupt_quiet d rep n n1 b rep' n' :
  ready n -> on_store (Store.verify_local d) n = (Ok false, n1) ->
  take_out_corrupt d rep n1 = (b, rep', n') -> quiet n1 n'.
Proof.
  intros Hn Ev. pose proof (quiet_ready _ _ Hn (quietly_verify _ _ _ _ Hn Ev)) as Hn1.
  unfold take_out_corrupt, take_out. destruct (is_write_only n1).
  - destruct (on_store (Store.quarantine d) n1) as [r2 n2] eqn:E2.
    pose proof (verdict_quarantine_quiet _ _ _ _ _ Hn Ev E2) as H2.
    destruct r2 as [[q| |]|e]; [|by intros [= _ _ <-]..].
    destruct (restore_if_room d n2) as [r3 n3] eqn:E3.
    pose proof (quietly_restore_if_room _ _ _ _ (quiet_ready _ _ Hn1 H2) E3) as H3.
    intros E. assert (n' = n3) as -> by (by destruct r3; injection E). by eapply quiet_then.
  - destruct (reclaim_if_still_corrupt d rep n1) as [[r2 rep2] n2] eqn:E2.
    pose proof (reclaim_if_still_corrupt_quiet _ _ _ _ _ _ Hn1 E2) as H2.
    intros E. by assert (n' = n2) as -> by (by destruct r2; injection E).
Qed.

Lemma scrub_one_quiet blob rep n rep' n' : ready n -> scrub_one blob rep n = (rep', n') -> quiet n n'.
Proof.
  intros Hn. unfold scrub_one. destruct (on_store (Store.verify_local (lb_digest blob)) n) as [r1 n1] eqn:E1.
  pose proof (quietly_verify _ _ _ _ Hn E1) as H1. pose proof (quiet_ready _ _ Hn H1) as Hn1.
  destruct r1 as [[]|e]; [intros E; eapply quiet_then; [exact H1|by eapply repair_quiet]| |intros [= _ <-]; exact H1].
  destruct (take_out_corrupt _ _ n1) as [[b rep2] n2] eqn:E2.
  pose proof (quiet_then _ _ _ H1 (take_out_corrupt_quiet _ _ _ _ _ _ _ Hn E1 E2)) as H2.
  destruct b; [|intros [= _ <-]; exact H2]. intros E. eapply quiet_then; [exact H2|].
  exact (repair_quiet _ _ _ _ _ (quiet_ready _ _ Hn H2) E).
Qed.

Lemma scan_loop_quiet blobs rep spent visited n rep' v' n' :
  ready n -> scan_loop blobs rep spent visited n = (rep', v', n') -> quiet n n'.
Proof.
  revert rep spent visited n. induction blobs as [|b blobs IH]; intros rep spent visited n Hn; cbn [scan_loop].
  { intros [= _ _ <-]. apply quiet_self, Hn. }
  case_match; [intros [= _ _ <-]; by apply quiet_self, Hn|].
  destruct (scrub_one b rep n) as [rep1 n1] eqn:E1. pose proof (scrub_one_quiet _ _ _ _ _ Hn E1) as H1.
  intros E. eapply quiet_then; [exact H1|]. eapply IH; [by eapply quiet_ready|exact E].
Qed.

Lemma quietly_pending_of qs seen : quietly (pending_of qs seen).
Proof.
  revert seen. induction qs as [|q qs IH]; intros seen; cbn [pending_of]; [auto with quiet|].
  case_bool_decide; auto 6 with quiet.
Qed.

Lemma quietly_pending : quietly pending_digests.
Proof. unfold pending_digests. auto using quietly_pending_of with quiet. Qed.

Lemma retry_loop_quiet ds rep spent tried n rep' s' t' n' :
  ready n -> retry_loop ds rep spent tried n = (rep', s', t', n') -> quiet n n'.
Proof.
  revert rep spent tried n. induction ds as [|d ds IH]; intros rep spent tried n Hn; cbn [retry_loop].
  { intros [= _ _ _ <-]. by apply quiet_self, Hn. }
  case_bool_decide; [intros [= _ _ _ <-]; by apply quiet_self, Hn|].
  destruct (room_for d n) as [rm n1] eqn:E1. pose proof (room_quiet _ _ _ _ Hn E1) as H1.
  pose proof (quiet_ready _ _ Hn H1) as Hn1.
  destruct rm as [| |z]; [intros E; exact (quiet_then _ _ _ H1 (IH _ _ _ _ Hn1 E))..|].
  destruct (restore d n1) as [r2 n2] eqn:E2. pose proof (quietly_restore _ _ _ _ Hn1 E2) as H2.
  intros E. eapply quiet_then; [exact (quiet_then _ _ _ H1 H2)|].
  exact (IH _ _ _ _ (quiet_ready _ _ Hn1 H2) E).
Qed.

(** The cursors are in memory, and no part of what a node holds. *)
Lemma quiet_cursor n n' c : quiet n n' -> quiet n (set_scrub_cursor c n') /\ quiet n (set_pending_cursor c n').
Proof. intros [? ? ? ? ? ?]. by split; split. Qed.

Lemma retry_pending_quiet rep spent n r n' : ready n -> retry_pending rep spent n = (r, n') -> quiet n n'.
Proof.
  intros Hn. unfold retry_pending. destruct (negb _); [intros [= _ <-]; by apply quiet_self, Hn|].
  destruct (pending_digests n) as [[ds|e] n1] eqn:E1; pose proof (quietly_pending _ _ _ Hn E1) as H1;
    [|intros [= _ <-]; exact H1].
  destruct (retry_loop _ rep spent 0 n1) as [[[rep2 s2] t2] n2] eqn:E2. intros [= _ <-].
  apply quiet_cursor. eapply quiet_then; [exact H1|].
  exact (retry_loop_quiet _ _ _ _ _ _ _ _ _ (quiet_ready _ _ Hn H1) E2).
Qed.

Lemma count_quarantine_quiet rep : quietly (count_quarantine rep).
Proof.
  intros n r n' Hn. unfold count_quarantine. destruct (is_write_only n).
  - eapply (quietly_bind (on_store Store.list_quarantined)); [apply quietly_listed| |exact Hn].
    intros qs. auto using quietly_pending with quiet.
  - intros [= _ <-]. by apply quiet_self, Hn.
Qed.

Lemma scan_quiet rep spent : quietly (scan rep spent).
Proof.
  intros n r n' Hn. unfold scan. destruct (on_store Store.local_blobs n) as [[blobs|e] n1] eqn:E1;
    pose proof (quietly_blobs _ _ _ Hn E1) as H1; [|intros [= _ <-]; exact H1].
  destruct (scan_loop _ rep spent 0 n1) as [[rep2 v2] n2] eqn:E2.
  pose proof (quiet_then _ _ _ H1 (scan_loop_quiet _ _ _ _ _ _ _ _ (quiet_ready _ _ Hn H1) E2)) as H2.
  match goal with |- context [count_quarantine rep2 ?m] => assert (Hm : quiet n m) end.
  { case_match; [by apply quiet_cursor|done]. }
  intros E. eapply quiet_then; [exact Hm|]. exact (count_quarantine_quiet _ _ _ _ (quiet_ready _ _ Hn Hm) E).
Qed.

Lemma quietly_scrub : quietly scrub_pass.
Proof.
  intros n r n' Hn. unfold scrub_pass. case_bool_decide; [intros [= _ <-]; by apply quiet_self, Hn|].
  destruct (retry_pending report_default 0 n) as [[[rep spent]|e] n1] eqn:E1;
    pose proof (retry_pending_quiet _ _ _ _ _ Hn E1) as H1; [|intros [= _ <-]; exact H1].
  intros E. eapply quiet_then; [exact H1|]. exact (scan_quiet _ _ _ _ _ (quiet_ready _ _ Hn H1) E).
Qed.

(** ** Everything a node does *)

(** The eviction, then the scrub: whatever it drops or moves, the pinned blobs that are
    healthy stay. *)
Lemma maintain_once_life orc n r n' :
  life_ok n -> maintain_once orc n = (r, n') ->
  life_ok n' /\ registry (pn_node n') = registry (pn_node n) /\
  refs (pn_node n') = refs (pn_node n) /\
  forall d data, protected (pn_node n) d -> held (nblobs n) !! d = Some data -> verify d data = true ->
    held (nblobs n') !! d = Some data.
Proof.
  intros Hok E. unfold maintain_once in E.
  assert (Hscrub : forall m rs m', life_ok m -> scrub_pass m = (rs, m') -> life_ok m' /\ quiet m m').
  { intros m rs m' Hm Em. pose proof (quietly_scrub _ _ _ (life_ready _ Hm) Em) as Hq.
    split; [by eapply quiet_life|done]. }
  destruct (mode (policy (store (pn_node n)))) as [p|p].
  - unfold on_store in E. destruct (evict_to_budget _ orc (store (pn_node n))) as [r1 st] eqn:E1.
    destruct (evict_pass_step _ _ _ _ (proj1 Hok) E1) as (Hok1 & _ & _ & Hkeep).
    set (n1 := set_node (set_store st (pn_node n)) n) in *.
    assert (Hn1 : life_ok n1) by (split; [done|apply Hok]).
    destruct r1 as [[rep pushes]|e]; [|injection E as _ <-; split_and!; try done; by intros; apply Hkeep].
    unfold mbind, M_bind in E. destruct (scrub_pass n1) as [r2 n2] eqn:E2.
    destruct (Hscrub _ _ _ Hn1 E2) as [H2 Hq]. assert (n' = n2) as -> by (by destruct r2; injection E).
    split; [done|]. destruct Hq as [_ _ Ha -> -> _]. split; [done|split; [done|]].
    intros d data Hpr Hd Hv. apply Ha; [|done]. by apply Hkeep.
  - unfold mbind, M_bind in E. destruct (scrub_pass n) as [r2 n2] eqn:E2.
    destruct (Hscrub _ _ _ Hok E2) as [H2 Hq]. assert (n' = n2) as -> by (by destruct r2; injection E).
    split; [done|]. destruct Hq as [_ _ Ha -> -> _]. split; [done|split; [done|]].
    intros d data _ Hd Hv. by apply Ha.
Qed.

(** One step of a node: a read; a write, its own or a peer's; a change of the pins with any
    publishing fault or sync outcome; a pinning upload; a maintenance pass, whatever the
    durable peers are said to hold; or a crash and a restart on what the disk holds, under a
    policy and a scrub budget that may differ. *)
Inductive node_step n : Node -> Prop :=
| step_read d n' : n' = (peered_get d n).2 \/ n' = (peered_has d n).2 \/ n' = (peered_size d n).2 -> node_step n n'
| step_put src r n' : peered_put src n = (r, n') -> node_step n n'
| step_put_keyed d src r n' : peered_put_keyed d src n = (r, n') -> node_step n n'
| step_put_local d src r n' : put_keyed_local d src n = (r, n') -> node_step n n'
| step_pin fault sync ch r x :
    can_apply ch (pn_node n) -> apply_pins fault sync ch (pn_node n) = (r, x) -> node_step n (set_node x n)
| step_put_and_pin fault sync d src r n' :
    (forall n1, peered_put_keyed d src n = (Ok (), n1) -> can_apply (PinInsert d) (pn_node n1)) ->
    put_and_pin fault sync d src n = (r, n') -> node_step n n'
| step_maintain orc r n' : maintain_once orc n = (r, n') -> node_step n n'
| step_restart dir pol (rt : T) clk m st io x budget :
    policy_ok pol -> refs (pn_node n) = Some dir -> new (nblobs n) pol rt clk m = Ok st ->
    open_node io st (Some dir) = Ok x -> node_step n (mkPeered x None budget None None).

(** What a step leaves: the invariant, a ref directory where there was one, and every
    healthy blob that is protected. *)
Definition carried n n' : Prop :=
  life_ok n' /\ (is_Some (refs (pn_node n)) -> is_Some (refs (pn_node n'))) /\
  forall d data, protected (pn_node n) d -> held (nblobs n) !! d = Some data ->
    verify d data = true -> held (nblobs n') !! d = Some data.

Lemma carried_quiet n n' : life_ok n -> quiet n n' -> carried n n'.
Proof.
  intros Hok Hq. split; [by eapply quiet_life|]. destruct Hq as [_ _ Ha _ -> _]. split; [done|].
  intros d data _. apply Ha.
Qed.

Lemma carried_pin fault sync ch n r x :
  life_ok n -> can_apply ch (pn_node n) -> apply_pins fault sync ch (pn_node n) = (r, x) ->
  carried n (set_node x n) /\ only_adds (nblobs n) (nblobs (set_node x n)).
Proof.
  intros [Hok Hm] Hcan E. destruct (apply_pins_step _ _ _ _ _ _ Hok Hcan E) as (H1 & H2 & Ha & _).
  split; [|exact Ha]. split; [by split|split; [apply H2|]]. intros d data _. apply Ha.
Qed.

Lemma carried_put_and_pin fault sync d src n r n' :
  life_ok n -> (forall n1, peered_put_keyed d src n = (Ok (), n1) -> can_apply (PinInsert d) (pn_node n1)) ->
  put_and_pin fault sync d src n = (r, n') -> carried n n'.
Proof.
  intros Hok Hcan E. unfold put_and_pin in E.
  destruct (peered_put_keyed d src n) as [[[]|e] n1] eqn:Ep;
    pose proof (quietly_put_keyed _ _ _ _ _ (life_ready _ Hok) Ep) as Hq;
    [|injection E as _ <-; by apply carried_quiet].
  destruct (apply_pins fault sync (PinInsert d) (pn_node n1)) as [r1 x] eqn:Ea. injection E as _ <-.
  pose proof (quiet_life _ _ Hok Hq) as Hok1.
  destruct (carried_pin _ _ _ _ _ _ Hok1 (Hcan _ eq_refl) Ea) as [(H1 & H2 & _) Ha].
  destruct Hq as [_ _ Ha1 _ Hr _]. split; [done|]. split; [by rewrite <- Hr|].
  intros d' data _ Hd Hv. apply Ha; [|done]. by apply Ha1.
Qed.

Lemma node_step_carried n n' : life_ok n -> node_step n n' -> carried n n'.
Proof.
  intros Hok Hstep. pose proof (life_ready _ Hok) as Hn.
  inversion Hstep as [d ? E|src r ? E|d src r ? E|d src r ? E|fault sync ch r x Hcan E
    |fault sync d src r ? Hcan E|orc r ? E|dir pol rt clk m st io x budget Hpol Er Enew E]; subst.
  - apply carried_quiet; [done|].
    destruct E as [->|[->| ->]]; [eapply quietly_get|eapply quietly_has|eapply quietly_size];
      first [exact Hn|apply surjective_pairing].
  - apply carried_quiet; [done|]. by eapply quietly_put.
  - apply carried_quiet; [done|]. by eapply quietly_put_keyed.
  - apply carried_quiet; [done|]. by eapply quietly_put_local.
  - by eapply carried_pin.
  - by eapply carried_put_and_pin.
  - destruct (maintain_once_life _ _ _ _ Hok E) as (H1 & _ & H3 & H4). split; [done|]. by rewrite H3.
  - destruct (restart_step _ _ _ _ _ _ _ _ _ (proj1 Hok) Hpol Er Enew E) as (H1 & _ & _ & Ha).
    split; [by split|]. split; [|intros d data _; apply Ha].
    intros _. simpl in E. destruct (load get io dir st) as [[[P t]|e] st'] eqn:El; [|done].
    injection E as <-. by eexists.
Qed.

Lemma node_steps_ok n n' :
  life_ok n -> rtc node_step n n' ->
  life_ok n' /\ (is_Some (refs (pn_node n)) -> is_Some (refs (pn_node n'))).
Proof.
  intros Hok Hst. revert Hok. induction Hst as [n|n1 n2 n3 H12 _ IH]; [done|]. intros Hok.
  destruct (node_step_carried _ _ Hok H12) as (Hok2 & Href & _).
  destruct (IH Hok2) as [H3 H4]. split; auto.
Qed.

(** A healthy blob stays for as long as it is protected. *)
Lemma steps_keep n0 n d data :
  life_ok n0 -> held (nblobs n0) !! d = Some data -> verify d data = true ->
  rtc (fun n1 n2 => protected (pn_node n1) d /\ node_step n1 n2) n0 n ->
  held (nblobs n) !! d = Some data.
Proof.
  intros Hok Hd Hv Hst. revert Hok Hd. induction Hst as [n|n1 n2 n3 [Hp H12] _ IH]; [done|].
  intros Hok Hd. destruct (node_step_carried _ _ Hok H12) as (Hok2 & _ & Hkeep). eauto.
Qed.

(** ** Properties *)

(** C9. Pins survive restarts.  A node without peers that starts in order (as the first
    start on an empty directory leaves it) and has a ref directory runs any sequence of its
    operations, one at a time: reads, writes, changes of the pins with any fault in
    publishing them, pinning uploads, whole maintenance passes (the eviction and the scrub,
    which may drop, quarantine and reclaim blobs), crashes and restarts.  Then opening what
    the disk holds gives exactly the pins that were in force, with their tree, or fails with
    an error of reading the tree's blob that is not its absence: a node never starts with
    fewer pins than it had, and the tree its ref names is never missing.  A change of the
    pins in the sequence is one whose new tree can be stored ([can_apply]): its bytes fit a
    vector, and no other bytes, damaged or colliding, are held under its digest.  A write-only
    capacity is below [u64::MAX]. *)
Theorem pins_survive_restart n0 n (pol : RetentionPolicy) (rt : T) clk m (st : CasStore C T) :
  life_ok n0 -> is_Some (refs (pn_node n0)) -> rtc node_step n0 n ->
  new (nblobs n) pol rt clk m = Ok st ->
  match open_node (Ok ()) st (refs (pn_node n)) with
  | Ok x =>
      refs x = refs (pn_node n) /\ is_Some (refs (pn_node n)) /\
      pins (registry x) = pins (registry (pn_node n)) /\ tree (registry x) = tree (registry (pn_node n))
  | Err e => exists be, e = Backend be /\ forall d, be <> BlobNotFound d
  end.
Proof.
  intros Hok Href Hst Enew. destruct (node_steps_ok _ _ Hok Hst) as [Hokn Hrefn].
  destruct (Hrefn Href) as [dir Er]. rewrite Er. simpl.
  destruct (load get (Ok ()) dir st) as [r st'] eqn:El.
  destruct (restart_reads _ _ _ _ _ _ _ _ _ (proj1 Hokn) Er Enew El) as [->|(e & -> & He)]; simpl.
  - split_and!; by eauto.
  - by exists e.
Qed.

(** An acknowledged pinning upload stays.  Once [put_and_pin] has returned [Ok] for
    bytes of the digest, the digest is pinned and the bytes are held, and they stay held
    through any writes, changes of other pins, maintenance passes, crashes and restarts for
    as long as the digest is pinned. *)
Theorem pinned_upload_stays fault sync d src data nb n0 n :
  life_ok nb -> (forall n1, peered_put_keyed d src nb = (Ok (), n1) -> can_apply (PinInsert d) (pn_node n1)) ->
  (read_to_end src).1 = Ok data -> verify d data = true -> untroubled (nblobs nb) d data ->
  put_and_pin fault sync d src nb = (Ok (), n0) ->
  d ∈ pins (registry (pn_node n0)) /\
  (rtc (fun n1 n2 => d ∈ pins (registry (pn_node n1)) /\ node_step n1 n2) n0 n ->
    held (nblobs n) !! d = Some data).
Proof.
  intros Hok Hcan Hread Hv Hu E. unfold put_and_pin in E.
  destruct (peered_put_keyed d src nb) as [[[]|e] n1] eqn:Ep; [|done].
  pose proof (quiet_life _ _ Hok (quietly_put_keyed _ _ _ _ _ (life_ready _ Hok) Ep)) as Hok1.
  assert (Hheld : held (nblobs n1) !! d = Some data).
  { unfold peered_put_keyed, put_keyed_local, mbind, M_bind in Ep.
    destruct (node_put_keyed d src (pn_node nb)) as [[[]|e] x] eqn:Ek; [|done].
    destruct (node_put_keyed_step _ _ _ _ _ (proj1 Hok) Ek) as (_ & _ & _ & _ & _ & Hh).
    unfold mirror in Ep. cbn in Ep. rewrite (proj2 Hok) in Ep. injection Ep as <-. by apply Hh. }
  destruct (apply_pins fault sync (PinInsert d) (pn_node n1)) as [r1 x] eqn:Ea. injection E as -> <-.
  destruct (carried_pin _ _ _ _ _ _ Hok1 (Hcan _ eq_refl) Ea) as [(Hok0 & _) Ha].
  destruct (apply_pins_step _ _ _ _ _ _ (proj1 Hok1) (Hcan _ eq_refl) Ea) as (_ & _ & _ & Hout & _).
  split; [simpl; rewrite Hout; unfold changed_pins; simpl; set_solver|]. intros Hst.
  eapply steps_keep; [exact Hok0|by apply Ha|exact Hv|].
  eapply rtc_subrel; [|exact Hst]. intros y z [Hy Hyz]. by split; [left|].
Qed.
End life.

(** ** Witnesses *)

Module NodePinsExample.
Import Checksum PinsExample.

(** Without peers no write waits for copies. *)
Definition no_mirrors : Mirrors Mem.MemCas := {|
  mirror_push _ _ s := (Err (Internal (bs "no peers")), s);
  mirror_push_counting _ _ s := (Err (Internal (bs "no peers")), s);
|}.
#[local] Existing Instance no_mirrors.

(** The cache of PinsExample with a scrub of up to 4096 bytes a pass. *)
Definition started : PeeredNode (X := Mem.MemCas) (T := Swarm.MemRouter) := mkPeered fresh None 4096 None None.
Definition run := put_and_pin None (Ok ()) d (cursor blob) started.
Definition pinned_node := run.2.
Definition wrote := peered_put (cursor (bs "other")) pinned_node.
Definition pass := maintain_once no_durable_oracle wrote.2.

Example run_ok : run.1 = Ok ().
Proof. vm_compute. reflexivity. Qed.

(** The pass drops the blob that is not pinned, and scans the pinned one and its tree. *)
Example pass_report :
  match pass.1 with Ok (MEvict k z rep) => (k, z, scanned rep) | _ => (0%nat, 0, 0%nat) end = (1%nat, 5, 2%nat).
Proof. vm_compute. reflexivity. Qed.

Lemma started_ok : life_ok started.
Proof. split; [exact fresh_ok|done]. Defined.

Lemma started_can n1 :
  peered_put_keyed d (cursor blob) started = (Ok (), n1) -> can_apply (PinInsert d) (pn_node n1).
Proof.
  intros E. apply (f_equal snd) in E. cbn [snd] in E. subst n1. split; [split|].
  - apply (bool_decide_unpack _). vm_compute. exact I.
  - unfold Tree.fits. apply (bool_decide_unpack _). vm_compute. exact I.
  - intros old. vm_compute. discriminate.
Defined.

Lemma pinned_steps : rtc node_step started pass.2.
Proof.
  eapply rtc_l; [apply (step_put_and_pin started None (Ok ()) d (cursor blob) run.1 run.2 started_can);
    apply surjective_pairing|].
  eapply rtc_l; [apply (step_put _ (cursor (bs "other")) wrote.1 wrote.2); apply surjective_pairing|].
  apply rtc_once, (step_maintain _ no_durable_oracle pass.1). apply surjective_pairing.
Defined.

Theorem pins_survive_restart_witness :
  match open_node (Ok ()) (reopened (nblobs pass.2)) (refs (pn_node pass.2)) with
  | Ok x =>
      refs x = refs (pn_node pass.2) /\ is_Some (refs (pn_node pass.2)) /\
      pins (registry x) = pins (registry (pn_node pass.2)) /\ tree (registry x) = tree (registry (pn_node pass.2))
  | Err e => exists be, e = Backend be /\ forall d, be <> BlobNotFound d
  end.
Proof.
  apply (pins_survive_restart started pass.2 (lru 0 0) (Swarm.new me) (clock_at 0) me).
  - exact started_ok.
  - by eexists.
  - exact pinned_steps.
  - apply reopened_eq.
Defined.

Lemma run_eq : put_and_pin None (Ok ()) d (cursor blob) started = (Ok (), pinned_node).
Proof. rewrite <- run_ok. apply surjective_pairing. Defined.

Theorem pinned_upload_stays_witness :
  d ∈ pins (registry (pn_node pinned_node)) /\
  held (nblobs (maintain_once no_durable_oracle pinned_node).2) !! d = Some blob.
Proof.
  assert (Hin : d ∈ pins (registry (pn_node pinned_node))).
  { apply (bool_decide_unpack _). vm_compute. exact I. }
  split; [exact Hin|].
  refine (proj2 (pinned_upload_stays None (Ok ()) d (cursor blob) blob started pinned_node
    (maintain_once no_durable_oracle pinned_node).2 started_ok started_can eq_refl _ _ run_eq) _).
  - vm_compute. reflexivity.
  - intros old. vm_compute. discriminate.
  - apply rtc_once. split; [exact Hin|]. eapply step_maintain, surjective_pairing.
Defined.
End NodePinsExample.
