(* ===== verification/Faces.v ===== *)
(** The daemon's wiring of one store: [CasNode::from_config_tls]
    (crates/nessie-store/src/cas_node.rs), the node as a backend, and the cache faces over
    it (crates/nessie-store/src/faces.rs).

    Opening a disk root, the clock and the ref directory are given; which router a node gets
    is [route], of the peers, or of none for the in-process one. *)

From Stdlib Require Import ZArith Lia.
From stdpp Require Import base option gmap sets list.
From S2P Require Import Prelude Ordered Text Digest Errors Canonical Attestation Cas Store Reach StoreInv Pins ActionCache Json Ontap Peers PeersLaws CasRoutes Node NodeLaws Config S3 Reapi.

Local Open Scope Z_scope.

Abbreviation text := (list byte).

(** ** Building the node (cas_node.rs) *)

Inductive NodeError :=
| BadConfig (e : text)
| NotOpened (e : text)
| NotListed (e : BackendError)
| NoPins (e : LoadError).

Section from_config.
Context {Tx : Texts} {N C T : Type} {HN : Http N} {Hs : Hashers} {B : CasBackend C} {R : ReclaimableCas C}
  {Rt : ContentRouter T}.
Abbreviation Node := (PeeredNode (X := SwarmCas N C) (T := T)).
Abbreviation Inner := (CasNode (C := SwarmCas N C) (T := T)).
Context (mem : C) (open_disk : text -> result text C) (route : option (list Peer) -> T).

Definition open_blobs (cfg : CasConfig) : result NodeError C :=
  match cc_backend cfg with
  | CbMem => Ok mem
  | CbDisk =>
      path ← ok_or (cc_path cfg)
        (BadConfig (bs "[cas] backend = " ++ [z2b 34] ++ bs "disk" ++ [z2b 34] ++ bs " requires path"));
      map_err NotOpened (open_disk path)
  end.

Definition is_lru (p : RetentionPolicy) : bool := match mode p with Lru _ => true | WriteOnly _ => false end.

(** [node.local()] of a node with peers, else the store itself. *)
Definition local_get (alone : bool) (d : Digest) : M BackendError (CasStore (SwarmCas N C) T) source :=
  if alone then Store.get d else on_inner (local (cas_get d)).

(** [refs], present on a disk store with a path. *)
Definition refs_of (cfg : CasConfig) (dir : RefDir) : option RefDir :=
  match cc_backend cfg, cc_path cfg with CbDisk, Some _ => Some dir | _, _ => None end.

Definition from_config (net : N) (clk : MockClock) (io : result io_error ()) (dir : RefDir)
    (cfg : CasConfig) (me : PeerId) : result NodeError Node :=
  policy ← map_err BadConfig (retention_policy cfg);
  copies ← map_err BadConfig (peer_copies cfg);
  blobs ← open_blobs cfg;
  peer_list ← map_err BadConfig (effective_peers cfg);
  let alone := bool_decide (length peer_list = 0%nat) in
  let peers := node_peers peer_list in
  let swarm := with_cache_fills (is_lru policy) (swarm_new blobs net peers) in
  st ← map_err NotListed (Store.new swarm policy (route (if alone then None else Some peers)) clk me);
  let node st reg fs :=
    mkPeered (mkNode st reg fs false) (if alone then None else copies) (scrub_bytes_per_pass cfg) None None in
  match refs_of cfg dir with
  | None => Ok (node st registry_new None)
  | Some fs =>
      let '(r, st) := Pins.load (local_get alone) io fs st in
      '(pins, tree) ← map_err NoPins r;
      Ok (node st (replace pins tree registry_new) (Some fs))
  end.

(** [impl CasBackend for CasNode] *)
#[global] Instance node_backend : CasBackend Node := {|
  cas_has := peered_has;
  cas_get := peered_get;
  cas_put src n := let '(r, n') := peered_put src n in (r, (Store.put src (store (pn_node n))).1.2, n');
  cas_put_keyed d src n :=
    let '(r, n') := peered_put_keyed d src n in (r, (Store.put_keyed d src (store (pn_node n))).1.2, n');
  cas_ensure_replicated := peered_ensure_replicated;
  cas_size := peered_size;
|}.

(** ** The faces (faces.rs) *)

Definition check_s3_secret (sc : S3ServerConfig) : result text () :=
  if bool_decide (secret_key sc = secret_key s3_default)
  then Err (bs "[s3] secret_key is the default; set NESSIE_S3_SECRET_KEY (or secret_key) before enabling the S3 face")
  else Ok ().

Definition PROBE : list byte := bs "nessie cache-face put_keyed startup probe".

(** [probe_put_keyed] over a store of states [S]. *)
Definition probe_put_keyed {S : Type} (op : Digest -> source -> M BackendError S ()) : M text S () := fun s =>
  let '(r, s) := op (compute_with Sha256 PROBE) (cursor PROBE) s in
  (match r with
   | Ok () | Err (CapacityExceeded _ _ _) => Ok ()
   | Err e => Err (bs "cache backend does not support put_keyed: " ++ display e)
   end, s).

Definition k1 : positive := 1.

Definition self_signer : DevSelfSigner := dev_new (bs "nessie-reapi-self").

(** [build_cas_backend] over a node: the probe writes to the node alone. *)
Definition build_cas_backend (n : Node) : result text (MemActionCache Node * DevSelfSigner) :=
  let '(r, n) := probe_put_keyed put_keyed_local n in
  _ ← r; Ok (shared n k1, self_signer).

(** [build_cas_backend(None)]: over a private in-memory store. *)
Definition build_private_backend : result text (MemActionCache Mem.MemCas * DevSelfSigner) :=
  let '(r, b) := probe_put_keyed (fun d src s => let '(r, _, s) := cas_put_keyed d src s in (r, s))
    (shared Mem.new k1) in
  _ ← r; Ok (b, self_signer).

Definition face_on (enabled : option bool) : bool := default false enabled.

Definition s3_on (cfg : Config) : bool := face_on (sc_enabled <$> cfg_s3 cfg).
Definition reapi_on (cfg : Config) : bool := face_on (rc_enabled <$> cfg_reapi cfg).

(** The backend of the faces: the node's, or a private one. *)
Inductive FaceBackend := OverNode (b : MemActionCache Node) | Private (b : MemActionCache Mem.MemCas).

(** [build_faces], with [build] what [from_config_tls] makes of a [cas] block.  With a face
    enabled the node lives in the backend. *)
Definition build_faces (build : CasConfig -> result text Node) (cfg : Config) :
    result text (option Node * option (FaceBackend * DevSelfSigner)) :=
  _ ← (match cfg_s3 cfg with Some sc => if sc_enabled sc then check_s3_secret sc else Ok () | None => Ok () end);
  node ← (match cfg_cas cfg with Some c => Some <$> build c | None => Ok None end);
  if reapi_on cfg || s3_on cfg then
    match node with
    | Some n => '(b, signer) ← build_cas_backend n; Ok (Some (ac_cas b), Some (OverNode b, signer))
    | None => '(b, signer) ← build_private_backend; Ok (None, Some (Private b, signer))
    end
  else Ok (node, None).

(** [impl nessie_s3::Pins for CasNode]: the pins of the node beneath the action cache. *)
Definition on_cas_node {A} (op : Inner -> result BackendError A * Inner) :
    M BackendError (MemActionCache Node) A := fun b =>
  let '(r, x) := op (pn_node (ac_cas b)) in
  (r, mkAC (set_node x (ac_cas b)) (entries b) (threshold b)).

(** [CasNode::put_and_pin]: the write, with its mirror, then the pin. *)
Definition peered_put_and_pin fault sync (d : Digest) (src : source) : M BackendError (MemActionCache Node) () := fun b =>
  match peered_put_keyed d src (ac_cas b) with
  | (Err e, n) => (Err e, mkAC n (entries b) (threshold b))
  | (Ok (), n) => on_cas_node (apply_pins fault sync (PinInsert d)) (mkAC n (entries b) (threshold b))
  end.

Definition node_pins fault sync : S3.Pins (MemActionCache Node) := {|
  pins_put_and_pin := peered_put_and_pin fault sync;
  pins_unpin d := on_cas_node (Pins.unpin fault sync d);
|}.

(** [s3_app]'s face. *)
Definition s3_face fault sync (sc : S3ServerConfig) : S3.NessieS3 (MemActionCache Node) :=
  S3.with_pins (node_pins fault sync) (sc_pin_on_put sc) S3.new.
End from_config.

(** [as_reclaimable]: the trait's default is [None], and only stores of blobs override it. *)
Class AsReclaimable (S : Type) := as_reclaimable : option (ReclaimableCas S).
#[global] Instance mem_as_reclaimable {Hs : Hashers} : AsReclaimable Mem.MemCas := Some _.
#[global] Instance ac_as_reclaimable {C} : AsReclaimable (MemActionCache C) := None.

(** ** A configured node is what its configuration says *)

Section wired.
Context {Tx : Texts} {N C T : Type} {HN : Http N} {Hs : Hashers} {B : CasBackend C} {R : ReclaimableCas C}
  {Rt : ContentRouter T} {V : CasModel C} {L : CasLaws C}.
Abbreviation Node := (PeeredNode (X := SwarmCas N C) (T := T)).
Implicit Types (n : Node).

Lemma swarm_new_store (w : SwarmCas N C) pol (rt : T) clk me st :
  cas_valid (sw_inner w) -> Store.new w pol rt clk me = Ok st ->
  cas_valid (loc st) /\ sw_peers (inner st) = sw_peers w /\ sw_cache_fills (inner st) = sw_cache_fills w /\
  sw_net (inner st) = sw_net w /\ policy st = pol.
Proof.
  intros Hv. unfold Store.new. cbn [iter_local iter_quarantine swarm_reclaimable]. unfold local.
  destruct (law_iter_local _ Hv) as [_ Hv1]. destruct (iter_local (sw_inner w)) as [[blobs|e] c1]; [|done].
  cbn [sw_inner set_sw_inner snd] in *. unfold mbind at 1. cbn [result_bind].
  destruct (law_iter_quarantine _ Hv1) as [_ Hv2]. destruct (iter_quarantine c1) as [[qs|e] c2]; [|done].
  by intros [= <-].
Qed.

Lemma load_steps alone io fs (st st' : CasStore (SwarmCas N C) T) r :
  cas_valid (loc st) -> Pins.load (local_get alone) io fs st = (r, st') -> steps st st'.
Proof.
  intros Hv. unfold Pins.load. assert (Hrefl : steps st st) by (split; [by apply sound_same|done]).
  destruct (roots_file fs) as [txt|]; [|by intros [= _ <-]].
  unfold read_tree, mbind, M_bind, lift, backend. destruct io as [[]|e]; [|by intros [= _ <-]]. cbn.
  destruct (ok_or _ _) as [t|e]; [|by intros [= _ <-]]. destruct (map_err NotADigest _) as [tree|e]; [|by intros [= _ <-]].
  destruct (local_get alone tree st) as [r1 s1] eqn:E1. assert (H1 : steps st s1).
  { unfold local_get in E1. destruct alone; [by eapply get_steps|].
    eapply on_local_quiet in E1; [apply E1| |done]. intros c Hc.
    destruct (law_get tree c Hc) as [Hspec Hc']. unfold get_spec in Hspec.
    destruct (cas_get tree c) as [r2 c'], Hspec. by apply sound_same. }
  destruct r1 as [src|e]; [|by intros [= _ <-]]. cbn. repeat (case_match; try (by intros [= _ <-])).
Qed.

(** C32. A node starts as its configuration says: it retains everything exactly in write-only
    mode and only an lru node stores what it fetches from peers; the peers it pushes to are
    distinct and never itself; a write-only node waits for exactly one copy less than the
    replication factor (two where none is given), which is no more than its durable peers,
    and goes without only where a factor of one is asked for; and its store is in order. *)
Theorem configured_node_is_wired (mem : C) open_disk (route : option (list Peer) -> T) net clk io dir cfg me n :
  cas_valid mem -> (forall p c, open_disk p = Ok c -> cas_valid c) ->
  from_config mem open_disk route net clk io dir cfg me = Ok n ->
  cas_valid (nloc n) /\
  (is_write_only n = true <-> cc_mode cfg = CmWriteOnly) /\
  sw_cache_fills (inner (nstore n)) = negb (is_write_only n) /\
  NoDup (base_url <$> sw_peers (inner (nstore n))) /\
  (forall url p, advertise_url cfg = Some url -> p ∈ sw_peers (inner (nstore n)) -> base_url p <> trim_slashes url) /\
  match pn_mirror n with
  | Some k => is_write_only n = true /\
      Pos.to_nat k = (default DEFAULT_REPLICATION_FACTOR (replication_factor cfg) - 1)%nat /\
      (Pos.to_nat k <= length (filter (fun p => peer_durable p = true) (sw_peers (inner (nstore n)))))%nat
  | None => is_write_only n = true -> replication_factor cfg = Some 1%nat
  end.
Proof.
  intros Hmem Hdisk. unfold from_config.
  destruct (retention_policy cfg) as [pol|e] eqn:Epol; [|done].
  destruct (peer_copies cfg) as [copies|e] eqn:Ecop; [|done]. cbn.
  destruct (open_blobs mem open_disk cfg) as [blobs|e] eqn:Eb; [|done]. cbn.
  destruct (effective_peers cfg) as [l|e] eqn:Ep; [|done]. cbn.
  destruct (Store.new _ _ _ _ _) as [st|e] eqn:Est; [|done]. cbn.
  assert (Hv : cas_valid blobs).
  { unfold open_blobs in Eb. destruct (cc_backend cfg); [by injection Eb as <-|].
    destruct (cc_path cfg) as [p|]; [|done]. cbn in Eb. destruct (open_disk p) as [c|] eqn:Ed; [|done].
    injection Eb as <-. by eapply Hdisk. }
  destruct (swarm_new_store (with_cache_fills (is_lru pol) (swarm_new blobs net (node_peers l))) _ _ _ _ _ Hv Est) as (Hst & Hpe & Hcf & _ & Hpol). cbn in Hpe, Hcf.
  set (alone := bool_decide _) in *. intros E.
  assert (H : exists st' reg fs, steps st st' /\ n = mkPeered (mkNode st' reg fs false)
    (if alone then None else copies) (scrub_bytes_per_pass cfg) None None).
  { destruct (refs_of cfg dir) as [fs|].
    - destruct (Pins.load _ io fs st) as [r st'] eqn:El. pose proof (load_steps _ _ _ _ _ _ Hst El).
      destruct r as [[ps tree]|e]; [|done]. injection E as <-. by eexists _, _, _.
    - injection E as <-. eexists st, _, _. split; [|done]. split; [by apply sound_same|done]. }
  clear E. destruct H as (st' & reg & fs & (Hss & Hpe' & Hcf' & Hpol') & ->).
  unfold nloc, nstore, is_write_only. cbn [pn_node store pn_mirror].
  rewrite Hpe', Hcf', Hpol', Hpe, Hcf, Hpol.
  destruct (node_peers_effective _ _ Ep) as [Enp Hnd].
  assert (Hmode : match mode pol with WriteOnly _ => cc_mode cfg = CmWriteOnly | Lru _ => cc_mode cfg = CmLru end).
  { unfold retention_policy in Epol. destruct (cc_byte_budget cfg); [|done]. injection Epol as <-.
    by destruct (cc_mode cfg). }
  split_and!; [apply Hss|destruct (mode pol); rewrite Hmode; split; done| |exact Hnd| |].
  - unfold is_lru. by destruct (mode pol).
  - intros url p Hurl Hp. by eapply node_peers_not_self.
  - destruct (peer_copies_met cfg copies Ecop) as [Hlru Hwo]. destruct alone eqn:Ea.
    + intros Hw. destruct (mode pol); [done|]. destruct (Hwo Hmode) as [[-> Hf]|(k & -> & Hk)]; [done|].
      exfalso. destruct (Hk _ Ep) as [Hk' _]. unfold alone in Ea. apply bool_decide_eq_true, nil_length_inv in Ea as ->.
      rewrite Enp in Hk'. simpl in Hk'. lia.
    + destruct copies as [k|]; [|intros Hw; destruct (mode pol); [done|]; by destruct (Hwo Hmode) as [[_ ?]|(? & ? & _)]].
      destruct (mode pol); [by rewrite (Hlru Hmode) in Ecop|].
      destruct (Hwo Hmode) as [[? _]|(k' & [= <-] & Hk)]; [done|]. split; [done|].
      destruct (Hk _ Ep) as [Hle Heq]. split; [exact Heq|exact Hle].
Qed.

(** The daemon's S3 face cannot list: the backend it is given is the action cache, which
    no more than the node beneath overrides [as_reclaimable], so every ListObjectsV2 is
    answered NotImplemented, whatever it asks for and whatever the store holds. *)
Theorem daemon_cannot_list {C'} {B' : CasBackend C'} (b : MemActionCache C') i :
  exists msg, list_objects_v2 as_reclaimable i b = (Err (s3_error NotImplemented msg), b).
Proof. unfold list_objects_v2. case_bool_decide; eexists; reflexivity. Qed.
End wired.

(** ** A write-only node of two, that lists itself *)

Module FacesExample.
Import Checksum.

Definition cfg : CasConfig :=
  mkCas CmWriteOnly CbMem None 300 300 (Some 4096)
    [mkCasPeer (bs "http://a/") true; mkCasPeer (bs "http://b") true] true (Some (bs "http://a")) None 1024.

Definition built := from_config (T := Swarm.MemRouter) Mem.new (fun p => Err p) (fun _ => Swarm.new NodeExample.me)
  NodeExample.fleet (clock_at 0) (Ok ()) (mkRefDir None None) cfg NodeExample.me.

Definition node := default NodeExample.alone (res_ok built).

Lemma built_ok : built = Ok node.
Proof. reflexivity. Qed.

Lemma mem_valid : cas_valid Mem.new.
Proof. intros d b H. vm_compute in H. discriminate H. Qed.

Lemma configured_node_is_wired_witness :
  built = Ok node /\ is_write_only node = true /\
  forall p, p ∈ sw_peers (inner (nstore node)) -> base_url p <> bs "http://a".
Proof.
  pose proof (configured_node_is_wired Mem.new (fun p => Err p) (fun _ => Swarm.new NodeExample.me)
    NodeExample.fleet (clock_at 0) (Ok ()) (mkRefDir None None) cfg NodeExample.me node mem_valid
    (fun p c E => match E : @Err _ Mem.MemCas p = Ok c in _ = r return match r with Ok _ => cas_valid c | Err _ => True end
                  with eq_refl => I end) built_ok) as (_ & H & _ & _ & Hs & _).
  split; [exact built_ok|]. split; [apply H; reflexivity|]. intros p Hp.
  exact (Hs (bs "http://a") p eq_refl Hp).
Defined.
End FacesExample.
