(* ===== verification/Passthrough.v ===== *)
(** The embedded NFS server's file system (crates/nessie-nfs/src/unix.rs): [PassthroughFs],
    an instance of Vfs.v's [NFSFileSystem] over a host's files, and [path_setattr]
    (crates/nessie-nfsserve/src/fs_util.rs).

    The host is the class [Host]: one method per call of [std::fs], [tokio::fs] or filetime
    the source makes, of which nothing is assumed here ([HostLaws] is what some proofs use).
    A path is the list of its components from the host's root; SHA-256 is [Hashers]'. *)

From Stdlib Require Import ZArith Lia.
From stdpp Require Import base option gmap list.
From S2P Require Import Prelude Ordered Sort Text Digest Errors Xdr Rpc Nfs Vfs.

Local Open Scope Z_scope.

Abbreviation path := (list (list byte)).

(** ** The host *)

Inductive OpenOptions := OpenRead | OpenWrite | OpenCreate | OpenCreateNew | OpenReadWrite.

(** A descriptor is a number; a directory is listed as what its successive [next_entry]
    calls give, each entry by its file name. *)
Class Host (H : Type) := {
  h_canonicalize : path -> M io_error H path;
  h_symlink_metadata : path -> M io_error H Metadata;
  h_open : OpenOptions -> path -> M io_error H Z;
  h_len : Z -> M io_error H Z;
  h_seek : Z -> Z -> M io_error H ();
  h_read : Z -> Z -> M io_error H (list byte);
  h_write_all : Z -> list byte -> M io_error H ();
  h_flush : Z -> M io_error H ();
  h_sync_data : Z -> M io_error H ();
  h_set_len : Z -> Z -> M io_error H ();
  h_create_dir : path -> M io_error H ();
  h_remove_dir : path -> M io_error H ();
  h_remove_file : path -> M io_error H ();
  h_rename : path -> path -> M io_error H ();
  h_hard_link : path -> path -> M io_error H ();
  h_symlink : list byte -> path -> M io_error H ();
  h_read_link : path -> M io_error H (list byte);
  h_read_dir : path -> M io_error H (list (result io_error (list byte)));
  h_chown : path -> option Z -> option Z -> M io_error H ();
  h_set_permissions : path -> Z -> M io_error H ();
  h_set_atime : path -> option nfstime3 -> M io_error H ();
  h_set_mtime : path -> option nfstime3 -> M io_error H ();
}.

Definition io_to_nfs (e : io_error) : nfsstat3 :=
  match ie_kind e with
  | NotFound => NFS3ERR_NOENT
  | PermissionDenied => NFS3ERR_ACCES
  | AlreadyExists => NFS3ERR_EXIST
  | _ => NFS3ERR_IO
  end.

(** ** Identifiers and cookies *)

Definition S_ISGID : Z := 0x400.

Definition SERVER_VERIFIER : list byte := bs "nessieV1".

Definition splitmix64 (z : Z) : Z :=
  let z := wrap64 (z + 0x9E3779B97F4A7C15) in
  let z := wrap64 (Z.lxor z (Z.shiftr z 30) * 0xBF58476D1CE4E5B9) in
  let z := wrap64 (Z.lxor z (Z.shiftr z 27) * 0x94D049BB133111EB) in
  Z.lxor z (Z.shiftr z 31).

Definition fileid_from (dev ino : Z) : Z := splitmix64 (Z.lxor dev (splitmix64 ino)).

Definition fileid_of (meta : Metadata) : Z := fileid_from (md_dev meta) (md_ino meta).

Definition name_cookie {Hs : Hashers} (name : list byte) : Z :=
  let h := bytes (compute_with Sha256 name) in
  let c := Z.land (be_val (firstn 8 h)) (Z.shiftr u64_max 1) in
  Z.max c 1.

(** The bits of a cookie its name's hash decides. *)
Definition HIGH : Z := 0x7fffffffffffff00.

Definition high (e : Z * path) : Z := Z.land e.1 HIGH.

(** The loop that numbers the entries that share their high bits. *)
Fixpoint rank_cookies (rank : Z) (prev : option Z) (v : list (Z * path)) : list (Z * path) :=
  match v with
  | [] => []
  | e :: v =>
      let h := high e in
      let rank := if bool_decide (prev = Some h) then rank + 1 else 0 in
      let r := if bool_decide (h = 0) then rank + 1 else rank in
      (Z.lor h (Z.min r 255), e.2) :: rank_cookies rank (Some h) v
  end.

Definition cookie_key (e : Z * path) : Z * path := (high e, e.2).

Definition assign_cookies (v : list (Z * path)) : list (Z * path) :=
  rank_cookies 0 None (sort_on cookie_key v).

(** ** The file system *)

Record PassthroughFs (H : Type) := mkFs {
  fs_host : H;
  fs_root : path;
  fs_map : gmap Z (list path);
  fs_root_id : Z;
}.
Arguments mkFs {H}. Arguments fs_host {H}. Arguments fs_root {H}.
Arguments fs_map {H}. Arguments fs_root_id {H}.

(** [Path::file_name] of a path below a directory, and [Path::parent]. *)
Definition file_name (p : path) : list byte := default [] (last p).
Definition parent (p : path) : option path := match p with [] => None | _ => Some (removelast p) end.

Definition nul : byte := z2b 0.

(** [child_path]: one name below a directory. *)
Definition child_path (root dir : path) (name : list byte) : result nfsstat3 path :=
  if bool_decide (name = []) || bool_decide (name = bs ".") then Ok dir
  else if bool_decide (name = bs "..") then
    Ok (if bool_decide (dir = root) then root else default root (parent dir))
  else if bool_decide (slash ∈ name) || bool_decide (nul ∈ name) then Err NFS3ERR_ACCES
  else Ok (dir ++ [name]).

Section fs.
Context {Hs : Hashers} {H : Type} {HH : Host H}.
Abbreviation W := (PassthroughFs H).
Implicit Types (w : W) (h : H).

(** A host call, and one whose failure the server answers with the mapped status. *)
Definition host_raw {A} (op : M io_error H A) : M io_error W A := fun w =>
  let '(r, h) := op (fs_host w) in (r, mkFs h (fs_root w) (fs_map w) (fs_root_id w)).

Definition host {A} (op : M io_error H A) : M nfsstat3 W A := fun w =>
  let '(r, w) := host_raw op w in (map_err io_to_nfs r, w).

(** [let _ = ..] *)
Definition ignore {E A} (op : M E W A) : M nfsstat3 W () := fun w => (Ok (), (op w).2).

Definition set_map (m : gmap Z (list path)) w : W := mkFs (fs_host w) (fs_root w) m (fs_root_id w).

Definition new (root : path) (h : H) : result io_error W * H :=
  match h_canonicalize root h with
  | (Err e, h) => (Err e, h)
  | (Ok root, h) =>
      match h_symlink_metadata root h with
      | (Err e, h) => (Err e, h)
      | (Ok meta, h) => (Ok (mkFs h root {[fileid_of meta := [root]]} (fileid_of meta)), h)
      end
  end.

(** [paths.retain]: the names that still have this identifier. *)
Fixpoint retain_named (id : Z) (ps : list path) h : list path * H :=
  match ps with
  | [] => ([], h)
  | p :: ps =>
      let '(r, h) := h_symlink_metadata p h in
      let '(kept, h) := retain_named id ps h in
      (match r with
       | Ok m => if bool_decide (fileid_of m = id) then p :: kept else kept
       | Err _ => kept
       end, h)
  end.

Definition path_of (id : Z) : M nfsstat3 W path := fun w =>
  match fs_map w !! id with
  | None => (Err NFS3ERR_STALE, w)
  | Some ps =>
      let '(ps, h) := retain_named id ps (fs_host w) in
      let w := mkFs h (fs_root w) (fs_map w) (fs_root_id w) in
      match ps with
      | [] => (Err NFS3ERR_STALE, set_map (delete id (fs_map w)) w)
      | p :: _ => (Ok p, set_map (<[id := ps]> (fs_map w)) w)
      end
  end.

Definition note_path (id : Z) (p : path) : M nfsstat3 W () := fun w =>
  let ps := default [] (fs_map w !! id) in
  (Ok (), set_map (<[id := if bool_decide (p ∈ ps) then ps else ps ++ [p]]> (fs_map w)) w).

Definition forget_path (id : Z) (p : path) : M nfsstat3 W () := fun w =>
  match fs_map w !! id with
  | None => (Ok (), w)
  | Some ps =>
      let ps := filter (fun q => q <> p) ps in
      (Ok (), set_map (match ps with [] => delete id (fs_map w) | _ => <[id := ps]> (fs_map w) end) w)
  end.

Definition register (p : path) : M nfsstat3 W (Z * Metadata) :=
  meta ← host (h_symlink_metadata p);
  let id := fileid_of meta in
  _ ← note_path id p;
  mret (id, meta).

(** [child_path] of the server's own root. *)
Definition child (dir : path) (name : list byte) : M nfsstat3 W path :=
  root ← asks fs_root; lift (child_path root dir name).

Definition chown_new (id dirid : Z) (cred : UnixCred) : M nfsstat3 W () :=
  p ← ask (E' := nfsstat3) (path_of id);
  q ← ask (E' := nfsstat3) (path_of dirid);
  match p, q with
  | Ok p, Ok q =>
      m ← ask (E' := nfsstat3) (host (h_symlink_metadata q));
      let parent_setgid :=
        match m with Ok m => negb (bool_decide (Z.land (md_mode m) S_ISGID = 0)) | Err _ => false end in
      ignore (host_raw (h_chown p (Some (cred_uid cred)) (if parent_setgid then None else Some (cred_gid cred))))
  | _, _ => mret ()
  end.

(** ** [path_setattr] (fs_util.rs) *)

Definition set_time_of (set : path -> option nfstime3 -> M io_error H ()) (p : path) (t : set_time) :
    M nfsstat3 W () :=
  match t with
  | DONT_CHANGE => mret ()
  | SET_TO_SERVER_TIME => ignore (host_raw (set p None))
  | SET_TO_CLIENT_TIME t => ignore (host_raw (set p (Some t)))
  end.

(** [.or(Err(NFS3ERR_IO))] *)
Definition or_io {A} (op : M io_error H A) : M nfsstat3 W A := fun w =>
  let '(r, w) := host_raw op w in (map_err (fun _ => NFS3ERR_IO) r, w).

Definition path_setattr (p : path) (attr : sattr3) : M nfsstat3 W () :=
  _ ← set_time_of h_set_atime p (sa_atime attr);
  _ ← set_time_of h_set_mtime p (sa_mtime attr);
  _ ← (match sa_mode attr with
       | Some mode => ignore (host_raw (h_set_permissions p (mode_unmask mode)))
       | None => mret ()
       end);
  match sa_size attr with
  | Some size => f ← or_io (h_open OpenReadWrite p); or_io (h_set_len f size)
  | None => mret ()
  end.

(** ** [impl NFSFileSystem for PassthroughFs] *)

Definition pt_lookup (dirid : Z) (filename : list byte) : M nfsstat3 W Z :=
  dir ← path_of dirid;
  c ← child dir filename;
  r ← register c;
  mret r.1.

Definition pt_getattr (id : Z) : M nfsstat3 W fattr3 :=
  p ← path_of id;
  meta ← host (h_symlink_metadata p);
  mret (metadata_to_fattr3 id meta).

Definition pt_setattr (id : Z) (attr : sattr3) : M nfsstat3 W fattr3 :=
  p ← path_of id;
  _ ← path_setattr p attr;
  _ ← (match sa_uid attr, sa_gid attr with
       | None, None => mret ()
       | u, g => host (h_chown p u g)
       end);
  pt_getattr id.

(** The loop that fills the buffer, of [left_] bytes still to fill: each read but the last
    gives a byte or more. *)
Fixpoint fill (fuel : nat) (f left_ : Z) : M io_error H (list byte) :=
  match fuel with
  | O => mret []
  | S fuel =>
      if bool_decide (left_ <= 0) then mret []
      else
        b ← h_read f left_;
        let b := firstn (Z.to_nat left_) b in
        match b with
        | [] => mret []
        | _ => rest ← fill fuel f (left_ - zlen b); mret (b ++ rest)
        end
  end.

Definition pt_read (id offset count : Z) : M nfsstat3 W (list byte * bool) :=
  p ← path_of id;
  f ← host (h_open OpenRead p);
  len ← host (h_len f);
  _ ← host (h_seek f offset);
  buf ← host (fill (Z.to_nat count) f count);
  mret (buf, bool_decide (len <= sat_add64 offset (zlen buf))).

Definition pt_write_stable (id offset : Z) (data : list byte) (stable : bool) : M nfsstat3 W (fattr3 * bool) :=
  p ← path_of id;
  f ← host (h_open OpenWrite p);
  _ ← host (h_seek f offset);
  _ ← host (h_write_all f data);
  _ ← host (h_flush f);
  _ ← (if stable then host (h_sync_data f) else mret ());
  attr ← pt_getattr id;
  mret (attr, stable).

Definition pt_write (id offset : Z) (data : list byte) : M nfsstat3 W fattr3 :=
  r ← pt_write_stable id offset data false; mret r.1.

Definition pt_commit (id offset count : Z) : M nfsstat3 W () :=
  p ← path_of id;
  f ← host (h_open OpenRead p);
  host (h_sync_data f).

(** A new object below a directory: what makes it, and the name it gets. *)
Definition made_at (dirid : Z) (name : list byte) (make : path -> M nfsstat3 W ()) : M nfsstat3 W (Z * Metadata) :=
  dir ← path_of dirid;
  p ← child dir name;
  _ ← make p;
  register p.

Definition with_attr (r : Z * Metadata) : Z * fattr3 := (r.1, metadata_to_fattr3 r.1 r.2).

Definition pt_create (dirid : Z) (filename : list byte) (attr : sattr3) : M nfsstat3 W (Z * fattr3) :=
  r ← made_at dirid filename (fun p => _ ← host (h_open OpenCreate p); ignore (path_setattr p attr));
  mret (with_attr r).

Definition pt_create_exclusive (dirid : Z) (filename : list byte) : M nfsstat3 W Z :=
  r ← made_at dirid filename (fun p => _ ← host (h_open OpenCreateNew p); mret ());
  mret r.1.

Definition pt_mkdir (dirid : Z) (dirname : list byte) : M nfsstat3 W (Z * fattr3) :=
  r ← made_at dirid dirname (fun p => host (h_create_dir p));
  mret (with_attr r).

Definition pt_create_with_cred (dirid : Z) (filename : list byte) (attr : sattr3) (cred : UnixCred) :
    M nfsstat3 W (Z * fattr3) :=
  r ← pt_create dirid filename attr;
  _ ← chown_new r.1 dirid cred;
  a ← pt_getattr r.1;
  mret (r.1, a).

Definition pt_create_exclusive_with_cred (dirid : Z) (filename : list byte) (cred : UnixCred) : M nfsstat3 W Z :=
  id ← pt_create_exclusive dirid filename;
  _ ← chown_new id dirid cred;
  mret id.

Definition pt_mkdir_with_cred (dirid : Z) (dirname : list byte) (cred : UnixCred) : M nfsstat3 W (Z * fattr3) :=
  r ← pt_mkdir dirid dirname;
  _ ← chown_new r.1 dirid cred;
  a ← pt_getattr r.1;
  mret (r.1, a).

Definition pt_remove (dirid : Z) (filename : list byte) : M nfsstat3 W () :=
  dir ← path_of dirid;
  p ← child dir filename;
  meta ← host (h_symlink_metadata p);
  _ ← host (if bool_decide (md_type meta = TDir) then h_remove_dir p else h_remove_file p);
  forget_path (fileid_of meta) p.

Definition pt_rename (from_dirid : Z) (from_filename : list byte) (to_dirid : Z) (to_filename : list byte) :
    M nfsstat3 W () :=
  from_dir ← path_of from_dirid;
  to_dir ← path_of to_dirid;
  from ← child from_dir from_filename;
  to ← child to_dir to_filename;
  _ ← host (h_rename from to);
  ignore (register to).

(** The entries of a directory that can be looked at. *)
Fixpoint scan_dir (dir : path) (l : list (result io_error (list byte))) : M io_error H (list (Z * path)) :=
  match l with
  | [] => mret []
  | Err e :: _ => fail e
  | Ok name :: l => fun h =>
      let '(r, h) := h_symlink_metadata (dir ++ [name]) h in
      (rest ← scan_dir dir l;
       mret (match r with Ok m => (fileid_of m, dir ++ [name]) :: rest | Err _ => rest end)) h
  end.

(** The entries found, by their cookies. *)
Definition with_cookies (found : list (Z * path)) : list (Z * Z * path) :=
  let ids : gmap path Z := list_to_map (reverse ((fun e => (e.2, e.1)) <$> found)) in
  (fun e => (e.1, default 0 (ids !! e.2), e.2)) <$>
    assign_cookies ((fun e => (name_cookie (file_name e.2), e.2)) <$> found).

(** The entries after a cookie, [partition_point] of the ascending cookies. *)
Definition after_cookie (start_after : Z) (found : list (Z * Z * path)) : list (Z * Z * path) :=
  drop (length (filter (fun e => e.1.1 <= start_after) found)) found.

(** The loop over the entries of a page. *)
Fixpoint emit_entries (es : list (Z * Z * path)) : M nfsstat3 W (list DirEntry) :=
  match es with
  | [] => mret []
  | (cookie, id, p) :: es =>
      meta ← host (h_symlink_metadata p);
      _ ← note_path id p;
      rest ← emit_entries es;
      mret (mkDirEntry id cookie (file_name p) (metadata_to_fattr3 id meta) :: rest)
  end.

Definition pt_readdir (dirid start_after max_entries : Z) : M nfsstat3 W ReadDirResult :=
  dir ← path_of dirid;
  dmeta ← host (h_symlink_metadata dir);
  if negb (bool_decide (md_type dmeta = TDir)) then fail NFS3ERR_NOTDIR
  else
    l ← host (h_read_dir dir);
    found ← host (scan_dir dir l);
    let rest := after_cookie start_after (with_cookies found) in
    entries ← emit_entries (firstn (Z.to_nat max_entries) rest);
    mret (mkReadDir entries (bool_decide (length entries = length rest))).

Definition pt_symlink (dirid : Z) (linkname target : list byte) (attr : sattr3) : M nfsstat3 W (Z * fattr3) :=
  r ← made_at dirid linkname (fun p => host (h_symlink target p));
  mret (with_attr r).

Definition pt_readlink (id : Z) : M nfsstat3 W (list byte) :=
  p ← path_of id; host (h_read_link p).

Definition pt_link (id dirid : Z) (linkname : list byte) : M nfsstat3 W fattr3 :=
  existing ← path_of id;
  r ← made_at dirid linkname (fun p => host (h_hard_link existing p));
  mret (with_attr r).2.

Definition pt_id_to_fh (id : Z) : nfs_fh3 := mkFh (le_bytes 8 id).

Definition pt_fh_to_id (fh : nfs_fh3) : result nfsstat3 Z :=
  if bool_decide (length (fh_data fh) = 8%nat) then Ok (le_val (fh_data fh)) else Err NFS3ERR_BADHANDLE.

#[export] Instance passthrough_fs : NFSFileSystem W := {|
  capabilities _ := ReadWrite;
  root_dir := fs_root_id;
  lookup := pt_lookup;
  getattr := pt_getattr;
  setattr := pt_setattr;
  read := pt_read;
  write := pt_write;
  write_stable := pt_write_stable;
  commit := pt_commit;
  create := pt_create;
  create_exclusive := pt_create_exclusive;
  mkdir := pt_mkdir;
  create_with_cred := pt_create_with_cred;
  create_exclusive_with_cred := pt_create_exclusive_with_cred;
  mkdir_with_cred := pt_mkdir_with_cred;
  remove := pt_remove;
  rename := pt_rename;
  readdir := pt_readdir;
  readdir_simple := default_readdir_simple pt_readdir;
  symlink := pt_symlink;
  readlink := pt_readlink;
  link := pt_link;
  fsinfo := default_fsinfo pt_getattr;
  id_to_fh _ := pt_id_to_fh;
  fh_to_id _ := pt_fh_to_id;
  path_to_id := default_path_to_id fs_root_id pt_lookup;
  serverid _ := SERVER_VERIFIER;
|}.
End fs.
