(* ===== verification/PassthroughLaws.v ===== *)
(** What the embedded NFS file system promises: identifiers that do not alias, directory
    pages that chain, paths that stay below the export root, and what the NFS server's
    handlers ask of a file system ([ValidVfs]). *)

From Stdlib Require Import ZArith Lia.
From stdpp Require Import base option gmap list sorting.
From S2P Require Import Prelude Ordered Sort Text Digest Errors Xdr Rpc Nfs Vfs NfsConform Passthrough.

Local Open Scope Z_scope.

(** ** The mixer is a bijection of 64-bit words *)

Lemma wrap64_u64 z : is_u64 (wrap64 z).
Proof. unfold wrap64, is_u64, u64_max. pose proof (Z.mod_pos_bound z (2 ^ 64)). lia. Qed.

Lemma u64_bits z : 0 <= z -> (is_u64 z <-> forall i, 64 <= i -> Z.testbit z i = false).
Proof.
  intros Hz. unfold is_u64, u64_max. split.
  - intros Hr i Hi. rewrite <- (Z.mod_small z (2 ^ 64)) by lia. by apply Z.mod_pow2_bits_high; lia.
  - intros Hb. assert (z mod 2 ^ 64 = z) as <-; [|pose proof (Z.mod_pos_bound z (2 ^ 64)); lia].
    apply Z.bits_inj'. intros i Hi. destruct (decide (i < 64)).
    + by rewrite Z.mod_pow2_bits_low by lia.
    + rewrite Z.mod_pow2_bits_high by lia. by rewrite Hb by lia.
Qed.

Lemma lxor_u64 a b : is_u64 a -> is_u64 b -> is_u64 (Z.lxor a b).
Proof.
  intros Ha Hb. assert (0 <= a /\ 0 <= b) as [Ha0 Hb0] by (unfold is_u64 in *; lia).
  apply u64_bits; [by apply Z.lxor_nonneg|]. intros i Hi. rewrite Z.lxor_spec.
  by rewrite (proj1 (u64_bits a Ha0) Ha), (proj1 (u64_bits b Hb0) Hb).
Qed.

Lemma shiftr_u64 z k : 0 <= k -> is_u64 z -> is_u64 (Z.shiftr z k).
Proof.
  unfold is_u64. intros Hk Hz. rewrite Z.shiftr_div_pow2 by lia. split; [apply Z.div_pos; lia|].
  pose proof (Z.div_le_upper_bound z (2 ^ k) u64_max). nia.
Qed.

Lemma splitmix64_u64 z : is_u64 (splitmix64 z).
Proof. unfold splitmix64. apply lxor_u64; [|apply shiftr_u64; [lia|]]; apply wrap64_u64. Qed.

(** A word is determined by itself mixed with its own high bits. *)
Lemma xorshift_inj k a b :
  0 < k -> 0 <= a -> 0 <= b -> Z.lxor a (Z.shiftr a k) = Z.lxor b (Z.shiftr b k) -> a = b.
Proof.
  intros Hk Ha Hb E. apply Z.lxor_eq. set (c := Z.lxor a b).
  assert (Hc : c = Z.shiftr c k).
  { unfold c. rewrite Z.shiftr_lxor. apply Z.lxor_eq.
    rewrite <- (Z.lxor_nilpotent (Z.lxor a (Z.shiftr a k))). rewrite E at 2.
    rewrite !Z.lxor_assoc. f_equal. rewrite <- !Z.lxor_assoc. f_equal. apply Z.lxor_comm. }
  assert (0 <= c) by (by apply Z.lxor_nonneg). rewrite Z.shiftr_div_pow2 in Hc by lia.
  destruct (decide (c = 0)) as [->|Hne]; [done|]. pose proof (Z.div_lt c (2 ^ k)).
  pose proof (Z.pow_gt_1 2 k). lia.
Qed.

(** Multiplying by an odd constant can be undone. *)
Lemma mul_wrap_inj m m' a b :
  wrap64 (m * m') = 1 -> is_u64 a -> is_u64 b -> wrap64 (a * m) = wrap64 (b * m) -> a = b.
Proof.
  intros Hm Ha Hb E. assert (H : forall z, is_u64 z -> wrap64 (wrap64 (z * m) * m') = z).
  { intros z Hz. unfold wrap64 in *. rewrite Z.mul_mod_idemp_l, <- Z.mul_assoc, Z.mul_mod, Hm by lia.
    rewrite Z.mul_1_r, Z.mod_mod by lia. apply Z.mod_small. unfold is_u64, u64_max in Hz. lia. }
  by rewrite <- (H a Ha), <- (H b Hb), E.
Qed.

Lemma add_wrap_inj c a b : is_u64 a -> is_u64 b -> wrap64 (a + c) = wrap64 (b + c) -> a = b.
Proof.
  unfold wrap64, is_u64, u64_max. intros Ha Hb E.
  assert (H : forall z, 0 <= z <= 2 ^ 64 - 1 -> ((z + c) mod 2 ^ 64 - c) mod 2 ^ 64 = z).
  { intros z Hz. rewrite Zminus_mod_idemp_l. replace (z + c - c) with z by lia. apply Z.mod_small. lia. }
  by rewrite <- (H a Ha), <- (H b Hb), E.
Qed.

Lemma splitmix64_inj a b : is_u64 a -> is_u64 b -> splitmix64 a = splitmix64 b -> a = b.
Proof.
  intros Ha Hb E. unfold splitmix64 in E.
  assert (H0 : forall z, 0 <= wrap64 z) by (intros z; apply wrap64_u64).
  apply xorshift_inj in E; [|lia|apply H0..].
  apply (mul_wrap_inj _ 0x319642b2d24d8ec3) in E; [|reflexivity|..];
    [|apply lxor_u64; [|apply shiftr_u64; [lia|]]; apply wrap64_u64..].
  apply xorshift_inj in E; [|lia|apply H0..].
  apply (mul_wrap_inj _ 0x96de1b173f119089) in E; [|reflexivity|..];
    [|apply lxor_u64; [|apply shiftr_u64; [lia|]]; apply wrap64_u64..].
  apply xorshift_inj in E; [|lia|apply H0..].
  by apply add_wrap_inj in E.
Qed.

Lemma lxor_cancel a b c : Z.lxor a b = Z.lxor a c -> b = c.
Proof. intros E. apply (f_equal (Z.lxor a)) in E. by rewrite <- !Z.lxor_assoc, Z.lxor_nilpotent in E. Qed.

Lemma fileid_u64 meta : is_u64 (fileid_of meta).
Proof. apply splitmix64_u64. Qed.

(** C35. File identifiers do not alias: on one device two inodes, and for one inode number two
    devices, have distinct identifiers; and a handle made of an identifier is read back as
    that identifier by any server, of this run or of a later one. *)
Theorem handles_do_not_alias dev ino dev' ino' :
  is_u64 dev -> is_u64 ino -> is_u64 dev' -> is_u64 ino' ->
  (fileid_from dev ino = fileid_from dev ino' -> ino = ino') /\
  (fileid_from dev ino = fileid_from dev' ino -> dev = dev') /\
  pt_fh_to_id (pt_id_to_fh (fileid_from dev ino)) = Ok (fileid_from dev ino).
Proof.
  intros Hd Hi Hd' Hi'. unfold fileid_from. split_and!.
  - intros E%splitmix64_inj; [|by apply lxor_u64, splitmix64_u64..].
    apply lxor_cancel in E. by apply splitmix64_inj.
  - intros E%splitmix64_inj; [|by apply lxor_u64; [|apply splitmix64_u64]..].
    rewrite (Z.lxor_comm dev), (Z.lxor_comm dev') in E. by apply lxor_cancel in E.
  - unfold pt_fh_to_id, pt_id_to_fh. cbn [fh_data]. rewrite length_le_bytes, bool_decide_true by done.
    f_equal. rewrite le_val_bytes. apply Z.mod_small. pose proof (splitmix64_u64 (Z.lxor dev (splitmix64 ino))) as H.
    unfold is_u64, u64_max in H. simpl. lia.
Qed.

(** ** Cookies *)

Lemma high_multiple z : 0 <= z -> exists q, 0 <= q < 2 ^ 55 /\ Z.land z HIGH = q * 256.
Proof.
  intros Hz. exists ((z / 256) mod 2 ^ 55). split; [apply Z.mod_pos_bound; lia|].
  change HIGH with (Z.shiftl (Z.ones 55) 8). change 256 with (2 ^ 8). rewrite <- Z.shiftl_mul_pow2 by lia.
  apply Z.bits_inj'. intros i Hi. rewrite Z.land_spec, !Z.shiftl_spec by lia.
  destruct (decide (i < 8)); [rewrite !Z.testbit_neg_r with (n := i - 8) by lia; apply andb_false_r|].
  destruct (decide (i - 8 < 55)).
  - rewrite Z.ones_spec_low, Z.mod_pow2_bits_low, Z.div_pow2_bits by lia. rewrite andb_true_r. f_equal. lia.
  - rewrite Z.ones_spec_high, Z.mod_pow2_bits_high by lia. apply andb_false_r.
Qed.

Lemma lor_low q r : 0 <= q -> 0 <= r < 256 -> Z.lor (q * 256) r = q * 256 + r.
Proof.
  intros Hq Hr. assert (H : Z.land (q * 256) r = 0).
  { change 256 with (2 ^ 8). rewrite <- Z.shiftl_mul_pow2 by lia. apply Z.bits_inj'. intros i Hi.
    rewrite Z.land_spec, Z.shiftl_spec, Z.bits_0 by lia. destruct (decide (i < 8)).
    - by rewrite Z.testbit_neg_r by lia.
    - assert (0 <= Z.log2 r < 8) by (split; [apply Z.log2_nonneg|]; destruct (decide (r = 0)) as [->|];
        [done|apply Z.log2_lt_pow2; lia]).
      rewrite (Z.bits_above_log2 r) by lia. apply andb_false_r. }
  rewrite <- Z.lxor_lor by done. symmetry. by apply Z.add_nocarry_lxor.
Qed.

Definition in_group (h : Z) (e : Z * path) : Prop := high e = h.
#[export] Instance in_group_dec h e : Decision (in_group h e).
Proof. unfold in_group. apply _. Defined.
#[local] Typeclasses Opaque in_group.

(** No more than 255 entries share the high bits of their names' hashes. *)
Definition small_groups (v : list (Z * path)) : Prop := forall h, (length (filter (in_group h) v) <= 255)%nat.

Definition cookie_at (h rank : Z) : Z := h + (if bool_decide (h = 0) then rank + 1 else rank).

(** What the ranks of an ascending list give: cookies that ascend strictly, above the one
    that would come next to the entry before. *)
Lemma rank_cookies_ascend v rank prev :
  Forall (fun e => 0 <= e.1) v -> StronglySorted klt (cookie_key <$> v) ->
  (forall h, prev = Some h -> (0 <= h /\ h mod 256 = 0 /\ 0 <= rank) /\ Forall (fun e => h <= high e) v /\
    rank + Z.of_nat (length (filter (in_group h) v)) < 255) ->
  (forall h, prev <> Some h -> (length (filter (in_group h) v) <= 255)%nat) ->
  StronglySorted klt (fst <$> rank_cookies rank prev v) /\
  Forall (fun c => match prev with Some h => cookie_at h rank < c | None => 0 < c end /\ c < 2 ^ 63) (fst <$> rank_cookies rank prev v).
Proof.
  revert rank prev. induction v as [|e v IH]; intros rank prev Hpos Hs Hprev Hg; cbn [rank_cookies].
  { split; constructor. }
  change (cookie_key <$> e :: v) with (cookie_key e :: (cookie_key <$> v)) in Hs. apply Forall_cons in Hpos as [He Hpos]. apply StronglySorted_cons in Hs as [Hall Hs].
  destruct (high_multiple e.1 He) as (q & Hq & Eh). fold (high e) in Eh.
  set (h := high e) in *. set (rank' := if bool_decide (prev = Some h) then rank + 1 else 0).
  assert (Hge : Forall (fun e' => h <= high e') v).
  { rewrite Forall_fmap in Hall. eapply Forall_impl; [exact Hall|]. intros e' Hlt.
    destruct (Z.le_gt_cases h (high e')) as [|Hgt]; [done|]. apply klt_Z in Hgt.
    unfold klt, kcmp, pair_cmp, cookie_key, compose in Hlt. cbn [fst snd] in Hlt. fold h in Hlt.
    rewrite (proj2 (cmp_gt_iff h (high e')) Hgt) in Hlt. done. }
  assert (Hgr : forall h0, length (filter (in_group h0) (e :: v)) =
    ((if bool_decide (h = h0) then 1 else 0) + length (filter (in_group h0) v))%nat).
  { intros h0. rewrite filter_cons. unfold in_group at 1. fold h. by case_decide; case_bool_decide. }
  assert (Hr : 0 <= rank' /\ rank' + Z.of_nat (length (filter (in_group h) v)) < 255).
  { unfold rank'. case_bool_decide as Hp.
    - destruct (Hprev h Hp) as ((_ & _ & ?) & _ & Hb). rewrite Hgr, bool_decide_true in Hb by done. lia.
    - specialize (Hg h Hp). rewrite Hgr, bool_decide_true in Hg by done. lia. }
  assert (Hc : Z.lor h (Z.min (if bool_decide (h = 0) then rank' + 1 else rank') 255) = cookie_at h rank').
  { unfold cookie_at. rewrite Eh, lor_low by (try case_bool_decide; lia). case_bool_decide; lia. }
  destruct (IH rank' (Some h)) as [IHs IHa]; [done|done| | |].
  - intros h0 [= <-]. split; [|by split; [|apply Hr]]. split_and!; [lia|rewrite Eh; apply Z.mod_mul; lia|lia].
  - intros h0 Hne. destruct (decide (prev = Some h0)) as [Hp|Hp].
    + destruct (Hprev h0 Hp) as ((_ & _ & ?) & _ & Hb). rewrite Hgr in Hb. lia.
    + specialize (Hg h0 Hp). rewrite Hgr in Hg. lia.
  - cbn [fmap list_fmap fst]. rewrite Hc. split.
    + constructor; [done|]. eapply Forall_impl; [exact IHa|]. intros c [Hlt _]. by apply klt_Z.
    + assert (Hlow : match prev with Some h0 => cookie_at h0 rank < cookie_at h rank' | None => 0 < cookie_at h rank' end /\
        cookie_at h rank' < 2 ^ 63).
      { split; [|unfold cookie_at; case_bool_decide; lia]. destruct prev as [h0|].
        - destruct (Hprev h0 eq_refl) as ((Hh0 & Hm & Hr0) & Hle & Hb). apply Forall_cons in Hle as [Hle _].
          fold h in Hle. unfold cookie_at, rank'. destruct (decide (h0 = h)) as [->|Hne].
          + rewrite (bool_decide_true (Some h = Some h)) by done. case_bool_decide; lia.
          + rewrite (bool_decide_false (Some h0 = Some h)) by congruence.
            apply Z.mod_divide in Hm as [q0 Eq0]; [|lia]. repeat case_bool_decide; nia.
        - unfold cookie_at, rank'. rewrite (bool_decide_false (None = Some h)) by done. case_bool_decide; lia. }
      constructor; [exact Hlow|]. eapply Forall_impl; [exact IHa|]. intros c [Hlt Hmax]. split; [|done].
      destruct prev; lia.
Qed.

Lemma rank_cookies_snd v rank prev : snd <$> rank_cookies rank prev v = snd <$> v.
Proof. revert rank prev. induction v as [|e v IH]; intros rank prev; cbn [rank_cookies]; csimpl; by rewrite ?IH. Qed.

Lemma assign_cookies_ascend v :
  Forall (fun e => 0 <= e.1) v -> NoDup (snd <$> v) -> small_groups v ->
  StronglySorted klt (fst <$> assign_cookies v) /\ Forall (fun c => 0 < c < 2 ^ 63) (fst <$> assign_cookies v).
Proof.
  intros Hpos Hn Hg. assert (Hp : sort_on cookie_key v ≡ₚ v) by apply sort_on_perm.
  apply (rank_cookies_ascend (sort_on cookie_key v) 0 None).
  - by rewrite Hp.
  - apply sort_on_strict. apply (NoDup_fmap_1 snd). by rewrite <- list_fmap_compose.
  - done.
  - intros h _. rewrite (Permutation_length (filter_Permutation _ _ _ Hp)). apply Hg.
Qed.

Lemma assign_cookies_perm v : snd <$> assign_cookies v ≡ₚ snd <$> v.
Proof. unfold assign_cookies. rewrite rank_cookies_snd. by rewrite (sort_on_perm cookie_key v). Qed.

Lemma rank_cookies_alone v rank prev e :
  e ∈ v -> prev <> Some (high e) -> high e <> 0 ->
  (forall e', e' ∈ v -> high e' = high e -> e' = e) -> (high e, e.2) ∈ rank_cookies rank prev v.
Proof.
  intros He Hp Hz Hu. revert rank prev Hp. induction v as [|e0 v IH]; intros rank prev Hp; [by apply elem_of_nil in He|].
  cbn [rank_cookies]. destruct (decide (e0 = e)) as [->|Hne].
  - rewrite (bool_decide_false (prev = _)), (bool_decide_false (high e = 0)) by done. cbn. rewrite Z.lor_0_r. by left.
  - apply elem_of_cons in He as [->|He]; [done|]. right. apply IH; [done| |].
    + intros e' Hin. apply Hu. by right.
    + intros [= Eh]. apply Hne, Hu; [by left|done].
Qed.

Lemma ascending_lt (l : list Z) : StronglySorted klt l -> StronglySorted Z.lt l.
Proof.
  induction 1 as [|x l Hs IH Hall]; constructor; [done|]. eapply Forall_impl; [exact Hall|]. intros y. apply klt_Z.
Qed.

(** ** Pages *)

Section pages.
Context {Hash : Hashers}.

Abbreviation listed := (Z * Z * path)%type.
Definition cookie_of (e : listed) : Z := e.1.1.

(** A client that follows the cookies of a directory, [max] entries to a page. *)
Fixpoint follow (fuel max : nat) (start : Z) (found : list listed) : option (list listed) :=
  match fuel with
  | O => None
  | S fuel =>
      let rest := after_cookie start found in
      let page := firstn max rest in
      if bool_decide (length page = length rest) then Some page
      else e ← last page; more ← follow fuel max (cookie_of e) found; Some (page ++ more)
  end.

Lemma after_cookie_app k (l1 l2 : list listed) :
  Forall (fun e => cookie_of e <= k) l1 -> Forall (fun e => k < cookie_of e) l2 -> after_cookie k (l1 ++ l2) = l2.
Proof.
  intros H1 H2. unfold after_cookie. rewrite filter_app, filter_keep by exact H1.
  rewrite filter_drop by (eapply Forall_impl; [exact H2|]; intros e He; unfold cookie_of in He; simpl; lia).
  rewrite app_nil_r. apply drop_app_length.
Qed.

Lemma follow_rest fuel max start (l1 l2 : list listed) :
  (1 <= max)%nat -> StronglySorted klt (cookie_of <$> l2) ->
  Forall (fun e => cookie_of e <= start) l1 -> Forall (fun e => start < cookie_of e) l2 ->
  (length l2 < fuel)%nat -> follow fuel max start (l1 ++ l2) = Some l2.
Proof.
  intros Hm. revert start l1 l2. induction fuel as [|fuel IH]; intros start l1 l2 Hs H1 H2 Hf; [lia|].
  cbn [follow]. rewrite (after_cookie_app _ _ _ H1 H2). rewrite length_firstn.
  case_bool_decide as Hl; [by rewrite firstn_all2 by lia|].
  assert (Hsplit : l2 = firstn max l2 ++ drop max l2) by (by rewrite take_drop).
  destruct (last (firstn max l2)) as [e|] eqn:Ee.
  2:{ apply last_None in Ee. apply (f_equal length) in Ee. rewrite length_firstn in Ee. simpl in Ee. lia. }
  assert (Hin : forall x, x ∈ firstn max l2 -> cookie_of x <= cookie_of e).
  { apply last_Some in Ee as [l' El]. intros x Hx. rewrite El in Hx.
    apply elem_of_app in Hx as [Hx| ->%list_elem_of_singleton]; [|done].
    rewrite Hsplit, El, !fmap_app in Hs. apply StronglySorted_app in Hs as (_ & Hs & _).
    apply StronglySorted_app in Hs as (Hlt & _ & _). apply Z.lt_le_incl, klt_Z, Hlt;
      [by apply list_elem_of_fmap_2|by left]. }
  assert (He : e ∈ firstn max l2) by (rewrite last_lookup in Ee; by eapply list_elem_of_lookup_2).
  rewrite Hsplit, fmap_app in Hs. apply StronglySorted_app in Hs as (Hlt & _ & Hs).
  assert (Hnext : follow fuel max (cookie_of e) ((l1 ++ firstn max l2) ++ drop max l2) = Some (drop max l2)).
  { apply IH.
    - exact Hs.
    - apply Forall_app. split; [|by apply Forall_forall].
      eapply Forall_impl; [exact H1|]. intros x Hx. rewrite Forall_forall in H2.
      assert (start < cookie_of e) by (apply H2; rewrite Hsplit; set_solver). cbn beta in *. lia.
    - apply Forall_forall. intros x Hx. apply klt_Z, Hlt; by apply list_elem_of_fmap_2.
    - rewrite length_drop. lia. }
  rewrite <- app_assoc, <- Hsplit in Hnext. cbn. rewrite Hnext. cbn. by rewrite <- Hsplit.
Qed.

Definition hashed (found : list (Z * path)) : list (Z * path) :=
  (fun e => (name_cookie (file_name e.2), e.2)) <$> found.

Lemma name_cookie_pos name : 0 <= name_cookie name.
Proof. unfold name_cookie. lia. Qed.

Lemma with_cookies_cookies found : cookie_of <$> with_cookies found = fst <$> assign_cookies (hashed found).
Proof. unfold with_cookies. by rewrite <- list_fmap_compose. Qed.

Lemma with_cookies_entries found :
  NoDup (snd <$> found) -> (fun e => (e.1.2, e.2)) <$> with_cookies found ≡ₚ found.
Proof.
  intros Hn. unfold with_cookies. set (ids := list_to_map _ : gmap path Z).
  rewrite <- list_fmap_compose. unfold compose. cbn [fst snd].
  trans ((fun p => (default 0 (ids !! p), p)) <$> (snd <$> assign_cookies (hashed found))).
  { by rewrite <- list_fmap_compose. }
  rewrite assign_cookies_perm. unfold hashed. rewrite <- !list_fmap_compose. unfold compose. cbn.
  apply reflexive_eq. rewrite <- (list_fmap_id found) at 2. apply list_fmap_ext. intros i [fid p] Hi.
  apply list_elem_of_lookup_2 in Hi. unfold id. cbn. f_equal.
  assert (E : ids !! p = Some fid); [|by rewrite E].
  apply elem_of_list_to_map_1.
  - rewrite reverse_Permutation, <- list_fmap_compose. exact Hn.
  - apply elem_of_reverse. apply list_elem_of_fmap. by exists (fid, p).
Qed.

(** C27. A directory comes in pages that chain: where no more than 255 names of it share the
    high bits of their hashes, the entries' cookies are positive, below 2^63 and strictly
    ascending, the entries are exactly the files found, and a client that follows the
    cookies, however few entries fit a page, gets each entry once, in order; and an entry
    alone with its high bits has a cookie that no other entry can change. *)
Theorem directory_pages_chain (found : list (Z * path)) (max : nat) :
  NoDup (snd <$> found) -> small_groups (hashed found) -> (1 <= max)%nat ->
  StronglySorted Z.lt (cookie_of <$> with_cookies found) /\
  Forall (fun e => 0 < cookie_of e < 2 ^ 63) (with_cookies found) /\
  (fun e => (e.1.2, e.2)) <$> with_cookies found ≡ₚ found /\
  follow (S (length found)) max 0 (with_cookies found) = Some (with_cookies found) /\
  forall e, e ∈ hashed found -> high e <> 0 ->
    (forall e', e' ∈ hashed found -> high e' = high e -> e' = e) ->
    (high e, e.2) ∈ (fun e => (cookie_of e, e.2)) <$> with_cookies found.
Proof.
  intros Hn Hg Hm. destruct (assign_cookies_ascend (hashed found)) as [Hasc Hrange].
  { unfold hashed. apply Forall_fmap, Forall_true. intros e. apply name_cookie_pos. }
  { unfold hashed. by rewrite <- list_fmap_compose. }
  { exact Hg. }
  rewrite <- with_cookies_cookies in Hasc, Hrange.
  assert (Hr : Forall (fun e => 0 < cookie_of e < 2 ^ 63) (with_cookies found)) by (by apply Forall_fmap in Hrange).
  split_and!.
  - by apply ascending_lt.
  - exact Hr.
  - by apply with_cookies_entries.
  - apply (follow_rest _ _ _ []); [done|done|constructor| |].
    + eapply Forall_impl; [exact Hr|]. intros e He. simpl in He. lia.
    + rewrite <- (length_fmap (fun e => (e.1.2, e.2)) (with_cookies found)).
      rewrite (Permutation_length (with_cookies_entries found Hn)). lia.
  - intros e He Hz Hu. unfold with_cookies. rewrite <- list_fmap_compose. unfold compose, cookie_of. cbn [fst snd].
    apply list_elem_of_fmap. exists (high e, e.2). split; [done|]. apply rank_cookies_alone; [|done|done|].
    + by rewrite (sort_on_perm cookie_key (hashed found)).
    + intros e' He'. rewrite (sort_on_perm cookie_key (hashed found)) in He'. by apply Hu.
Qed.
End pages.
