(* ===== verification/Confine.v ===== *)
(** The embedded NFS file system behind the server: the paths it hands to the host stay below
    the export root, and it is a file system the handlers of NfsHandlers.v may serve. *)

From Stdlib Require Import ZArith Lia.
From stdpp Require Import base option gmap list.
From S2P Require Import Prelude Ordered Sort Text Digest Errors Xdr Rpc Nfs Vfs NfsConform Passthrough PassthroughLaws.

Local Open Scope Z_scope.

(** ** Names and paths *)

Definition component (name : list byte) : Prop :=
  name <> [] /\ name <> bs "." /\ name <> bs ".." /\ (slash ∉ name) /\ (nul ∉ name).

#[export] Instance component_dec name : Decision (component name).
Proof. unfold component. apply _. Defined.

(** [p] is the root or a path of plain names below it. *)
Definition below (root p : path) : Prop := exists names, p = root ++ names /\ Forall component names.

Lemma below_root root : below root root.
Proof. exists []. by rewrite app_nil_r. Qed.

Lemma below_snoc root p name : below root p -> component name -> below root (p ++ [name]).
Proof.
  intros (ns & -> & Hns) Hn. exists (ns ++ [name]). split; [by rewrite app_assoc|].
  apply Forall_app. by split; [|constructor].
Qed.

Lemma below_child root dir name p : below root dir -> child_path root dir name = Ok p -> below root p.
Proof.
  intros Hd. unfold child_path.
  destruct (bool_decide (name = []) || _) eqn:E1; [by intros [= <-]|].
  apply orb_false_iff in E1 as [H1%bool_decide_eq_false H2%bool_decide_eq_false].
  case_bool_decide as H3.
  - intros [= <-]. case_bool_decide as Hr; [apply below_root|].
    destruct Hd as (ns & -> & Hns). destruct ns as [|x ns _] using rev_ind; [by rewrite app_nil_r in Hr|].
    apply Forall_app in Hns as [Hns _]. unfold parent. rewrite app_assoc.
    destruct ((root ++ ns) ++ [x]) eqn:E; [by destruct (root ++ ns)|]. rewrite <- E, removelast_last.
    exists ns. by split.
  - destruct (bool_decide (slash ∈ name) || _) eqn:E4; [done|].
    apply orb_false_iff in E4 as [H4%bool_decide_eq_false H5%bool_decide_eq_false].
    intros [= <-]. by apply below_snoc.
Qed.

(** ** What the host's documentation promises *)

Class HostLaws (H : Type) `{Host H} : Prop := {
  host_meta p h m h' : h_symlink_metadata p h = (Ok m, h') ->
    is_u32 (md_uid m) /\ is_u32 (md_gid m) /\ is_u64 (md_size m);
  host_entry p h l h' name : h_read_dir p h = (Ok l, h') -> Ok name ∈ l -> component name /\ zlen name < u32_max;
  host_link p h t h' : h_read_link p h = (Ok t, h') -> zlen t < u32_max;
}.

(** ** A host that keeps a list of the paths it was given *)

Record Logged (H : Type) := mkLogged { lg_host : H; lg_paths : list path }.
Arguments mkLogged {H}. Arguments lg_host {H}. Arguments lg_paths {H}.

Section logged.
Context {H : Type} {HH : Host H}.

Definition logged {A} (ps : list path) (op : M io_error H A) : M io_error (Logged H) A := fun h =>
  let '(r, x) := op (lg_host h) in (r, mkLogged x (ps ++ lg_paths h)).

#[export] Instance logged_host : Host (Logged H) := {|
  h_canonicalize p := logged [p] (h_canonicalize p);
  h_symlink_metadata p := logged [p] (h_symlink_metadata p);
  h_open o p := logged [p] (h_open o p);
  h_len f := logged [] (h_len f);
  h_seek f n := logged [] (h_seek f n);
  h_read f n := logged [] (h_read f n);
  h_write_all f b := logged [] (h_write_all f b);
  h_flush f := logged [] (h_flush f);
  h_sync_data f := logged [] (h_sync_data f);
  h_set_len f n := logged [] (h_set_len f n);
  h_create_dir p := logged [p] (h_create_dir p);
  h_remove_dir p := logged [p] (h_remove_dir p);
  h_remove_file p := logged [p] (h_remove_file p);
  h_rename p q := logged [p; q] (h_rename p q);
  h_hard_link p q := logged [p; q] (h_hard_link p q);
  h_symlink t p := logged [p] (h_symlink t p);
  h_read_link p := logged [p] (h_read_link p);
  h_read_dir p := logged [p] (h_read_dir p);
  h_chown p u g := logged [p] (h_chown p u g);
  h_set_permissions p m := logged [p] (h_set_permissions p m);
  h_set_atime p t := logged [p] (h_set_atime p t);
  h_set_mtime p t := logged [p] (h_set_mtime p t);
|}.

Lemma logged_ok {A} ps (op : M io_error H A) h a h' :
  logged ps op h = (Ok a, h') -> exists x x', op x = (Ok a, x').
Proof. unfold logged. destruct (op (lg_host h)) as [r x] eqn:E. intros [= -> _]. by eexists _, _. Qed.

#[export] Instance logged_laws {L : HostLaws H} : HostLaws (Logged H).
Proof.
  split.
  - intros p h m h' (x & x' & E)%logged_ok. by eapply host_meta.
  - intros p h l h' name (x & x' & E)%logged_ok. by eapply host_entry.
  - intros p h t h' (x & x' & E)%logged_ok. by eapply host_link.
Qed.
End logged.

(** ** Operations that keep below the root *)

Section confined.
Context {Hash : Hashers} {H : Type} {HH : Host H} {L : HostLaws H}.
Abbreviation W := (PassthroughFs (Logged H)).
Context (root : path).
Implicit Types (w : W) (p : path).

Definition confined w : Prop :=
  fs_root w = root /\ map_Forall (fun _ ps => Forall (below root) ps) (fs_map w) /\
  Forall (below root) (lg_paths (fs_host w)).

(** An operation of the server that keeps confined, and what its success gives; the same of
    an operation of the host. *)
Definition safe {E A} (m : M E W A) (P : A -> Prop) : Prop :=
  forall w, confined w -> confined (m w).2 /\ forall a, (m w).1 = Ok a -> P a.

Definition hsafe {A} (op : M io_error (Logged H) A) (P : A -> Prop) : Prop :=
  forall h, Forall (below root) (lg_paths h) ->
    Forall (below root) (lg_paths (op h).2) /\ forall a, (op h).1 = Ok a -> P a.

Lemma safe_bind {E A B} (m : M E W A) (f : A -> M E W B) P Q :
  safe m P -> (forall a, P a -> safe (f a) Q) -> safe (m ≫= f) Q.
Proof.
  intros Hm Hf w Hw. unfold mbind, M_bind. destruct (Hm w Hw) as [Hw1 Ha].
  destruct (m w) as [[a|e] w1]; simpl in *; [by apply (Hf a (Ha a eq_refl))|done].
Qed.

Lemma safe_ret {E A} (a : A) (P : A -> Prop) : P a -> safe (mret a : M E W A) P.
Proof. intros Hp w Hw. split; [done|]. by intros ? [= <-]. Qed.

Lemma safe_fail {E A} (e : E) (P : A -> Prop) : safe (fail e : M E W A) P.
Proof. intros w Hw. by split. Qed.

Lemma safe_any {E A} (m : M E W A) P : safe m P -> safe m (fun _ => True).
Proof. intros Hm w Hw. split; [by apply Hm|done]. Qed.

Lemma hsafe_bind {A B} (m : M io_error (Logged H) A) (f : A -> M io_error (Logged H) B) P Q :
  hsafe m P -> (forall a, P a -> hsafe (f a) Q) -> hsafe (m ≫= f) Q.
Proof.
  intros Hm Hf h Hh. unfold mbind, M_bind. destruct (Hm h Hh) as [Hh1 Ha].
  destruct (m h) as [[a|e] h1]; simpl in *; [by apply (Hf a (Ha a eq_refl))|done].
Qed.

Lemma hsafe_logged {A} ps (op : M io_error H A) : Forall (below root) ps -> hsafe (logged ps op) (fun _ => True).
Proof. intros Hps h Hh. unfold logged. destruct (op (lg_host h)). split; [by apply Forall_app|done]. Qed.

Lemma safe_host_raw {A} (op : M io_error (Logged H) A) P : hsafe op P -> safe (host_raw op) P.
Proof.
  intros Hop w (Hr & Hm & Hl). unfold host_raw. destruct (Hop _ Hl) as [Hl' Ha].
  destruct (op (fs_host w)) as [r h]; simpl in *. by split.
Qed.

Lemma safe_host {A} (op : M io_error (Logged H) A) P : hsafe op P -> safe (host op) P.
Proof.
  intros Hop w Hw. destruct (safe_host_raw op P Hop w Hw) as [Hw' Ha]. unfold host.
  destruct (host_raw op w) as [[a|e] w']; simpl in *; (split; [done|]); [|done]. intros ? [= <-]. by apply Ha.
Qed.

Lemma safe_or_io {A} (op : M io_error (Logged H) A) P : hsafe op P -> safe (or_io op) P.
Proof.
  intros Hop w Hw. destruct (safe_host_raw op P Hop w Hw) as [Hw' Ha]. unfold or_io.
  destruct (host_raw op w) as [[a|e] w']; simpl in *; (split; [done|]); [|done]. intros ? [= <-]. by apply Ha.
Qed.

Lemma safe_ignore {E A} (op : M E W A) P : safe op P -> safe (ignore op) (fun _ => True).
Proof. intros Hop w Hw. split; [by apply Hop|done]. Qed.

Lemma safe_ask {E E' A} (op : M E W A) P :
  safe op P -> safe (ask (E' := E') op) (fun r => forall a, r = Ok a -> P a).
Proof.
  intros Hop w Hw. destruct (Hop w Hw) as [Hw' Ha]. unfold ask. destruct (op w) as [r w']. simpl in *.
  split; [done|]. by intros ? [= <-].
Qed.

(** ** The server's own pieces *)

Lemma retain_named_below id ps (h : Logged H) :
  Forall (below root) ps -> Forall (below root) (lg_paths h) ->
  Forall (below root) (retain_named id ps h).1 /\ Forall (below root) (lg_paths (retain_named id ps h).2).
Proof.
  revert h. induction ps as [|p ps IH]; intros h Hps Hh; [done|]. apply Forall_cons in Hps as [Hp Hps].
  cbn [retain_named h_symlink_metadata logged_host]. unfold logged.
  destruct (h_symlink_metadata p (lg_host h)) as [r x].
  destruct (IH (mkLogged x ([p] ++ lg_paths h)) Hps) as [IH1 IH2]; [by constructor|].
  destruct (retain_named id ps _) as [kept h2]. simpl in *. split; [|done].
  destruct r; [case_bool_decide|]; [by constructor|done..].
Qed.

Lemma safe_path_of id : safe (path_of id) (below root).
Proof.
  intros w (Hr & Hm & Hl). unfold path_of. destruct (fs_map w !! id) as [ps|] eqn:E; [|by split].
  destruct (retain_named_below id ps (fs_host w) (Hm _ _ E) Hl) as [Hps Hh].
  destruct (retain_named id ps (fs_host w)) as [[|p ps'] h]; simpl in *.
  - split; [|done]. split_and!; [done|by apply map_Forall_delete|done].
  - split; [|intros ? [= <-]; by apply Forall_cons in Hps as [? _]].
    split_and!; [done|by apply map_Forall_insert_2|done].
Qed.

Lemma safe_note_path id p : below root p -> safe (note_path id p) (fun _ => True).
Proof.
  intros Hp w (Hr & Hm & Hl). split; [|done]. split_and!; [done| |done].
  apply map_Forall_insert_2; [|done].
  assert (Hps : Forall (below root) (default [] (fs_map w !! id))).
  { destruct (fs_map w !! id) eqn:E; [by eapply Hm|constructor]. }
  case_bool_decide; [done|]. apply Forall_app. by split; [|constructor].
Qed.

Lemma safe_forget_path id p : safe (forget_path id p) (fun _ => True).
Proof.
  intros w (Hr & Hm & Hl). split; [|by destruct w]. unfold forget_path. destruct (fs_map w !! id) as [ps|] eqn:E; [|done].
  assert (Hps : Forall (below root) (filter (fun q => q <> p) ps)) by (apply Forall_forall; intros q [_ Hq]%list_elem_of_filter; by eapply (proj1 (Forall_forall _ _) (Hm _ _ E))).
  destruct (filter _ ps) eqn:Ef; (split_and!; [done| |done]); [by apply map_Forall_delete|by apply map_Forall_insert_2].
Qed.

Lemma safe_child dir name : below root dir -> safe (child dir name) (below root).
Proof.
  intros Hd w Hw. unfold child, asks, mbind, M_bind, lift. cbn. split; [done|]. destruct Hw as [-> _].
  intros p. by apply below_child.
Qed.

Lemma hsafe_call {A} ps (op : M io_error H A) (call : M io_error (Logged H) A) :
  call = logged ps op -> Forall (below root) ps -> hsafe call (fun _ => True).
Proof. intros ->. apply hsafe_logged. Qed.

Create HintDb confine.
#[local] Hint Extern 2 (hsafe _ _) =>
  (eapply hsafe_call; [reflexivity|repeat constructor; assumption]) : confine.
#[local] Hint Resolve safe_path_of safe_note_path safe_forget_path safe_child safe_host safe_host_raw
  safe_or_io safe_ignore safe_ask safe_any safe_ret safe_fail : confine.

(** One bind: its first half is known, the rest is to be shown. *)
Ltac confine_step :=
  match goal with
  | |- safe (_ ≫= _) _ => eapply safe_bind; [solve [eauto 4 with confine]|cbn beta; intros ? ?]
  | |- safe (if ?b then _ else _) _ => destruct b
  | |- safe (match ?x with _ => _ end) _ => destruct x
  end.
Ltac confine := repeat confine_step; eauto 4 with confine.

Lemma safe_register p : below root p -> safe (register p) (fun _ => True).
Proof. intros Hp. unfold register. confine. Qed.
#[local] Hint Resolve safe_register : confine.

Lemma safe_chown_new id dirid cred : safe (chown_new id dirid cred) (fun _ => True).
Proof.
  unfold chown_new. eapply safe_bind; [eauto with confine|cbn beta; intros r1 H1].
  eapply safe_bind; [eauto with confine|cbn beta; intros r2 H2].
  destruct r1 as [p|], r2 as [q|]; [|confine..].
  pose proof (H1 p eq_refl). pose proof (H2 q eq_refl). confine.
Qed.

Lemma safe_set_time (set : path -> option nfstime3 -> M io_error (Logged H) ()) p t :
  (forall t, hsafe (set p t) (fun _ => True)) -> safe (set_time_of set p t) (fun _ => True).
Proof. intros Hset. unfold set_time_of. destruct t; eauto with confine. Qed.

Lemma safe_path_setattr p attr : below root p -> safe (path_setattr p attr) (fun _ => True).
Proof.
  intros Hp. unfold path_setattr.
  eapply safe_bind; [apply safe_set_time; eauto with confine|intros ? ?].
  eapply safe_bind; [apply safe_set_time; eauto with confine|intros ? ?].
  eapply safe_bind; [destruct (sa_mode attr); confine|intros ? ?]. confine.
Qed.
#[local] Hint Resolve safe_chown_new safe_path_setattr : confine.

Lemma safe_made_at dirid name make :
  (forall p, below root p -> safe (make p) (fun _ => True)) -> safe (made_at dirid name make) (fun _ => True).
Proof. intros Hm. unfold made_at. confine. Qed.

Lemma hsafe_fill fuel f left_ : hsafe (fill fuel f left_) (fun _ => True).
Proof.
  revert left_. induction fuel as [|fuel IH]; intros left_; cbn [fill]; [intros h Hh; by split|].
  case_bool_decide; [intros h Hh; by split|].
  eapply hsafe_bind; [eauto with confine|intros b _]. destruct (firstn _ b); [intros h Hh; by split|].
  eapply hsafe_bind; [apply IH|intros ? _]. intros h Hh. by split.
Qed.
#[local] Hint Resolve safe_made_at hsafe_fill : confine.

(** The names of a listing are plain. *)
Lemma hsafe_scan_dir dir l :
  below root dir -> (forall name, Ok name ∈ l -> component name) ->
  hsafe (scan_dir dir l) (fun found => Forall (fun e => below root e.2) found).
Proof.
  intros Hd. induction l as [|[name|e] l IH]; intros Hl; cbn [scan_dir].
  - intros h Hh. split; [done|]. by intros ? [= <-].
  - intros h Hh. cbn [h_symlink_metadata logged_host]. unfold logged.
    assert (Hn : below root (dir ++ [name])) by (apply below_snoc; [done|apply Hl; by left]).
    destruct (h_symlink_metadata (dir ++ [name]) (lg_host h)) as [r x]. revert h Hh. intros h Hh.
    assert (Hh' : Forall (below root) (lg_paths (mkLogged x ([dir ++ [name]] ++ lg_paths h)))) by (by constructor).
    revert Hh'. generalize (mkLogged x ([dir ++ [name]] ++ lg_paths h)).
    refine (hsafe_bind _ _ _ _ (IH _) _); [intros; apply Hl; by right|]. intros found Hf.
    intros h' Hh'. split; [done|]. intros ? [= <-]. destruct r; [by constructor|done].
  - intros h Hh. by split.
Qed.

Lemma after_cookie_below k (es : list (Z * Z * path)) :
  Forall (fun e => below root e.2) es -> Forall (fun e => below root e.2) (after_cookie k es).
Proof. apply Forall_drop. Qed.

Lemma with_cookies_below found :
  Forall (fun e => below root e.2) found -> Forall (fun e => below root e.2) (with_cookies found).
Proof.
  intros Hf. apply Forall_forall. intros e He. unfold with_cookies in He.
  apply list_elem_of_fmap in He as (e' & -> & He'). cbn.
  apply (list_elem_of_fmap_2 snd) in He'. rewrite assign_cookies_perm in He'. unfold hashed in He'.
  rewrite <- list_fmap_compose in He'. apply list_elem_of_fmap in He' as (e0 & -> & He0). cbn.
  by apply (proj1 (Forall_forall _ _) Hf).
Qed.

Lemma safe_emit_entries es : Forall (fun e => below root e.2) es -> safe (emit_entries es) (fun _ => True).
Proof.
  induction es as [|[[c id] p] es IH]; intros Hes; cbn [emit_entries]; [eauto with confine|].
  apply Forall_cons in Hes as [Hp Hes]. cbn in Hp. specialize (IH Hes). confine.
Qed.

Lemma safe_read_dir dir : below root dir ->
  safe (host (h_read_dir dir)) (fun l => forall name, Ok name ∈ l -> component name).
Proof.
  intros Hd. apply safe_host. intros h Hh. destruct (hsafe_logged [dir] (h_read_dir dir)) with (h := h) as [Hh' _]; [by constructor|done|].
  split; [exact Hh'|]. intros l E name Hn. cbn [h_read_dir logged_host] in E. unfold logged in E.
  destruct (h_read_dir dir (lg_host h)) as [r x] eqn:Er. simpl in E. subst r. by eapply host_entry.
Qed.

Lemma safe_getattr id : safe (pt_getattr id) (fun _ => True).
Proof. unfold pt_getattr. confine. Qed.
#[local] Hint Resolve safe_getattr : confine.

Lemma safe_readdir dirid start max : safe (pt_readdir dirid start max) (fun _ => True).
Proof.
  unfold pt_readdir. do 2 confine_step. destruct (negb _); [apply safe_fail|].
  eapply safe_bind; [by apply safe_read_dir|intros l Hl].
  eapply safe_bind; [apply safe_host; by apply hsafe_scan_dir|intros found Hf].
  eapply safe_bind; [|intros; eauto with confine].
  apply safe_emit_entries, Forall_take, after_cookie_below, with_cookies_below, Hf.
Qed.

Lemma safe_with_attr {A B} (m : M nfsstat3 W A) (f : A -> B) :
  safe m (fun _ => True) -> safe (a ← m; mret (f a)) (fun _ => True).
Proof. intros Hm. eapply safe_bind; [exact Hm|intros; eauto with confine]. Qed.

Lemma safe_create dirid name attr : safe (pt_create dirid name attr) (fun _ => True).
Proof. apply safe_with_attr, safe_made_at. intros p Hp. confine. Qed.

Lemma safe_create_exclusive dirid name : safe (pt_create_exclusive dirid name) (fun _ => True).
Proof. apply safe_with_attr, safe_made_at. intros p Hp. confine. Qed.

Lemma safe_mkdir dirid name : safe (pt_mkdir dirid name) (fun _ => True).
Proof. apply safe_with_attr, safe_made_at. intros p Hp. confine. Qed.

Lemma safe_write_stable id offset data stable : safe (pt_write_stable id offset data stable) (fun _ => True).
Proof.
  unfold pt_write_stable. do 5 confine_step. eapply safe_bind; [destruct stable; confine|intros ? ?]. confine.
Qed.
#[local] Hint Resolve safe_create safe_create_exclusive safe_mkdir safe_write_stable : confine.

(** What a client may ask for. *)
Inductive fs_call :=
| CLookup (dirid : Z) (name : list byte)
| CGetattr (id : Z)
| CSetattr (id : Z) (attr : sattr3)
| CRead (id offset count : Z)
| CWrite (id offset : Z) (data : list byte) (stable : bool)
| CCommit (id offset count : Z)
| CCreate (dirid : Z) (name : list byte) (attr : sattr3) (cred : UnixCred)
| CCreateExclusive (dirid : Z) (name : list byte) (cred : UnixCred)
| CMkdir (dirid : Z) (name : list byte) (cred : UnixCred)
| CRemove (dirid : Z) (name : list byte)
| CRename (from : Z) (from_name : list byte) (to : Z) (to_name : list byte)
| CReaddir (dirid start max : Z)
| CSymlink (dirid : Z) (name target : list byte) (attr : sattr3)
| CReadlink (id : Z)
| CLink (id dirid : Z) (name : list byte)
| CFsinfo (id : Z).

Definition fs_serve {X : Type} `{!NFSFileSystem X} (c : fs_call) (w : X) : X :=
  match c with
  | CLookup d n => (lookup d n w).2
  | CGetattr i => (getattr i w).2
  | CSetattr i a => (setattr i a w).2
  | CRead i o n => (read i o n w).2
  | CWrite i o b s => (write_stable i o b s w).2
  | CCommit i o n => (commit i o n w).2
  | CCreate d n a c => (create_with_cred d n a c w).2
  | CCreateExclusive d n c => (create_exclusive_with_cred d n c w).2
  | CMkdir d n c => (mkdir_with_cred d n c w).2
  | CRemove d n => (remove d n w).2
  | CRename f fn t tn => (rename f fn t tn w).2
  | CReaddir d s m => (readdir d s m w).2
  | CSymlink d n t a => (symlink d n t a w).2
  | CReadlink i => (readlink i w).2
  | CLink i d n => (link i d n w).2
  | CFsinfo i => (fsinfo i w).2
  end.

Lemma serve_confined c w : confined w -> confined (fs_serve c w).
Proof.
  assert (Hany : forall A (m : M nfsstat3 W A), safe m (fun _ => True) -> confined w -> confined (m w).2)
    by (intros ?? Hm ?; by apply Hm).
  intros Hw. destruct c; cbn [fs_serve passthrough_fs lookup getattr setattr read write_stable commit create_with_cred
    create_exclusive_with_cred mkdir_with_cred remove rename readdir symlink readlink link fsinfo];
    (eapply Hany; [|exact Hw]).
  - unfold pt_lookup. confine.
  - apply safe_getattr.
  - unfold pt_setattr. do 2 confine_step. eapply safe_bind; [destruct (sa_uid attr), (sa_gid attr); confine|intros ? ?].
    confine.
  - unfold pt_read. confine.
  - apply safe_write_stable.
  - unfold pt_commit. confine.
  - unfold pt_create_with_cred. confine.
  - unfold pt_create_exclusive_with_cred. confine.
  - unfold pt_mkdir_with_cred. confine.
  - unfold pt_remove. do 3 confine_step.
    eapply safe_bind; [destruct (bool_decide (md_type _ = TDir)); confine|intros ? ?]. confine.
  - unfold pt_rename. confine.
  - apply safe_readdir.
  - apply safe_with_attr, safe_made_at. intros p Hp. confine.
  - unfold pt_readlink. confine.
  - unfold pt_link. eapply safe_bind; [apply safe_path_of|intros e He].
    apply safe_with_attr, safe_made_at. intros p Hp. confine.
  - unfold default_fsinfo. eapply safe_bind; [apply safe_ask, safe_getattr|intros ? _]. confine.
Qed.

(** C12. The paths stay in the export: whatever requests a server just started on a root serves,
    in whatever order and whatever the host answers them, each path it ever hands to the
    host is the root followed by plain names, never empty, [.], [..], with a slash or a nul. *)
Theorem paths_stay_in_the_export (h : H) (id : Z) (calls : list fs_call) :
  forall p, p ∈ lg_paths (fs_host (foldr fs_serve (mkFs (mkLogged h []) root {[id := [root]]} id) calls)) ->
  exists names, p = root ++ names /\ Forall component names.
Proof.
  assert (H0 : confined (foldr fs_serve (mkFs (mkLogged h []) root {[id := [root]]} id) calls)).
  { induction calls as [|c calls IH]; simpl; [|by apply serve_confined].
    split_and!; [done| |constructor]. apply map_Forall_singleton. constructor; [apply below_root|constructor]. }
  destruct H0 as (_ & _ & Hl). intros p Hp. exact (proj1 (Forall_forall _ _) Hl p Hp).
Qed.
End confined.

(** ** The server's handlers may serve it *)

Section valid.
Context {Hash : Hashers} {H : Type} {HH : Host H} {L : HostLaws H}.
Abbreviation FS := (PassthroughFs H).

Lemma sound_bind {W A B} (m : M nfsstat3 W A) (f : A -> M nfsstat3 W B) P Q :
  sound P m -> (forall a, P a -> sound Q (f a)) -> sound Q (m ≫= f).
Proof.
  intros Hm Hf w. unfold mbind, M_bind. specialize (Hm w). destruct (m w) as [[a|e] w1]; simpl in *; [by apply Hf|done].
Qed.

Lemma sound_ret {W A} (a : A) (P : A -> Prop) : P a -> sound P (mret a : M nfsstat3 W A).
Proof. by intros Ha w. Qed.

Lemma sound_fail {W A} e (P : A -> Prop) : e <> NFS3_OK -> sound P (fail e : M nfsstat3 W A).
Proof. by intros He w. Qed.

Lemma io_to_nfs_error e : io_to_nfs e <> NFS3_OK.
Proof. unfold io_to_nfs. by destruct (ie_kind e). Qed.

Lemma sound_host {A} (op : M io_error H A) (P : A -> Prop) :
  (forall h a h', op h = (Ok a, h') -> P a) -> sound P (host op : M nfsstat3 FS A).
Proof.
  intros Hop w. unfold host, host_raw. destruct (op (fs_host w)) as [[a|e] h] eqn:E; simpl; [by eapply Hop|].
  apply io_to_nfs_error.
Qed.

Lemma sound_host_any {A} (op : M io_error H A) : sound (fun _ => True) (host op : M nfsstat3 FS A).
Proof. by apply sound_host. Qed.

Lemma sound_meta p :
  sound (fun m => is_u32 (md_uid m) /\ is_u32 (md_gid m) /\ is_u64 (md_size m))
    (host (h_symlink_metadata p) : M nfsstat3 FS _).
Proof. apply sound_host. apply host_meta. Qed.

Lemma sound_path_of id : sound (fun _ => True) (path_of id : M nfsstat3 FS _).
Proof.
  intros w. unfold path_of. destruct (fs_map w !! id) as [ps|]; [|done].
  destruct (retain_named id ps (fs_host w)) as [[|p ps'] h]; done.
Qed.

Lemma sound_child dir name : sound (fun _ => True) (child dir name : M nfsstat3 FS _).
Proof.
  intros w. unfold child, asks, mbind, M_bind, lift, child_path. cbn. repeat case_match; simplify_eq; done.
Qed.

Lemma sound_register p :
  sound (fun r => is_u64 r.1 /\ xdr_valid (metadata_to_fattr3 r.1 r.2)) (register p : M nfsstat3 FS _).
Proof.
  unfold register. eapply sound_bind; [apply sound_meta|intros m (Hu & Hg & Hsz)].
  eapply (sound_bind _ _ (fun _ => True)); [by intros w|intros [] _]. apply sound_ret.
  split; [apply fileid_u64|]. by apply metadata_to_fattr3_valid; [apply fileid_u64|..].
Qed.

Lemma sound_getattr id : is_u64 id -> sound xdr_valid (pt_getattr id : M nfsstat3 FS _).
Proof.
  intros Hid. unfold pt_getattr. eapply sound_bind; [apply sound_path_of|intros p _].
  eapply sound_bind; [apply sound_meta|intros m (Hu & Hg & Hsz)]. apply sound_ret. by apply metadata_to_fattr3_valid.
Qed.

Lemma sound_ignore {E A} (op : M E FS A) : sound (fun _ => True) (ignore op).
Proof. by intros w. Qed.

Lemma sound_or_io {A} (op : M io_error H A) : sound (fun _ => True) (or_io op : M nfsstat3 FS A).
Proof. intros w. unfold or_io. by destruct (host_raw op w) as [[a|e] w']. Qed.

Lemma sound_path_setattr p attr : sound (fun _ => True) (path_setattr p attr : M nfsstat3 FS _).
Proof.
  assert (Ht : forall set t, sound (fun _ => True) (set_time_of set p t : M nfsstat3 FS _)).
  { intros set []; try apply sound_ignore. by apply sound_ret. }
  unfold path_setattr. do 2 (eapply sound_bind; [apply Ht|intros ? _]).
  eapply (sound_bind _ _ (fun _ => True)); [destruct (sa_mode attr); [apply sound_ignore|by apply sound_ret]|intros ? _].
  destruct (sa_size attr); [|by apply sound_ret]. eapply sound_bind; [apply sound_or_io|intros ? _; apply sound_or_io].
Qed.

Lemma sound_made_at dirid name make :
  (forall p, sound (fun _ => True) (make p)) ->
  sound (fun r => is_u64 r.1 /\ xdr_valid (metadata_to_fattr3 r.1 r.2)) (made_at dirid name make : M nfsstat3 FS _).
Proof.
  intros Hm. unfold made_at. eapply sound_bind; [apply sound_path_of|intros dir _].
  eapply sound_bind; [apply sound_child|intros p _]. eapply sound_bind; [apply Hm|intros ? _; apply sound_register].
Qed.

Lemma sound_chown_new id dirid cred : sound (fun _ => True) (chown_new id dirid cred : M nfsstat3 FS _).
Proof.
  intros w. unfold chown_new, ask, mbind, M_bind. destruct (path_of id w) as [[p|] w1], (path_of dirid w1) as [[q|] w2]; try done.
  by destruct (host (h_symlink_metadata q) w2) as [m w3].
Qed.

(** The entries of a listing. *)
Definition valid_found (e : Z * path) : Prop := is_u64 e.1 /\ zlen (file_name e.2) < u32_max.

Definition valid_listed (e : Z * Z * path) : Prop :=
  is_u64 e.1.1 /\ is_u64 e.1.2 /\ zlen (file_name e.2) < u32_max.

Lemma scan_dir_valid dir l (h : H) found h' :
  (forall name, Ok name ∈ l -> zlen name < u32_max) ->
  scan_dir dir l h = (Ok found, h') -> Forall valid_found found.
Proof.
  revert h found h'. induction l as [|[name|e] l IH]; intros h found h' Hl; cbn [scan_dir]; [by intros [= <- <-]| |done].
  destruct (h_symlink_metadata (dir ++ [name]) h) as [r h1] eqn:Er.
  intros (rest & h2 & E & [= <- <-])%M_bind_inv.
  assert (Hrest : Forall valid_found rest) by (eapply IH; [|exact E]; intros n Hn; apply Hl; by right).
  destruct r as [m|]; [|done]. constructor; [|done]. split; [apply fileid_u64|].
  unfold file_name. cbn. rewrite last_snoc. apply Hl. by left.
Qed.

Lemma rank_cookies_u64 v rank prev :
  0 <= rank -> Forall (fun e => 0 <= e.1) v -> Forall (fun e => is_u64 e.1) (rank_cookies rank prev v).
Proof.
  revert rank prev. induction v as [|e v IH]; intros rank prev Hr Hv; cbn [rank_cookies]; [done|].
  apply Forall_cons in Hv as [He Hv]. destruct (high_multiple e.1 He) as (q & Hq & Eh).
  constructor; [|apply IH; [case_bool_decide; lia|done]]. cbn. fold (high e) in Eh. rewrite Eh.
  rewrite lor_low by (repeat case_bool_decide; lia). unfold is_u64, u64_max. repeat case_bool_decide; lia.
Qed.

Lemma with_cookies_valid found : Forall valid_found found -> Forall valid_listed (with_cookies found).
Proof.
  intros Hf. unfold with_cookies. set (ids := list_to_map _ : gmap path Z).
  assert (Hids : forall p, is_u64 (default 0 (ids !! p))).
  { intros p. destruct (ids !! p) as [z|] eqn:Ez; [|by vm_compute].
    apply elem_of_list_to_map_2, elem_of_reverse, list_elem_of_fmap in Ez as (e & [= -> ->] & He). cbn.
    by apply (proj1 (Forall_forall _ _) Hf) in He as [? _]. }
  assert (Hc : Forall (fun e : Z * path => is_u64 e.1) (assign_cookies (hashed found))).
  { apply rank_cookies_u64; [done|]. apply Forall_forall. intros e He.
    rewrite (sort_on_perm cookie_key (hashed found)) in He.
    apply list_elem_of_fmap in He as (e' & -> & _). apply name_cookie_pos. }
  apply Forall_fmap, Forall_forall. intros e He. split_and!; cbn; [by apply (proj1 (Forall_forall _ _) Hc)|apply Hids|].
  apply (list_elem_of_fmap_2 snd) in He. rewrite assign_cookies_perm in He. unfold hashed in He.
  rewrite <- list_fmap_compose in He. apply list_elem_of_fmap in He as (e' & -> & He').
  by apply (proj1 (Forall_forall _ _) Hf) in He' as [_ ?].
Qed.

Lemma sound_emit_entries es : Forall valid_listed es ->
  sound (fun l => Forall valid_direntry l) (emit_entries es : M nfsstat3 FS _).
Proof.
  induction es as [|[[c id] p] es IH]; intros Hes; cbn [emit_entries]; [by apply sound_ret|].
  apply Forall_cons in Hes as [(Hc & Hid & Hn) Hes].
  eapply sound_bind; [apply sound_meta|intros m (Hu & Hg & Hsz)].
  eapply (sound_bind _ _ (fun _ => True)); [by intros w|intros [] _].
  eapply sound_bind; [by apply IH|intros rest Hrest]. apply sound_ret. constructor; [|done].
  split_and!; try done. by apply metadata_to_fattr3_valid.
Qed.

Lemma sound_readdir dirid start max :
  sound (fun r => Forall valid_direntry (rd_entries r)) (pt_readdir dirid start max : M nfsstat3 FS _).
Proof.
  unfold pt_readdir. eapply sound_bind; [apply sound_path_of|intros dir _].
  eapply sound_bind; [apply sound_meta|intros m _]. destruct (negb _); [apply sound_fail; done|].
  eapply sound_bind; [apply (sound_host _ (fun l => forall name, Ok name ∈ l -> zlen name < u32_max))|intros l Hl].
  { intros h l h' E name Hn. by eapply host_entry. }
  eapply sound_bind; [apply (sound_host _ (Forall valid_found)); intros h a h' E; by apply (scan_dir_valid dir l h a h' Hl E)|intros found Hf].
  eapply sound_bind; [|intros es Hes; by apply sound_ret].
  apply sound_emit_entries, Forall_take, Forall_drop, with_cookies_valid, Hf.
Qed.

Lemma sound_with_attr dirid name make : (forall p, sound (fun _ => True) (make p)) ->
  sound valid_new (r ← made_at dirid name make; mret (with_attr r) : M nfsstat3 FS _).
Proof. intros Hm. eapply sound_map; [by apply sound_made_at|]. by intros r Hr. Qed.

Lemma sound_write_stable id offset data stable :
  is_u64 id -> sound (fun r => xdr_valid r.1) (pt_write_stable id offset data stable : M nfsstat3 FS _).
Proof.
  intros Hid. unfold pt_write_stable. eapply sound_bind; [apply sound_path_of|intros p _].
  do 4 (eapply sound_bind; [apply sound_host_any|intros ? _]).
  eapply sound_bind; [destruct stable; [apply sound_host_any|by apply sound_ret]|intros ? _].
  by apply (sound_map _ _ xdr_valid); [apply sound_getattr|].
Qed.

Lemma sound_create dirid name attr : sound valid_new (pt_create dirid name attr : M nfsstat3 FS _).
Proof.
  apply sound_with_attr. intros p. eapply sound_bind; [apply sound_host_any|intros ? _]. apply sound_ignore.
Qed.

Lemma sound_create_exclusive dirid name : sound is_u64 (pt_create_exclusive dirid name : M nfsstat3 FS _).
Proof.
  eapply sound_map; [apply sound_made_at|by intros r [? _]].
  intros p. eapply sound_bind; [apply sound_host_any|intros ? _; by apply sound_ret].
Qed.

Lemma sound_mkdir dirid name : sound valid_new (pt_mkdir dirid name : M nfsstat3 FS _).
Proof. apply sound_with_attr. intros p. apply sound_host_any. Qed.

(** The attributes of a new object once it has its owner. *)
Lemma sound_owned dirid cred r : valid_new r ->
  sound valid_new (_ ← chown_new r.1 dirid cred; a ← pt_getattr r.1; mret (r.1, a) : M nfsstat3 FS _).
Proof.
  intros [Hid _]. eapply sound_bind; [apply sound_chown_new|intros ? _].
  by apply (sound_map _ _ xdr_valid); [apply sound_getattr|].
Qed.

Lemma fh_to_id_valid fh : match pt_fh_to_id fh with Ok id => is_u64 id | Err e => e <> NFS3_OK end.
Proof.
  unfold pt_fh_to_id. case_bool_decide as Hl; [|done]. pose proof (le_val_range (fh_data fh)) as Hr.
  unfold zlen in Hr. rewrite Hl in Hr. change (256 ^ Z.of_nat 8) with (2 ^ 64) in Hr. unfold is_u64, u64_max. lia.
Qed.

#[export] Instance passthrough_valid : ValidVfs FS.
Proof.
  split; intros; cbn [fh_to_id id_to_fh serverid lookup getattr setattr read write_stable commit create_with_cred
    create_exclusive_with_cred mkdir_with_cred remove rename readdir readdir_simple symlink readlink link fsinfo passthrough_fs].
  - apply fh_to_id_valid.
  - change (zlen (le_bytes 8 id) < u32_max). unfold zlen. by rewrite length_le_bytes.
  - done.
  - unfold pt_lookup. eapply sound_bind; [apply sound_path_of|intros ? _].
    eapply sound_bind; [apply sound_child|intros ? _]. eapply sound_map; [apply sound_register|by intros r [? _]].
  - by apply sound_getattr.
  - unfold pt_setattr. eapply sound_bind; [apply sound_path_of|intros ? _].
    eapply sound_bind; [apply sound_path_setattr|intros ? _]. eapply sound_bind; [|intros ? _; by apply sound_getattr].
    destruct (sa_uid attr), (sa_gid attr); try apply sound_host_any. by apply sound_ret.
  - unfold pt_read. eapply sound_bind; [apply sound_path_of|intros ? _].
    do 4 (eapply sound_bind; [apply sound_host_any|intros ? _]). by apply sound_ret.
  - by apply sound_write_stable.
  - unfold pt_commit. eapply sound_bind; [apply sound_path_of|intros ? _].
    eapply sound_bind; [apply sound_host_any|intros ? _; apply sound_host_any].
  - eapply sound_bind; [apply sound_create|intros r Hr]. by apply sound_owned.
  - eapply sound_bind; [apply sound_create_exclusive|intros id Hid].
    eapply sound_bind; [apply sound_chown_new|intros ? _; by apply sound_ret].
  - eapply sound_bind; [apply sound_mkdir|intros r Hr]. by apply sound_owned.
  - apply sound_with_attr. intros p. apply sound_host_any.
  - unfold pt_remove. eapply sound_bind; [apply sound_path_of|intros ? _].
    eapply sound_bind; [apply sound_child|intros ? _]. eapply sound_bind; [apply sound_meta|intros ? _].
    eapply sound_bind; [apply sound_host_any|intros ? _]. intros w. unfold forget_path. by destruct (fs_map w !! _).
  - unfold pt_rename. do 2 (eapply sound_bind; [apply sound_path_of|intros ? _]).
    do 2 (eapply sound_bind; [apply sound_child|intros ? _]). eapply sound_bind; [apply sound_host_any|intros ? _; apply sound_ignore].
  - unfold pt_link. eapply sound_bind; [apply sound_path_of|intros ? _].
    eapply sound_map; [apply sound_made_at; intros; apply sound_host_any|by intros r [_ ?]].
  - unfold pt_readlink. eapply sound_bind; [apply sound_path_of|intros ? _].
    apply sound_host. apply host_link.
  - apply sound_readdir.
  - apply (sound_map _ _ (fun r => Forall valid_direntry (rd_entries r))); [apply sound_readdir|].
    intros r Hr. apply Forall_fmap. eapply Forall_impl; [exact Hr|]. by intros e (? & ? & ? & ?).
  - eapply sound_map; [by apply sound_ask, sound_getattr|].
    intros r Hr. split; [by apply valid_attributes|]. by split_and!.
Qed.
End valid.
