(* ===== verification/PassthroughExample.v ===== *)
(** The embedded NFS file system over a small host of files, directories and symbolic links,
    evaluated: a session of a client, the hypotheses of the theorems about it, and a symbolic
    link that leads out of the export. *)

From Stdlib Require Import ZArith Lia.
From stdpp Require Import base option gmap list sorting.
From S2P Require Import Prelude Ordered Sort Text Digest Errors Xdr Rpc Nfs Vfs NfsConform Passthrough PassthroughLaws Confine.

Local Open Scope Z_scope.
Import Checksum.

(** ** A host *)

Inductive inode :=
| IFile (content : list byte)
| IDir (entries : list (list byte * Z))
| ILink (target : list byte).

(** Inodes by number, of which 1 is the host's root; a descriptor is an inode and where its
    next byte is. *)
Record posix := mkPosix { px_inodes : gmap Z inode; px_fds : list (Z * Z) }.

Definition entry (es : list (list byte * Z)) (name : list byte) : option Z :=
  snd <$> find (fun e => bool_decide (e.1 = name)) es.

(** Follows every symbolic link but, if so asked, the last component's. *)
Fixpoint resolve (fuel : nat) (t : gmap Z inode) (cur : Z) (p : path) (follow : bool) : option Z :=
  match fuel, p with
  | O, _ => None
  | S _, [] => Some cur
  | S fuel, name :: rest =>
      match t !! cur with
      | Some (IDir es) =>
          i ← entry es name;
          match t !! i with
          | Some (ILink target) =>
              if bool_decide (rest = []) && negb follow then Some i
              else
                let from := if bool_decide (head target = Some slash) then 1 else cur in
                resolve fuel t from (filter (fun c => c <> []) (split_on slash target) ++ rest) follow
          | _ => resolve fuel t i rest follow
          end
      | _ => None
      end
  end.

Definition px_error (k : ErrorKind) : io_error := mkIoError k [].

Definition px_at {A} (p : path) (follow : bool) (f : Z -> inode -> M io_error posix A) : M io_error posix A := fun h =>
  match resolve 40 (px_inodes h) 1 p follow with
  | Some i => match px_inodes h !! i with Some n => f i n h | None => (Err (px_error NotFound), h) end
  | None => (Err (px_error NotFound), h)
  end.

Definition px_meta (i : Z) (n : inode) : Metadata :=
  let '(ty, mode, size) := match n with
    | IFile c => (TRegular, 0x81a4, wrap64 (zlen c))
    | IDir _ => (TDir, 0x41ed, 2)
    | ILink t => (TSymlink, 0xa1ff, wrap64 (zlen t))
    end in
  mkMeta ty 1 i mode 0 0 size (0, 0) (0, 0) (0, 0).

Definition px_fail {A} : M io_error posix A := fail (px_error OtherKind).

Definition px_set (i : Z) (n : inode) : M io_error posix () := fun h =>
  (Ok (), mkPosix (<[i := n]> (px_inodes h)) (px_fds h)).

Definition px_open (i : Z) : M io_error posix Z := fun h =>
  (Ok (zlen (px_fds h)), mkPosix (px_inodes h) (px_fds h ++ [(i, 0)])).

(** A new inode under a name. *)
Definition px_make (p : path) (n : inode) : M io_error posix Z :=
  px_at (default [] (parent p)) true (fun d node h =>
    match node with
    | IDir es =>
        if bool_decide (is_Some (entry es (file_name p))) then (Err (px_error AlreadyExists), h)
        else
          let i := 1 + zlen (map_to_list (px_inodes h)) in
          (Ok i, mkPosix (<[i := n]> (<[d := IDir (es ++ [(file_name p, i)])]> (px_inodes h))) (px_fds h))
    | _ => (Err (px_error OtherKind), h)
    end).

Definition px_fd {A} (f : Z) (k : Z -> Z -> list byte -> M io_error posix A) : M io_error posix A := fun h =>
  match px_fds h !! Z.to_nat f with
  | Some (i, pos) => match px_inodes h !! i with Some (IFile c) => k i pos c h | _ => px_fail h end
  | None => px_fail h
  end.

Definition px_seek (f pos : Z) : M io_error posix () := px_fd f (fun i _ _ h =>
  (Ok (), mkPosix (px_inodes h) (<[Z.to_nat f := (i, pos)]> (px_fds h)))).

#[export] Instance posix_host : Host posix := {|
  h_canonicalize p := mret p;
  h_symlink_metadata p := px_at p false (fun i n => mret (px_meta i n));
  h_open o p :=
    match o with
    | OpenCreate | OpenCreateNew => fun h =>
        match px_at p true (fun i _ => px_open i) h with
        | (Ok f, h) => match o with OpenCreateNew => (Err (px_error AlreadyExists), h) | _ => (Ok f, h) end
        | (Err _, h) => (i ← px_make p (IFile []); px_open i) h
        end
    | _ => px_at p true (fun i _ => px_open i)
    end;
  h_len f := px_fd f (fun _ _ c => mret (zlen c));
  h_seek f pos := px_seek f pos;
  h_read f n := px_fd f (fun _ pos c =>
    let b := firstn (Z.to_nat n) (skipn (Z.to_nat pos) c) in
    _ ← px_seek f (pos + zlen b); mret b);
  h_write_all f b := px_fd f (fun i pos c =>
    px_set i (IFile (firstn (Z.to_nat pos) c ++ b ++ skipn (Z.to_nat pos + length b) c)));
  h_flush _ := mret ();
  h_sync_data _ := mret ();
  h_set_len f n := px_fd f (fun i _ c => px_set i (IFile (firstn (Z.to_nat n) c)));
  h_create_dir p := _ ← px_make p (IDir []); mret ();
  h_remove_dir _ := px_fail;
  h_remove_file _ := px_fail;
  h_rename _ _ := px_fail;
  h_hard_link _ _ := px_fail;
  h_symlink target p := _ ← px_make p (ILink target); mret ();
  h_read_link p := px_at p false (fun _ n => match n with ILink t => mret (firstn 4095 t) | _ => px_fail end);
  h_read_dir p := px_at p true (fun _ n =>
    match n with
    | IDir es => mret (Ok <$> filter (fun name => component name /\ zlen name < 256) (fst <$> es))
    | _ => px_fail
    end);
  h_chown _ _ _ := mret ();
  h_set_permissions _ _ := mret ();
  h_set_atime _ _ := mret ();
  h_set_mtime _ _ := mret ();
|}.

Lemma px_at_gives {A} p follow (f : Z -> inode -> M io_error posix A) (P : A -> Prop) h a h' :
  (forall i n h a h', f i n h = (Ok a, h') -> P a) -> px_at p follow f h = (Ok a, h') -> P a.
Proof. intros Hf. unfold px_at. destruct (resolve _ _ _ _ _) as [i|]; [|done]. destruct (_ !! i); [apply Hf|done]. Qed.

#[export] Instance posix_laws : HostLaws posix.
Proof.
  split; intros p h r h'; cbn [h_symlink_metadata h_read_dir h_read_link posix_host].
  - intros E. pattern r. revert E. apply px_at_gives. intros i n h0 a h1 [= <- <-].
    destruct n; cbn; (split_and!; [by vm_compute..|]); try apply wrap64_u64; by vm_compute.
  - intros name E. pattern r. revert E. apply px_at_gives. intros i [|es|] h0 l h1; try done. intros [= <- <-].
    intros (x & [= ->] & [[Hc Hl] _]%list_elem_of_filter)%list_elem_of_fmap. split; [done|]. unfold u32_max. lia.
  - intros E. pattern r. revert E. apply px_at_gives. intros i [| |t] h0 l h1; try done. intros [= <- <-].
    unfold zlen. rewrite length_firstn. unfold u32_max. lia.
Qed.

(** ** A client *)

Module PassthroughExample.

(** The host has /etc/passwd and an empty directory /export. *)
Definition before : posix := mkPosix (list_to_map [
  (1, IDir [(bs "etc", 2); (bs "export", 3)]); (2, IDir [(bs "passwd", 4)]); (3, IDir []);
  (4, IFile (bs "root:x:0:0"))]) [].

Definition serving : result io_error (PassthroughFs posix) := (new [bs "export"] before).1.

Definition server : PassthroughFs posix := unwrap_or serving (mkFs before [] ∅ 0).
Definition root_id : Z := fs_root_id server.
Definition cred : UnixCred := mkUnixCred 1000 1000 [].

(** What a run of requests answers. *)
Definition session {A} (m : M nfsstat3 (PassthroughFs posix) A) : result nfsstat3 A := (m server).1.

Lemma serving_export : fs_root server = [bs "export"] /\ root_id = fileid_from 1 3 /\
  session (getattr root_id) = Ok (metadata_to_fattr3 root_id (px_meta 3 (IDir []))).
Proof. split_and!; by vm_compute. Qed.

(** A file written is read back, a name is found by its directory, a page lists it. *)
Lemma client_session :
  session (
    r ← create_with_cred root_id (bs "notes") default_ cred;
    _ ← write r.1 0 (bs "hello, world");
    _ ← write r.1 7 (bs "there");
    i ← lookup root_id (bs "notes");
    b ← read i 0 100;
    d ← mkdir_with_cred root_id (bs "sub") cred;
    up ← lookup d.1 (bs "..");
    top ← lookup up (bs "..");
    l ← readdir root_id 0 10;
    mret (bool_decide (i = r.1), b, (bool_decide (up = root_id), bool_decide (top = root_id)),
      de_name <$> rd_entries l, rd_end l))
  = Ok (true, (bs "hello, there", true), (true, true), [bs "notes"; bs "sub"], true).
Proof. by vm_compute. Qed.

(** What a name may not hold. *)
Lemma bad_names :
  session (lookup root_id (bs "../etc")) = Err NFS3ERR_ACCES /\
  session (lookup root_id (bs "a" ++ [nul])) = Err NFS3ERR_ACCES /\
  session (lookup root_id (bs "none")) = Err NFS3ERR_NOENT /\
  session (lookup 17 (bs "notes")) = Err NFS3ERR_STALE /\
  session (getattr (fileid_from 1 4)) = Err NFS3ERR_STALE.
Proof. split_and!; by vm_compute. Qed.

(** The paths stay below the root, the host's files need not: a lookup through the handle of
    a symbolic link a client made reads a file outside the export, and so does reading the
    handle of a link itself. *)
Lemma symlink_escape :
  session (
    s ← symlink root_id (bs "out") (bs "/etc") default_;
    i ← lookup s.1 (bs "passwd");
    read i 0 100) = Ok (bs "root:x:0:0", true) /\
  session (
    s ← symlink root_id (bs "link") (bs "/etc/passwd") default_;
    _ ← write s.1 0 (bs "pwnd");
    read s.1 0 100) = Ok (bs "pwnd:x:0:0", true).
Proof. split; by vm_compute. Qed.

(** Two files of two devices may share an identifier: 128 bits do not fit 64. *)
Lemma devices_can_alias : fileid_from 1 1 = fileid_from 2 0x6214215704665a96.
Proof. reflexivity. Qed.

(** ** The theorems at these inputs *)

Lemma handles_do_not_alias_witness :
  (fileid_from 1 3 = fileid_from 1 4 -> 3 = 4) /\
  (fileid_from 1 3 = fileid_from 2 3 -> 1 = 2) /\
  pt_fh_to_id (pt_id_to_fh (fileid_from 1 3)) = Ok (fileid_from 1 3).
Proof. apply (handles_do_not_alias 1 3 2 4); unfold is_u64; by vm_compute. Defined.

Definition found_here : list (Z * path) :=
  [(fileid_from 1 5, [bs "export"; bs "notes"]); (fileid_from 1 6, [bs "export"; bs "sub"]);
   (fileid_from 1 7, [bs "export"; bs "z"])].

Lemma directory_pages_chain_witness :
  StronglySorted Z.lt (cookie_of <$> with_cookies found_here) /\
  Forall (fun e => 0 < cookie_of e < 2 ^ 63) (with_cookies found_here) /\
  (fun e => (e.1.2, e.2)) <$> with_cookies found_here ≡ₚ found_here /\
  follow 4 2 0 (with_cookies found_here) = Some (with_cookies found_here) /\
  forall e, e ∈ hashed found_here -> high e <> 0 ->
    (forall e', e' ∈ hashed found_here -> high e' = high e -> e' = e) ->
    (high e, e.2) ∈ (fun e => (cookie_of e, e.2)) <$> with_cookies found_here.
Proof.
  apply (directory_pages_chain found_here 2).
  - apply (bool_decide_unpack _). by vm_compute.
  - intros h. etrans; [apply length_filter|]. apply (bool_decide_unpack _). by vm_compute.
  - lia.
Defined.

Definition escape_calls : list fs_call :=
  [CRead (fileid_from 1 4) 0 100; CLookup (fileid_from 1 5) (bs "passwd"); CSymlink root_id (bs "out") (bs "/etc") default_].

Lemma paths_stay_in_the_export_witness :
  let w := foldr fs_serve (mkFs (mkLogged before []) [bs "export"] {[root_id := [[bs "export"]]]} root_id) escape_calls in
  [bs "export"; bs "out"; bs "passwd"] ∈ lg_paths (fs_host w) /\
  forall p, p ∈ lg_paths (fs_host w) -> exists names, p = [bs "export"] ++ names /\ Forall component names.
Proof.
  intros w. split; [apply (bool_decide_unpack _); by vm_compute|].
  exact (paths_stay_in_the_export [bs "export"] before root_id escape_calls).
Defined.
End PassthroughExample.
