(* ===== verification/Zfs.v ===== *)
(** The ZFS backend (crates/nessie-backend-zfs/src/zfs.rs): volumes, snapshots, clones and
    replication as the commands it runs, an instance of Volume.v's interfaces.

    A command line goes to the class [CommandRunner] (runner.rs), the files and the sleeping
    of the source to [Machine]: nothing is assumed of either.  A text is its UTF-8 bytes, a
    [PathBuf] its text, a [Duration] its nanoseconds.  [uuid_at] is the random identifiers in
    the order they are drawn; chrono's [from_timestamp] and the [{:?}] form of a string are
    arguments. *)

From Stdlib Require Import ZArith Lia.
From stdpp Require Import base option gmap list.
From S2P Require Import Prelude Text Digest Errors Volume.

Local Open Scope Z_scope.

Abbreviation text := (list byte).

(** ** The command seam (runner.rs) *)

Record CommandOutput := mkOutput { success : bool; stdout : text; stderr : text }.

Class CommandRunner (R : Type) := {
  run : list text -> M BackendError R CommandOutput;
  spawn_stdout : list text -> M BackendError R source;
  run_stdin : list text -> source -> M BackendError R Z;
}.

(** [std::fs] and [std::thread::sleep]. *)
Class Machine (R : Type) := {
  mc_runner :: CommandRunner R;
  create_dir_all : text -> M io_error R ();
  write_file : text -> text -> M io_error R ();
  remove_file : text -> M io_error R ();
  sleep : Z -> R -> R;
}.

Class Uuids := { uuid_at : nat -> Uuid }.

(** ** Configuration *)

Record ZfsConfig := mkZfsConfig {
  pool : text;
  data_lif : text;
  nfs_clients : list text;
  dataset_owner : option text;
  dataset_mode : option text;
  exports_dir : text;
  srv_root : text;
  manage_kernel_exports : bool;
  retry_base : Z;
  max_destroy_retries : nat;
}.

Definition config_default : ZfsConfig :=
  mkZfsConfig (bs "ontap-sim") (bs "127.0.0.1") [] None None (bs "/etc/exports.d") (bs "/srv") true
    1000000000 5.

Definition EXPORT_OPTS : text := bs "rw,sync,no_subtree_check,no_root_squash,crossmnt".

(** ** The registry *)

Record Registry := mkReg {
  vol_by_uuid : gmap VolumeUuid text;
  vol_by_name : gmap text VolumeUuid;
  snap_by_uuid : gmap SnapshotUuid (VolumeUuid * text);
}.

Definition registry_default : Registry := mkReg ∅ ∅ ∅.

Record ZfsBackend (R : Type) := mkZfs { z_runner : R; z_cfg : ZfsConfig; z_reg : Registry; z_drawn : nat }.
Arguments mkZfs {R}. Arguments z_runner {R}. Arguments z_cfg {R}.
Arguments z_reg {R}. Arguments z_drawn {R}.

Definition remove_vol (u : VolumeUuid) (g : Registry) : Registry :=
  match vol_by_uuid g !! u with
  | None => g
  | Some name =>
      mkReg (delete u (vol_by_uuid g)) (delete name (vol_by_name g))
        (filter (fun kv => kv.2.1 <> u) (snap_by_uuid g))
  end.

Definition remove_snap (u : SnapshotUuid) (g : Registry) : Registry :=
  mkReg (vol_by_uuid g) (vol_by_name g) (delete u (snap_by_uuid g)).

(** [snap_by_uuid.iter().find(..)] *)
Definition find_snap (vol : VolumeUuid) (name : text) (g : Registry) : option SnapshotUuid :=
  (fun p => p.2.1) <$> list_find (fun kv => kv.2 = (vol, name)) (map_to_list (snap_by_uuid g)).

(** ** Names *)

Definition safe_char (b : byte) : bool :=
  let z := b2z b in
  bool_decide (48 <= z <= 57) || bool_decide (65 <= z <= 90) || bool_decide (97 <= z <= 122) ||
  bool_decide (z = 95) || bool_decide (z = 45) || bool_decide (z = 46).

Definition dot : byte := z2b 46.

(** A character outside ASCII has no byte [safe_char] keeps. *)
Definition safe_filename_component (name : text) : text :=
  trim_start_matches dot (filter (fun b => safe_char b = true) name).

Definition at_sign : byte := z2b 64.
Definition tab : byte := z2b 9.
Definition space : byte := z2b 32.

Definition parse_origin (origin pool : text) : option CloneOrigin :=
  if bool_decide (origin = []) || bool_decide (origin = bs "-") then None
  else
    '(dataset, snap) ← rsplit_once at_sign origin;
    let below := default dataset (strip_prefix (pool ++ bs "/") dataset) in
    Some (mkOrigin (match rsplit_once slash_byte below with Some (_, l) => l | None => below end) snap).

Definition plain_volume (uuid : VolumeUuid) (name : text) (size : option Z) (clone : option CloneOrigin) : Volume :=
  mkVolume uuid name size Online Flexvol Rw clone.

Definition exports_file (cfg : ZfsConfig) (name : text) : option text :=
  let safe := safe_filename_component name in
  if bool_decide (safe = []) then None
  else Some (path_join (exports_dir cfg) (bs "trident_" ++ safe ++ bs ".exports")).

Definition exports_content (cfg : ZfsConfig) (mountpoint : text) : text :=
  concat ((fun client => mountpoint ++ bs " " ++ client ++ bs "(" ++ EXPORT_OPTS ++ bs ")" ++ [nl]) <$> nfs_clients cfg).

(** The wait before the next attempt; [2u32.pow] wraps. *)
Definition backoff (cfg : ZfsConfig) (attempt : Z) : Z := retry_base cfg * (2 ^ attempt mod 2 ^ 32).

Section backend.
Context {Ids : Uuids} {R : Type} {RM : Machine R}.
Context (from_timestamp : Z -> option DateTime) (debug : text -> text).
Abbreviation B := (ZfsBackend R).
Abbreviation op := (M BackendError (ZfsBackend R)).
Implicit Types (b : B) (name : text).

(** ** Access to the state *)

Definition with_reg (g : Registry) b : B := mkZfs (z_runner b) (z_cfg b) g (z_drawn b).

Definition cmd {A} (m : M BackendError R A) : op A := fun b =>
  let '(r, h) := m (z_runner b) in (r, mkZfs h (z_cfg b) (z_reg b) (z_drawn b)).

(** What a call of the machine answered, kept or let go of. *)
Definition outcome {E A} (m : M E R A) : op (result E A) := fun b =>
  let '(r, h) := m (z_runner b) in (Ok r, mkZfs h (z_cfg b) (z_reg b) (z_drawn b)).

Definition best_effort {E A} (m : M E R A) : op () := _ ← outcome m; mret ().

Definition config : op ZfsConfig := fun b => (Ok (z_cfg b), b).

Definition change_reg (f : Registry -> Registry) : op () := fun b => (Ok (), with_reg (f (z_reg b)) b).

Definition vol_name (u : VolumeUuid) : op text := fun b =>
  (ok_or (vol_by_uuid (z_reg b) !! u) (VolumeNotFound u), b).

Definition register_vol name : op VolumeUuid := fun b =>
  let g := z_reg b in
  match vol_by_name g !! name with
  | Some u => (Ok u, b)
  | None =>
      let u := uuid_at (z_drawn b) in
      (Ok u, mkZfs (z_runner b) (z_cfg b)
        (mkReg (<[u := name]> (vol_by_uuid g)) (<[name := u]> (vol_by_name g)) (snap_by_uuid g)) (S (z_drawn b)))
  end.

Definition register_snap (vol : VolumeUuid) name : op SnapshotUuid := fun b =>
  let g := z_reg b in
  match find_snap vol name g with
  | Some u => (Ok u, b)
  | None =>
      let u := uuid_at (z_drawn b) in
      (Ok u, mkZfs (z_runner b) (z_cfg b)
        (mkReg (vol_by_uuid g) (vol_by_name g) (<[u := (vol, name)]> (snap_by_uuid g))) (S (z_drawn b)))
  end.

Definition full name : op text := cfg ← config; mret (pool cfg ++ bs "/" ++ name).

(** The snapshot an identifier names, which must be one of the volume. *)
Definition snap_of (vol : VolumeUuid) (snap : SnapshotUuid) : op text := fun b =>
  (match snap_by_uuid (z_reg b) !! snap with
   | None => Err (SnapshotNotFound vol snap)
   | Some (rvol, sname) => if bool_decide (rvol = vol) then Ok sname else Err (SnapshotNotFound vol snap)
   end, b).

(** ** Running commands *)

Definition run_checked (argv : list text) : op text :=
  out ← cmd (run argv);
  if success out then mret (stdout out) else fail (CommandFailed (join_on space argv) (stderr out)).

Definition set_mountpoint name (target : text) : op bool :=
  full ← full name;
  current ← run_checked [bs "zfs"; bs "get"; bs "-H"; bs "-o"; bs "value"; bs "mountpoint"; full];
  if bool_decide (trim current = target) then mret false
  else
    _ ← run_checked [bs "zfs"; bs "set"; bs "mountpoint=" ++ target; full];
    mret true.

Definition nfs_export name (mountpoint : text) : op () :=
  cfg ← config;
  if negb (manage_kernel_exports cfg) then mret ()
  else if bool_decide (nfs_clients cfg = []) then mret ()
  else
    match exports_file cfg name with
    | None => mret ()
    | Some path =>
        made ← outcome (create_dir_all (exports_dir cfg));
        if is_ok made then
          written ← outcome (write_file path (exports_content cfg mountpoint));
          if is_ok written then best_effort (run [bs "exportfs"; bs "-r"]) else mret ()
        else mret ()
    end.

Definition nfs_unexport name : op () :=
  cfg ← config;
  if negb (manage_kernel_exports cfg) then mret ()
  else
    _ ← (match exports_file cfg name with Some path => best_effort (remove_file path) | None => mret () end);
    best_effort (run [bs "exportfs"; bs "-r"]).

Definition set_permissions (mountpoint : text) : op () :=
  cfg ← config;
  _ ← (match dataset_owner cfg with
       | Some owner => best_effort (run [bs "chown"; owner; mountpoint])
       | None => mret ()
       end);
  match dataset_mode cfg with
  | Some mode => best_effort (run [bs "chmod"; mode; mountpoint])
  | None => mret ()
  end.

Definition destroy_argv (full : text) : list text := [bs "zfs"; bs "destroy"; bs "-r"; bs "-f"; full].

(** The loop: [left_] retries may still be made after this attempt. *)
Fixpoint destroy_loop (left_ : nat) (attempt : Z) (full : text) : op () :=
  out ← cmd (run (destroy_argv full));
  if success out then mret ()
  else
    let failed := fail (CommandFailed (bs "zfs destroy -r -f " ++ full) (stderr out)) in
    if contains (bs "busy") (stderr out) then
      match left_ with
      | O => failed
      | S left_ =>
          cfg ← config;
          let wait := backoff cfg attempt in
          _ ← (if bool_decide (wait = 0) then mret ()
               else best_effort (E := BackendError) (fun h => (Ok (), sleep wait h)));
          destroy_loop left_ (attempt + 1) full
      end
    else failed.

Definition destroy_with_retry name : op () :=
  full ← full name;
  cfg ← config;
  destroy_loop (max_destroy_retries cfg) 0 full.

(** ** [impl VolumeBackend] *)

(** The loop over the lines of a listing. *)
Fixpoint listed_volumes (pool : text) (ls : list text) : op (list Volume) :=
  match ls with
  | [] => mret []
  | line :: ls =>
      match split_on tab line with
      | name :: _ :: _ :: _ :: origin :: _ =>
          if bool_decide (name = pool) then listed_volumes pool ls
          else
            let short := default name (strip_prefix (pool ++ bs "/") name) in
            uuid ← register_vol short;
            rest ← listed_volumes pool ls;
            mret (plain_volume uuid short None (parse_origin origin pool) :: rest)
      | _ => listed_volumes pool ls
      end
  end.

Definition z_list_volumes : op (list Volume) :=
  cfg ← config;
  out ← run_checked [bs "zfs"; bs "list"; bs "-H"; bs "-r"; bs "-o"; bs "name,mountpoint,used,avail,origin";
    bs "-t"; bs "filesystem"; pool cfg];
  listed_volumes (pool cfg) (lines out).

Definition z_create_volume (spec : VolumeSpec) : op Volume :=
  cfg ← config;
  full ← full (spec_name spec);
  let mountpoint := bs "mountpoint=" ++ srv_root cfg ++ bs "/" ++ spec_name spec in
  let quota := match spec_size spec with Some b => [bs "-o"; bs "quota=" ++ dec b] | None => [] end in
  _ ← run_checked ([bs "zfs"; bs "create"; bs "-o"; mountpoint] ++ quota ++ [full]);
  uuid ← register_vol (spec_name spec);
  mret (plain_volume uuid (spec_name spec) (spec_size spec) None).

Definition z_get_volume (uuid : VolumeUuid) : op Volume :=
  name ← vol_name uuid;
  full ← full name;
  out ← cmd (run [bs "zfs"; bs "list"; bs "-H"; bs "-o"; bs "name,mountpoint,used,avail,origin"; full]);
  if negb (success out) then fail (VolumeNotFound uuid)
  else
    cfg ← config;
    let line := default [] (head (lines (stdout out))) in
    let origin := default (bs "-") (split_on tab line !! 4%nat) in
    mret (plain_volume uuid name None (parse_origin origin (pool cfg))).

Definition z_delete_volume (uuid : VolumeUuid) : op () :=
  name ← vol_name uuid;
  _ ← nfs_unexport name;
  _ ← destroy_with_retry name;
  change_reg (remove_vol uuid).

Definition z_patch_volume (uuid : VolumeUuid) (patch : VolumePatch) : op Volume :=
  name ← vol_name uuid;
  _ ← (match junction_path patch with
       | Some jp =>
           if starts_with (bs "/") jp then mret ()
           else fail (InvalidArgument (bs "nas.path must start with '/' (got " ++ debug jp ++ bs ")"))
       | None => mret ()
       end);
  _ ← (match patch_size patch with
       | Some size =>
           full ← full name;
           _ ← run_checked [bs "zfs"; bs "set"; bs "quota=" ++ dec size; full];
           mret ()
       | None => mret ()
       end);
  _ ← (match junction_path patch with
       | Some jp =>
           cfg ← config;
           let target := srv_root cfg ++ jp in
           _ ← set_mountpoint name target;
           _ ← nfs_export name target;
           set_permissions target
       | None => mret ()
       end);
  z_get_volume uuid.

Definition z_access_handle (uuid : VolumeUuid) : op AccessHandle :=
  name ← vol_name uuid;
  full ← full name;
  mount ← run_checked [bs "zfs"; bs "get"; bs "-H"; bs "-o"; bs "value"; bs "mountpoint"; full];
  cfg ← config;
  mret (NfsExport (data_lif cfg) (trim mount)).

(** ** [impl SnapshotBackend] *)

Fixpoint listed_snapshots (vol : VolumeUuid) (ls : list text) : op (list Snapshot) :=
  match ls with
  | [] => mret []
  | line :: ls =>
      match split_on tab line with
      | f0 :: f1 :: f2 :: _ :: _ =>
          let snap_name := match rsplit_once at_sign f0 with Some (_, s) => s | None => f0 end in
          uuid ← register_snap vol snap_name;
          rest ← listed_snapshots vol ls;
          mret (mkSnapshot uuid snap_name (from_timestamp (default 0 (parse_i64 f1))) (default 0 (parse_u64 f2)) :: rest)
      | _ => listed_snapshots vol ls
      end
  end.

Definition z_list_snapshots (vol : VolumeUuid) : op (list Snapshot) :=
  name ← vol_name vol;
  full ← full name;
  out ← run_checked [bs "zfs"; bs "list"; bs "-Hp"; bs "-r"; bs "-o"; bs "name,creation,used,refer";
    bs "-t"; bs "snapshot"; full];
  listed_snapshots vol (lines out).

(** [format!("{}/{ds}@{name}", self.cfg.pool)] *)
Definition snapshot_name (ds name : text) : op text := full ← full ds; mret (full ++ bs "@" ++ name).

Definition z_create_snapshot (vol : VolumeUuid) name : op Snapshot :=
  ds ← vol_name vol;
  target ← snapshot_name ds name;
  _ ← run_checked [bs "zfs"; bs "snapshot"; target];
  uuid ← register_snap vol name;
  mret (mkSnapshot uuid name None 0).

Definition z_get_snapshot (vol : VolumeUuid) (snap : SnapshotUuid) : op Snapshot :=
  sname ← snap_of vol snap;
  l ← z_list_snapshots vol;
  lift (ok_or (find (fun s => bool_decide (s_name s = sname)) l) (SnapshotNotFound vol snap)).

Definition z_delete_snapshot (vol : VolumeUuid) (snap : SnapshotUuid) : op () :=
  sname ← snap_of vol snap;
  ds ← vol_name vol;
  target ← snapshot_name ds sname;
  _ ← run_checked [bs "zfs"; bs "destroy"; target];
  change_reg (remove_snap snap).

(** ** [impl CloneBackend] and [impl ReplicationBackend] *)

Definition z_create_clone (parent_vol : VolumeUuid) (parent_snap : SnapshotUuid) (new_name : text) : op Volume :=
  pname ← vol_name parent_vol;
  sname ← snap_of parent_vol parent_snap;
  src ← snapshot_name pname sname;
  dst ← full new_name;
  cfg ← config;
  let mountpoint := bs "mountpoint=" ++ srv_root cfg ++ bs "/" ++ new_name in
  _ ← run_checked [bs "zfs"; bs "clone"; bs "-o"; mountpoint; src; dst];
  uuid ← register_vol new_name;
  mret (plain_volume uuid new_name None (Some (mkOrigin pname sname))).

Definition z_send_stream (vol : VolumeUuid) (snap : text) (base : option text) : op source :=
  ds ← vol_name vol;
  source ← snapshot_name ds snap;
  match base with
  | Some base =>
      incr ← snapshot_name ds base;
      cmd (spawn_stdout [bs "zfs"; bs "send"; bs "-i"; incr; source])
  | None => cmd (spawn_stdout [bs "zfs"; bs "send"; source])
  end.

Definition z_receive_stream (dest : text) (stream : source) : op Z :=
  full ← full dest;
  applied ← cmd (run_stdin [bs "zfs"; bs "receive"; bs "-F"; full] stream);
  _ ← register_vol dest;
  mret applied.

(** ** The interfaces: the backend draws its identifiers itself *)

#[export] Instance zfs_volume_backend : VolumeBackend B := {|
  vb_capabilities _ := caps_all;
  vb_list_volumes := z_list_volumes;
  vb_create_volume _ := z_create_volume;
  vb_get_volume := z_get_volume;
  vb_delete_volume := z_delete_volume;
  vb_patch_volume := z_patch_volume;
  vb_access_handle := z_access_handle;
|}.

#[export] Instance zfs_snapshot_backend : SnapshotBackend B := {|
  sb_list_snapshots := z_list_snapshots;
  sb_create_snapshot _ := z_create_snapshot;
  sb_get_snapshot := z_get_snapshot;
  sb_delete_snapshot := z_delete_snapshot;
|}.

#[export] Instance zfs_clone_backend : CloneBackend B := {| cb_create_clone _ := z_create_clone |}.

#[export] Instance zfs_replication_backend : ReplicationBackend B := {|
  rb_send_stream := z_send_stream;
  rb_receive_stream _ _ := z_receive_stream;
|}.

Definition new (runner : R) (cfg : ZfsConfig) : B := mkZfs runner cfg registry_default 0.
End backend.
