(* ===== verification/ZfsLaws.v ===== *)
(** What the ZFS backend promises on any machine: identifiers that name one thing for good, the
    commands and files it keeps to, and how it deletes a volume. *)

From Stdlib Require Import ZArith Lia.
From stdpp Require Import base option gmap list.
From S2P Require Import Prelude Text Digest Errors Volume Zfs.

Local Open Scope Z_scope.

(** ** A machine that keeps a record of what it was asked *)

(** A command that ran has its answer, if it ran at all. *)
Inductive event :=
| Ran (argv : list text) (answer : option CommandOutput)
| Spawned (argv : list text)
| Fed (argv : list text)
| MadeDir (p : text)
| Wrote (p content : text)
| Removed (p : text)
| Slept (d : Z).

(** The events, newest first. *)
Record Traced (R : Type) := mkTraced { t_machine : R; t_events : list event }.
Arguments mkTraced {R}. Arguments t_machine {R}. Arguments t_events {R}.

Section traced.
Context {R : Type} {RM : Machine R}.

Definition traced {E A} (ev : result E A -> event) (m : M E R A) : M E (Traced R) A := fun h =>
  let '(r, x) := m (t_machine h) in (r, mkTraced x (ev r :: t_events h)).

#[export] Instance traced_runner : CommandRunner (Traced R) := {|
  run argv := traced (fun r => Ran argv (res_ok r)) (run argv);
  spawn_stdout argv := traced (fun _ => Spawned argv) (spawn_stdout argv);
  run_stdin argv s := traced (fun _ => Fed argv) (run_stdin argv s);
|}.

#[export] Instance traced_machine : Machine (Traced R) := {|
  create_dir_all p := traced (fun _ => MadeDir p) (create_dir_all p);
  write_file p c := traced (fun _ => Wrote p c) (write_file p c);
  remove_file p := traced (fun _ => Removed p) (remove_file p);
  sleep d h := mkTraced (sleep d (t_machine h)) (Slept d :: t_events h);
|}.
End traced.

(** ** What the backend may ask of its machine *)

(** What the control plane may ask for. *)
Inductive zfs_call :=
| ZList
| ZCreate (spec : VolumeSpec)
| ZGet (u : VolumeUuid)
| ZDelete (u : VolumeUuid)
| ZPatch (u : VolumeUuid) (patch : VolumePatch)
| ZAccess (u : VolumeUuid)
| ZListSnapshots (v : VolumeUuid)
| ZSnapshot (v : VolumeUuid) (name : text)
| ZGetSnapshot (v : VolumeUuid) (s : SnapshotUuid)
| ZDeleteSnapshot (v : VolumeUuid) (s : SnapshotUuid)
| ZClone (v : VolumeUuid) (s : SnapshotUuid) (name : text)
| ZSend (v : VolumeUuid) (snap : text) (base : option text)
| ZReceive (dest : text) (stream : source).

Section asks.
Context (cfg : ZfsConfig).

Definition dataset (name : text) : text := pool cfg ++ bs "/" ++ name.
Definition snapshot_at (name snap : text) : text := dataset name ++ bs "@" ++ snap.

(** A file name of the backend's own in the exports directory. *)
Definition export_file (p : text) : Prop :=
  exists safe, p = path_join (exports_dir cfg) (bs "trident_" ++ safe ++ bs ".exports") /\
    safe <> [] /\ head safe <> Some dot /\ Forall (fun b => safe_char b = true) safe.

(** Exporting a volume to the kernel's NFS clients, and taking the export back. *)
Inductive export_event (name mountpoint : text) : event -> Prop :=
| ee_dir : manage_kernel_exports cfg = true -> export_event name mountpoint (MadeDir (exports_dir cfg))
| ee_write p : manage_kernel_exports cfg = true -> exports_file cfg name = Some p ->
    export_event name mountpoint (Wrote p (exports_content cfg mountpoint))
| ee_reload out : manage_kernel_exports cfg = true ->
    export_event name mountpoint (Ran [bs "exportfs"; bs "-r"] out).

Inductive unexport_event (name : text) : event -> Prop :=
| ue_remove p : manage_kernel_exports cfg = true -> exports_file cfg name = Some p -> unexport_event name (Removed p)
| ue_reload out : manage_kernel_exports cfg = true -> unexport_event name (Ran [bs "exportfs"; bs "-r"] out).

Inductive permission_event (target : text) : event -> Prop :=
| pe_owner out owner : dataset_owner cfg = Some owner -> permission_event target (Ran [bs "chown"; owner; target] out)
| pe_mode out mode : dataset_mode cfg = Some mode -> permission_event target (Ran [bs "chmod"; mode; target] out).

Definition get_argv (t : text) : list text := [bs "zfs"; bs "get"; bs "-H"; bs "-o"; bs "value"; bs "mountpoint"; t].
Definition list_argv (t : text) : list text := [bs "zfs"; bs "list"; bs "-H"; bs "-o"; bs "name,mountpoint,used,avail,origin"; t].
Definition list_snapshots_argv (t : text) : list text :=
  [bs "zfs"; bs "list"; bs "-Hp"; bs "-r"; bs "-o"; bs "name,creation,used,refer"; bs "-t"; bs "snapshot"; t].
Definition quota_args (size : option Z) : list text :=
  match size with Some b => [bs "-o"; bs "quota=" ++ dec b] | None => [] end.

Definition named (g : Registry) (u : VolumeUuid) (n : text) : Prop := vol_by_uuid g !! u = Some n.

(** What a call may have the machine do, where [g] is the registry it finds: each command names
    the dataset of the volume that the call's identifier names there, or the name it gives. *)
Inductive asks (g : Registry) : zfs_call -> event -> Prop :=
| ak_list out : asks g ZList (Ran [bs "zfs"; bs "list"; bs "-H"; bs "-r"; bs "-o"; bs "name,mountpoint,used,avail,origin";
    bs "-t"; bs "filesystem"; pool cfg] out)
| ak_create spec out : asks g (ZCreate spec)
    (Ran ([bs "zfs"; bs "create"; bs "-o"; bs "mountpoint=" ++ srv_root cfg ++ bs "/" ++ spec_name spec] ++
      quota_args (spec_size spec) ++ [dataset (spec_name spec)]) out)
| ak_get u n out : named g u n -> asks g (ZGet u) (Ran (list_argv (dataset n)) out)
| ak_unexport u n e : named g u n -> unexport_event n e -> asks g (ZDelete u) e
| ak_destroy u n out : named g u n -> asks g (ZDelete u) (Ran (destroy_argv (dataset n)) out)
| ak_slept u n d : named g u n -> asks g (ZDelete u) (Slept d)
| ak_quota u patch n z out : named g u n -> patch_size patch = Some z ->
    asks g (ZPatch u patch) (Ran [bs "zfs"; bs "set"; bs "quota=" ++ dec z; dataset n] out)
| ak_mounted u patch n jp out : named g u n -> junction_path patch = Some jp ->
    asks g (ZPatch u patch) (Ran (get_argv (dataset n)) out)
| ak_mount u patch n jp out : named g u n -> junction_path patch = Some jp -> starts_with (bs "/") jp = true ->
    asks g (ZPatch u patch) (Ran [bs "zfs"; bs "set"; bs "mountpoint=" ++ srv_root cfg ++ jp; dataset n] out)
| ak_export u patch n jp e : named g u n -> junction_path patch = Some jp -> starts_with (bs "/") jp = true ->
    export_event n (srv_root cfg ++ jp) e -> asks g (ZPatch u patch) e
| ak_permit u patch n jp e : named g u n -> junction_path patch = Some jp -> starts_with (bs "/") jp = true ->
    permission_event (srv_root cfg ++ jp) e -> asks g (ZPatch u patch) e
| ak_patched u patch n out : named g u n -> asks g (ZPatch u patch) (Ran (list_argv (dataset n)) out)
| ak_access u n out : named g u n -> asks g (ZAccess u) (Ran (get_argv (dataset n)) out)
| ak_snapshots v n out : named g v n -> asks g (ZListSnapshots v) (Ran (list_snapshots_argv (dataset n)) out)
| ak_snapshot v n name out : named g v n ->
    asks g (ZSnapshot v name) (Ran [bs "zfs"; bs "snapshot"; snapshot_at n name] out)
| ak_get_snapshot v n s out : named g v n -> asks g (ZGetSnapshot v s) (Ran (list_snapshots_argv (dataset n)) out)
| ak_delete_snapshot v n s sn out : named g v n -> snap_by_uuid g !! s = Some (v, sn) ->
    asks g (ZDeleteSnapshot v s) (Ran [bs "zfs"; bs "destroy"; snapshot_at n sn] out)
| ak_clone v n s sn name out : named g v n -> snap_by_uuid g !! s = Some (v, sn) ->
    asks g (ZClone v s name) (Ran [bs "zfs"; bs "clone"; bs "-o"; bs "mountpoint=" ++ srv_root cfg ++ bs "/" ++ name;
      snapshot_at n sn; dataset name] out)
| ak_send v n snap : named g v n -> asks g (ZSend v snap None) (Spawned [bs "zfs"; bs "send"; snapshot_at n snap])
| ak_send_incr v n snap base : named g v n ->
    asks g (ZSend v snap (Some base)) (Spawned [bs "zfs"; bs "send"; bs "-i"; snapshot_at n base; snapshot_at n snap])
| ak_receive dest st : asks g (ZReceive dest st) (Fed [bs "zfs"; bs "receive"; bs "-F"; dataset dest]).

(** What touches the kernel's exports. *)
Definition of_exports (e : event) : Prop :=
  match e with
  | MadeDir _ | Wrote _ _ | Removed _ => True
  | Ran argv _ => head argv = Some (bs "exportfs")
  | _ => False
  end.

(** The file an event writes or removes. *)
Definition file_of (e : event) : option text := match e with Wrote p _ | Removed p => Some p | _ => None end.

(** The place in the file system that a command mounts a dataset at, or opens to a user. *)
Definition place_of (e : event) : option text :=
  match e with
  | Ran (c :: sub :: a :: b :: _) _ =>
      if bool_decide (c = bs "zfs") then
        if bool_decide (sub = bs "create") || bool_decide (sub = bs "clone") then strip_prefix (bs "mountpoint=") b
        else if bool_decide (sub = bs "set") then strip_prefix (bs "mountpoint=") a
        else None
      else None
  | Ran [c; _; target] _ => if bool_decide (c = bs "chown") || bool_decide (c = bs "chmod") then Some target else None
  | _ => None
  end.

(** A path that cannot leave the export root: no component of what follows goes up. *)
Definition no_way_up (t : text) : Prop := bs ".." ∉ split_on slash_byte t.
Definition below_root (p : text) : Prop := exists rel, p = srv_root cfg ++ bs "/" ++ rel /\ no_way_up rel.

(** The name a call gives a place by. *)
Definition given_place (c : zfs_call) : option text :=
  match c with
  | ZCreate spec => Some (spec_name spec)
  | ZPatch _ patch => junction_path patch
  | ZClone _ _ name => Some name
  | _ => None
  end.
End asks.

Lemma trim_start_no_head c s : head (trim_start_matches c s) <> Some c.
Proof. induction s as [|b s IH]; [done|]. cbn. destruct (decide (b = c)); [done|]. by intros [= ->]. Qed.

Lemma trim_start_Forall (P : byte -> Prop) c s : Forall P s -> Forall P (trim_start_matches c s).
Proof. induction 1; cbn; [done|]. case_decide; [done|by constructor]. Qed.

Lemma exports_file_safe cfg name p : exports_file cfg name = Some p -> export_file cfg p.
Proof.
  unfold exports_file. case_bool_decide as Hs; [done|]. intros [= <-]. eexists. split; [done|].
  split_and!; [done|apply trim_start_no_head|]. apply trim_start_Forall, Forall_forall.
  by intros b [? _]%list_elem_of_filter.
Qed.

(** ** Identifiers *)

Create HintDb zfs.

Section laws.
Context {Ids : Uuids} {R : Type} {RM : Machine R}.
Context (from_timestamp : Z -> option DateTime) (debug : text -> text).
Abbreviation B := (ZfsBackend (Traced R)).
Abbreviation op := (M BackendError (ZfsBackend (Traced R))).
Implicit Types (b : B) (g : Registry).

Definition drawn_before (k : nat) (u : Uuid) : Prop := exists i, (i < k)%nat /\ u = uuid_at i.

Record reg_ok (k : nat) g : Prop := {
  ro_names : forall u n, vol_by_uuid g !! u = Some n <-> vol_by_name g !! n = Some u;
  ro_unique : forall s s' vn, snap_by_uuid g !! s = Some vn -> snap_by_uuid g !! s' = Some vn -> s = s';
  ro_live : forall s v n, snap_by_uuid g !! s = Some (v, n) -> is_Some (vol_by_uuid g !! v);
  ro_vols : forall u, is_Some (vol_by_uuid g !! u) -> drawn_before k u;
  ro_snaps : forall s, is_Some (snap_by_uuid g !! s) -> drawn_before k s;
}.

(** What is named later was named the same before, or by an identifier drawn since. *)
Record extends b b' : Prop := {
  ex_drawn : (z_drawn b <= z_drawn b')%nat;
  ex_vols : forall u n, vol_by_uuid (z_reg b') !! u = Some n ->
    vol_by_uuid (z_reg b) !! u = Some n \/ exists i, (z_drawn b <= i)%nat /\ u = uuid_at i;
  ex_snaps : forall s vn, snap_by_uuid (z_reg b') !! s = Some vn ->
    snap_by_uuid (z_reg b) !! s = Some vn \/ exists i, (z_drawn b <= i)%nat /\ s = uuid_at i;
}.

#[local] Instance extends_preorder : PreOrder extends.
Proof.
  split.
  - intros b. split; auto.
  - intros b1 b2 b3 [D1 V1 S1] [D2 V2 S2]. split; [lia| |].
    + intros u n [?%V1|(i & ? & ?)]%V2; [done|]. right. exists i. split; [lia|done].
    + intros s vn [?%S1|(i & ? & ?)]%S2; [done|]. right. exists i. split; [lia|done].
Qed.

Context (cfg : ZfsConfig) (Hids : forall i j, uuid_at i = uuid_at j -> i = j).

Definition sound b : Prop := z_cfg b = cfg /\ reg_ok (z_drawn b) (z_reg b).

(** While a call is served: what the machine was asked since [old] is what [may] be asked. *)
Section serving.
Context (may : event -> Prop) (old : list event).

Definition inv b : Prop :=
  z_cfg b = cfg /\ reg_ok (z_drawn b) (z_reg b) /\
  exists es, t_events (z_runner b) = es ++ old /\ Forall may es.

(** An operation that keeps [inv], extends the registry, keeps [P] of it, and whose success
    gives [Q]. *)
Definition triple (P : Registry -> Prop) {A} (m : op A) (Q : A -> Prop) : Prop :=
  forall b, inv b -> P (z_reg b) ->
    inv (m b).2 /\ extends b (m b).2 /\ P (z_reg (m b).2) /\ forall a, (m b).1 = Ok a -> Q a.

Lemma triple_bind P {A C} (m : op A) (f : A -> op C) Q Q' :
  triple P m Q -> (forall a, Q a -> triple P (f a) Q') -> triple P (m ≫= f) Q'.
Proof.
  intros Hm Hf b Hb Hp. unfold mbind, M_bind. destruct (Hm b Hb Hp) as (Hb1 & He1 & Hp1 & Ha).
  destruct (m b) as [[a|e] b1]; simpl in *; [|by split_and!].
  destruct (Hf a (Ha a eq_refl) b1 Hb1 Hp1) as (Hb2 & He2 & Hp2 & Hq). split_and!; try done. by etrans.
Qed.

Lemma triple_ret P {A} (a : A) (Q : A -> Prop) : Q a -> triple P (mret a) Q.
Proof. intros Hq b Hb Hp. split_and!; try done. by intros ? [= <-]. Qed.

Lemma triple_fail P {A} e (Q : A -> Prop) : triple P (fail e) Q.
Proof. intros b Hb Hp. by split_and!. Qed.

Lemma triple_lift P {A} (r : result BackendError A) : triple P (lift r) (fun _ => True).
Proof. intros b Hb Hp. by split_and!. Qed.

Lemma triple_config P : triple P config (fun c => c = cfg).
Proof. intros b Hb Hp. split_and!; try done. intros ? [= <-]. apply Hb. Qed.

Lemma triple_full P name : triple P (full name) (fun t => t = pool cfg ++ bs "/" ++ name).
Proof. eapply triple_bind; [apply triple_config|]. intros ? ->. by apply triple_ret. Qed.

Lemma extends_same b b' : z_reg b' = z_reg b -> z_drawn b' = z_drawn b -> extends b b'.
Proof. intros Hg Hd. split; rewrite ?Hg, ?Hd; auto. Qed.

(** A call of the machine, which may do no more than it may. *)
Lemma triple_event P {A} (m : op A) :
  (forall b, z_reg (m b).2 = z_reg b /\ z_drawn (m b).2 = z_drawn b /\ z_cfg (m b).2 = z_cfg b /\
    exists e, t_events (z_runner (m b).2) = e :: t_events (z_runner b) /\ may e) ->
  triple P m (fun _ => True).
Proof.
  intros Hm b (Hc & Hr & es & Hes & Ha) Hp. destruct (Hm b) as (Eg & Ed & Ec & e & Ee & He).
  split; [|split; [by apply extends_same|split; [by rewrite Eg|done]]].
  split; [by rewrite Ec|split; [by rewrite Eg, Ed|]]. exists (e :: es).
  split; [by rewrite Ee, Hes|by constructor].
Qed.

Lemma triple_outcome P {E A} ev (m : M E (Traced R) A) (n : M E R A) :
  m = traced ev n -> (forall r, may (ev r)) -> triple P (outcome m) (fun _ => True).
Proof.
  intros -> Ha. apply triple_event. intros b. unfold outcome, traced. destruct (n (t_machine (z_runner b))) as [r x].
  split_and!; [done..|]. by exists (ev r).
Qed.

Lemma triple_cmd P {A} ev (m : M BackendError (Traced R) A) (n : M BackendError R A) :
  m = traced ev n -> (forall r, may (ev r)) -> triple P (cmd m) (fun _ => True).
Proof.
  intros -> Ha. apply triple_event. intros b. unfold cmd, traced. destruct (n (t_machine (z_runner b))) as [r x].
  split_and!; [done..|]. by exists (ev r).
Qed.

Lemma triple_best_effort P {E A} ev (m : M E (Traced R) A) (n : M E R A) :
  m = traced ev n -> (forall r, may (ev r)) -> triple P (best_effort m) (fun _ => True).
Proof. intros Hm He. eapply triple_bind; [by eapply triple_outcome|]. intros. by apply triple_ret. Qed.

Lemma triple_sleep P d :
  may (Slept d) -> triple P (best_effort (E := BackendError) (fun h => (Ok (), sleep d h))) (fun _ => True).
Proof. intros Hs. apply triple_event. intros b. split_and!; [done..|]. by exists (Slept d). Qed.

(** ** The registry *)

Definition live (v : VolumeUuid) g : Prop := is_Some (vol_by_uuid g !! v).

Lemma drawn_before_S k u : drawn_before k u -> drawn_before (S k) u.
Proof. intros (i & ? & ->). exists i. split; [lia|done]. Qed.

(** A name that is new to the registry gets an identifier that is. *)
Lemma fresh_vol k g : reg_ok k g -> vol_by_uuid g !! uuid_at k = None.
Proof.
  intros Hg. destruct (vol_by_uuid g !! uuid_at k) eqn:E; [|done].
  destruct (ro_vols k g Hg (uuid_at k)) as (i & ? & ?%Hids); [by rewrite E|lia].
Qed.

Lemma fresh_snap k g : reg_ok k g -> snap_by_uuid g !! uuid_at k = None.
Proof.
  intros Hg. destruct (snap_by_uuid g !! uuid_at k) eqn:E; [|done].
  destruct (ro_snaps k g Hg (uuid_at k)) as (i & ? & ?%Hids); [by rewrite E|lia].
Qed.

Lemma reg_ok_add_vol k g name : reg_ok k g -> vol_by_name g !! name = None ->
  reg_ok (S k) (mkReg (<[uuid_at k := name]> (vol_by_uuid g)) (<[name := uuid_at k]> (vol_by_name g)) (snap_by_uuid g)).
Proof.
  intros Hg Hn. pose proof (fresh_vol k g Hg) as Hf. split; cbn.
  - intros u n. rewrite !lookup_insert_Some, <- (ro_names k g Hg). split.
    + intros [[<- <-]|[Hu Hl]]; [by left|]. right. split; [|done]. intros <-.
      apply (ro_names k g Hg) in Hl. congruence.
    + intros [[<- <-]|[Hu Hl]]; [by left|]. right. split; [|done]. intros <-. by pose proof (eq_trans (eq_sym Hf) Hl).
  - apply Hg.
  - intros s v n Hs. rewrite lookup_insert_is_Some'. right. by eapply (ro_live k g Hg).
  - intros u [<-|Hu]%lookup_insert_is_Some'; [by exists k; split; [lia|]|]. by apply drawn_before_S, (ro_vols k g Hg).
  - intros s Hs. by apply drawn_before_S, (ro_snaps k g Hg).
Qed.

Lemma find_snap_None v name g s : find_snap v name g = None -> snap_by_uuid g !! s <> Some (v, name).
Proof.
  unfold find_snap. intros Hf Hs. apply fmap_None, list_find_None in Hf.
  rewrite Forall_forall in Hf. by apply (Hf (s, (v, name))); [apply elem_of_map_to_list|].
Qed.

Lemma find_snap_Some v name g s : find_snap v name g = Some s -> snap_by_uuid g !! s = Some (v, name).
Proof.
  unfold find_snap. intros ([i [s' vn]] & (Hl & Hv & _)%list_find_Some & ->)%fmap_Some. cbn in *. subst vn.
  by apply list_elem_of_lookup_2, elem_of_map_to_list in Hl.
Qed.

Lemma reg_ok_add_snap k g v name : reg_ok k g -> live v g -> find_snap v name g = None ->
  reg_ok (S k) (mkReg (vol_by_uuid g) (vol_by_name g) (<[uuid_at k := (v, name)]> (snap_by_uuid g))).
Proof.
  intros Hg Hl Hf. split; cbn.
  - apply Hg.
  - intros s s' vn [[<- <-]|[Hn Hs]]%lookup_insert_Some [[<- Evn]|[Hn' Hs']]%lookup_insert_Some; try done.
    + by apply (find_snap_None _ _ _ _ Hf) in Hs'.
    + subst vn. by apply (find_snap_None _ _ _ _ Hf) in Hs.
    + by eapply (ro_unique k g Hg).
  - intros s v' n [[<- [= <- <-]]|[_ Hs]]%lookup_insert_Some; [done|by eapply (ro_live k g Hg)].
  - intros u Hu. by apply drawn_before_S, (ro_vols k g Hg).
  - intros s [<-|Hs]%lookup_insert_is_Some'; [by exists k; split; [lia|]|]. by apply drawn_before_S, (ro_snaps k g Hg).
Qed.

Lemma reg_ok_remove_vol k g u : reg_ok k g -> reg_ok k (remove_vol u g).
Proof.
  intros Hg. unfold remove_vol. destruct (vol_by_uuid g !! u) as [name|] eqn:E; [|done].
  split; cbn.
  - intros u' n. rewrite !lookup_delete_Some, <- (ro_names k g Hg). split.
    + intros [Hne Hl]. split; [|done]. intros <-. apply (ro_names k g Hg) in E, Hl. congruence.
    + intros [Hne Hl]. split; [|done]. intros <-. congruence.
  - intros s s' vn [Hs _]%map_lookup_filter_Some [Hs' _]%map_lookup_filter_Some. by eapply (ro_unique k g Hg).
  - intros s v n [Hs Hv]%map_lookup_filter_Some. cbn in Hv. rewrite lookup_delete_ne by done. by eapply (ro_live k g Hg).
  - intros u' [n [_ Hl]%lookup_delete_Some]. by apply (ro_vols k g Hg).
  - intros s [vn [Hs _]%map_lookup_filter_Some]. by apply (ro_snaps k g Hg).
Qed.

Lemma remove_vol_subset u g :
  vol_by_uuid (remove_vol u g) ⊆ vol_by_uuid g /\ snap_by_uuid (remove_vol u g) ⊆ snap_by_uuid g.
Proof.
  unfold remove_vol. destruct (vol_by_uuid g !! u); cbn; [|done]. split; [apply delete_subseteq|apply map_filter_subseteq].
Qed.

Lemma reg_ok_remove_snap k g s : reg_ok k g -> reg_ok k (remove_snap s g).
Proof.
  intros Hg. split; cbn; try apply Hg.
  - intros s1 s2 vn [_ H1]%lookup_delete_Some [_ H2]%lookup_delete_Some. by eapply (ro_unique k g Hg).
  - intros s1 v n [_ H1]%lookup_delete_Some. by eapply (ro_live k g Hg).
  - intros s1 [vn [_ H1]%lookup_delete_Some]. by apply (ro_snaps k g Hg).
Qed.

Lemma triple_change_reg f :
  (forall k g, reg_ok k g -> reg_ok k (f g)) ->
  (forall g, vol_by_uuid (f g) ⊆ vol_by_uuid g /\ snap_by_uuid (f g) ⊆ snap_by_uuid g) ->
  triple (fun _ => True) (change_reg f) (fun _ => True).
Proof.
  intros Hf Hs b (Hc & Hr & Ha) _. split_and!; [|split; cbn|done..].
  - split_and!; [done|by apply Hf|done].
  - lia.
  - intros u n Hu. left. by apply (lookup_weaken _ _ _ _ Hu), Hs.
  - intros s vn Hu. left. by apply (lookup_weaken _ _ _ _ Hu), Hs.
Qed.

(** The name of a volume that is named so. *)
Lemma triple_vol_name u n : triple (fun g => named g u n) (vol_name u) (fun m => m = n).
Proof.
  intros b Hb Hp. split_and!; [done..|]. intros m. unfold vol_name. cbn. unfold named in Hp. rewrite Hp.
  by intros [= <-].
Qed.

Definition grows (P : Registry -> Prop) : Prop :=
  forall g g', vol_by_uuid g ⊆ vol_by_uuid g' -> P g -> P g'.

Lemma grows_named v n : grows (fun g => named g v n).
Proof. intros g g' Hs Hn. unfold named in *. by eapply lookup_weaken. Qed.

Lemma triple_register_vol P name : grows P -> triple P (register_vol name) (fun _ => True).
Proof.
  intros HP b (Hc & Hr & Ha) Hp. unfold register_vol. destruct (vol_by_name (z_reg b) !! name) as [u|] eqn:E.
  - by split_and!.
  - cbn. split; [split; [done|split; [by apply reg_ok_add_vol|done]]|split; [split; cbn|split; [|done]]].
    + lia.
    + intros u n [[<- <-]|[_ Hu]]%lookup_insert_Some; [by right; eexists|by left].
    + by left.
    + eapply HP; [|exact Hp]. cbn. by apply insert_subseteq, fresh_vol.
Qed.

Lemma triple_register_snap v n name : triple (fun g => named g v n) (register_snap v name) (fun _ => True).
Proof.
  intros b (Hc & Hr & Ha) Hp. unfold register_snap. destruct (find_snap v name (z_reg b)) as [u|] eqn:E.
  - by split_and!.
  - cbn. split; [split; [done|split; [apply reg_ok_add_snap; [done|by eexists|done]|done]]|split; [split; cbn|done]].
    + lia.
    + by left.
    + intros s vn [[<- <-]|[_ Hs]]%lookup_insert_Some; [by right; eexists|by left].
Qed.

(** ** Every operation *)

Lemma triple_checked P argv : (forall out, may (Ran argv out)) -> triple P (run_checked argv) (fun _ => True).
Proof.
  intros Ha. eapply triple_bind; [eapply triple_cmd; [reflexivity|intros r; apply Ha]|intros out _].
  destruct (success out); [by apply triple_ret|apply triple_fail].
Qed.

Lemma triple_snapshot_name P ds name :
  triple P (snapshot_name ds name) (fun t => t = snapshot_at cfg ds name).
Proof. eapply triple_bind; [apply triple_full|]. intros ? ->. by apply triple_ret. Qed.

#[local] Hint Resolve triple_ret triple_fail triple_lift triple_checked triple_snapshot_name triple_full triple_config
  triple_sleep triple_vol_name : zfs.
#[local] Hint Extern 3 (triple _ (cmd _) _) => (eapply triple_cmd; [reflexivity|intros ?; cbn beta]) : zfs.
#[local] Hint Extern 3 (triple _ (best_effort _) _) => (eapply triple_best_effort; [reflexivity|intros ?; cbn beta]) : zfs.
#[local] Hint Extern 3 (triple _ (outcome _) _) => (eapply triple_outcome; [reflexivity|intros ?; cbn beta]) : zfs.
#[local] Hint Constructors export_event unexport_event permission_event asks : zfs.

(** One bind, whose first half is known. *)
Ltac zfs_step :=
  match goal with
  | |- triple _ (_ ≫= _) _ => eapply triple_bind; [solve [eauto 4 with zfs]|cbn beta; intros ? ?; subst]
  | |- triple _ (if ?c then _ else _) _ => destruct c eqn:?
  | |- triple _ (match ?x with _ => _ end) _ => destruct x eqn:?
  end.
Ltac zfs := repeat zfs_step; eauto 6 with zfs.

Lemma triple_set_mountpoint P name target :
  (forall out, may (Ran (get_argv (dataset cfg name)) out)) ->
  (forall out, may (Ran [bs "zfs"; bs "set"; bs "mountpoint=" ++ target; dataset cfg name] out)) ->
  triple P (set_mountpoint name target) (fun _ => True).
Proof. intros Hget Hset. unfold set_mountpoint. zfs. Qed.

Lemma triple_nfs_export P name mountpoint :
  (forall e, export_event cfg name mountpoint e -> may e) -> triple P (nfs_export name mountpoint) (fun _ => True).
Proof.
  intros He. unfold nfs_export. zfs_step. destruct (manage_kernel_exports cfg) eqn:Hm; cbn [negb]; [|zfs].
  destruct (bool_decide _); [zfs|]. destruct (exports_file cfg name) as [p|] eqn:Ep; zfs.
Qed.

Lemma triple_nfs_unexport P name :
  (forall e, unexport_event cfg name e -> may e) -> triple P (nfs_unexport name) (fun _ => True).
Proof.
  intros He. unfold nfs_unexport. zfs_step. destruct (manage_kernel_exports cfg) eqn:Hm; cbn [negb]; [|zfs].
  eapply triple_bind; [|intros ? _; zfs]. destruct (exports_file cfg name) as [p|] eqn:Ep; zfs.
Qed.

Lemma triple_set_permissions P target :
  (forall e, permission_event cfg target e -> may e) -> triple P (set_permissions target) (fun _ => True).
Proof. intros He. unfold set_permissions. zfs_step. eapply triple_bind; [|intros ? _]; zfs. Qed.

Lemma triple_destroy_loop P left_ attempt t :
  (forall out, may (Ran (destroy_argv t) out)) -> (forall d, may (Slept d)) ->
  triple P (destroy_loop left_ attempt t) (fun _ => True).
Proof.
  intros Ht Hs. revert attempt. induction left_ as [|left_ IH]; intros attempt; cbn [destroy_loop]; zfs_step; zfs.
  eapply triple_bind; [|intros ? _; apply IH]. case_bool_decide; zfs.
Qed.
#[local] Hint Resolve triple_set_mountpoint triple_nfs_export triple_nfs_unexport triple_set_permissions triple_destroy_loop
  triple_register_snap grows_named : zfs.

Lemma grows_True : grows (fun _ => True).
Proof. done. Qed.
#[local] Hint Resolve triple_register_vol grows_True : zfs.

Lemma triple_listed_volumes l : triple (fun _ => True) (listed_volumes (pool cfg) l) (fun _ => True).
Proof.
  induction l as [|line l IH]; cbn [listed_volumes]; [by apply triple_ret|].
  destruct (split_on tab line) as [|? [|? [|? [|? [|? ?]]]]]; try exact IH.
  destruct (bool_decide _); [exact IH|]. zfs_step. eapply triple_bind; [exact IH|intros ? _]. zfs.
Qed.

Lemma triple_listed_snapshots v n l :
  triple (fun g => named g v n) (listed_snapshots from_timestamp v l) (fun _ => True).
Proof.
  induction l as [|line l IH]; cbn [listed_snapshots]; [by apply triple_ret|].
  destruct (split_on tab line) as [|? [|? [|? [|? ?]]]]; try exact IH.
  zfs_step. eapply triple_bind; [exact IH|intros ? _]. zfs.
Qed.
#[local] Hint Resolve triple_listed_volumes triple_listed_snapshots : zfs.

Lemma triple_get_volume u n :
  (forall out, may (Ran (list_argv (dataset cfg n)) out)) ->
  triple (fun g => named g u n) (z_get_volume u) (fun _ => True).
Proof. intros Hl. unfold z_get_volume. zfs. Qed.

Lemma triple_list_snapshots v n :
  (forall out, may (Ran (list_snapshots_argv (dataset cfg n)) out)) ->
  triple (fun g => named g v n) (z_list_snapshots from_timestamp v) (fun _ => True).
Proof. intros Hl. unfold z_list_snapshots. zfs. Qed.
End serving.

#[local] Hint Resolve triple_ret triple_fail triple_lift triple_checked triple_snapshot_name triple_full triple_config
  triple_vol_name triple_set_mountpoint triple_nfs_export triple_nfs_unexport triple_set_permissions triple_destroy_loop
  triple_register_snap triple_register_vol triple_listed_volumes triple_listed_snapshots triple_get_volume
  triple_list_snapshots grows_named grows_True : zfs.
#[local] Hint Constructors export_event unexport_event permission_event asks : zfs.
#[local] Hint Extern 3 (triple _ _ _ (cmd _) _) => (eapply triple_cmd; [reflexivity|intros ?; cbn beta]) : zfs.

#[local] Hint Transparent dataset snapshot_at list_argv get_argv list_snapshots_argv : zfs.

(** As [zfs_step], once what may be asked is an argument. *)
Ltac zfs_step :=
  cbv zeta;
  match goal with
  | |- triple _ _ _ (_ ≫= _) _ => eapply triple_bind; [solve [eauto 4 with zfs]|cbn beta; intros ? ?; subst]
  | |- triple _ _ _ (if ?c then _ else _) _ => destruct c eqn:?
  | |- triple _ _ _ (match ?x with _ => _ end) _ => destruct x eqn:?
  end.
Ltac zfs := repeat zfs_step; eauto 6 with zfs.

Definition zfs_serve (c : zfs_call) b : B :=
  match c with
  | ZList => (z_list_volumes b).2
  | ZCreate spec => (z_create_volume spec b).2
  | ZGet u => (z_get_volume u b).2
  | ZDelete u => (z_delete_volume u b).2
  | ZPatch u p => (z_patch_volume debug u p b).2
  | ZAccess u => (z_access_handle u b).2
  | ZListSnapshots v => (z_list_snapshots from_timestamp v b).2
  | ZSnapshot v n => (z_create_snapshot v n b).2
  | ZGetSnapshot v s => (z_get_snapshot from_timestamp v s b).2
  | ZDeleteSnapshot v s => (z_delete_snapshot v s b).2
  | ZClone v s n => (z_create_clone v s n b).2
  | ZSend v s base => (z_send_stream v s base b).2
  | ZReceive d st => (z_receive_stream d st b).2
  end.

(** A lookup that the registry answers. *)
Lemma at_name {A} u n (f : text -> op A) b : named (z_reg b) u n -> (vol_name u ≫= f) b = f n b.
Proof. unfold named, mbind, M_bind, vol_name. by intros ->. Qed.

Lemma at_no_name {A} u (f : text -> op A) b :
  vol_by_uuid (z_reg b) !! u = None -> ((vol_name u ≫= f) b).2 = b.
Proof. unfold mbind, M_bind, vol_name. by intros ->. Qed.

Lemma at_snap {A} v s sn (f : text -> op A) b :
  snap_by_uuid (z_reg b) !! s = Some (v, sn) -> (snap_of v s ≫= f) b = f sn b.
Proof. unfold mbind, M_bind, snap_of. intros ->. by rewrite bool_decide_true. Qed.

Lemma at_no_snap {A} v s (f : text -> op A) b :
  (forall sn, snap_by_uuid (z_reg b) !! s <> Some (v, sn)) -> ((snap_of v s ≫= f) b).2 = b.
Proof.
  unfold mbind, M_bind, snap_of. intros Hn. destruct (snap_by_uuid (z_reg b) !! s) as [[w sn]|]; [|done].
  rewrite bool_decide_false; [done|]. intros ->. by apply (Hn sn).
Qed.

Lemma snap_cases v s (g : Registry) :
  (exists sn, snap_by_uuid g !! s = Some (v, sn)) \/ (forall sn, snap_by_uuid g !! s <> Some (v, sn)).
Proof.
  destruct (snap_by_uuid g !! s) as [[w sn]|]; [|by right].
  destruct (decide (w = v)) as [->|Hne]; [left; by exists sn|]. right. intros sn' [= ? ?]. done.
Qed.

(** What serving a call leaves. *)
Definition served b (c : zfs_call) b' : Prop :=
  sound b' /\ extends b b' /\
  exists es, t_events (z_runner b') = es ++ t_events (z_runner b) /\ Forall (asks cfg (z_reg b) c) es.

Lemma served_same c b : sound b -> served b c b.
Proof. intros Hb. split; [done|split; [done|]]. by exists []. Qed.

Lemma served_triple P c {A} (m : op A) b :
  sound b -> P (z_reg b) ->
  triple (asks cfg (z_reg b) c) (t_events (z_runner b)) P m (fun _ => True) -> served b c (m b).2.
Proof.
  intros [Hc Hr] Hp Hm. destruct (Hm b) as ((H1 & H2 & H3) & H4 & _); [|exact Hp|].
  - split; [done|split; [done|]]. by exists [].
  - split; [by split|by split].
Qed.
(** A call about a volume: nothing is asked for a name that is not registered. *)
Lemma served_vol c u {A} (f : text -> op A) b :
  sound b -> (forall n, named (z_reg b) u n -> served b c (f n b).2) -> served b c ((vol_name u ≫= f) b).2.
Proof.
  intros Hb Hf. destruct (vol_by_uuid (z_reg b) !! u) as [n|] eqn:E.
  - rewrite (at_name u n f b E). by apply Hf.
  - rewrite at_no_name by done. by apply served_same.
Qed.

Lemma served_snap c v s {A} (f : text -> op A) b :
  sound b -> (forall sn, snap_by_uuid (z_reg b) !! s = Some (v, sn) -> served b c (f sn b).2) ->
  served b c ((snap_of v s ≫= f) b).2.
Proof.
  intros Hb Hf. destruct (snap_cases v s (z_reg b)) as [[sn Hs]|Hs].
  - rewrite (at_snap v s sn f b Hs). by apply Hf.
  - rewrite at_no_snap by done. by apply served_same.
Qed.

Ltac by_triple P := apply (served_triple P); [assumption|first [exact I|assumption]|].

Lemma patch_served u patch b : sound b -> served b (ZPatch u patch) (z_patch_volume debug u patch b).2.
Proof.
  intros Hb. apply served_vol; [done|]. intros n Hn. by_triple (fun g => named g u n).
  eapply triple_bind with (Q := fun _ => forall jp, junction_path patch = Some jp -> starts_with (bs "/") jp = true).
  { destruct (junction_path patch) as [jp|] eqn:Ej; [|by apply triple_ret].
    destruct (starts_with (bs "/") jp) eqn:Es; [|apply triple_fail]. apply triple_ret. by intros ? [= <-]. }
  intros _ Hj. eapply triple_bind; [destruct (patch_size patch) eqn:Ez; zfs|intros ? _].
  eapply triple_bind; [|intros ? _; apply triple_get_volume; eauto with zfs].
  destruct (junction_path patch) as [jp|] eqn:Ej; [|zfs]. specialize (Hj jp eq_refl). zfs_step.
  eapply triple_bind; [apply triple_set_mountpoint; eauto with zfs|intros ? _].
  eapply triple_bind; [apply triple_nfs_export; eauto with zfs|intros ? _].
  apply triple_set_permissions. eauto with zfs.
Qed.

Lemma delete_served u b : sound b -> served b (ZDelete u) (z_delete_volume u b).2.
Proof.
  intros Hb. apply served_vol; [done|]. intros n Hn. by_triple (fun _ : Registry => True).
  eapply triple_bind; [apply triple_nfs_unexport; eauto with zfs|intros ? _]. eapply triple_bind; [|intros ? _].
  - unfold destroy_with_retry. do 2 zfs_step. apply triple_destroy_loop; eauto with zfs.
  - apply triple_change_reg; [intros; by apply reg_ok_remove_vol|apply remove_vol_subset].
Qed.

Lemma clone_served v s name b : sound b -> served b (ZClone v s name) (z_create_clone v s name b).2.
Proof.
  intros Hb. apply served_vol; [done|]. intros n Hn. apply served_snap; [done|]. intros sn Hs.
  by_triple (fun _ : Registry => True). zfs.
Qed.

Lemma serve_served c b : sound b -> served b c (zfs_serve c b).
Proof.
  intros Hb. destruct c; cbn [zfs_serve].
  - by_triple (fun _ : Registry => True). unfold z_list_volumes. zfs.
  - by_triple (fun _ : Registry => True). unfold z_create_volume. do 2 zfs_step.
    eapply triple_bind; [apply triple_checked; intros out; apply ak_create|intros ? _; zfs].
  - apply served_vol; [done|]. intros n Hn. by_triple (fun _ : Registry => True). zfs.
  - by apply delete_served.
  - by apply patch_served.
  - apply served_vol; [done|]. intros n Hn. by_triple (fun _ : Registry => True). zfs.
  - destruct (vol_by_uuid (z_reg b) !! v) as [n|] eqn:E.
    + by_triple (fun g => named g v n). apply triple_list_snapshots. eauto with zfs.
    + unfold z_list_snapshots. rewrite at_no_name by done. by apply served_same.
  - apply served_vol; [done|]. intros n Hn. by_triple (fun g => named g v n). zfs.
  - apply served_snap; [done|]. intros sn Hs. destruct (vol_by_uuid (z_reg b) !! v) as [n|] eqn:E.
    + by_triple (fun g => named g v n).
      eapply triple_bind; [apply triple_list_snapshots; eauto with zfs|intros ? _; apply triple_lift].
    + unfold mbind at 1, M_bind at 1. unfold z_list_snapshots. unfold mbind at 1, M_bind at 1, vol_name. rewrite E.
      by apply served_same.
  - apply served_snap; [done|]. intros sn Hs. apply served_vol; [done|]. intros n Hn.
    by_triple (fun _ : Registry => True). zfs_step. zfs_step.
    apply triple_change_reg; [intros; by apply reg_ok_remove_snap|]. intros g. split; [done|apply delete_subseteq].
  - by apply clone_served.
  - apply served_vol; [done|]. intros n Hn. by_triple (fun _ : Registry => True). zfs.
  - by_triple (fun _ : Registry => True). unfold z_receive_stream. zfs.
Qed.

Lemma serve_all_keeps calls b : sound b -> sound (foldr zfs_serve b calls) /\ extends b (foldr zfs_serve b calls).
Proof.
  intros Hb. induction calls as [|c calls [IH1 IH2]]; cbn; [done|].
  destruct (serve_served c _ IH1) as (H1 & H2 & _). split; [done|by etrans].
Qed.

Lemma sound_new (h : R) : sound (new (mkTraced h []) cfg).
Proof. split; [done|]. split; cbn; intros; by rewrite ?lookup_empty in *; try (destruct H; rewrite lookup_empty in H). Qed.

(** C26. An identifier names one thing for good: on any machine and after any calls, the names
    and identifiers of volumes match one to one, no two snapshot identifiers name the same
    snapshot, each is one of a registered volume, and an identifier that named a volume or a
    snapshot once never comes to name another. *)
Theorem identifiers_name_one_thing (h : R) (calls later : list zfs_call) :
  let b1 := foldr zfs_serve (new (mkTraced h []) cfg) calls in
  let b2 := foldr zfs_serve b1 later in
  (forall u n, vol_by_uuid (z_reg b2) !! u = Some n <-> vol_by_name (z_reg b2) !! n = Some u) /\
  (forall s v n, snap_by_uuid (z_reg b2) !! s = Some (v, n) -> is_Some (vol_by_uuid (z_reg b2) !! v) /\
    forall s', snap_by_uuid (z_reg b2) !! s' = Some (v, n) -> s' = s) /\
  (forall u n n', vol_by_uuid (z_reg b1) !! u = Some n -> vol_by_uuid (z_reg b2) !! u = Some n' -> n' = n) /\
  (forall s vn vn', snap_by_uuid (z_reg b1) !! s = Some vn -> snap_by_uuid (z_reg b2) !! s = Some vn' -> vn' = vn).
Proof.
  intros b1 b2. destruct (serve_all_keeps calls _ (sound_new h)) as [H1 _]. fold b1 in H1.
  destruct (serve_all_keeps later b1 H1) as [[_ G2] X]. fold b2 in G2, X. destruct H1 as [_ G1].
  assert (Hold : forall u, drawn_before (z_drawn b1) u -> ~ exists i, (z_drawn b1 <= i)%nat /\ u = uuid_at i).
  { intros u (i & Hi & ->) (j & Hj & E%Hids). lia. }
  split_and!.
  - apply G2.
  - intros s v n Hs. split; [by eapply (ro_live _ _ G2)|]. intros s' Hs'. by eapply (ro_unique _ _ G2).
  - intros u n n' Hn [Hn'|Hd]%(ex_vols _ _ X); [by pose proof (eq_trans (eq_sym Hn') Hn) as [= ->]|].
    exfalso. eapply Hold; [|exact Hd]. apply (ro_vols _ _ G1). by exists n.
  - intros s vn vn' Hn [Hn'|Hd]%(ex_snaps _ _ X); [by pose proof (eq_trans (eq_sym Hn') Hn) as [= ->]|].
    exfalso. eapply Hold; [|exact Hd]. apply (ro_snaps _ _ G1). by exists vn.
Qed.

(** ** What is asked stays in its place *)

Lemma starts_with_slash jp : starts_with (bs "/") jp = true -> exists rel, jp = bs "/" ++ rel.
Proof.
  destruct jp as [|b rel]; [done|]. cbn. intros [Hb _]%andb_prop. apply bool_decide_eq_true in Hb. exists rel. by subst.
Qed.

Lemma junction_below jp : starts_with (bs "/") jp = true -> no_way_up jp -> below_root cfg (srv_root cfg ++ jp).
Proof.
  intros (rel & ->)%starts_with_slash Hn. exists rel. split; [done|]. unfold no_way_up in *.
  change (bs "/" ++ rel) with ([] ++ slash_byte :: rel) in Hn.
  rewrite split_on_app in Hn by set_solver. set_solver.
Qed.

(** Where the name a call gives has no way up, the places it touches are below the root. *)
Lemma asks_below g c e :
  asks cfg g c e -> (forall t, given_place c = Some t -> no_way_up t) ->
  forall p, place_of e = Some p -> below_root cfg p.
Proof.
  intros He Hc p. destruct He as [ |spec out| |u n e Hn He| | | | |u patch n jp out Hn Hj Hs|u patch n jp e Hn Hj Hs He
    |u patch n jp e Hn Hj Hs He| | | | | | |v n s sn name out Hn Hs| | | ]; try done.
  - cbn [place_of app]. rewrite !bool_decide_true by done. cbn [orb]. rewrite strip_prefix_app. intros [= <-].
    exists (spec_name spec). split; [done|]. by apply Hc.
  - by destruct He.
  - cbn [place_of app]. rewrite bool_decide_true, !bool_decide_false by done. cbn [orb].
    rewrite bool_decide_true, strip_prefix_app by done. intros [= <-]. apply junction_below; [done|]. by apply Hc.
  - by destruct He.
  - assert (Hp : place_of e = Some (srv_root cfg ++ jp)) by (destruct He; reflexivity).
    rewrite Hp. intros [= <-]. apply junction_below; [done|]. by apply Hc.
  - change (strip_prefix (bs "mountpoint=") (bs "mountpoint=" ++ srv_root cfg ++ bs "/" ++ name) = Some p -> below_root cfg p).
    rewrite strip_prefix_app. intros [= <-]. exists name. split; [done|]. by apply Hc.
Qed.

Lemma asks_exports g c e : asks cfg g c e -> of_exports e -> manage_kernel_exports cfg = true.
Proof. intros He. destruct He as [ | | |u n e Hn He| | | | | |u patch n jp e Hn Hj Hs He|u patch n jp e Hn Hj Hs He| | | | | | | | | | ];
  try done; by destruct He. Qed.

Lemma asks_files g c e p : asks cfg g c e -> file_of e = Some p -> export_file cfg p.
Proof.
  intros He Hp. destruct He as [ | | |u n e Hn He| | | | | |u patch n jp e Hn Hj Hs He|u patch n jp e Hn Hj Hs He| | | | | | | | | | ];
    try done; destruct He; simplify_eq/=; by eapply exports_file_safe.
Qed.

(** C17. The backend keeps to its commands.  On any machine and after any calls, where the
    identifiers drawn are distinct, what serving
    one more call asks of the machine is exactly of the kind [asks] lists for that call: each
    command is about the dataset of the pool that the call's identifier names in the registry,
    about a snapshot of it, or about the dataset under the name the call gives, and a plain
    [zfs destroy] is only given the snapshot to delete.  Kernel exports are touched only where
    they are the backend's business, and each file written or removed has one plain name, of a
    fixed form, in the exports directory.  Every place that a dataset is mounted at, or that is
    opened to the owner, is the export root joined with the name or the junction the call
    gives, and lies below the root when that has no [..] among its components; the backend
    does not look for one ([name_leaves_the_export_root]). *)
Theorem backend_keeps_to_its_commands (h : R) (earlier : list zfs_call) (c : zfs_call) :
  let b := foldr zfs_serve (new (mkTraced h []) cfg) earlier in
  exists es, t_events (z_runner (zfs_serve c b)) = es ++ t_events (z_runner b) /\
    forall e, e ∈ es ->
      asks cfg (z_reg b) c e /\
      (of_exports e -> manage_kernel_exports cfg = true) /\
      (forall p, file_of e = Some p -> export_file cfg p) /\
      ((forall t, given_place c = Some t -> no_way_up t) ->
        forall p, place_of e = Some p -> below_root cfg p).
Proof.
  intros b. destruct (serve_all_keeps earlier _ (sound_new h)) as [Hb _]. fold b in Hb.
  destruct (serve_served c b Hb) as (_ & _ & es & E & Hes). exists es. split; [exact E|].
  intros e He. rewrite Forall_forall in Hes. specialize (Hes e He).
  split; [done|]. split; [by eapply asks_exports|]. split; [intros p; by eapply asks_files|].
  intros Hc. by apply (asks_below _ _ _ Hes Hc).
Qed.
End laws.

(** ** Deleting a volume *)

Section deletion.
Context {Ids : Uuids} {R : Type} {RM : Machine R}.
Abbreviation B := (ZfsBackend (Traced R)).
Implicit Types (b : B).

(** The attempts to destroy a dataset, [left_] of them to come after the first: each but the
    last was answered that it is busy, and each but the first comes after its backoff. *)
Inductive attempts (cfg : ZfsConfig) (t : text) : nat -> Z -> list event -> bool -> Prop :=
| at_done left_ k out : success out = true -> attempts cfg t left_ k [Ran (destroy_argv t) (Some out)] true
| at_not_run left_ k : attempts cfg t left_ k [Ran (destroy_argv t) None] false
| at_refused left_ k out : success out = false -> contains (bs "busy") (stderr out) = false \/ left_ = 0%nat ->
    attempts cfg t left_ k [Ran (destroy_argv t) (Some out)] false
| at_busy left_ k out es ok : success out = false -> contains (bs "busy") (stderr out) = true ->
    attempts cfg t left_ (k + 1) es ok ->
    attempts cfg t (S left_) k
      (Ran (destroy_argv t) (Some out) :: (if bool_decide (backoff cfg k = 0) then [] else [Slept (backoff cfg k)]) ++ es) ok.

Definition is_destroy (e : event) : bool := match e with Ran _ _ => true | _ => false end.

Lemma attempts_bounded cfg t left_ k es ok :
  attempts cfg t left_ k es ok -> (length (filter (fun e => is_destroy e = true) es) <= S left_)%nat.
Proof.
  induction 1 as [| | |left_ k out es ok Hs Hb Ha IH];
    rewrite filter_cons_True by done; [simpl; lia..|].
  rewrite length_cons. case_bool_decide; cbn [app]; [lia|]. rewrite filter_cons_False by done. lia.
Qed.

(** What keeps the registry and adds to the events. *)
Definition adds {A} (b : B) (rb : result BackendError A * B) (es : list event) : Prop :=
  z_reg rb.2 = z_reg b /\ z_cfg rb.2 = z_cfg b /\ t_events (z_runner rb.2) = rev es ++ t_events (z_runner b).

Definition on_machine (b : B) (h : Traced R) : B := mkZfs h (z_cfg b) (z_reg b) (z_drawn b).

Definition waited (w : Z) b : B := if bool_decide (w = 0) then b else on_machine b (sleep w (z_runner b)).

Lemma destroy_loop_step left_ k t b :
  destroy_loop left_ k t b =
  let '(r, x) := run (destroy_argv t) (t_machine (z_runner b)) in
  let b1 := on_machine b (mkTraced x (Ran (destroy_argv t) (res_ok r) :: t_events (z_runner b))) in
  match r with
  | Err e => (Err e, b1)
  | Ok out =>
      let failed := (Err (CommandFailed (bs "zfs destroy -r -f " ++ t) (stderr out)), b1) in
      if success out then (Ok (), b1)
      else if contains (bs "busy") (stderr out) then
        match left_ with
        | O => failed
        | S left_ => destroy_loop left_ (k + 1) t (waited (backoff (z_cfg b) k) b1)
        end
      else failed
  end.
Proof.
  assert (E : forall f : CommandOutput -> M BackendError B (), (out ← cmd (run (destroy_argv t)); f out) b =
    let '(r, x) := run (destroy_argv t) (t_machine (z_runner b)) in
    let b1 := on_machine b (mkTraced x (Ran (destroy_argv t) (res_ok r) :: t_events (z_runner b))) in
    match r with Err e => (Err e, b1) | Ok out => f out b1 end).
  { intros f. unfold mbind, M_bind, cmd. simpl. unfold traced. destruct (run _ _) as [[|] x]; done. }
  destruct left_ as [|left_]; cbn [destroy_loop]; rewrite E; clear E;
    destruct (run _ _) as [[out|e] x]; try done; destruct (success out); try done;
    destruct (contains _ _); try done.
  unfold waited, mbind, M_bind, config. cbn. by case_bool_decide.
Qed.

Lemma destroy_loop_attempts left_ k t b :
  exists es, attempts (z_cfg b) t left_ k es (is_ok (destroy_loop left_ k t b).1) /\ adds b (destroy_loop left_ k t b) es.
Proof.
  revert k b. induction left_ as [|left_ IH]; intros k b; rewrite destroy_loop_step;
    destruct (run _ _) as [[out|e] x]; cbn [res_ok];
    try (exists [Ran (destroy_argv t) None]; split; [constructor|done]);
    (destruct (success out) eqn:Es; [exists [Ran (destroy_argv t) (Some out)]; split; [by constructor|done]|]);
    (destruct (contains (bs "busy") (stderr out)) eqn:Eb;
      [|exists [Ran (destroy_argv t) (Some out)]; split; [constructor; [done|by left]|done]]).
  - exists [Ran (destroy_argv t) (Some out)]. split; [constructor; [done|by right]|done].
  - cbv zeta. set (w := backoff (z_cfg b) k). set (b1 := on_machine b _).
    assert (H2 : z_cfg (waited w b1) = z_cfg b /\ z_reg (waited w b1) = z_reg b /\ t_events (z_runner (waited w b1)) =
      rev (Ran (destroy_argv t) (Some out) :: (if bool_decide (w = 0) then [] else [Slept w])) ++ t_events (z_runner b))
      by (unfold waited; by case_bool_decide).
    destruct H2 as (E1 & E2 & E3), (IH (k + 1) (waited w b1)) as (es & Ha & Hg & Hc & He). rewrite E1 in Ha.
    eexists. split; [by apply at_busy|]. split_and!; [by rewrite Hg|by rewrite Hc|].
    rewrite He, E3, app_assoc. f_equal. by rewrite <- rev_app_distr.
Qed.

(** What the backend does to the exports before: its file goes, and the kernel is told. *)
Inductive unexported (cfg : ZfsConfig) (name : text) : list event -> Prop :=
| un_not_managed : manage_kernel_exports cfg = false -> unexported cfg name []
| un_managed out : manage_kernel_exports cfg = true ->
    unexported cfg name (match exports_file cfg name with Some p => [Removed p] | None => [] end ++ [Ran [bs "exportfs"; bs "-r"] out]).

Lemma nfs_unexport_events name b :
  exists es, unexported (z_cfg b) name es /\ (nfs_unexport name b).1 = Ok () /\ adds b (nfs_unexport name b) es.
Proof.
  assert (E : nfs_unexport name b =
    (if negb (manage_kernel_exports (z_cfg b)) then mret ()
     else
       _ ← (match exports_file (z_cfg b) name with Some path => best_effort (remove_file path) | None => mret () end);
       best_effort (run [bs "exportfs"; bs "-r"])) b) by done.
  rewrite E. clear E. destruct (manage_kernel_exports (z_cfg b)) eqn:Em; cbn [negb].
  2:{ exists []. split; [by apply un_not_managed|done]. }
  pose proof (un_managed (z_cfg b) name) as Hun.
  destruct (exports_file (z_cfg b) name) as [p|] eqn:Ep; unfold mbind, M_bind, best_effort, outcome, mbind, M_bind; simpl; unfold traced; simpl.
  - destruct (remove_file p _) as [r x]. simpl. destruct (run _ x) as [out y]. simpl.
    eexists. split; [by apply (Hun (res_ok out))|done].
  - destruct (run _ _) as [out y]. simpl. eexists. split; [by apply (Hun (res_ok out))|done].
Qed.

(** C24. How a volume is deleted: on any machine, a volume the backend knows is unexported
    first and destroyed then, by at most one attempt more than the retries configured, each
    further attempt after its backoff and only because the dataset was busy; if the last
    attempt succeeded the volume and its snapshots are forgotten, and nothing else is; if not,
    nothing is forgotten. *)
Theorem deletion_protocol b u name :
  vol_by_uuid (z_reg b) !! u = Some name ->
  let '(r, b') := z_delete_volume u b in
  exists before es,
    unexported (z_cfg b) name before /\
    attempts (z_cfg b) (pool (z_cfg b) ++ bs "/" ++ name) (max_destroy_retries (z_cfg b)) 0 es (is_ok r) /\
    (length (filter (fun e => is_destroy e = true) es) <= S (max_destroy_retries (z_cfg b)))%nat /\
    t_events (z_runner b') = rev (before ++ es) ++ t_events (z_runner b) /\
    (is_ok r = true -> vol_by_uuid (z_reg b') = delete u (vol_by_uuid (z_reg b)) /\
      forall s vn, snap_by_uuid (z_reg b') !! s = Some vn <-> snap_by_uuid (z_reg b) !! s = Some vn /\ vn.1 <> u) /\
    (is_ok r = false -> z_reg b' = z_reg b).
Proof.
  intros Hu. unfold z_delete_volume, vol_name, mbind, M_bind. rewrite Hu. cbn [ok_or].
  destruct (nfs_unexport_events name b) as (before & Hbefore & Eun & Hg1 & Hc1 & He1).
  destruct (nfs_unexport name b) as [r1 b1]. simpl in *. subst r1.
  unfold destroy_with_retry, full, config, mbind, M_bind. cbn. rewrite Hc1.
  destruct (destroy_loop_attempts (max_destroy_retries (z_cfg b)) 0 (pool (z_cfg b) ++ bs "/" ++ name) b1) as (es & Ha & Hg2 & Hc2 & He2).
  rewrite Hc1 in Ha. pose proof (attempts_bounded _ _ _ _ _ _ Ha) as Hlen.
  destruct (destroy_loop _ _ _ b1) as [[[]|e] b2]; simpl in *; exists before, es;
    (split_and!; [done..|by rewrite He2, He1, rev_app_distr, app_assoc| |]); try done.
  - intros _. unfold remove_vol. rewrite Hg2, Hg1, Hu. cbn. split; [done|].
    intros s vn. apply map_lookup_filter_Some.
  - intros _. congruence.
Qed.
End deletion.

(** ** Junctions *)

Section junctions.
Context {Ids : Uuids} {R : Type} {RM : Machine R} (debug : text -> text).
Implicit Types (b : ZfsBackend R).

(** A junction that is not absolute is refused before anything is run. *)
Lemma relative_junction_refused u name jp size policy b :
  vol_by_uuid (z_reg b) !! u = Some name -> starts_with (bs "/") jp = false ->
  z_patch_volume debug u (mkPatch size (Some jp) policy) b =
    (Err (InvalidArgument (bs "nas.path must start with '/' (got " ++ debug jp ++ bs ")")), b).
Proof. intros Hu Hj. unfold z_patch_volume, vol_name, mbind, M_bind. rewrite Hu. cbn [ok_or junction_path]. by rewrite Hj. Qed.

(** A dataset already mounted at its target is not set again, which would evict its exports. *)
Lemma redundant_mountpoint_left name target b out x :
  run [bs "zfs"; bs "get"; bs "-H"; bs "-o"; bs "value"; bs "mountpoint"; pool (z_cfg b) ++ bs "/" ++ name] (z_runner b) = (Ok out, x) ->
  success out = true -> trim (stdout out) = target ->
  set_mountpoint name target b = (Ok false, mkZfs x (z_cfg b) (z_reg b) (z_drawn b)).
Proof.
  intros E Hs Ht. unfold set_mountpoint, full, config, run_checked, cmd, mbind, M_bind, mret, M_ret.
  rewrite E, Hs. by rewrite bool_decide_true.
Qed.
End junctions.

(** ** A scripted machine *)

(** It answers as its script says, and then with success. *)
Definition script : Type := list CommandOutput.

Definition says (out : text) : CommandOutput := mkOutput true out [].
Definition refuses (err : text) : CommandOutput := mkOutput false [] err.

#[export] Instance script_runner : CommandRunner script := {|
  run _ h := match h with out :: h => (Ok out, h) | [] => (Ok (says []), []) end;
  spawn_stdout _ h := (Ok (cursor (bs "ZFS-SEND-STREAM")), h);
  run_stdin _ s h := (map_err (fun e => Internal (ie_display e)) (zlen <$> (read_to_end s).1), h);
|}.

#[export] Instance script_machine : Machine script := {|
  create_dir_all _ := mret ();
  write_file _ _ := mret ();
  remove_file _ := mret ();
  sleep _ h := h;
|}.

#[export] Instance counted_uuids : Uuids := {| uuid_at := N.of_nat |}.

Module ZfsExample.
Definition tank : ZfsConfig :=
  mkZfsConfig (bs "tank") (bs "10.0.0.1") [bs "10.0.0.0/8"] (Some (bs "1000:1000")) None (bs "/etc/exports.d")
    (bs "/srv") true 1000 3.
Definition serve_one := @zfs_serve _ script script_machine (fun s => Some s) (fun t => t).
Definition at_start (answers : script) : ZfsBackend (Traced script) := new (mkTraced answers []) tank.

(** A volume is created, mounted elsewhere, and deleted on the second attempt. *)
Definition life : list zfs_call :=
  [ZDelete 0%N; ZPatch 0%N (mkPatch None (Some (bs "/j")) None); ZCreate (mkSpec (bs "../v") (Some 1024))].

Definition answers : script :=
  [says []; says (bs "/srv/../v"); says []; says []; says []; says []; says []; refuses (bs "dataset is busy")].

Lemma life_events :
  let b := foldr serve_one (at_start answers) life in
  z_reg b = registry_default /\
  rev (t_events (z_runner b)) = [
    Ran [bs "zfs"; bs "create"; bs "-o"; bs "mountpoint=/srv/../v"; bs "-o"; bs "quota=1024"; bs "tank/../v"] (Some (says []));
    Ran [bs "zfs"; bs "get"; bs "-H"; bs "-o"; bs "value"; bs "mountpoint"; bs "tank/../v"] (Some (says (bs "/srv/../v")));
    Ran [bs "zfs"; bs "set"; bs "mountpoint=/srv/j"; bs "tank/../v"] (Some (says []));
    MadeDir (bs "/etc/exports.d");
    Wrote (bs "/etc/exports.d/trident_v.exports") (bs "/srv/j 10.0.0.0/8(rw,sync,no_subtree_check,no_root_squash,crossmnt)" ++ [nl]);
    Ran [bs "exportfs"; bs "-r"] (Some (says []));
    Ran [bs "chown"; bs "1000:1000"; bs "/srv/j"] (Some (says []));
    Ran [bs "zfs"; bs "list"; bs "-H"; bs "-o"; bs "name,mountpoint,used,avail,origin"; bs "tank/../v"] (Some (says []));
    Removed (bs "/etc/exports.d/trident_v.exports");
    Ran [bs "exportfs"; bs "-r"] (Some (says []));
    Ran (destroy_argv (bs "tank/../v")) (Some (refuses (bs "dataset is busy")));
    Slept 1000;
    Ran (destroy_argv (bs "tank/../v")) (Some (says []))].
Proof. split; by vm_compute. Qed.

(** A listing skips the pool itself and shows a clone's origin.  It names a nested dataset
    whole, but a clone's parent by its last component alone. *)
Lemma nested_parent_is_cut :
  (fun v => (v_name v, clone v)) <$> unwrap_or (z_list_volumes (at_start
    [says (bs "tank" ++ [tab] ++ bs "/tank" ++ [tab] ++ bs "1K" ++ [tab] ++ bs "1G" ++ [tab] ++ bs "-" ++ [nl] ++
           bs "tank/a/b" ++ [tab] ++ bs "/srv/b" ++ [tab] ++ bs "1K" ++ [tab] ++ bs "1G" ++ [tab] ++ bs "-" ++ [nl] ++
           bs "tank/c" ++ [tab] ++ bs "/srv/c" ++ [tab] ++ bs "1K" ++ [tab] ++ bs "1G" ++ [tab] ++ bs "tank/a/b@s" ++ [nl])])).1 []
  = [(bs "a/b", None); (bs "c", Some (mkOrigin (bs "b") (bs "s")))].
Proof. by vm_compute. Qed.

(** The snapshots of a dataset below a volume are listed as the volume's own, so that deleting
    one is asked of a snapshot that is not there. *)
Lemma child_snapshots_are_listed :
  let b := foldr serve_one (at_start [says []; says (bs "tank/v/child@s" ++ [tab] ++ bs "17" ++ [tab] ++ bs "5" ++ [tab] ++ bs "9" ++ [nl])])
    [ZDeleteSnapshot 0%N 1%N; ZListSnapshots 0%N; ZCreate (mkSpec (bs "v") None)] in
  head (t_events (z_runner b)) = Some (Ran [bs "zfs"; bs "destroy"; bs "tank/v@s"] (Some (says []))).
Proof. by vm_compute. Qed.

(** Names that differ in what a file name may not hold share one file of exports. *)
Lemma exports_files_collide : exports_file tank (bs "a b") = exports_file tank (bs "ab").
Proof. by vm_compute. Qed.

(** At the 32nd retry the power wraps to nothing, and the wait with it. *)
Lemma backoff_wraps : backoff tank 31 = 2 ^ 31 * 1000 /\ backoff tank 32 = 0.
Proof. by vm_compute. Qed.

(** ** The theorems at these inputs *)

Lemma counted_distinct (i j : nat) : uuid_at i = uuid_at j -> i = j.
Proof. apply Nat2N.inj. Qed.

Definition calls : list zfs_call := [ZSnapshot 0%N (bs "s"); ZCreate (mkSpec (bs "v") None)].

Lemma identifiers_name_one_thing_witness :
  let b1 := foldr serve_one (at_start []) calls in
  let b2 := foldr serve_one b1 [ZCreate (mkSpec (bs "v") None); ZDelete 0%N] in
  vol_by_uuid (z_reg b1) !! 0%N = Some (bs "v") /\ vol_by_uuid (z_reg b2) !! 0%N = None /\
  vol_by_uuid (z_reg b2) !! 2%N = Some (bs "v") /\
  (forall u n, vol_by_uuid (z_reg b2) !! u = Some n <-> vol_by_name (z_reg b2) !! n = Some u) /\
  (forall s v n, snap_by_uuid (z_reg b2) !! s = Some (v, n) -> is_Some (vol_by_uuid (z_reg b2) !! v) /\
    forall s', snap_by_uuid (z_reg b2) !! s' = Some (v, n) -> s' = s) /\
  (forall u n n', vol_by_uuid (z_reg b1) !! u = Some n -> vol_by_uuid (z_reg b2) !! u = Some n' -> n' = n) /\
  (forall s vn vn', snap_by_uuid (z_reg b1) !! s = Some vn -> snap_by_uuid (z_reg b2) !! s = Some vn' -> vn' = vn).
Proof.
  intros b1 b2. split; [by vm_compute|]. split; [by vm_compute|]. split; [by vm_compute|].
  exact (identifiers_name_one_thing _ _ tank counted_distinct [] calls [ZCreate (mkSpec (bs "v") None); ZDelete 0%N]).
Defined.

(** The names are not looked at: a junction with [..] has the dataset mounted outside the
    export root, and opens that place to the owner. *)
Definition upward : list zfs_call :=
  [ZPatch 0%N (mkPatch None (Some (bs "/../etc")) None); ZCreate (mkSpec (bs "v") None)].

Lemma name_leaves_the_export_root :
  let es := t_events (z_runner (foldr serve_one (at_start []) upward)) in
  Ran [bs "zfs"; bs "set"; bs "mountpoint=/srv/../etc"; bs "tank/v"] (Some (says [])) ∈ es /\
  Ran [bs "chown"; bs "1000:1000"; bs "/srv/../etc"] (Some (says [])) ∈ es /\
  ~ below_root tank (bs "/srv/../etc").
Proof.
  split; [|split].
  - vm_compute. repeat first [by left|right].
  - vm_compute. repeat first [by left|right].
  - intros (rel & E & Hn). injection E as <-. apply Hn. vm_compute. by left.
Qed.

(** The same call with a junction that stays in its place. *)
Definition patch_j : zfs_call := ZPatch 0%N (mkPatch None (Some (bs "/j")) None).

Lemma backend_keeps_to_its_commands_witness :
  let b := foldr serve_one (at_start answers) [ZCreate (mkSpec (bs "v") (Some 1024))] in
  (exists es, t_events (z_runner (serve_one patch_j b)) = es ++ t_events (z_runner b) /\
    forall e, e ∈ es ->
      asks tank (z_reg b) patch_j e /\
      (of_exports e -> manage_kernel_exports tank = true) /\
      (forall p, file_of e = Some p -> export_file tank p) /\
      ((forall t, given_place patch_j = Some t -> no_way_up t) ->
        forall p, place_of e = Some p -> below_root tank p)) /\
  (forall t, given_place patch_j = Some t -> no_way_up t) /\
  place_of <$> firstn 2 (drop 1 (t_events (z_runner (serve_one patch_j b)))) = [Some (bs "/srv/j"); None].
Proof.
  intros b. split; [exact (backend_keeps_to_its_commands _ _ tank counted_distinct answers [ZCreate (mkSpec (bs "v") (Some 1024))] patch_j)|].
  split; [|by vm_compute]. intros t [= <-]. unfold no_way_up. apply (bool_decide_unpack _). vm_compute. exact I.
Defined.

Definition one_volume : ZfsBackend (Traced script) :=
  foldr serve_one (at_start [says []; says []; refuses (bs "dataset is busy")]) [ZCreate (mkSpec (bs "v") None)].

Lemma deletion_protocol_witness :
  vol_by_uuid (z_reg one_volume) !! 0%N = Some (bs "v") /\
  let '(r, b') := z_delete_volume 0%N one_volume in
  exists before es,
    unexported (z_cfg one_volume) (bs "v") before /\
    attempts (z_cfg one_volume) (pool (z_cfg one_volume) ++ bs "/" ++ bs "v") (max_destroy_retries (z_cfg one_volume)) 0 es (is_ok r) /\
    (length (filter (fun e => is_destroy e = true) es) <= S (max_destroy_retries (z_cfg one_volume)))%nat /\
    t_events (z_runner b') = rev (before ++ es) ++ t_events (z_runner one_volume) /\
    (is_ok r = true -> vol_by_uuid (z_reg b') = delete 0%N (vol_by_uuid (z_reg one_volume)) /\
      forall s vn, snap_by_uuid (z_reg b') !! s = Some vn <-> snap_by_uuid (z_reg one_volume) !! s = Some vn /\ vn.1 <> 0%N) /\
    (is_ok r = false -> z_reg b' = z_reg one_volume).
Proof. split; [by vm_compute|]. apply (deletion_protocol one_volume 0%N (bs "v")). by vm_compute. Defined.
End ZfsExample.
