(* ===== verification/Mesh.v ===== *)
(** Mutual TLS on agent-mesh keys (crates/nessie-mtls/src: authorized_keys.rs, proof.rs,
    identity.rs, verifier.rs) and how the peer plane uses it (crates/nessie-store/src/peer_tls.rs).

    Signatures, certificate chains, X.509, JSON and SSH key parsing are third party: the class
    [MeshLib], and [MeshLaws] what they document.  A file system is the class [SecretFiles];
    [Drive] is one whose calls fail only for what is there or not.  The revocation log is read
    at each check, so checking one is an operation of the same state.  A path is its text. *)

From Stdlib Require Import ZArith Lia.
From stdpp Require Import base option gmap list.
From S2P Require Import Prelude Text Errors Config.

Local Open Scope Z_scope.

(** ** Third-party code *)

(** A certificate as far as it is looked at: whether its key is ed25519, the key's bytes, and
    its extensions. *)
Record X509 := mkX509 { x_ed25519 : bool; x_key : list byte; x_extensions : list (list Z * list byte) }.

Class MeshLib := {
  CertChain : Type;
  GitHubBinding : Type;
  AgentMetadata : Type;
  UserKey : Type;
  AgentKey : Type;
  KeyPair : Type;
  San : Type;
  agent_pubkey : CertChain -> list byte;
  root_user_pubkey : CertChain -> list byte;
  agent_fingerprint : CertChain -> text;
  user_fingerprint : CertChain -> text;
  chain_verify : CertChain -> result text ();
  binding_user : GitHubBinding -> list byte;
  binding_verify : GitHubBinding -> list byte -> bool;
  user_public : UserKey -> list byte;
  ak_cert : AgentKey -> CertChain;
  ak_seed : AgentKey -> list byte;
  ak_issue : UserKey -> AgentMetadata -> AgentKey;
  ak_delegate : AgentKey -> AgentMetadata -> result text AgentKey;
  ak_from_seed : list byte -> CertChain -> result text AgentKey;
  chain_json : CertChain -> list byte;
  binding_json : GitHubBinding -> list byte;
  proof_json : CertChain -> GitHubBinding -> list byte;
  chain_of_json : list byte -> result text CertChain;
  binding_of_json : list byte -> result text GitHubBinding;
  proof_of_json : list byte -> result text (CertChain * GitHubBinding);
  key_pair : list byte -> result text KeyPair;
  san_of : text -> result text San;
  self_sign : KeyPair -> list San -> list Z -> list byte -> result text (list byte);
  parse_x509 : list byte -> result text (list byte * X509);
  openssh_ed25519 : text -> option (list byte);
}.

(** [std::fs] with a file's mode. *)
Class SecretFiles (F : Type) := {
  sf_read : text -> M io_error F (list byte);
  sf_create_dir_all : text -> M io_error F ();
  sf_create_new : text -> Z -> M io_error F Z;
  sf_write_all : Z -> list byte -> M io_error F ();
  sf_open : text -> M io_error F Z;
  sf_mode : Z -> M io_error F Z;
  sf_read_to_end : Z -> M io_error F (list byte);
}.

Inductive GuardError := GRevoked (a : text) | GBadCertChain (m : text) | GUnavailable (m : text).

(** [RevocationGuard]: [check] judges a chain by the log as it is now. *)
Class Revocation (ML : MeshLib) (F : Type) := {
  Guard : Type;
  guard_open : text -> text -> M text F Guard;
  guard_check : Guard -> CertChain -> M GuardError F ();
}.

(** ** Errors *)

Inductive MtlsError :=
| BadCertificate (m : text)
| NotEd25519
| BadExtension (m : text)
| KeyMismatch
| BadChain (m : text)
| BindingUserMismatch
| NotAuthorized
| Revoked (agent : text)
| RevocationError (m : text)
| Tls12Refused
| SeedPermissions (p : text) (mode : Z)
| SeedLength (p : text)
| IoFailure (p : text) (e : io_error)
| JsonFailure (p m : text)
| MeshFailure (m : text)
| Generate (m : text).

(** ** authorized_keys.rs *)

Section mesh.
Context {ML : MeshLib}.

Definition ed25519_key (line : text) : option (list byte) :=
  match split_whitespace line with
  | kind :: rest =>
      if bool_decide (kind = bs "ssh-ed25519") then
        key ← head rest;
        openssh_ed25519 (bs "ssh-ed25519 " ++ key)
      else None
  | [] => None
  end.

(** A key is [[u8; 32]]; the list of them is [AuthorizedKeys]. *)
Definition AuthorizedKeys : Type := list (list byte).

Definition line_key (line : text) : option (list byte) :=
  let line := trim line in
  if bool_decide (line = []) || starts_with (bs "#") line then None else ed25519_key line.

Definition parse_keys (s : text) : AuthorizedKeys := omap line_key (lines s).

(** ** proof.rs *)

Record PeerProof := mkProof { p_chain : CertChain; p_binding : GitHubBinding }.

Definition PROOF_OID : list Z := [2; 25; 8763957256297098986].
Definition MAX_PROOF_LEN : Z := 64 * 1024.

Definition build (p : PeerProof) (seed : list byte) (names : list text) : result MtlsError (list byte) :=
  map_err Generate (
    key ← key_pair seed;
    sans ← mapM san_of names;
    self_sign key sans PROOF_OID (proof_json (p_chain p) (p_binding p))).

Definition from_certificate (der : list byte) : result MtlsError (list byte * PeerProof) :=
  '(rest, cert) ← map_err BadCertificate (parse_x509 der);
  if negb (bool_decide (rest = [])) then Err (BadCertificate (bs "trailing bytes after certificate"))
  else if negb (x_ed25519 cert && bool_decide (length (x_key cert) = 32%nat)) then Err NotEd25519
  else
    match filter (fun e => e.1 = PROOF_OID) (x_extensions cert) with
    | [] => Err (BadExtension (bs "absent"))
    | [(_, value)] =>
        if bool_decide (MAX_PROOF_LEN < zlen value) then Err (BadExtension (bs "oversized"))
        else
          '(chain, binding) ← map_err BadExtension (proof_of_json value);
          Ok (x_key cert, mkProof chain binding)
    | _ => Err (BadExtension (bs "duplicated"))
    end.

(** ** verifier.rs *)

Section verifier.
Context {F : Type} {RV : Revocation ML F}.

Record MeshVerifier := mkVerifier { authorized : AuthorizedKeys; revocation : option Guard }.

Definition guard_error (e : GuardError) : MtlsError :=
  match e with
  | GRevoked a => Revoked a
  | GBadCertChain m => BadChain m
  | GUnavailable m => RevocationError m
  end.

Definition recheck (v : MeshVerifier) (chain : CertChain) : M MtlsError F () := fun w =>
  match revocation v with
  | Some g => let '(r, w) := guard_check g chain w in (map_err guard_error r, w)
  | None => (Ok (), w)
  end.

Definition admit_peer (v : MeshVerifier) (chain : CertChain) (binding : GitHubBinding) : M MtlsError F text :=
  _ ← (if bool_decide (is_Some (revocation v)) then recheck v chain
       else lift (map_err BadChain (chain_verify chain)));
  if negb (bool_decide (binding_user binding = root_user_pubkey chain)) then fail BindingUserMismatch
  else if negb (existsb (binding_verify binding) (authorized v)) then fail NotAuthorized
  else mret (agent_fingerprint chain).

Definition verify_peer (v : MeshVerifier) (end_entity : list byte) : M MtlsError F text :=
  kp ← lift (from_certificate end_entity);
  let '(cert_key, proof) := kp in
  if negb (bool_decide (cert_key = agent_pubkey (p_chain proof))) then fail KeyMismatch
  else admit_peer v (p_chain proof) (p_binding proof).

(** ** peer_tls.rs *)

(** What a connection remembers of its peer. *)
Definition PeerChain : Type := option CertChain.

(** The handshake, whose client certificate the verifier judges, and what the acceptor keeps. *)
Definition accept (v : MeshVerifier) (end_entity : list byte) : M MtlsError F PeerChain :=
  _ ← verify_peer v end_entity;
  mret ((fun kp => p_chain kp.2) <$> res_ok (from_certificate end_entity)).

(** The middleware before every request: the application, or a refusal. *)
Definition checked {A} (v : MeshVerifier) (conn : PeerChain) (app : F -> A * F) (forbidden : A) : F -> A * F := fun w =>
  match conn with
  | Some chain =>
      match recheck v chain w with
      | (Ok _, w) => app w
      | (Err _, w) => (forbidden, w)
      end
  | None => (forbidden, w)
  end.
End verifier.

(** ** identity.rs *)

Section identity.
Context {F : Type} {SF : SecretFiles F} {RV : Revocation ML F}.

Definition SEED : text := bs "agent.seed".
Definition CHAIN : text := bs "agent.chain.json".
Definition BINDING : text := bs "binding.json".

Record NodeIdentity := mkNode { ni_key : AgentKey; ni_cert : list byte; ni_names : list text }.

Definition new_identity (key : AgentKey) (binding : GitHubBinding) : result MtlsError NodeIdentity :=
  _ ← map_err BadChain (chain_verify (ak_cert key));
  if negb (bool_decide (binding_user binding = root_user_pubkey (ak_cert key))) then Err BindingUserMismatch
  else
    cert ← build (mkProof (ak_cert key) binding) (ak_seed key) [];
    Ok (mkNode key cert []).

Definition proof (n : NodeIdentity) : result MtlsError PeerProof := snd <$> from_certificate (ni_cert n).

Definition with_names (n : NodeIdentity) (names : list text) : result MtlsError NodeIdentity :=
  p ← proof n;
  cert ← build p (ak_seed (ni_key n)) names;
  Ok (mkNode (ni_key n) cert names).

Definition delegate (n : NodeIdentity) (metadata : AgentMetadata) : result MtlsError NodeIdentity :=
  child ← map_err MeshFailure (ak_delegate (ni_key n) metadata);
  p ← proof n;
  new ← new_identity child (p_binding p);
  with_names new (ni_names n).

Definition issue (user : UserKey) (binding : GitHubBinding) (metadata : AgentMetadata) : result MtlsError NodeIdentity :=
  if negb (bool_decide (binding_user binding = user_public user)) then Err BindingUserMismatch
  else new_identity (ak_issue user metadata) binding.

Definition io {A} (path : text) (m : M io_error F A) : M MtlsError F A := fun w =>
  let '(r, w) := m w in (map_err (IoFailure path) r, w).

Definition write_new (path : text) (bytes : list byte) (secret : bool) : M MtlsError F () :=
  f ← io path (sf_create_new path (if secret then 0x180 else 0x1a4));
  io path (sf_write_all f bytes).

Definition save (n : NodeIdentity) (dir : text) : M MtlsError F () :=
  _ ← io dir (sf_create_dir_all dir);
  _ ← write_new (path_join dir SEED) (ak_seed (ni_key n)) true;
  p ← lift (proof n);
  _ ← write_new (path_join dir CHAIN) (chain_json (p_chain p)) false;
  write_new (path_join dir BINDING) (binding_json (p_binding p)) false.

Definition read_json {A} (of_json : list byte -> result text A) (path : text) : M MtlsError F A :=
  bytes ← io path (sf_read path);
  lift (map_err (JsonFailure path) (of_json bytes)).

(** At most 33 bytes are read. *)
Definition read_seed (path : text) : M MtlsError F (list byte) :=
  f ← io path (sf_open path);
  m ← io path (sf_mode f);
  let mode := Z.land m 0x1ff in
  if negb (bool_decide (Z.land mode 0x3f = 0)) then fail (SeedPermissions path mode)
  else
    bytes ← io path (sf_read_to_end f);
    let buf := firstn 33 bytes in
    if bool_decide (length buf = 32%nat) then mret buf else fail (SeedLength path).

Definition load (dir : text) : M MtlsError F NodeIdentity :=
  seed ← read_seed (path_join dir SEED);
  chain ← read_json chain_of_json (path_join dir CHAIN);
  binding ← read_json binding_of_json (path_join dir BINDING);
  key ← lift (map_err MeshFailure (ak_from_seed seed chain));
  lift (new_identity key binding).

(** A list that cannot be read, or is not text, trusts nobody. *)
Definition load_keys (path : text) : M MtlsError F AuthorizedKeys := fun w =>
  let '(r, w) := sf_read path w in
  (Ok (match r with Ok b => if utf8_valid b then parse_keys b else [] | Err _ => [] end), w).

(** A log that cannot be opened stops the start; the error is the context the source adds. *)
Definition open_log (log : text) (id : NodeIdentity) : M MtlsError F Guard := fun w =>
  let '(r, w) := guard_open log (user_fingerprint (ak_cert (ni_key id))) w in
  (map_err (fun m => RevocationError (bs "[tls] revocation_log " ++ log ++ bs " is not usable: " ++ m)) r, w).

Definition mesh_verifier (cfg : Config) (id : NodeIdentity) : M MtlsError F MeshVerifier :=
  keys ← load_keys (authorized_keys_path cfg);
  guard ← (match revocation_log cfg with
           | Some log => g ← open_log log id; mret (Some g)
           | None => mret None
           end);
  mret (mkVerifier keys guard).
End identity.
End mesh.
