(* ===== verification/MeshLaws.v ===== *)
(** What mutual TLS promises: who gets a connection and until when, that an operator's nodes
    are admitted, and that an identity survives on disk. *)

From Stdlib Require Import ZArith Lia.
From stdpp Require Import base option gmap list.
From S2P Require Import Prelude Text Errors Config Mesh.

Local Open Scope Z_scope.

(** ** Who is admitted *)

Section admission.
Context {ML : MeshLib} {F : Type} {SF : SecretFiles F} {RV : Revocation ML F}.
Implicit Types (w : F) (v : MeshVerifier).

(** The chain, as the verifier stands with respect to it: its signatures, or the log. *)
Definition judged v (chain : CertChain) w w' : Prop :=
  match revocation v with
  | Some g => guard_check g chain w = (Ok (), w')
  | None => chain_verify chain = Ok () /\ w' = w
  end.

Lemma admit_Ok v chain binding w fp w' :
  admit_peer v chain binding w = (Ok fp, w') ->
  judged v chain w w' /\ binding_user binding = root_user_pubkey chain /\
  (exists k, k ∈ authorized v /\ binding_verify binding k = true) /\ fp = agent_fingerprint chain.
Proof.
  unfold admit_peer, judged. intros (u & w1 & Hj & E)%M_bind_inv.
  destruct (bool_decide (binding_user binding = _)) eqn:Eu; [apply bool_decide_eq_true in Eu|done].
  destruct (existsb (binding_verify binding) (authorized v)) eqn:Ea; [|done].
  apply existsb_exists in Ea as (k & Hk & Hv). injection E as <- <-.
  split_and!; [|done|exists k; split; [by apply list_elem_of_In|done]|done].
  unfold recheck in Hj. destruct (revocation v) as [g|]; cbn in Hj.
  - destruct (guard_check g chain w) as [r w2]. injection Hj as Hr ->. by apply map_err_Ok in Hr as ->; destruct u.
  - injection Hj as Hr ->. apply map_err_Ok in Hr as ->. by destruct u.
Qed.

Lemma verify_peer_Ok v der w fp w' :
  verify_peer v der w = (Ok fp, w') ->
  exists key chain binding, from_certificate der = Ok (key, mkProof chain binding) /\ key = agent_pubkey chain /\
    judged v chain w w' /\ binding_user binding = root_user_pubkey chain /\
    (exists k, k ∈ authorized v /\ binding_verify binding k = true) /\ fp = agent_fingerprint chain.
Proof.
  unfold verify_peer. intros ([key [chain binding]] & w1 & [= Hc <-] & E)%M_bind_inv. cbn in E.
  destruct (bool_decide _) eqn:Ek; [apply bool_decide_eq_true in Ek|done]. cbn in E.
  apply admit_Ok in E as (? & ? & ? & ->). exists key, chain, binding. by split_and!.
Qed.

Lemma from_certificate_key der key p : from_certificate der = Ok (key, p) -> length key = 32%nat.
Proof.
  unfold from_certificate. destruct (parse_x509 der) as [[rest cert]|]; [|done]. cbn.
  destruct (bool_decide (rest = [])); [|done]. cbn. destruct (x_ed25519 cert); [|done]. cbn.
  destruct (bool_decide (length (x_key cert) = 32%nat)) eqn:El; [apply bool_decide_eq_true in El|done]. cbn.
  destruct (filter _ _) as [|[oid value] [|]]; try done. destruct (bool_decide _); [done|].
  destruct (proof_of_json value) as [[chain binding]|]; [|done]. cbn. by intros [= <- <-].
Qed.

(** What a line of the trust list must look like to count. *)
Lemma parse_keys_line s k :
  k ∈ parse_keys s -> exists line tok rest, line ∈ lines s /\ split_whitespace (trim line) = bs "ssh-ed25519" :: tok :: rest /\
    openssh_ed25519 (bs "ssh-ed25519 " ++ tok) = Some k.
Proof.
  unfold parse_keys. intros (line & Hl & Hk)%list_elem_of_omap. unfold line_key in Hk.
  destruct (bool_decide _ || _); [done|]. unfold ed25519_key in Hk.
  destruct (split_whitespace (trim line)) as [|kind rest] eqn:Es; [done|].
  destruct (bool_decide (kind = bs "ssh-ed25519")) eqn:Ek; [apply bool_decide_eq_true in Ek as ->|done].
  destruct rest as [|tok rest]; [done|]. by exists line, tok, rest.
Qed.

(** What the list of a node is made of. *)
Lemma mesh_verifier_keys cfg id w v w' :
  mesh_verifier cfg id w = (Ok v, w') -> authorized v = unwrap_or (load_keys (authorized_keys_path cfg) w).1 [].
Proof.
  unfold mesh_verifier. intros (keys & w1 & Hk & E)%M_bind_inv. apply M_bind_inv in E as (g & w2 & Hg & [= <- <-]).
  by rewrite Hk.
Qed.

(** C13. Only the nodes of listed operators connect: a connection to a node that started on a
    configuration is one whose certificate carries, under an ed25519 key that is the agent
    key of the chain it proves, a chain that the revocation log, or its own signatures where
    there is none, let through at that moment, and a binding of the chain's root user signed
    by a key that some line [ssh-ed25519 <key>] of the configured file gives; a list that
    cannot be read lets nobody in; and each later request runs the application only if the
    log lets the chain through as it stands then. *)
Theorem only_listed_operators_connect cfg id w0 w1 v der w2 w3 conn :
  mesh_verifier cfg id w0 = (Ok v, w1) -> accept v der w2 = (Ok conn, w3) ->
  exists chain binding k text line tok rest,
    from_certificate der = Ok (agent_pubkey chain, mkProof chain binding) /\ length (agent_pubkey chain) = 32%nat /\
    judged v chain w2 w3 /\
    binding_user binding = root_user_pubkey chain /\ binding_verify binding k = true /\
    (sf_read (authorized_keys_path cfg) w0).1 = Ok text /\ line ∈ lines text /\
    split_whitespace (trim line) = bs "ssh-ed25519" :: tok :: rest /\ openssh_ed25519 (bs "ssh-ed25519 " ++ tok) = Some k /\
    forall A (app : F -> A * F) forbidden w,
      checked v conn app forbidden w =
      match revocation v with
      | None => app w
      | Some g => match guard_check g chain w with (Ok _, w) => app w | (Err _, w) => (forbidden, w) end
      end.
Proof.
  intros Hv (fp & w' & Hp & [= <- <-])%M_bind_inv.
  apply verify_peer_Ok in Hp as (key & chain & binding & Hc & -> & Hj & Hu & (k & Hk & Hs) & _).
  rewrite (mesh_verifier_keys _ _ _ _ _ Hv) in Hk. unfold load_keys in Hk.
  destruct (sf_read (authorized_keys_path cfg) w0) as [[t|e] wr] eqn:Er; [|by apply elem_of_nil in Hk]. cbn in Hk.
  destruct (utf8_valid t); [|by apply elem_of_nil in Hk].
  destruct (parse_keys_line _ _ Hk) as (line & tok & rest & Hl & Ht & Ho).
  exists chain, binding, k, t, line, tok, rest. split_and!; try done; [by eapply from_certificate_key|].
  intros A app forbidden w. rewrite Hc. cbn. unfold recheck. destruct (revocation v) as [g|]; [|done].
  by destruct (guard_check g chain w) as [[|] w4].
Qed.
End admission.

(** ** What the libraries' documentation promises *)

Class MeshLaws (ML : MeshLib) : Prop := {
  ml_proof c b : proof_of_json (proof_json c b) = Ok (c, b);
  ml_chain c : chain_of_json (chain_json c) = Ok c;
  ml_binding b : binding_of_json (binding_json b) = Ok b;
  ml_seed (k : AgentKey) : length (ak_seed k) = 32%nat;
  ml_public (k : AgentKey) : length (agent_pubkey (ak_cert k)) = 32%nat;
  ml_from_seed (k : AgentKey) : ak_from_seed (ak_seed k) (ak_cert k) = Ok k;
  ml_certificate (k : AgentKey) kp sans value der :
    key_pair (ak_seed k) = Ok kp -> self_sign kp sans PROOF_OID value = Ok der ->
    exists x, parse_x509 der = Ok ([], x) /\ x_ed25519 x = true /\ x_key x = agent_pubkey (ak_cert k) /\
      filter (fun e => e.1 = PROOF_OID) (x_extensions x) = [(PROOF_OID, value)];
}.

(** ** An operator's nodes *)

Section identities.
Context {ML : MeshLib} {L : MeshLaws ML}.

(** The proof fits the extension, whose size the peers bound. *)
Definition fits (k : AgentKey) (b : GitHubBinding) : Prop := zlen (proof_json (ak_cert k) b) <= MAX_PROOF_LEN.

Lemma from_built k b names der :
  fits k b -> build (mkProof (ak_cert k) b) (ak_seed k) names = Ok der ->
  from_certificate der = Ok (agent_pubkey (ak_cert k), mkProof (ak_cert k) b).
Proof.
  intros Hf Hb. apply map_err_Ok in Hb. destruct (key_pair (ak_seed k)) as [kp|] eqn:Ek; [|done]. cbn in Hb.
  destruct (mapM san_of names) as [sans|]; [|done]. cbn in Hb.
  destruct (ml_certificate k kp sans _ der Ek Hb) as (x & Hx & Hed & Hkey & Hext).
  unfold from_certificate. rewrite Hx. cbn. rewrite Hed, Hkey, (bool_decide_true (length _ = _)) by apply ml_public.
  cbn. rewrite Hext, bool_decide_false by (unfold fits in Hf; lia). by rewrite ml_proof.
Qed.

(** A node that carries its chain and a binding of the chain's root user. *)
Record carries (n : NodeIdentity) (b : GitHubBinding) : Prop := {
  ca_cert : from_certificate (ni_cert n) = Ok (agent_pubkey (ak_cert (ni_key n)), mkProof (ak_cert (ni_key n)) b);
  ca_chain : chain_verify (ak_cert (ni_key n)) = Ok ();
  ca_user : binding_user b = root_user_pubkey (ak_cert (ni_key n));
}.

Lemma new_identity_carries k b n : fits k b -> new_identity k b = Ok n -> carries n b /\ ni_key n = k.
Proof.
  intros Hf. unfold new_identity. destruct (chain_verify (ak_cert k)) as [[]|] eqn:Ev; [|done]. cbn.
  destruct (bool_decide _) eqn:Eu; [apply bool_decide_eq_true in Eu|done]. cbn.
  destruct (build _ _ _) as [cert|] eqn:Eb; [|done]. cbn. intros [= <-].
  split; [|done]. split; [by apply (from_built _ _ [])|done..].
Qed.

Lemma with_names_carries n b names n' :
  fits (ni_key n) b -> carries n b -> with_names n names = Ok n' -> carries n' b /\ ni_key n' = ni_key n.
Proof.
  intros Hf [Hc Hv Hu]. unfold with_names, proof. rewrite Hc. cbn.
  destruct (build _ _ _) as [cert|] eqn:Eb; [|done]. cbn. intros [= <-].
  split; [|done]. split; [by apply (from_built _ _ names)|done..].
Qed.

Lemma carries_proof n b : carries n b -> proof n = Ok (mkProof (ak_cert (ni_key n)) b).
Proof. intros [Hc _ _]. unfold proof. by rewrite Hc. Qed.

(** The nodes of the operator whose binding is [b]: issued from the user key, given other
    names, or delegated from one of them. *)
Inductive node_of (b : GitHubBinding) : NodeIdentity -> Prop :=
| no_issued user metadata n : issue user b metadata = Ok n -> fits (ni_key n) b -> node_of b n
| no_named n names n' : node_of b n -> with_names n names = Ok n' -> node_of b n'
| no_delegated n metadata n' : node_of b n -> delegate n metadata = Ok n' -> fits (ni_key n') b -> node_of b n'.

Lemma new_identity_key k b n : new_identity k b = Ok n -> ni_key n = k.
Proof.
  unfold new_identity. destruct (chain_verify _); [|done]. cbn. destruct (bool_decide _); [|done]. cbn.
  destruct (build _ _ _); [|done]. by intros [= <-].
Qed.

Lemma with_names_key n names n' : with_names n names = Ok n' -> ni_key n' = ni_key n.
Proof. unfold with_names. destruct (proof n); [|done]. cbn. destruct (build _ _ _); [|done]. by intros [= <-]. Qed.

Lemma node_of_carries b n : node_of b n -> carries n b /\ fits (ni_key n) b.
Proof.
  induction 1 as [user metadata n Hi Hf|n names n' Hn [IH Hf] Hw|n metadata n' Hn [IH Hf0] Hd Hf].
  - split; [|done]. unfold issue in Hi. destruct (bool_decide _); [|done]. cbn in Hi.
    eapply new_identity_carries; [|exact Hi]. by rewrite <- (new_identity_key _ _ _ Hi).
  - destruct (with_names_carries _ _ _ _ Hf IH Hw) as [Hc Hk]. split; [done|by rewrite Hk].
  - split; [|done]. unfold delegate in Hd. destruct (ak_delegate _ _) as [child|]; [|done]. cbn in Hd.
    rewrite (carries_proof _ _ IH) in Hd. cbn in Hd. destruct (new_identity child b) as [n1|] eqn:E1; [|done]. cbn in Hd.
    assert (Hk : ni_key n' = child) by (rewrite (with_names_key _ _ _ Hd); by eapply new_identity_key). rewrite Hk in Hf.
    destruct (new_identity_carries _ _ _ Hf E1) as [Hc1 Hk1]. eapply with_names_carries; [|exact Hc1|exact Hd]. by rewrite Hk1.
Qed.

Lemma existsb_listed {A} (f : A -> bool) l x : x ∈ l -> f x = true -> existsb f l = true.
Proof. intros Hx Hf. apply existsb_exists. exists x. split; [by apply list_elem_of_In|done]. Qed.


(** ** A drive *)

(** Files by path, with their modes, and the paths that are open. *)
Record Drive := mkDrive { dr_files : gmap text (Z * list byte); dr_open : list text }.

Definition missing : io_error := mkIoError NotFound [].

Definition open_path (p : text) : M io_error Drive Z := fun d =>
  (Ok (zlen (dr_open d)), mkDrive (dr_files d) (dr_open d ++ [p])).

Definition at_fd {A} (f : Z) (op : text -> Z * list byte -> M io_error Drive A) : M io_error Drive A := fun d =>
  match p ← dr_open d !! Z.to_nat f; file ← dr_files d !! p; Some (p, file) with
  | Some (p, file) => op p file d
  | None => (Err missing, d)
  end.

#[export] Instance drive_files : SecretFiles Drive := {|
  sf_read p d := (snd <$> ok_or (dr_files d !! p) missing, d);
  sf_create_dir_all _ := mret ();
  sf_create_new p mode d :=
    if bool_decide (is_Some (dr_files d !! p)) then (Err (mkIoError AlreadyExists []), d)
    else open_path p (mkDrive (<[p := (mode, [])]> (dr_files d)) (dr_open d));
  sf_write_all f b := at_fd f (fun p file d => (Ok (), mkDrive (<[p := (file.1, file.2 ++ b)]> (dr_files d)) (dr_open d)));
  sf_open p d := if bool_decide (is_Some (dr_files d !! p)) then open_path p d else (Err missing, d);
  sf_mode f := at_fd f (fun _ file d => (Ok file.1, d));
  sf_read_to_end f := at_fd f (fun _ file d => (Ok file.2, d));
|}.

Lemma at_fd_last {A} files opened p file (op : text -> Z * list byte -> M io_error Drive A) :
  files !! p = Some file ->
  at_fd (zlen opened) op (mkDrive files (opened ++ [p])) = op p file (mkDrive files (opened ++ [p])).
Proof.
  intros Hp. unfold at_fd, zlen. cbn [dr_open dr_files]. rewrite Nat2Z.id, lookup_app_r, Nat.sub_diag by lia. cbn.
  by rewrite Hp.
Qed.

Lemma write_new_drive p b secret files opened :
  files !! p = None ->
  write_new p b secret (mkDrive files opened) =
    (Ok (), mkDrive (<[p := (if secret then 0x180 else 0x1a4, b)]> files) (opened ++ [p])).
Proof.
  intros Hp. unfold write_new, io, mbind, M_bind. cbn [sf_create_new drive_files dr_files dr_open].
  rewrite bool_decide_false by (rewrite Hp; apply is_Some_None). unfold open_path. cbn [dr_open dr_files map_err].
  cbn [sf_write_all drive_files]. rewrite (at_fd_last _ _ p (if secret then 0x180 else 0x1a4, [])) by apply lookup_insert_eq.
  cbn. by rewrite insert_insert_eq.
Qed.

Lemma read_json_drive {A} (of_json : list byte -> result text A) p files opened mode b a :
  files !! p = Some (mode, b) -> of_json b = Ok a ->
  read_json of_json p (mkDrive files opened) = (Ok a, mkDrive files opened).
Proof.
  intros Hp Ha. unfold read_json, io, mbind, M_bind, lift. cbn [sf_read drive_files dr_files]. rewrite Hp. cbn.
  by rewrite Ha.
Qed.

Lemma read_seed_drive p files opened mode b :
  files !! p = Some (mode, b) ->
  exists opened', read_seed p (mkDrive files opened) =
    (if bool_decide (Z.land (Z.land mode 0x1ff) 0x3f = 0) then
       if bool_decide (length b = 32%nat) then Ok b else Err (SeedLength p)
     else Err (SeedPermissions p (Z.land mode 0x1ff)), mkDrive files opened').
Proof.
  intros Hp. exists (opened ++ [p]). unfold read_seed, io, mbind, M_bind. cbn [sf_open sf_mode sf_read_to_end drive_files dr_files].
  rewrite bool_decide_true by (by rewrite Hp). unfold open_path. cbn [dr_open dr_files map_err].
  rewrite (at_fd_last _ _ p (mode, b)) by done. cbn [fst map_err].
  destruct (bool_decide (Z.land _ 0x3f = 0)); cbn [negb]; [|done].
  rewrite (at_fd_last _ _ p (mode, b)) by done. cbn [snd map_err].
  destruct (decide (length b = 32%nat)) as [El|Hl].
  - rewrite firstn_all2 by lia. by rewrite bool_decide_true by done.
  - rewrite !bool_decide_false; [done|done|]. rewrite length_firstn. lia.
Qed.

Lemma path_join_inj dir a b : path_join dir a = path_join dir b -> a = b.
Proof. unfold path_join. destruct (last dir); [|done]. case_bool_decide; intros E; by simplify_list_eq. Qed.

(** C36. An identity survives on disk: saved where none of its files is, it is written whole,
    its seed for its owner alone; what is then loaded has the same key, chain and binding;
    saving over it is refused and changes nothing; and a seed that others may read, or of
    another length, is refused when it is loaded. *)
Theorem saved_identity_loads b n dir files opened :
  node_of b n ->
  files !! path_join dir SEED = None -> files !! path_join dir CHAIN = None -> files !! path_join dir BINDING = None ->
  let saved := save n dir (mkDrive files opened) in
  saved.1 = Ok () /\
  dr_files saved.2 !! path_join dir SEED = Some (0x180, ak_seed (ni_key n)) /\
  (load dir saved.2).1 = new_identity (ni_key n) b /\
  (forall n', (save n' dir saved.2).1 = Err (IoFailure (path_join dir SEED) (mkIoError AlreadyExists []))) /\
  (forall n', (save n' dir saved.2).2 = saved.2) /\
  (forall mode seed, Z.land (Z.land mode 0x1ff) 0x3f <> 0 \/ length seed <> 32%nat ->
    is_ok (load dir (mkDrive (<[path_join dir SEED := (mode, seed)]> (dr_files saved.2)) opened)).1 = false).
Proof.
  intros [Hc _]%node_of_carries HS HC HB saved.
  assert (path_join dir SEED <> path_join dir CHAIN) by (by intros ?%path_join_inj).
  assert (path_join dir SEED <> path_join dir BINDING) by (by intros ?%path_join_inj).
  assert (path_join dir CHAIN <> path_join dir BINDING) by (by intros ?%path_join_inj).
  set (files3 := <[path_join dir BINDING := (0x1a4, binding_json b)]> (<[path_join dir CHAIN := (0x1a4, chain_json (ak_cert (ni_key n)))]>
    (<[path_join dir SEED := (0x180, ak_seed (ni_key n))]> files))).
  assert (E : exists opened', saved = (Ok (), mkDrive files3 opened')).
  { eexists. unfold saved, save, mbind, M_bind, io at 1. cbn [sf_create_dir_all drive_files mret M_ret map_err].
    rewrite write_new_drive by done. unfold lift. rewrite (carries_proof _ _ Hc). cbn [p_chain p_binding].
    rewrite write_new_drive by (by rewrite lookup_insert_ne). rewrite write_new_drive; [done|]. by do 2 rewrite lookup_insert_ne by done. }
  destruct E as [opened' ->]. cbn [fst snd dr_files].
  assert (L1 : files3 !! path_join dir SEED = Some (0x180, ak_seed (ni_key n))) by (unfold files3; do 2 rewrite lookup_insert_ne by done; apply lookup_insert_eq).
  assert (L2 : files3 !! path_join dir CHAIN = Some (0x1a4, chain_json (ak_cert (ni_key n)))) by (unfold files3; rewrite lookup_insert_ne by done; apply lookup_insert_eq).
  assert (L3 : files3 !! path_join dir BINDING = Some (0x1a4, binding_json b)) by apply lookup_insert_eq.
  assert (Hagain : forall n', save n' dir (mkDrive files3 opened') =
    (Err (IoFailure (path_join dir SEED) (mkIoError AlreadyExists [])), mkDrive files3 opened')).
  { intros n'. unfold save, write_new, mbind, M_bind, io. cbn [sf_create_dir_all sf_create_new drive_files mret M_ret map_err dr_files].
    by rewrite bool_decide_true by (by rewrite L1). }
  split_and!; [done|done| |by intros; rewrite Hagain|by intros; rewrite Hagain|].
  - unfold load, mbind, M_bind. destruct (read_seed_drive _ _ opened' _ _ L1) as [o ->].
    rewrite (bool_decide_true (length _ = _)) by apply ml_seed. cbn.
    rewrite (read_json_drive _ _ _ _ _ _ _ L2 (ml_chain _)), (read_json_drive _ _ _ _ _ _ _ L3 (ml_binding _)).
    unfold lift. rewrite bool_decide_true by done. by rewrite ml_from_seed.
  - intros mode seed Hbad. unfold load, mbind, M_bind.
    assert (LS : <[path_join dir SEED := (mode, seed)]> files3 !! path_join dir SEED = Some (mode, seed)) by apply lookup_insert_eq.
    destruct (read_seed_drive _ _ opened _ _ LS) as [o ->].
    destruct (bool_decide (Z.land _ 0x3f = 0)) eqn:Em; [apply bool_decide_eq_true in Em|done].
    destruct Hbad as [?|Hl]; [done|]. by rewrite bool_decide_false.
Qed.
End identities.

(** ** A small mesh *)

(** A key is one byte thirty-two times; a chain is an agent and its root user, a binding a
    user and the key that signed it. *)
Definition key32 (b : byte) : list byte := replicate 32 b.

Definition decode2 (l : list byte) : result (list byte) (byte * byte) :=
  match l with [a; b] => Ok (a, b) | _ => Err (bs "two bytes expected") end.

#[export] Instance small_mesh : MeshLib := {|
  CertChain := byte * byte;
  GitHubBinding := byte * byte;
  AgentMetadata := byte;
  UserKey := byte;
  AgentKey := byte * byte;
  KeyPair := byte;
  San := list byte;
  agent_pubkey c := key32 c.1;
  root_user_pubkey c := key32 c.2;
  agent_fingerprint c := [c.1];
  user_fingerprint c := [c.2];
  chain_verify _ := Ok ();
  binding_user b := key32 b.1;
  binding_verify b k := bool_decide (k = key32 b.2);
  user_public u := key32 u;
  ak_cert k := k;
  ak_seed k := key32 k.1;
  ak_issue u m := (m, u);
  ak_delegate k m := Ok (m, k.2);
  ak_from_seed s c := if bool_decide (s = key32 c.1) then Ok c else Err (bs "the seed is not the chain's");
  chain_json c := [c.1; c.2];
  binding_json b := [b.1; b.2];
  proof_json c b := [c.1; c.2; b.1; b.2];
  chain_of_json := decode2;
  binding_of_json := decode2;
  proof_of_json l := match l with [a; b; c; d] => Ok ((a, b), (c, d)) | _ => Err (bs "four bytes expected") end;
  key_pair s := ok_or (head s) (bs "no seed");
  san_of n := Ok n;
  self_sign kp _ oid v := Ok (kp :: v);
  parse_x509 l := match l with kp :: v => Ok ([], mkX509 true (key32 kp) [(PROOF_OID, v)]) | [] => Err (bs "empty") end;
  openssh_ed25519 line := key32 <$> last line;
|}.

#[export] Instance small_laws : MeshLaws small_mesh.
Proof.
  split; cbn; intros.
  - by destruct c, b.
  - by destruct c.
  - by destruct b.
  - done.
  - done.
  - by rewrite bool_decide_true.
  - unfold key32 in *. cbn in *. simplify_eq. eexists. split; [done|]. split_and!; [done..|].
    change (filter (fun e : list Z * list byte => e.1 = PROOF_OID) [(PROOF_OID, value)] = [(PROOF_OID, value)]).
    by rewrite filter_cons_True by done.
Qed.

(** The log is a file of the agents revoked. *)
#[export] Instance small_revocation : Revocation small_mesh Drive := {|
  Guard := list byte;
  guard_open p _ d := (if bool_decide (is_Some (dr_files d !! p)) then Ok p else Err (bs "missing"), d);
  guard_check p c d :=
    (match dr_files d !! p with
     | Some (_, log) => if bool_decide (c.1 ∈ log) then Err (GRevoked [c.1]) else Ok ()
     | None => Err (GUnavailable (bs "missing"))
     end, d);
|}.

Module MeshExample.
Definition operator : byte := z2b 111.
Definition ssh : byte := z2b 115.
Definition agent : byte := z2b 110.
Definition sub : byte := z2b 99.
Definition node : NodeIdentity := unwrap_or (issue operator (operator, ssh) agent) (mkNode (agent, operator) [] []).
Definition client : NodeIdentity := unwrap_or (d ← delegate node sub; with_names d [bs "localhost"]) node.

Definition cfg : Config :=
  mkConfig (listen config_default) (bs "/data") BkMem [] [] [] [] [] [] [] [] [] None None false [] [] [] None None None
    (Some (mkTls (Some (bs "/keys")) true [] [] (Some (bs "/log")))).

Definition keys_file : text := bs "# operators" ++ [nl] ++ bs "command=x ssh-ed25519 z" ++ [nl] ++ bs "  ssh-ed25519 s me@host" ++ [nl].
Definition drive (revoked : list byte) : Drive := mkDrive (list_to_map [(bs "/keys", (0x1a4, keys_file)); (bs "/log", (0x1a4, revoked))]) [].

Definition verifier : MeshVerifier := unwrap_or (mesh_verifier cfg node (drive [])).1 (mkVerifier [] None).

Lemma listed_keys : parse_keys keys_file = [key32 ssh].
Proof. by vm_compute. Qed.

(** The delegated client connects, is served, and is refused once it is revoked. *)
Lemma revoked_while_connected :
  let conn := unwrap_or (accept verifier (ni_cert client) (drive [])).1 None in
  conn = Some (sub, operator) /\
  (checked verifier conn (fun w => (200, w)) 403 (drive [])).1 = 200 /\
  (checked verifier conn (fun w => (200, w)) 403 (drive [sub])).1 = 403 /\
  (accept verifier (ni_cert client) (drive [sub])).1 = Err (Revoked [sub]) /\
  (accept (mkVerifier [] None) (ni_cert client) (drive [])).1 = Err NotAuthorized /\
  is_ok (mesh_verifier cfg node (mkDrive ∅ [])).1 = false.
Proof. split_and!; by vm_compute. Qed.

Lemma client_of_operator : node_of (operator, ssh) client.
Proof.
  apply (no_named _ (unwrap_or (delegate node sub) node) [bs "localhost"]); [|by vm_compute].
  apply (no_delegated (ML := small_mesh) _ node sub); [|by vm_compute..].
  by apply (no_issued (ML := small_mesh) _ operator agent); vm_compute.
Qed.

Definition started : Drive := (mesh_verifier cfg node (drive [])).2.
Definition connected : Drive := (accept verifier (ni_cert client) (drive [])).2.

Lemma ok_unwrap {E A} (r : result E A) d : is_ok r = true -> r = Ok (unwrap_or r d).
Proof. by destruct r. Qed.

Lemma verifier_started : mesh_verifier cfg node (drive []) = (Ok verifier, started).
Proof. apply pair_of_fst, ok_unwrap. by vm_compute. Qed.

Lemma client_accepted : accept verifier (ni_cert client) (drive []) = (Ok (Some (sub, operator)), connected).
Proof. apply pair_of_fst. by vm_compute. Qed.

Lemma only_listed_operators_connect_witness :
  exists chain binding k text line tok rest,
    from_certificate (ni_cert client) = Ok (agent_pubkey chain, mkProof chain binding) /\ length (agent_pubkey chain) = 32%nat /\
    judged verifier chain (drive []) connected /\
    binding_user binding = root_user_pubkey chain /\ binding_verify binding k = true /\
    (sf_read (authorized_keys_path cfg) (drive [])).1 = Ok text /\ line ∈ lines text /\
    split_whitespace (trim line) = bs "ssh-ed25519" :: tok :: rest /\ openssh_ed25519 (bs "ssh-ed25519 " ++ tok) = Some k /\
    forall A (app : Drive -> A * Drive) forbidden w,
      checked verifier (Some (sub, operator)) app forbidden w =
      match revocation verifier with
      | None => app w
      | Some g => match guard_check g chain w with (Ok _, w) => app w | (Err _, w) => (forbidden, w) end
      end.
Proof.
  exact (only_listed_operators_connect cfg node (drive []) started verifier (ni_cert client) (drive []) connected
    (Some (sub, operator)) verifier_started client_accepted).
Defined.


Lemma saved_identity_loads_witness :
  let saved := save client (bs "/data/identity") (drive []) in
  saved.1 = Ok () /\
  dr_files saved.2 !! path_join (bs "/data/identity") SEED = Some (0x180, ak_seed (ni_key client)) /\
  (load (bs "/data/identity") saved.2).1 = new_identity (ni_key client) (operator, ssh) /\
  (forall n', (save n' (bs "/data/identity") saved.2).1 = Err (IoFailure (path_join (bs "/data/identity") SEED) (mkIoError AlreadyExists []))) /\
  (forall n', (save n' (bs "/data/identity") saved.2).2 = saved.2) /\
  (forall mode seed, Z.land (Z.land mode 0x1ff) 0x3f <> 0 \/ length seed <> 32%nat ->
    is_ok (load (bs "/data/identity") (mkDrive (<[path_join (bs "/data/identity") SEED := (mode, seed)]> (dr_files saved.2)) [])).1 = false).
Proof.
  apply (saved_identity_loads (ML := small_mesh) (operator, ssh) client (bs "/data/identity") (dr_files (drive [])) []);
    [apply client_of_operator|by vm_compute..].
Defined.
End MeshExample.
