(* ===== verification/Daemon.v ===== *)
(** The daemon put together: rustls configurations (crates/nessie-mtls/src/server.rs), the
    certificates of the faces (crates/nessie-store/src/face_tls.rs), of the ONTAP listener
    (tls.rs) and of clients (identity_cmd.rs), the cluster's identity (identity.rs), the
    listeners of the peer API (peer_tls.rs) and of the faces (faces.rs), and [serve] (main.rs).

    What a listener serves is an [App], by its parameters; the state behind one is Faces.v's
    and MemBackend's or Zfs's.  [tokio::spawn] is an entry of [d_tasks], a list of what runs
    beside the main listener.  X.509, PEM and the JSON of the identity are third party
    ([TlsLib]), and so are the operating system's calls ([DaemonHost]); a fingerprint is its
    hexadecimal text. *)

From Stdlib Require Import ZArith Lia.
From stdpp Require Import base option gmap list.
From S2P Require Import Prelude Text Hex Digest Errors Canonical Cas Store ActionCache Ontap Peers Node Config Reapi Faces Mesh.
From S2P Require Zfs.

Local Open Scope Z_scope.

Abbreviation text := (list byte).

(** ** What is not the program's *)

(** The cluster's identity (identity.rs): what clients cache. *)
Record Identity := mkIdentity {
  cluster_uuid : text; svm_uuid : text; node_uuid : text; aggregate_uuid : text; lif_uuid : text }.

Class TlsLib (ML : MeshLib) := {
  any_supported_type : list byte -> result text ();
  cert_pem : list byte -> text;
  key_pem : list byte -> result text text;
  generate_simple_self_signed : list text -> result text (text * text);
  meta_new : text -> text -> text -> AgentMetadata;
  meta_as : text -> text -> AgentMetadata -> AgentMetadata;
  ak_metadata : AgentKey -> AgentMetadata;
  to_string_pretty : Identity -> text;
  from_str : text -> result text Identity;
}.

Class DaemonHost (ML : MeshLib) (F : Type) := {
  dh_files :: SecretFiles F;
  dh_exists : text -> F -> bool;
  dh_write : text -> text -> M io_error F ();
  dh_set_mode : text -> Z -> M io_error F ();
  dh_bind : text -> M io_error F ();
  dh_load_pem : text -> text -> M io_error F ();
  dh_user_key : text -> M text F UserKey;
}.

(** What stops the daemon, with the context that [anyhow] shows. *)
Inductive StartError :=
| Said (m : text)
| OnIo (context : text) (e : io_error)
| OnMtls (e : MtlsError).

Definition on_io {F A} (context : text) (m : M io_error F A) : M StartError F A := fun w =>
  let '(r, w) := m w in (map_err (OnIo context) r, w).
Definition on_mtls {F A} (m : M MtlsError F A) : M StartError F A := fun w =>
  let '(r, w) := m w in (map_err OnMtls r, w).

(** [Path::parent] of a path that has a last name, less the slashes after it. *)
Definition path_parent (p : text) : text :=
  match rsplit_once slash_byte p with
  | None => []
  | Some (dir, _) => match trim_end_matches slash_byte dir with [] => [slash_byte] | d => d end
  end.

Section daemon.
Context {ML : MeshLib} {TL : TlsLib ML} {Hs : Hashers} {F : Type} {DH : DaemonHost ML F} {RV : Revocation ML F}.

(** ** identity.rs *)

Definition mint (uuids : nat -> text) : Identity :=
  mkIdentity (uuids 0%nat) (uuids 1%nat) (uuids 2%nat) (uuids 3%nat) (uuids 4%nat).

Definition persist (id : Identity) (path : text) : M StartError F () :=
  _ ← on_io (bs "creating " ++ path_parent path) (sf_create_dir_all (path_parent path));
  on_io (bs "writing identity " ++ path) (dh_write path (to_string_pretty id)).

(** [std::fs::read_to_string] *)
Definition read_to_string (path : text) : M io_error F text :=
  b ← sf_read path;
  if utf8_valid b then mret b else fail (mkIoError OtherKind (bs "stream did not contain valid UTF-8")).

Definition load_or_create (uuids : nat -> text) (path : text) : M StartError F Identity := fun w =>
  if dh_exists path w then
    (text ← on_io (bs "reading identity " ++ path) (read_to_string path);
     lift (map_err (fun e => Said (bs "parsing identity " ++ path ++ bs ": " ++ e)) (from_str text))) w
  else
    (_ ← persist (mint uuids) path; mret (mint uuids)) w.

(** ** server.rs *)

(** What a server or client configuration decides; the certificate is the identity's. *)
Record ServerConfig := mkServer {
  sv_presents : NodeIdentity; sv_clients : option MeshVerifier; sv_alpn : list text; sv_resumes : bool }.
Record ClientConfig := mkClient { cl_presents : NodeIdentity; cl_servers : MeshVerifier; cl_resumes : bool }.

Definition node_certified_key (n : NodeIdentity) : result MtlsError () :=
  map_err Generate (any_supported_type (ak_seed (ni_key n))).

Definition server_config (node : NodeIdentity) (clients : option MeshVerifier) (alpn : list text) : result MtlsError ServerConfig :=
  _ ← node_certified_key node;
  Ok (mkServer node clients alpn (bool_decide (~ is_Some clients))).

Definition client_config (node : NodeIdentity) (servers : MeshVerifier) : result MtlsError ClientConfig :=
  _ ← node_certified_key node;
  Ok (mkClient node servers false).

(** [NodeIdentity::cert_sha256] *)
Definition cert_sha256 (n : NodeIdentity) : text := Hex.encode (Digest.bytes (compute_with Sha256 (ni_cert n))).

(** ** peer_tls.rs *)

Definition mesh_configs (cfg : Config) : M MtlsError F (ServerConfig * ClientConfig * MeshVerifier) :=
  id ← load (mesh_identity_dir cfg);
  verifier ← mesh_verifier cfg id;
  server ← lift (server_config id (Some verifier) [bs "http/1.1"]);
  client ← lift (client_config id verifier);
  mret (server, client, verifier).

(** ** face_tls.rs *)

Definition LOCAL_NAMES : list text := [bs "localhost"; bs "127.0.0.1"; bs "::1"].

Record FaceTls := mkFaceTls { ft_node : NodeIdentity; ft_verifier : MeshVerifier }.

Definition served_node (node : NodeIdentity) (names : list text) : result MtlsError NodeIdentity :=
  with_names node (LOCAL_NAMES ++ names).

Definition with_verifier (node : NodeIdentity) (v : MeshVerifier) (names : list text) : result MtlsError FaceTls :=
  n ← served_node node names; Ok (mkFaceTls n v).

Definition cfg_names (cfg : Config) : list text := default [] (tls_names <$> cfg_tls cfg).

Definition from_config (cfg : Config) : M MtlsError F (option FaceTls) :=
  if negb (mtls_enabled cfg) then mret None
  else
    node ← load (mesh_identity_dir cfg);
    verifier ← mesh_verifier cfg node;
    t ← lift (with_verifier node verifier (cfg_names cfg));
    mret (Some t).

Definition reapi_config (t : FaceTls) : result MtlsError ServerConfig :=
  server_config (ft_node t) (Some (ft_verifier t)) [bs "h2"].
Definition s3_config (t : FaceTls) : result MtlsError ServerConfig :=
  server_config (ft_node t) None [bs "h2"; bs "http/1.1"].

Definition served_cert_sha256 (cfg : Config) : M MtlsError F (text * text) :=
  node ← load (mesh_identity_dir cfg);
  node ← lift (served_node node (cfg_names cfg));
  mret (agent_fingerprint (ak_cert (ni_key node)), cert_sha256 node).

(** ** tls.rs *)

Record CertPaths := mkCerts { cp_cert : text; cp_key : text }.

Definition vault_cert (env : text -> option text) : F -> option CertPaths := fun w =>
  dir ← env (bs "VAULT_PKI_CERT_DIR");
  let name := default (bs "ontap-sim") (env (bs "VAULT_PKI_CERT_NAME")) in
  let cert := path_join dir (name ++ bs ".crt") in
  let key := path_join dir (name ++ bs ".key") in
  if dh_exists cert w && dh_exists key w then Some (mkCerts cert key) else None.

Definition generate_self_signed (tls_dir : text) : M StartError F CertPaths :=
  _ ← on_io (bs "creating TLS dir " ++ tls_dir) (sf_create_dir_all tls_dir);
  ck ← lift (map_err (fun e => Said (bs "generating self-signed certificate: " ++ e))
              (generate_simple_self_signed [bs "ontap-sim.home.lan"; bs "localhost"; bs "127.0.0.1"]));
  let '(cert, key) := ck in
  let cert_path := path_join tls_dir (bs "cert.pem") in
  let key_path := path_join tls_dir (bs "key.pem") in
  _ ← on_io (bs "writing cert.pem") (dh_write cert_path cert);
  _ ← on_io (bs "writing key.pem") (dh_write key_path key);
  _ ← on_io (bs "chmod 0600 key.pem") (dh_set_mode key_path 0x180);
  mret (mkCerts cert_path key_path).

Definition ensure_cert (env : text -> option text) (tls_dir : text) : M StartError F CertPaths := fun w =>
  match vault_cert env w with
  | Some paths => (Ok paths, w)
  | None =>
      let cert := path_join tls_dir (bs "cert.pem") in
      let key := path_join tls_dir (bs "key.pem") in
      if dh_exists cert w && dh_exists key w then (Ok (mkCerts cert key), w)
      else generate_self_signed tls_dir w
  end.

(** ** identity_cmd.rs *)

Definition issue_cmd (now : text) (user_key binding role host dir : text) : M StartError F text := fun w =>
  let '(user, w) := dh_user_key user_key w in
  (user ← lift (map_err (fun e => Said (bs "loading user key " ++ user_key ++ bs ": " ++ e)) user);
   bytes ← on_io (bs "reading binding " ++ binding) (sf_read binding);
   b ← lift (map_err (fun e => Said (bs "parsing binding " ++ binding ++ bs ": " ++ e)) (binding_of_json bytes));
   node ← lift (map_err OnMtls (issue user b (meta_new role host now)));
   _ ← on_mtls (save node dir);
   mret (agent_fingerprint (ak_cert (ni_key node)))) w.

(** [identity_cmd::write_new] *)
Definition write_new_mode (path : text) (bytes : list byte) (mode : Z) : M StartError F () :=
  on_io (bs "writing " ++ path) (f ← sf_create_new path mode; sf_write_all f bytes).

Definition export_client_cert (now : text) (identity_dir out : text) : M StartError F text :=
  node ← on_mtls (load identity_dir);
  client ← lift (map_err OnMtls (delegate node (meta_as (bs "bazel-client") now (ak_metadata (ni_key node)))));
  _ ← on_io (bs "creating " ++ out) (sf_create_dir_all out);
  _ ← write_new_mode (path_join out (bs "client.crt")) (cert_pem (ni_cert client)) 0x1a4;
  key ← lift (map_err (fun e => OnMtls (Generate e)) (key_pem (ak_seed (ni_key client))));
  _ ← write_new_mode (path_join out (bs "client.key")) key 0x180;
  mret (agent_fingerprint (ak_cert (ni_key client))).

(** ** What is served *)

Inductive Tls := Clear | Rustls (c : ServerConfig) | Pem (paths : CertPaths).

Inductive App :=
| Nfs (root export_name : text)
| ReapiFace (instance_name : text) (ac_update_enabled : bool)
| S3Face (access secret : text) (pin_on_put : option bool)
| PeerApi
| Ontap (peers_merged : bool).

(** A listener: its address, whether it was bound before the daemon went on (or will be by its
    task), its TLS, the verifier that judges each request again, and what it serves. *)
Record Service := mkService {
  s_addr : text; s_bound : bool; s_tls : Tls; s_recheck : option MeshVerifier; s_app : App }.

Inductive Task := Listens (s : Service) | Maintains.

Record Started := mkStarted { d_host : F; d_tasks : list Task }.

Abbreviation op := (M StartError Started).

Definition on_host {A} (m : M StartError F A) : op A := fun d =>
  let '(r, w) := m (d_host d) in (r, mkStarted w (d_tasks d)).

Definition spawn (l : list Task) : op () := fun d => (Ok (), mkStarted (d_host d) (d_tasks d ++ l)).

(** [serve_checked], in its task: a configuration that cannot be made ends the task. *)
Definition checked_task (addr : text) (server : result MtlsError ServerConfig) (v : MeshVerifier) (app : App) : list Task :=
  match server with
  | Ok c => [Listens (mkService addr true (Rustls c) (Some v) app)]
  | Err _ => []
  end.

Definition spawn_reapi (rc : ReapiServerConfig) (tls : option FaceTls) : op () :=
  let app := ReapiFace (rc_instance_name rc) (rc_ac_update_enabled rc) in
  match tls with
  | Some t =>
      _ ← on_host (on_io [] (dh_bind (rc_listen rc)));
      spawn (checked_task (rc_listen rc) (reapi_config t) (ft_verifier t) app)
  | None => spawn [Listens (mkService (rc_listen rc) false Clear None app)]
  end.

(** [s3_app] *)
Definition s3_app (sc : S3ServerConfig) (with_node : bool) : App :=
  S3Face (access_key sc) (secret_key sc) (if with_node then Some (sc_pin_on_put sc) else None).

Definition spawn_s3 (sc : S3ServerConfig) (with_node : bool) (tls : option FaceTls) : op () :=
  match tls with
  | Some t =>
      _ ← on_host (on_io [] (dh_bind (sc_listen sc)));
      spawn (match s3_config t with
             | Ok c => [Listens (mkService (sc_listen sc) true (Rustls c) None (s3_app sc with_node))]
             | Err _ => []
             end)
  | None => spawn [Listens (mkService (sc_listen sc) false Clear None (s3_app sc with_node))]
  end.

(** ** main.rs *)

Inductive VolumeBackendKind := MemVolumes | ZfsVolumes (c : Zfs.ZfsConfig).

Definition volume_backend (cfg : Config) : VolumeBackendKind :=
  match cfg_backend cfg with
  | BkMem => MemVolumes
  | BkZfs =>
      let d := Zfs.config_default in
      ZfsVolumes (Zfs.mkZfsConfig (zfs_pool cfg) (Config.data_lif cfg) (zfs_nfs_clients cfg) (zfs_dataset_owner cfg)
        (zfs_dataset_mode cfg) (Zfs.exports_dir d) (nfs_export_root cfg) (negb (nfs_enabled cfg))
        (Zfs.retry_base d) (Zfs.max_destroy_retries d))
  end.

Definition enabled_reapi (cfg : Config) : option ReapiServerConfig :=
  rc ← cfg_reapi cfg; if rc_enabled rc then Some rc else None.
Definition enabled_s3 (cfg : Config) : option S3ServerConfig :=
  sc ← cfg_s3 cfg; if sc_enabled sc then Some sc else None.

(** The mirrored peers' listener, or the merge into the ONTAP router. *)
Definition mount_peer_api (cfg : Config) (with_node : bool)
    (mtls : option (text * result MtlsError (ServerConfig * ClientConfig * MeshVerifier))) : op bool :=
  if default false (peer_api <$> cfg_cas cfg) then
    if negb with_node then fail (Said (bs "[cas] peer_api = true requires a [cas] node"))
    else
      match mtls with
      | Some (peer_listen, mesh) =>
          m ← lift (map_err OnMtls mesh);
          let '(server, _, verifier) := m in
          _ ← on_host (on_io (bs "binding [tls] peer_listen " ++ peer_listen) (dh_bind peer_listen));
          _ ← spawn (checked_task peer_listen (Ok server) verifier PeerApi);
          mret false
      | None => mret true
      end
  else mret false.

(** The listener that [serve] waits on. *)
Definition main_listener (env : text -> option text) (cfg : Config) (no_tls merged : bool) : op Service :=
  if no_tls then
    _ ← on_host (on_io [] (dh_bind (listen cfg)));
    mret (mkService (listen cfg) true Clear None (Ontap merged))
  else
    certs ← on_host (ensure_cert env (tls_dir cfg));
    _ ← on_host (on_io [] (dh_load_pem (cp_cert certs) (cp_key certs)));
    _ ← on_host (on_io [] (dh_bind (listen cfg)));
    mret (mkService (listen cfg) true (Pem certs) None (Ontap merged)).

Section serve.
(** What [build_faces] gives: the node, and the backend of the faces with its signer. *)
Context {Nd Bk : Type}.

Definition spawn_faces (cfg : Config) (faces : option Nd * option Bk) (face_tls : option FaceTls) : op () :=
  match faces.2 with
  | None => mret ()
  | Some _ =>
      _ ← (match enabled_reapi cfg with Some rc => spawn_reapi rc face_tls | None => mret () end);
      match enabled_s3 cfg with
      | Some sc => spawn_s3 sc (bool_decide (is_Some faces.1)) face_tls
      | None => mret ()
      end
  end.

(** [serve] up to where the main listener serves: the volume backend it serves, the cluster's
    identity, and that listener. *)
Definition serve (env : text -> option text) (uuids : nat -> text) (cfg : Config) (no_tls : bool)
    (build_faces : Config -> result text (option Nd * option Bk)) : op (VolumeBackendKind * Identity * Service) :=
  identity ← on_host (load_or_create uuids (identity_path cfg));
  let backend := volume_backend cfg in
  _ ← (if nfs_enabled cfg
       then spawn [Listens (mkService (nfs_listen cfg) false Clear None (Nfs (nfs_export_root cfg) (nfs_export_name cfg)))]
       else mret ());
  faces ← lift (map_err Said (build_faces cfg));
  face_tls ← on_host (on_mtls (from_config cfg));
  _ ← (match faces.1, cfg_cas cfg with Some _, Some _ => spawn [Maintains] | _, _ => mret () end);
  _ ← spawn_faces cfg faces face_tls;
  mtls ← (if mtls_enabled cfg
          then fun d => let '(r, w) := mesh_configs cfg (d_host d) in (Ok (Some (peer_listen cfg, r)), mkStarted w (d_tasks d))
          else mret None);
  merged ← mount_peer_api cfg (bool_decide (is_Some faces.1)) mtls;
  main ← main_listener env cfg no_tls merged;
  mret (backend, identity, main).
End serve.
End daemon.
