(* ===== verification/DaemonLaws.v ===== *)
(** What the daemon's start promises: which listeners run and how each is guarded, that the
    cluster's identity survives restarts, and that a certificate is not made twice. *)

From Stdlib Require Import ZArith Lia.
From stdpp Require Import base option gmap list.
From S2P Require Import Prelude Text Hex Digest Errors Canonical Cas Store ActionCache Ontap Peers Node NodeLaws Config Reapi Faces Mesh MeshLaws Daemon.
From S2P Require Zfs.

Local Open Scope Z_scope.

Section laws.
Context {ML : MeshLib} {TL : TlsLib ML} {Hs : Hashers} {F : Type} {DH : DaemonHost ML F} {RV : Revocation ML F}.
Implicit Types (w : F) (d : Started (F := F)) (cfg : Config) (s : Service (F := F)).

(** ** How a listener is guarded *)

(** The verifier of this configuration, for the identity on disk, judges each handshake and
    each request, and no handshake is resumed. *)
Definition guarded cfg (alpn : list text) s : Prop :=
  exists id v c w0 w1 w2 w3,
    load (mesh_identity_dir cfg) w0 = (Ok id, w1) /\ mesh_verifier cfg id w2 = (Ok v, w3) /\
    s_tls s = Rustls c /\ ni_key (sv_presents c) = ni_key id /\ sv_clients c = Some v /\ sv_alpn c = alpn /\
    sv_resumes c = false /\ s_recheck s = Some v /\ s_bound s = true.

(** Server TLS under a certificate of the identity on disk, for the loopback names and the
    configured ones; requests authenticate themselves. *)
Definition certified cfg s : Prop :=
  exists id c w0 w1,
    load (mesh_identity_dir cfg) w0 = (Ok id, w1) /\ s_tls s = Rustls c /\ ni_key (sv_presents c) = ni_key id /\
    sv_clients c = None /\ ni_names (sv_presents c) = LOCAL_NAMES ++ cfg_names cfg /\ s_bound s = true.

Definition served_as cfg s : Prop :=
  match s_app s with
  | PeerApi => peer_api <$> cfg_cas cfg = Some true /\ mtls_enabled cfg = true /\ s_addr s = peer_listen cfg /\
      guarded cfg [bs "http/1.1"] s
  | ReapiFace instance updates => exists rc, cfg_reapi cfg = Some rc /\ rc_enabled rc = true /\ s_addr s = rc_listen rc /\
      instance = rc_instance_name rc /\ updates = rc_ac_update_enabled rc /\
      if mtls_enabled cfg then guarded cfg [bs "h2"] s else s_tls s = Clear
  | S3Face access secret _ => exists sc, cfg_s3 cfg = Some sc /\ sc_enabled sc = true /\ s_addr s = sc_listen sc /\
      access = access_key sc /\ secret = secret_key sc /\
      if mtls_enabled cfg then certified cfg s else s_tls s = Clear
  | Nfs root name => nfs_enabled cfg = true /\ root = nfs_export_root cfg /\ name = nfs_export_name cfg /\ s_addr s = nfs_listen cfg
  | Ontap _ => False
  end.

Definition task_ok cfg (t : Task) : Prop := match t with Listens s => served_as cfg s | Maintains => is_Some (cfg_cas cfg) end.

(** ** Inversions *)

Lemma on_host_inv {A} (m : M StartError F A) d r d' :
  on_host m d = (r, d') -> m (d_host d) = (r, d_host d') /\ d_tasks d' = d_tasks d.
Proof. unfold on_host. destruct (m (d_host d)) as [r0 w]. by intros [= <- <-]. Qed.

Lemma on_mtls_Ok {A} (m : M MtlsError F A) w a w' : on_mtls m w = (Ok a, w') -> m w = (Ok a, w').
Proof. unfold on_mtls. destruct (m w) as [[b|e] w1]; by intros [= -> <-]. Qed.

Lemma server_config_inv n clients alpn c :
  server_config n clients alpn = Ok c -> c = mkServer n clients alpn (bool_decide (~ is_Some clients)).
Proof. unfold server_config. destruct (node_certified_key n); [|done]. by intros [= <-]. Qed.

Lemma from_config_Some cfg w t w' :
  from_config cfg w = (Ok t, w') ->
  match t with
  | None => mtls_enabled cfg = false
  | Some t => mtls_enabled cfg = true /\ exists id w0 w1 w2 w3,
      load (mesh_identity_dir cfg) w0 = (Ok id, w1) /\ mesh_verifier cfg id w2 = (Ok (ft_verifier t), w3) /\
      ni_key (ft_node t) = ni_key id /\ ni_names (ft_node t) = LOCAL_NAMES ++ cfg_names cfg
  end.
Proof.
  unfold from_config. destruct (mtls_enabled cfg); cbn [negb]; [|by intros [= <- <-]].
  intros (id & w1 & Hl & E)%M_bind_inv. apply M_bind_inv in E as (v & w2 & Hv & E).
  apply M_bind_inv in E as (t' & w3 & [= Ht ->] & [= <- <-]). unfold with_verifier, served_node in Ht.
  destruct (with_names id _) as [n|] eqn:En; [|done]. cbn in Ht. injection Ht as <-.
  split; [done|]. exists id, w, w1, w1, w3. split_and!; [done|done|by eapply with_names_key|]. cbn.
  unfold with_names in En. destruct (proof id); [|done]. cbn in En. destruct (build _ _ _); [|done]. by injection En as <-.
Qed.

Lemma mesh_configs_Ok cfg w server client v w' :
  mesh_configs cfg w = (Ok (server, client, v), w') ->
  exists id w0 w1 w2 w3, load (mesh_identity_dir cfg) w0 = (Ok id, w1) /\ mesh_verifier cfg id w2 = (Ok v, w3) /\
    server = mkServer id (Some v) [bs "http/1.1"] false.
Proof.
  unfold mesh_configs. intros (id & w1 & Hl & E)%M_bind_inv. apply M_bind_inv in E as (v' & w2 & Hv & E).
  apply M_bind_inv in E as (c & w3 & [= Hc ->] & E). apply M_bind_inv in E as (c' & w4 & _ & [= <- <- <- _]).
  apply server_config_inv in Hc as ->. by exists id, w, w1, w1, w3.
Qed.

(** Steps that add only what is due. *)
Definition adds cfg {A} (m : M StartError Started A) : Prop := forall d a d',
  m d = (Ok a, d') -> Forall (task_ok cfg) (d_tasks d) -> Forall (task_ok cfg) (d_tasks d').

Lemma spawn_adds cfg l : Forall (task_ok cfg) l -> adds cfg (spawn l).
Proof. intros Hl d [] d' [= <-] Hd. by apply Forall_app. Qed.

Lemma on_host_adds {A} cfg (m : M StartError F A) : adds cfg (on_host m).
Proof. intros d a d' [_ ->]%on_host_inv. done. Qed.

Lemma bind_adds {A B} cfg (m : M StartError Started A) (f : A -> M StartError Started B) :
  adds cfg m -> (forall a, adds cfg (f a)) -> adds cfg (m ≫= f).
Proof. intros Hm Hf d b d' (a & d1 & E1 & E2)%M_bind_inv Hd. eapply Hf; [done|]. by eapply Hm. Qed.

Lemma ret_adds {A} cfg (a : A) : adds cfg (mret a).
Proof. by intros d b d' [= _ <-]. Qed.

Lemma lift_Ok {E S A B} (a : A) (f : A -> M E S B) : (lift (Ok a) ≫= f) = f a.
Proof. done. Qed.

Lemma reapi_adds cfg rc t w w' :
  cfg_reapi cfg = Some rc -> rc_enabled rc = true -> from_config cfg w = (Ok t, w') -> adds cfg (spawn_reapi rc t).
Proof.
  intros Hrc Hen Ht%from_config_Some. unfold spawn_reapi. destruct t as [t|].
  - destruct Ht as (Hm & id & w0 & w1 & w2 & w3 & Hl & Hv & Hk & _).
    apply bind_adds; [apply on_host_adds|]. intros _. apply spawn_adds. unfold checked_task.
    destruct (reapi_config t) as [c|] eqn:Ec; [|done]. apply server_config_inv in Ec as ->. constructor; [|done].
    exists rc. rewrite Hm. split_and!; [done..|]. by eexists id, (ft_verifier t), _, w0, w1, w2, w3.
  - apply spawn_adds. constructor; [|done]. exists rc. by rewrite Ht.
Qed.

Lemma s3_adds cfg sc b t w w' :
  cfg_s3 cfg = Some sc -> sc_enabled sc = true -> from_config cfg w = (Ok t, w') -> adds cfg (spawn_s3 sc b t).
Proof.
  intros Hsc Hen Ht%from_config_Some. unfold spawn_s3. destruct t as [t|].
  - destruct Ht as (Hm & id & w0 & w1 & w2 & w3 & Hl & Hv & Hk & Hn).
    apply bind_adds; [apply on_host_adds|]. intros _. apply spawn_adds.
    destruct (s3_config t) as [c|] eqn:Ec; [|done]. apply server_config_inv in Ec as ->. constructor; [|done].
    exists sc. rewrite Hm. split_and!; [done..|]. by eexists id, _, w0, w1.
  - apply spawn_adds. constructor; [|done]. exists sc. by rewrite Ht.
Qed.

Lemma faces_adds {Nd Bk} cfg (faces : option Nd * option Bk) t w w' :
  from_config cfg w = (Ok t, w') -> adds cfg (spawn_faces cfg faces t).
Proof.
  intros Ht. unfold spawn_faces. destruct faces.2; [|apply ret_adds]. apply bind_adds; [|intros _].
  - unfold enabled_reapi. destruct (cfg_reapi cfg) as [rc|] eqn:Er; [|apply ret_adds]. cbn.
    destruct (rc_enabled rc) eqn:Een; [by eapply reapi_adds|apply ret_adds].
  - unfold enabled_s3. destruct (cfg_s3 cfg) as [sc|] eqn:Er; [|apply ret_adds]. cbn.
    destruct (sc_enabled sc) eqn:Een; [by eapply s3_adds|apply ret_adds].
Qed.

(** What the start hands to [mount_peer_api]. *)
Definition mesh_made cfg (m : option (text * result MtlsError (ServerConfig * ClientConfig * MeshVerifier))) : Prop :=
  match m with
  | None => mtls_enabled cfg = false
  | Some (addr, r) => mtls_enabled cfg = true /\ addr = peer_listen cfg /\ exists w w', mesh_configs cfg w = (r, w')
  end.

Lemma peers_adds cfg b m : mesh_made cfg m -> adds cfg (mount_peer_api cfg b m).
Proof.
  intros Hm. unfold mount_peer_api. destruct (default false _) eqn:Ep; [|apply ret_adds].
  destruct (negb b); [by intros ? ? ? [=]|]. destruct m as [[addr r]|]; [|apply ret_adds].
  destruct Hm as (Hon & -> & w & w' & Hr). destruct r as [[[server client] v]|e]; [|by intros ? ? ? [=]].
  destruct (mesh_configs_Ok _ _ _ _ _ _ Hr) as (id & w0 & w1 & w2 & w3 & Hl & Hv & ->).
  cbn [map_err]. rewrite lift_Ok. apply bind_adds; [apply on_host_adds|]. intros _.
  apply bind_adds; [|intros _; apply ret_adds]. apply spawn_adds. constructor; [|done].
  split_and!; [|done..|].
  - by destruct (cfg_cas cfg) as [c|]; [cbn in *; rewrite Ep|].
  - by eexists id, v, _, w0, w1, w2, w3.
Qed.

(** The peer API has no listener of its own exactly where it is merged. *)
Lemma mount_peer_api_merged cfg b m d merged d' :
  mesh_made cfg m -> mount_peer_api cfg b m d = (Ok merged, d') ->
  merged = bool_decide (peer_api <$> cfg_cas cfg = Some true /\ mtls_enabled cfg = false).
Proof.
  intros Hm. unfold mount_peer_api.
  destruct (cfg_cas cfg) as [c|]; [|intros [= <- _]; by rewrite bool_decide_false by naive_solver].
  cbn. destruct (peer_api c); [|intros [= <- _]; by rewrite bool_decide_false by naive_solver].
  destruct (negb b); [done|]. destruct m as [[addr r]|].
  - destruct Hm as (-> & _). rewrite bool_decide_false by naive_solver. destruct r as [[[server client] v]|e]; [|done].
    cbn [map_err]. rewrite lift_Ok. intros (? & ? & _ & E)%M_bind_inv. by apply M_bind_inv in E as (? & ? & _ & [= <- _]).
  - cbn in Hm. intros [= <- _]. by rewrite bool_decide_true.
Qed.

Lemma main_listener_Ok env cfg no_tls merged d s d' :
  main_listener env cfg no_tls merged d = (Ok s, d') ->
  s_addr s = listen cfg /\ s_app s = Ontap merged /\ d_tasks d' = d_tasks d /\
  if no_tls then s_tls s = Clear else exists paths, s_tls s = Pem paths.
Proof.
  unfold main_listener. destruct no_tls; intros (c & d1 & [_ E1]%on_host_inv & E)%M_bind_inv.
  - injection E as <- <-. by rewrite E1.
  - apply M_bind_inv in E as (? & d2 & [_ E2]%on_host_inv & E). apply M_bind_inv in E as (? & d3 & [_ E3]%on_host_inv & [= <- <-]).
    rewrite E3, E2, E1. split_and!; [done..|]. by exists c.
Qed.

(** ** What runs once the daemon has started *)

(** C14. What listens once the daemon has started is what its configuration enables, where it
    says.  With mutual TLS on, the peers' API and the REAPI face are behind the verifier that
    the trust list and the revocation log of the configuration make, at each handshake, never
    resumed, and at each request, under a certificate of the identity on disk; the S3 face is
    behind server TLS of that certificate, for the loopback names and the configured ones; no
    listener in the clear carries any of the three.  The peers' API is part of the ONTAP
    listener exactly when it is enabled and mutual TLS is not; that listener alone is TLS
    unless it was told not to be. *)
Theorem started_listeners_are_guarded {Nd Bk} env uuids cfg no_tls (build : Config -> result text (option Nd * option Bk))
    w kind identity main d' :
  serve env uuids cfg no_tls build (mkStarted w []) = (Ok (kind, identity, main), d') ->
  (forall s, Listens s ∈ d_tasks d' -> served_as cfg s) /\
  s_addr main = listen cfg /\
  s_app main = Ontap (bool_decide (peer_api <$> cfg_cas cfg = Some true /\ mtls_enabled cfg = false)) /\
  (if no_tls then s_tls main = Clear else exists paths, s_tls main = Pem paths).
Proof.
  unfold serve. intros (id & d1 & [_ H1]%on_host_inv & E)%M_bind_inv. cbn in H1.
  assert (A1 : Forall (task_ok cfg) (d_tasks d1)) by by rewrite H1.
  apply M_bind_inv in E as (? & d2 & E2 & E).
  assert (A2 : Forall (task_ok cfg) (d_tasks d2)).
  { revert E2 A1. destruct (nfs_enabled cfg) eqn:En; [apply spawn_adds|apply ret_adds]. by constructor. }
  apply M_bind_inv in E as (faces & d3 & [= _ ->] & E).
  apply M_bind_inv in E as (t & d4 & [Ht%on_mtls_Ok H4]%on_host_inv & E).
  apply M_bind_inv in E as (? & d5 & E5 & E).
  assert (A5 : Forall (task_ok cfg) (d_tasks d5)).
  { revert E5. rewrite <- H4 in A2. intros E5. revert E5 A2. destruct faces.1; [|apply ret_adds].
    destruct (cfg_cas cfg) eqn:Ec; [apply spawn_adds|apply ret_adds]. constructor; [cbn; by rewrite Ec|done]. }
  apply M_bind_inv in E as (? & d6 & E6 & E). assert (A6 := faces_adds cfg faces t _ _ Ht _ _ _ E6 A5).
  apply M_bind_inv in E as (m & d7 & E7 & E).
  assert (Hm : mesh_made cfg m /\ d_tasks d7 = d_tasks d6).
  { destruct (mtls_enabled cfg) eqn:Em; [|by injection E7 as <- <-]. destruct (mesh_configs cfg (d_host d6)) as [r w7] eqn:Er.
    injection E7 as <- <-. split; [|done]. split_and!; [done..|]. by eexists _, _. }
  destruct Hm as [Hm H7]. rewrite <- H7 in A6.
  apply M_bind_inv in E as (merged & d8 & E8 & E). assert (A8 := peers_adds cfg _ _ Hm _ _ _ E8 A6).
  apply (mount_peer_api_merged _ _ _ _ _ _ Hm) in E8 as Hmerged.
  apply M_bind_inv in E as (s & d9 & E9 & [= _ _ <- <-]).
  apply main_listener_Ok in E9 as (Ha & Happ & H9 & Htls). rewrite Hmerged in Happ. split; [|by split_and!].
  rewrite H9. intros s0 Hin. by apply (proj1 (Forall_forall _ _) A8 (Listens s0)).
Qed.

(** ** The cluster's identity *)

(** What the operating system keeps, and that reading changes nothing. *)
Class HostKeeps : Prop := {
  hk_write p b w w' : dh_write p b w = (Ok (), w') -> dh_exists p w' = true /\ sf_read p w' = (Ok b, w');
  hk_read p w : (sf_read p w).2 = w;
}.

(** The identity a start reports is the one every later start reports, whatever it would draw,
    until the file is changed; a start that finds the file writes nothing. *)
Lemma cluster_identity_is_stable {HK : HostKeeps} uuids uuids' path w id w' :
  utf8_valid (to_string_pretty (mint uuids)) = true -> from_str (to_string_pretty (mint uuids)) = Ok (mint uuids) ->
  load_or_create uuids path w = (Ok id, w') ->
  load_or_create uuids' path w' = (Ok id, w') /\ (dh_exists path w = true -> w' = w).
Proof.
  intros Hu Hj. unfold load_or_create. destruct (dh_exists path w) eqn:Ex.
  - intros E. assert (Hw : w' = w).
    { apply M_bind_inv in E as (t & w1 & E1 & [= _ ->]). unfold on_io, read_to_string, mbind, M_bind in E1.
      pose proof (hk_read path w) as Hr. destruct (sf_read path w) as [[b|e] w2]; cbn in Hr; subst w2; [|by injection E1].
      destruct (utf8_valid b); by injection E1. }
    subst w'. rewrite Ex. by split.
  - intros ([] & w1 & E1 & [= <- <-])%M_bind_inv. apply M_bind_inv in E1 as ([] & w2 & _ & E1).
    unfold on_io in E1. destruct (dh_write path _ w2) as [[[]|e] w3] eqn:Ew; [|done]. injection E1 as <-.
    destruct (hk_write _ _ _ _ Ew) as [Hex Hrd]. rewrite Hex. split; [|done].
    unfold on_io, read_to_string, mbind, M_bind. rewrite Hrd, Hu. cbn. unfold lift. by rewrite Hj.
Qed.
End laws.

(** ** A daemon on a drive *)

#[export] Instance small_tls : TlsLib small_mesh := {|
  any_supported_type _ := Ok ();
  cert_pem der := bs "cert " ++ der;
  key_pem seed := Ok (bs "key " ++ seed);
  generate_simple_self_signed names := Ok (bs "cert for " ++ concat names, bs "its key");
  meta_new _ host _ := z2b (zlen host);
  meta_as _ _ _ := z2b 98;
  ak_metadata k := k.1;
  to_string_pretty id := join_on nl [cluster_uuid id; svm_uuid id; node_uuid id; aggregate_uuid id; lif_uuid id];
  from_str t := match split_on nl t with [a; b; c; d; e] => Ok (mkIdentity a b c d e) | _ => Err (bs "five lines expected") end;
|}.

(** Every address but the one taken can be bound. *)
#[export] Instance drive_host : DaemonHost small_mesh Drive := {|
  dh_files := drive_files;
  dh_exists p d := bool_decide (is_Some (dr_files d !! p));
  dh_write p b d := (Ok (), mkDrive (<[p := (0x1a4, b)]> (dr_files d)) (dr_open d));
  dh_set_mode p m d :=
    match dr_files d !! p with
    | Some (_, b) => (Ok (), mkDrive (<[p := (m, b)]> (dr_files d)) (dr_open d))
    | None => (Err missing, d)
    end;
  dh_bind addr d := (if bool_decide (addr = bs "taken") then Err (io_other (bs "address in use")) else Ok (), d);
  dh_load_pem cert key d :=
    (if bool_decide (is_Some (dr_files d !! cert) /\ is_Some (dr_files d !! key)) then Ok () else Err missing, d);
  dh_user_key p d := (match head p with Some b => Ok b | None => Err (bs "no key") end, d);
|}.

#[export] Instance drive_keeps : HostKeeps (ML := small_mesh) (F := Drive).
Proof.
  split; [|done]. intros p b w w' [= <-]. cbn. rewrite lookup_insert_eq. split; [by apply bool_decide_eq_true|done].
Qed.

Module DaemonExample.
Import Checksum MeshExample Json.TallyTexts.

Definition cfg (peer_addr reapi_addr : text) (mutual : bool) : Config.Config :=
  Config.mkConfig (bs "rest") (bs "/data") BkZfs [] [] [] [] [] [] [] (bs "tank") [] None None true (bs "nfs") (bs "/srv") []
    (Some (mkCas CmLru CbMem None 300 300 (Some 4096) [] true None None 1024))
    (Some (mkReapi true reapi_addr (bs "main") true)) (Some (mkS3Config true (bs "s3") (bs "me") (bs "secret") false))
    (Some (mkTls (Some (bs "/keys")) mutual [bs "cache"] peer_addr (Some (bs "/log")))).

Definition uuids (n : nat) : text := bs "uuid " ++ dec (Z.of_nat n).

(** The node's identity is on the drive. *)
Definition issued : Drive := (save node (bs "/data/identity") (drive [])).2.

Definition faces (c : Config.Config) : result text (option _ * option _) := build_faces (fun _ => Ok FacesExample.node) c.

Definition start peer_addr reapi_addr mutual no_tls w :=
  serve (fun _ => None) uuids (cfg peer_addr reapi_addr mutual) no_tls faces (mkStarted w []).

Definition listing (t : Task (F := Drive)) : text :=
  match t with
  | Maintains => bs "maintenance"
  | Listens s => s_addr s ++ match s_tls s with
      | Clear => bs " clear"
      | Pem _ => bs " https"
      | Rustls c => match sv_clients c with Some _ => bs " mutual" | None => bs " https" end
      end
  end.

Definition listings {A B} (r : result StartError (A * B * Service (F := Drive)) * Started) : list text :=
  (listing <$> d_tasks r.2) ++ match r.1 with Ok (_, _, s) => [listing (Listens s)] | Err _ => [] end.

(** With and without mutual TLS; a taken address stops the start where it is bound first, and
    so does a missing identity. *)
Lemma starts :
  listings (start (bs "peers") (bs "reapi") true false issued) =
    [bs "nfs clear"; bs "maintenance"; bs "reapi mutual"; bs "s3 https"; bs "peers mutual"; bs "rest https"] /\
  listings (start (bs "peers") (bs "reapi") false true issued) =
    [bs "nfs clear"; bs "maintenance"; bs "reapi clear"; bs "s3 clear"; bs "rest clear"] /\
  is_ok (start (bs "taken") (bs "reapi") true false issued).1 = false /\
  is_ok (start (bs "peers") (bs "taken") true false issued).1 = false /\
  is_ok (start (bs "peers") (bs "taken") false false issued).1 = true /\
  is_ok (start (bs "peers") (bs "reapi") true false (drive [])).1 = false.
Proof. split_and!; by vm_compute. Qed.

(** The default address of the peers' listener is the default address of ONTAP. *)
Lemma default_addresses_clash : tls_peer_listen tls_default = listen Config.config_default.
Proof. by vm_compute. Qed.

(** A client's certificate, exported beside the node's identity, is of a delegated agent; the
    node's seed is not in it, and no file is written twice. *)
Lemma exported :
  let r := export_client_cert (bs "now") (bs "/data/identity") (bs "/out") issued in
  r.1 = Ok [z2b 98] /\
  dr_files r.2 !! bs "/out/client.key" = Some (0x180, bs "key " ++ key32 (z2b 98)) /\
  is_ok (export_client_cert (bs "now") (bs "/data/identity") (bs "/out") r.2).1 = false.
Proof. split_and!; by vm_compute. Qed.

Definition running := (start (bs "peers") (bs "reapi") true false issued).2.
Definition nobody : VolumeBackendKind * Identity * Service (F := Drive) :=
  (MemVolumes, mint uuids, mkService [] false Clear None PeerApi).
Definition up := unwrap_or (start (bs "peers") (bs "reapi") true false issued).1 nobody.

Lemma started : start (bs "peers") (bs "reapi") true false issued = (Ok (up.1.1, up.1.2, up.2), running).
Proof. apply pair_of_fst. rewrite (ok_unwrap _ nobody) by by vm_compute. fold up. by destruct up as [[]]. Qed.

Lemma started_listeners_are_guarded_witness :
  let c := cfg (bs "peers") (bs "reapi") true in
  (forall s, Listens s ∈ d_tasks running -> served_as c s) /\
  s_addr up.2 = bs "rest" /\
  s_app up.2 = Ontap (bool_decide (peer_api <$> cfg_cas c = Some true /\ mtls_enabled c = false)) /\
  (exists paths, s_tls up.2 = Pem paths).
Proof.
  exact (started_listeners_are_guarded _ uuids (cfg (bs "peers") (bs "reapi") true) false faces issued _ _ _ _ started).
Defined.
End DaemonExample.
