(* ===== verification/Conformance.v ===== *)
(** The repository's conformance suites as programs: what crates/nessie-backend-conformance,
    crates/nessie-cas-conformance and crates/nessie-ac-conformance (src/lib.rs of each) demand
    of any volume backend, content-addressed store and action cache.

    A suite runs against a backend of the matching interface; its error is the message of the
    assertion that failed.  [uuid] is the random identifiers in the order a suite draws them,
    for its names and in the backend; [base] is where it starts. *)

From Stdlib Require Import ZArith Lia.
From stdpp Require Import base option gmap sets list.
From S2P Require Import Prelude Ordered Text Digest Errors Canonical Attestation Cas ActionCache Volume.

Local Open Scope Z_scope.

Abbreviation text := (list byte).

Definition expect {B A} (msg : text) (m : M BackendError B A) : M text B A := fun b =>
  let '(r, b') := m b in (map_err (fun _ => msg) r, b').

(** The answer of a call, kept as a value. *)
Definition answer {B A} (m : M BackendError B A) : M text B (result BackendError A) := fun b =>
  let '(r, b') := m b in (Ok r, b').

Definition assert {B} (c : bool) (msg : text) : M text B () := if c then mret () else fail msg.

Definition is_volume_not_found {A} (r : result BackendError A) : bool :=
  match r with Err (VolumeNotFound _) => true | _ => false end.
Definition is_snapshot_not_found {A} (r : result BackendError A) : bool :=
  match r with Err (SnapshotNotFound _ _) => true | _ => false end.
Definition is_invalid_argument {A} (r : result BackendError A) : bool :=
  match r with Err (InvalidArgument _) => true | _ => false end.
Definition is_unverified {A} (r : result BackendError A) : bool :=
  match r with Err (AttestationUnverified _) => true | _ => false end.
Definition is_conflict {A} (r : result BackendError A) : bool :=
  match r with Err (ActionResultConflict _) => true | _ => false end.

Section draws.
Context (uuid : nat -> Uuid) (uuid_text : Uuid -> text).

Definition unique (i : nat) (prefix : text) : text := prefix ++ bs "-" ++ uuid_text (uuid i).

(** ** Volume backends *)

Section volumes.
Context {B : Type}.

(** Draws three identifiers. *)
Definition run_volume_suite `{!VolumeBackend B} (base : nat) : M text B () :=
  let name := unique base (bs "conf-vol") in
  created ← expect (bs "create_volume should succeed")
    (vb_create_volume (uuid (base + 1)) (mkSpec name (Some 1073741824)));
  _ ← assert (bool_decide (v_name created = name)) (bs "created volume keeps its requested name");
  got ← expect (bs "get_volume should find the new volume") (vb_get_volume (v_uuid created));
  _ ← assert (bool_decide (v_uuid got = v_uuid created)) (bs "get returns the same uuid");
  _ ← assert (bool_decide (v_name got = name)) (bs "get returns the same name");
  listed ← expect (bs "list_volumes should succeed") vb_list_volumes;
  _ ← assert (existsb (fun v => bool_decide (v_uuid v = v_uuid created)) listed)
    (bs "list_volumes should contain the new volume");
  _ ← expect (bs "patch_volume (resize) should succeed")
    (vb_patch_volume (v_uuid created) (mkPatch (Some 2147483648) None None));
  _ ← expect (bs "volume still retrievable after patch") (vb_get_volume (v_uuid created));
  _ ← expect (bs "access_handle should succeed for a live volume") (vb_access_handle (v_uuid created));
  _ ← expect (bs "delete_volume should succeed") (vb_delete_volume (v_uuid created));
  r ← answer (vb_get_volume (v_uuid created));
  _ ← assert (is_volume_not_found r) (bs "get after delete must be VolumeNotFound");
  after ← expect (bs "list_volumes after delete should succeed") vb_list_volumes;
  _ ← assert (negb (existsb (fun v => bool_decide (v_uuid v = v_uuid created)) after))
    (bs "deleted volume must not appear in list_volumes");
  r ← answer (vb_get_volume (uuid (base + 2)));
  assert (is_volume_not_found r) (bs "get of an unknown uuid must be VolumeNotFound").

(** Draws four. *)
Definition run_snapshot_suite `{!SnapshotBackend B} (base : nat) : M text B () :=
  vol ← expect (bs "create parent volume")
    (vb_create_volume (uuid (base + 1)) (mkSpec (unique base (bs "conf-snapvol")) None));
  let snap_name := unique (base + 2) (bs "snap") in
  snap ← expect (bs "create_snapshot should succeed") (sb_create_snapshot (uuid (base + 3)) (v_uuid vol) snap_name);
  _ ← assert (bool_decide (s_name snap = snap_name)) (bs "snapshot keeps its requested name");
  listed ← expect (bs "list_snapshots should succeed") (sb_list_snapshots (v_uuid vol));
  _ ← assert (existsb (fun s => bool_decide (s_uuid s = s_uuid snap)) listed)
    (bs "list_snapshots should contain the new snapshot");
  got ← expect (bs "get_snapshot should find the snapshot") (sb_get_snapshot (v_uuid vol) (s_uuid snap));
  _ ← assert (bool_decide (s_uuid got = s_uuid snap)) (bs "get_snapshot returns the same uuid");
  _ ← expect (bs "delete_snapshot should succeed") (sb_delete_snapshot (v_uuid vol) (s_uuid snap));
  r ← answer (sb_get_snapshot (v_uuid vol) (s_uuid snap));
  _ ← assert (is_snapshot_not_found r) (bs "get after delete must be SnapshotNotFound");
  expect (bs "cleanup parent volume") (vb_delete_volume (v_uuid vol)).

(** Draws six. *)
Definition run_clone_suite `{!CloneBackend B} (base : nat) : M text B () :=
  parent ← expect (bs "create parent volume")
    (vb_create_volume (uuid (base + 1)) (mkSpec (unique base (bs "conf-clonesrc")) None));
  snap ← expect (bs "create parent snapshot")
    (sb_create_snapshot (uuid (base + 3)) (v_uuid parent) (unique (base + 2) (bs "snap")));
  let clone_name := unique (base + 4) (bs "conf-clone") in
  cl ← expect (bs "create_clone should succeed")
    (cb_create_clone (uuid (base + 5)) (v_uuid parent) (s_uuid snap) clone_name);
  _ ← assert (bool_decide (v_name cl = clone_name)) (bs "clone keeps its requested name");
  _ ← assert (is_clone cl) (bs "a clone must report is_clone() == true");
  origin ← lift (ok_or (clone cl) (bs "clone records its origin"));
  _ ← assert (bool_decide (parent_volume origin = v_name parent)) (bs "clone origin names the parent volume");
  _ ← assert (bool_decide (parent_snapshot origin = s_name snap)) (bs "clone origin names the parent snapshot");
  _ ← expect (bs "clone is retrievable as a volume") (vb_get_volume (v_uuid cl));
  _ ← expect (bs "cleanup clone") (vb_delete_volume (v_uuid cl));
  _ ← expect (bs "cleanup parent snapshot") (sb_delete_snapshot (v_uuid parent) (s_uuid snap));
  expect (bs "cleanup parent volume") (vb_delete_volume (v_uuid parent)).

(** Draws eight. *)
Definition run_replication_suite `{!ReplicationBackend B} (base : nat) : M text B () :=
  src ← expect (bs "create replication source volume")
    (vb_create_volume (uuid (base + 1)) (mkSpec (unique base (bs "conf-replsrc")) None));
  let snap_name := unique (base + 2) (bs "snapmirror") in
  snap ← expect (bs "create source snapshot") (sb_create_snapshot (uuid (base + 3)) (v_uuid src) snap_name);
  stream ← expect (bs "send_stream (full) should succeed") (rb_send_stream (v_uuid src) snap_name None);
  let dest_name := unique (base + 4) (bs "conf-repldst") in
  applied ← expect (bs "receive_stream should succeed")
    (rb_receive_stream (uuid (base + 5)) (uuid (base + 6)) dest_name stream);
  _ ← assert (bool_decide (0 < applied)) (bs "a replication stream must report a non-zero byte count");
  vols ← expect (bs "list_volumes after receive") vb_list_volumes;
  dest ← lift (ok_or (find (fun v => bool_decide (v_name v = dest_name)) vols)
    (bs "destination volume materialized after receive"));
  dest_snaps ← expect (bs "list destination snapshots") (sb_list_snapshots (v_uuid dest));
  _ ← assert (existsb (fun s => bool_decide (s_name s = snap_name)) dest_snaps)
    (bs "destination must carry the replicated snapshot " ++ snap_name);
  r ← answer (rb_send_stream (v_uuid src) (unique (base + 7) (bs "nope")) None);
  _ ← assert (is_invalid_argument r) (bs "send_stream of an unknown snapshot must be InvalidArgument");
  _ ← expect (bs "cleanup destination volume") (vb_delete_volume (v_uuid dest));
  _ ← expect (bs "cleanup source snapshot") (sb_delete_snapshot (v_uuid src) (s_uuid snap));
  expect (bs "cleanup source volume") (vb_delete_volume (v_uuid src)).

(** [run_all], with the tiers [as_snapshot], [as_clone] and [as_replication] give. *)
Definition run_all_volumes (vb : VolumeBackend B) (snap : option (SnapshotBackend B))
    (clone : option (CloneBackend B)) (repl : option (ReplicationBackend B)) (base : nat) : M text B () :=
  caps ← (fun b => (Ok (vb_capabilities b), b)) : M text B Capabilities;
  _ ← assert (is_consistent caps) (bs "capabilities are not self-consistent");
  _ ← assert (eqb (bool_decide (is_Some snap)) (snapshots caps)) (bs "capabilities().snapshots disagrees with as_snapshot()");
  _ ← assert (eqb (bool_decide (is_Some clone)) (clones caps)) (bs "capabilities().clones disagrees with as_clone()");
  _ ← assert (eqb (bool_decide (is_Some repl)) (replication caps)) (bs "capabilities().replication disagrees with as_replication()");
  _ ← run_volume_suite base;
  _ ← (match snap with Some _ => run_snapshot_suite (base + 3) | None => mret () end);
  _ ← (match clone with Some _ => run_clone_suite (base + 7) | None => mret () end);
  match repl with Some _ => run_replication_suite (base + 13) | None => mret () end.
End volumes.

(** ** Content-addressed backends *)

Section cas.
Context {S : Type} {Hs : Hashers} {CB : CasBackend S}.

Definition unique_bytes (i : nat) (tag : text) : text :=
  bs "nessie-cas-conformance/" ++ tag ++ bs "/" ++ uuid_text (uuid i).

(** [put] and [put_keyed] of a reader over bytes, of which nothing is looked at afterwards. *)
Definition put_bytes (b : list byte) : M BackendError S Digest := fun s =>
  let '(r, _, s) := cas_put (cursor b) s in (r, s).
Definition put_keyed_bytes (d : Digest) (b : list byte) : M BackendError S () := fun s =>
  let '(r, _, s) := cas_put_keyed d (cursor b) s in (r, s).

Definition store (b : list byte) : M text S Digest := expect (bs "put should succeed") (put_bytes b).

Definition fetch (d : Digest) : M text S (list byte) :=
  src ← expect (bs "get should succeed for a present blob") (cas_get d);
  lift (map_err (fun _ => bs "reading the blob stream should succeed") (read_to_end src).1).

Definition has (d : Digest) : M text S bool := expect (bs "has should succeed") (cas_has d).

Definition size_reports_stored_bytes (base : nat) : M text S () :=
  let bytes := unique_bytes base (bs "size") in
  digest ← store bytes;
  n ← expect (bs "size should succeed") (cas_size digest);
  _ ← assert (bool_decide (n = Some (zlen bytes))) (bs "size reports the stored byte length");
  let absent := compute (unique_bytes (base + 1) (bs "size-absent")) in
  n ← expect (bs "size should succeed") (cas_size absent);
  assert (bool_decide (n = None)) (bs "size of an absent blob is None").

(** The path of REAPI: a blob under its SHA-256 digest. *)
Definition sha256_native (base : nat) : M text S () :=
  let native := unique_bytes base (bs "sha256-native") in
  let sha := compute_with Sha256 native in
  _ ← expect (bs "sha256-keyed put") (put_keyed_bytes sha native);
  _ ← assert (bool_decide (algo sha = Sha256)) (bs "the digest is SHA-256");
  h ← has sha;
  _ ← assert h (bs "has");
  n ← expect (bs "size") (cas_size sha);
  _ ← assert (bool_decide (n = Some (zlen native))) (bs "size");
  out ← fetch sha;
  _ ← assert (bool_decide (out = native)) (bs "sha256-keyed blob reads back exactly");
  assert (verify sha out) (bs "sha256-keyed bytes verify against their digest").

Definition put_keyed_and_sha256_native_if_supported (base : nat) : M text S () :=
  let bytes := unique_bytes base (bs "put-keyed") in
  let digest := compute bytes in
  r ← answer (put_keyed_bytes digest bytes);
  match r with
  | Err (FeatureNotSupported _) => mret ()
  | Err _ => fail (bs "put_keyed returned an unexpected error")
  | Ok _ =>
      h ← has digest;
      _ ← assert h (bs "keyed blob is present");
      b ← fetch digest;
      _ ← assert (bool_decide (b = bytes)) (bs "keyed blob reads back exactly");
      _ ← expect (bs "re-put is idempotent") (put_keyed_bytes digest bytes);
      let wrong := compute (unique_bytes (base + 1) (bs "put-keyed-wrong")) in
      r ← answer (put_keyed_bytes wrong bytes);
      _ ← assert (is_invalid_argument r) (bs "a digest mismatch is rejected");
      h ← has wrong;
      _ ← assert (negb h) (bs "a rejected keyed put stores nothing");
      sha256_native (base + 2)
  end.

Definition reclaimable_round_trip_if_supported (rec : option (ReclaimableCas S)) (base : nat) : M text S () :=
  match rec with
  | None => mret ()
  | Some _ =>
      let bytes := unique_bytes base (bs "reclaimable") in
      digest ← store bytes;
      local ← expect (bs "iter_local should succeed") iter_local;
      e ← lift (ok_or (find (fun b => bool_decide (lb_digest b = digest)) local)
        (bs "a just-put blob must be enumerated by iter_local"));
      _ ← assert (bool_decide (lb_size e = zlen bytes)) (bs "iter_local must report the exact local byte size");
      r ← expect (bs "reclaim should succeed") (reclaim digest);
      _ ← assert r (bs "reclaim of a present blob returns true");
      h ← has digest;
      _ ← assert (negb h) (bs "a reclaimed blob is gone");
      r ← expect (bs "reclaim should succeed") (reclaim digest);
      assert (negb r) (bs "reclaim is idempotent: an absent blob returns false")
  end.

Definition put_returns_the_content_digest (base : nat) : M text S () :=
  let bytes := unique_bytes base (bs "put-digest") in
  got ← store bytes;
  assert (bool_decide (got = compute bytes)) (bs "put must return the content digest of the stored bytes").

Definition absent_before_put_present_after (base : nat) : M text S () :=
  let bytes := unique_bytes base (bs "presence") in
  let digest := compute bytes in
  h ← has digest;
  _ ← assert (negb h) (bs "a never-stored blob must be absent");
  stored ← store bytes;
  _ ← assert (bool_decide (stored = digest)) (bs "stored == digest");
  h ← has digest;
  assert h (bs "a stored blob must be present").

Definition get_returns_the_exact_verified_bytes (base : nat) : M text S () :=
  let bytes := unique_bytes base (bs "roundtrip") in
  digest ← store bytes;
  out ← fetch digest;
  _ ← assert (bool_decide (out = bytes)) (bs "get must return the exact stored bytes");
  assert (verify digest out) (bs "returned bytes must verify against their digest").

Definition put_is_idempotent (base : nat) : M text S () :=
  let bytes := unique_bytes base (bs "idempotent") in
  first ← store bytes;
  second ← store bytes;
  _ ← assert (bool_decide (first = second)) (bs "putting identical bytes twice must yield the same digest");
  h ← has first;
  assert h (bs "the blob must remain present after a repeat put").

Definition get_on_an_absent_digest_errors (base : nat) : M text S () :=
  let digest := compute (unique_bytes base (bs "never-stored")) in
  r ← answer (cas_get digest);
  assert (negb (is_ok r)) (bs "get on an absent digest must error").

Definition distinct_blobs_coexist (base : nat) : M text S () :=
  let a := unique_bytes base (bs "coexist-a") in
  let b := unique_bytes (base + 1) (bs "coexist-b") in
  da ← store a;
  db ← store b;
  _ ← assert (bool_decide (da <> db)) (bs "distinct contents must have distinct digests");
  xa ← fetch da;
  _ ← assert (bool_decide (xa = a)) (bs "a");
  xb ← fetch db;
  assert (bool_decide (xb = b)) (bs "b").

Definition the_empty_blob_roundtrips : M text S () :=
  digest ← store [];
  _ ← assert (bool_decide (digest = compute [])) (bs "the empty digest");
  h ← has digest;
  _ ← assert h (bs "the empty blob must be present after put");
  b ← fetch digest;
  assert (bool_decide (b = [])) (bs "the empty blob must read back as zero bytes").

(** [run_all]: draws thirteen identifiers. *)
Definition run_all_cas (rec : option (ReclaimableCas S)) (base : nat) : M text S () :=
  _ ← put_returns_the_content_digest base;
  _ ← absent_before_put_present_after (base + 1);
  _ ← get_returns_the_exact_verified_bytes (base + 2);
  _ ← put_is_idempotent (base + 3);
  _ ← get_on_an_absent_digest_errors (base + 4);
  _ ← distinct_blobs_coexist (base + 5);
  _ ← the_empty_blob_roundtrips;
  _ ← reclaimable_round_trip_if_supported rec (base + 7);
  _ ← size_reports_stored_bytes (base + 8);
  put_keyed_and_sha256_native_if_supported (base + 10).
End cas.
End draws.

(** ** Action caches *)

Section test_doubles.
Context {Hs : Hashers}.

#[local] Existing Instance ActionResult.t_eq_dec.

(** A keyed hash: the bytes of the digest of the secret and the message. *)
Definition mac (secret message : list byte) : Signature :=
  mkSignature (Digest.bytes (compute (secret ++ message))).

Definition derive (kind name : text) : list byte :=
  Digest.bytes (compute (bs "nessie-ac-conformance/" ++ kind ++ bs "/" ++ name)).

Record TestSigner := mkSigner { ts_id : SignerId; ts_secret : list byte }.

Definition from_name (name : text) : TestSigner := mkSigner (mkSignerId (derive (bs "id") name)) (derive (bs "secret") name).

(** A signature of another statement than the attestation makes. *)
Definition attest_forged (s : TestSigner) (action claimed signed_over : Digest) : SignedAttestation :=
  mkSigned (mkAttestation (ts_id s) claimed) (mac (ts_secret s) (statement_signing_bytes action signed_over)).

Definition attest (s : TestSigner) (action result : Digest) : SignedAttestation :=
  mkSigned (mkAttestation (ts_id s) result) (mac (ts_secret s) (statement_signing_bytes action result)).

(** [TestKeyring]: the secrets of those admitted. *)
Abbreviation TestKeyring := (gmap SignerId (list byte)).

Definition admit_signer (name : text) (ring : TestKeyring) : TestSigner * TestKeyring :=
  let s := from_name name in (s, <[ts_id s := ts_secret s]> ring).

Definition outsider (name : text) : TestSigner := from_name name.

(** [MacVerifier] *)
Definition mac_verify (ring : TestKeyring) : verifier := fun signer message signature =>
  match ring !! signer with
  | None => false
  | Some secret => bool_decide (mac secret message = signature)
  end.

(** [result] *)
Definition sample_result (tag : text) : ActionResult.t :=
  ActionResult.mk [(bs "out", ActionResult.mkOutputFile (compute tag) false)] 0 (Some (compute tag)) None.

(** [BackendFactory]: the tier over a verifier, and a fresh backend at a threshold. *)
Context {S : Type} {CB : CasBackend S} (tier : verifier -> ActionCacheBackend S) (make : verifier -> positive -> S).

Section suites.
(** The keyring of a suite, and its backend's threshold. *)
Context (ring : TestKeyring) (k : positive).

Definition submit (action : Digest) (a : SignedAttestation) : M BackendError S () :=
  acb_attest (ActionCacheBackend := tier (mac_verify ring)) action a.

Definition look_up (action : Digest) : M BackendError S (option ActionResult.t) :=
  acb_get (ActionCacheBackend := tier (mac_verify ring)) action.

Definition deposit_and_attest (s : TestSigner) (action : Digest) (r : ActionResult.t) : M text S () :=
  _ ← expect (bs "put result body") (put_bytes (ActionResult.to_canonical_bytes r));
  expect (bs "attest") (submit action (attest s action (ActionResult.result_digest r))).

Definition expect_result (action : Digest) (want : option ActionResult.t) (msg : text) : M text S () :=
  got ← expect (bs "get") (look_up action);
  assert (bool_decide (got = want)) msg.

(** A suite on a fresh backend. *)
Definition on_fresh {A} (suite : M text S A) : result text A := (suite (make (mac_verify ring) k)).1.
End suites.

Definition it_is_also_a_cas (uuid : nat -> Uuid) (uuid_text : Uuid -> text) (rec : option (ReclaimableCas S)) (base : nat) : result text () :=
  on_fresh ∅ 1 (run_all_cas uuid uuid_text rec base).

Definition unknown_action_is_a_clean_miss : result text () :=
  on_fresh ∅ 2 (expect_result ∅ (compute (bs "unknown-action")) None (bs "an unknown action is a miss")).

Definition k_of_n_confirms_the_keystone : result text () :=
  let '(s1, ring) := admit_signer (bs "s1") ∅ in
  let '(s2, ring) := admit_signer (bs "s2") ring in
  let action := compute (bs "action-X") in
  let r := sample_result (bs "R") in
  on_fresh ring 2 (
    _ ← deposit_and_attest ring s1 action r;
    _ ← expect_result ring action None (bs "one signer is below k=2");
    _ ← deposit_and_attest ring s2 action r;
    expect_result ring action (Some r) (bs "two distinct signers confirm, and the body materializes from CAS")).

Definition below_threshold_is_unconfirmed : result text () :=
  let '(s1, ring) := admit_signer (bs "s1") ∅ in
  let '(s2, ring) := admit_signer (bs "s2") ring in
  let action := compute (bs "action") in
  let r := sample_result (bs "R") in
  on_fresh ring 3 (
    _ ← deposit_and_attest ring s1 action r;
    _ ← deposit_and_attest ring s2 action r;
    expect_result ring action None (bs "two signers are below k=3")).

Definition duplicate_signer_does_not_count : result text () :=
  let '(s1, ring) := admit_signer (bs "s1") ∅ in
  let action := compute (bs "action") in
  let r := sample_result (bs "R") in
  on_fresh ring 2 (
    _ ← deposit_and_attest ring s1 action r;
    _ ← deposit_and_attest ring s1 action r;
    expect_result ring action None (bs "one signer twice is one signer")).

Definition attest_order_is_irrelevant : result text () :=
  let '(s1, ring) := admit_signer (bs "s1") ∅ in
  let '(s2, ring) := admit_signer (bs "s2") ring in
  let action := compute (bs "action") in
  let r := sample_result (bs "R") in
  let in_order s s' :=
    on_fresh ring 2 (
      _ ← deposit_and_attest ring s action r;
      _ ← deposit_and_attest ring s' action r;
      expect (bs "get") (look_up ring action)) in
  one ← in_order s1 s2;
  other ← in_order s2 s1;
  if bool_decide (one = other) then Ok () else Err (bs "the order of attestations counts").

Definition redelivery_is_idempotent : result text () :=
  let '(s1, ring) := admit_signer (bs "s1") ∅ in
  let action := compute (bs "action") in
  let r := sample_result (bs "R") in
  on_fresh ring 1 (
    _ ← deposit_and_attest ring s1 action r;
    once ← expect (bs "get") (look_up ring action);
    _ ← deposit_and_attest ring s1 action r;
    _ ← expect_result ring action once (bs "re-delivery changes nothing");
    assert (bool_decide (once = Some r)) (bs "one signer confirms at k=1")).

Definition confirmation_is_monotone : result text () :=
  let '(s1, ring) := admit_signer (bs "s1") ∅ in
  let '(s2, ring) := admit_signer (bs "s2") ring in
  let '(s3, ring) := admit_signer (bs "s3") ring in
  let '(s4, ring) := admit_signer (bs "s4") ring in
  let action := compute (bs "action") in
  let r := sample_result (bs "R") in
  on_fresh ring 2 (
    _ ← deposit_and_attest ring s1 action r;
    _ ← deposit_and_attest ring s2 action r;
    _ ← expect_result ring action (Some r) (bs "two signers confirm");
    _ ← deposit_and_attest ring s3 action r;
    _ ← deposit_and_attest ring s4 action (sample_result (bs "other"));
    expect_result ring action (Some r) (bs "confirmation is monotone")).

Definition unverified_attestation_is_rejected : result text () :=
  let '(s1, ring) := admit_signer (bs "s1") ∅ in
  let intruder := outsider (bs "intruder") in
  let action := compute (bs "action") in
  let r := sample_result (bs "R") in
  on_fresh ring 1 (
    _ ← expect (bs "put") (put_bytes (ActionResult.to_canonical_bytes r));
    e ← answer (submit ring action (attest intruder action (ActionResult.result_digest r)));
    _ ← assert (is_unverified e) (bs "an outsider is rejected");
    e ← answer (submit ring action (attest_forged s1 action (ActionResult.result_digest r) (compute (bs "elsewhere"))));
    _ ← assert (is_unverified e) (bs "a forged signature is rejected");
    expect_result ring action None (bs "neither counted")).

Definition action_key_isolates_the_spec : result text () :=
  let '(s1, ring) := admit_signer (bs "s1") ∅ in
  let action_a := compute (bs "action-A") in
  let action_b := compute (bs "action-B") in
  let r := sample_result (bs "R") in
  on_fresh ring 1 (
    _ ← deposit_and_attest ring s1 action_a r;
    _ ← expect_result ring action_a (Some r) (bs "A is confirmed");
    _ ← expect_result ring action_b None (bs "an attestation under A must never confirm B");
    e ← answer (submit ring action_b (attest s1 action_a (ActionResult.result_digest r)));
    assert (is_unverified e) (bs "a replay under another action is rejected")).

Definition distinct_results_do_not_cross_count : result text () :=
  let '(s1, ring) := admit_signer (bs "s1") ∅ in
  let '(s2, ring) := admit_signer (bs "s2") ring in
  let action := compute (bs "action") in
  on_fresh ring 2 (
    _ ← deposit_and_attest ring s1 action (sample_result (bs "good"));
    _ ← deposit_and_attest ring s2 action (sample_result (bs "evil"));
    expect_result ring action None (bs "one signer each on two results confirms neither")).

Definition conflict_is_surfaced_not_silently_wrong : result text () :=
  let '(s1, ring) := admit_signer (bs "s1") ∅ in
  let '(s2, ring) := admit_signer (bs "s2") ring in
  let '(s3, ring) := admit_signer (bs "s3") ring in
  let '(s4, ring) := admit_signer (bs "s4") ring in
  let action := compute (bs "action") in
  on_fresh ring 2 (
    _ ← deposit_and_attest ring s1 action (sample_result (bs "good"));
    _ ← deposit_and_attest ring s2 action (sample_result (bs "good"));
    _ ← deposit_and_attest ring s3 action (sample_result (bs "evil"));
    _ ← deposit_and_attest ring s4 action (sample_result (bs "evil"));
    e ← answer (look_up ring action);
    assert (is_conflict e) (bs "a conflict is an error")).

Definition byzantine_cohort_of_k_forges_the_boundary : result text () :=
  let '(b1, ring) := admit_signer (bs "byz1") ∅ in
  let '(b2, ring) := admit_signer (bs "byz2") ring in
  let action := compute (bs "action") in
  let forged := sample_result (bs "false-but-agreed") in
  on_fresh ring 2 (
    _ ← deposit_and_attest ring b1 action forged;
    _ ← deposit_and_attest ring b2 action forged;
    expect_result ring action (Some forged) (bs "|Byzantine| = k forges: the minority hypothesis is load-bearing")).

(** [run_all] *)
Definition run_all_ac (uuid : nat -> Uuid) (uuid_text : Uuid -> text) (rec : option (ReclaimableCas S)) (base : nat) : result text () :=
  _ ← it_is_also_a_cas uuid uuid_text rec base;
  _ ← unknown_action_is_a_clean_miss;
  _ ← k_of_n_confirms_the_keystone;
  _ ← below_threshold_is_unconfirmed;
  _ ← duplicate_signer_does_not_count;
  _ ← attest_order_is_irrelevant;
  _ ← redelivery_is_idempotent;
  _ ← confirmation_is_monotone;
  _ ← unverified_attestation_is_rejected;
  _ ← action_key_isolates_the_spec;
  _ ← distinct_results_do_not_cross_count;
  _ ← conflict_is_surfaced_not_silently_wrong;
  byzantine_cohort_of_k_forges_the_boundary.
End test_doubles.
