(* ===== verification/ConformanceLaws.v ===== *)
(** The backends of the repository pass its conformance suites: the in-memory volume backend
    from any state, any content-addressed backend that does as it is told, and the action
    cache over it. *)

From Stdlib Require Import ZArith Lia.
From stdpp Require Import base option gmap sets list.
From S2P Require Import Prelude Ordered Text Digest Errors Canonical Attestation Cas ActionCache Volume MemBackend Conformance.

Local Open Scope Z_scope.

(** ** Lists without repetition *)

Lemma NoDup_fmap_inj {A B} (f : A -> B) l x y : NoDup (f <$> l) -> x ∈ l -> y ∈ l -> f x = f y -> x = y.
Proof.
  induction l as [|a l IH]; [by intros ? ?%elem_of_nil|]. rewrite fmap_cons, NoDup_cons, list_elem_of_fmap.
  intros [Ha Hn] Hx%elem_of_cons Hy%elem_of_cons E. destruct Hx as [->|Hx], Hy as [->|Hy]; [done|..].
  - destruct Ha. by exists y.
  - destruct Ha. by exists x.
  - by apply IH.
Qed.

Lemma NoDup_fmap_on {A B} (f : A -> B) l : (forall x y, x ∈ l -> y ∈ l -> f x = f y -> x = y) -> NoDup l -> NoDup (f <$> l).
Proof.
  intros Hf. induction 1 as [|a l Ha Hn IH]; csimpl; constructor.
  - intros (b & E & Hb)%list_elem_of_fmap. destruct Ha. rewrite (Hf a b) by (done || by constructor). done.
  - apply IH. intros x y Hx Hy. apply Hf; by constructor.
Qed.

(** ** Passing a step *)

Section pass.
Context {B : Type}.
Implicit Types (P Q : B -> Prop).

(** From every state in [P], the value, and a state in [Q]. *)
Definition pass {E A} P (m : M E B A) (a : A) Q : Prop := forall b, P b -> exists b', m b = (Ok a, b') /\ Q b'.

Lemma pass_bind {E A C} P (m : M E B A) a Q (f : A -> M E B C) c Q' :
  pass P m a Q -> pass Q (f a) c Q' -> pass P (m ≫= f) c Q'.
Proof.
  intros Hm Hf b Hb. destruct (Hm b Hb) as (b1 & E1 & H1). destruct (Hf b1 H1) as (b2 & E2 & H2).
  exists b2. unfold mbind, M_bind. by rewrite E1, E2.
Qed.

Lemma pass_weaken {E A} P (m : M E B A) a Q Q' : pass P m a Q -> (forall b, Q b -> Q' b) -> pass P m a Q'.
Proof. intros Hm HQ b Hb. destruct (Hm b Hb) as (b' & E1 & H1). exists b'. auto. Qed.

Lemma pass_ret {E A} P (a : A) : pass P (mret a : M E B A) a P.
Proof. intros b Hb. by exists b. Qed.

Lemma pass_expect {A} P (m : M BackendError B A) a Q msg : pass P m a Q -> pass P (expect msg m) a Q.
Proof. intros Hm b Hb. destruct (Hm b Hb) as (b' & E1 & H1). exists b'. unfold expect. by rewrite E1. Qed.

Lemma pass_assert P c msg : c = true -> pass P (assert c msg) () P.
Proof. intros -> b Hb. by exists b. Qed.

Lemma pass_lift {A} P (r : result text A) a : r = Ok a -> pass P (lift r) a P.
Proof. intros -> b Hb. by exists b. Qed.

Lemma pass_answer {A} P (m : M BackendError B A) r Q :
  (forall b, P b -> exists b', m b = (r, b') /\ Q b') -> pass P (answer m) r Q.
Proof. intros Hm b Hb. destruct (Hm b Hb) as (b' & E1 & H1). exists b'. unfold answer. by rewrite E1. Qed.
End pass.

(** The next step of a suite, by its lemma. *)
Ltac step H := eapply pass_bind; [eapply H|cbv beta].
Ltac holds := eapply pass_bind; [apply pass_assert|cbv beta].

(** ** A content-addressed backend that does as it is told *)

Section willing.
Context {S : Type} {Hs : Hashers} {CB : CasBackend S} {V : CasModel S}.

Abbreviation blobs := (gmap Digest (list byte)).

(** [entry(d).or_insert(b)] *)
Definition kept (d : Digest) (b : list byte) (P : blobs) : blobs := if bool_decide (is_Some (P !! d)) then P else <[d := b]> P.

Definition holds (P : blobs) (s : S) : Prop := cas_valid s /\ held s = P.

(** Every operation succeeds when it can, and fails as documented when it cannot. *)
Class Willing : Prop := {
  wi_has d P : pass (holds P) (cas_has d) (bool_decide (is_Some (P !! d))) (holds P);
  wi_get d b P s : P !! d = Some b -> holds P s -> exists src s',
    cas_get d s = (Ok src, s') /\ (read_to_end src).1 = Ok b /\ holds P s';
  wi_get_absent d P s : P !! d = None -> holds P s -> exists e s', cas_get d s = (Err e, s') /\ holds P s';
  wi_put b P s : holds P s -> exists rest s',
    cas_put (cursor b) s = (Ok (compute b), rest, s') /\ holds (kept (compute b) b P) s';
  wi_put_keyed d b P s : verify d b = true -> holds P s -> exists rest s',
    cas_put_keyed d (cursor b) s = (Ok (), rest, s') /\ holds (kept d b P) s';
  wi_put_wrong d b P s : verify d b = false -> P !! d = None -> holds P s -> exists m rest s',
    cas_put_keyed d (cursor b) s = (Err (InvalidArgument m), rest, s') /\ holds P s';
  wi_size d P : pass (holds P) (cas_size d) (zlen <$> P !! d) (holds P);
}.

(** And of the reclaimable tier. *)
Class WillingReclaim (R : ReclaimableCas S) : Prop := {
  wr_iter P s : holds P s -> exists l s', iter_local s = (Ok l, s') /\ holds P s' /\
    l ≡ₚ (fun kv => mkLocalBlob kv.1 (zlen kv.2)) <$> map_to_list P;
  wr_reclaim d P : pass (holds P) (reclaim d) (bool_decide (is_Some (P !! d))) (holds (delete d P));
}.

Context {W : Willing} {HL : HasherLaws Hs}.
Implicit Types (P : blobs).

Lemma store_pass b P : pass (holds P) (Conformance.store b) (compute b) (holds (kept (compute b) b P)).
Proof.
  apply pass_expect. intros s Hs'. destruct (wi_put b P s Hs') as (rest & s' & E & H). exists s'. unfold put_bytes.
  by rewrite E.
Qed.

Lemma has_pass d P : pass (holds P) (Conformance.has d) (bool_decide (is_Some (P !! d))) (holds P).
Proof. apply pass_expect, wi_has. Qed.

Lemma fetch_pass d b P : P !! d = Some b -> pass (holds P) (Conformance.fetch d) b (holds P).
Proof.
  intros Hd s Hs'. destruct (wi_get d b P s Hd Hs') as (src & s' & E & Hr & H). exists s'.
  unfold fetch, expect, mbind, M_bind. rewrite E. cbn. unfold lift. by rewrite Hr.
Qed.

Lemma put_keyed_pass d b P : verify d b = true -> pass (holds P) (put_keyed_bytes d b) () (holds (kept d b P)).
Proof.
  intros Hv s Hs'. destruct (wi_put_keyed d b P s Hv Hs') as (rest & s' & E & H). exists s'. unfold put_keyed_bytes.
  by rewrite E.
Qed.

Lemma kept_new d b P : P !! d = None -> kept d b P = <[d := b]> P.
Proof. intros Hd. unfold kept. by rewrite bool_decide_false by (rewrite Hd; apply is_Some_None). Qed.

Lemma kept_old d b b' P : P !! d = Some b' -> kept d b P = P.
Proof. intros Hd. unfold kept. by rewrite bool_decide_true by (rewrite Hd; eauto). Qed.

Lemma present_true d b P : bool_decide (is_Some (<[d := b]> P !! d)) = true.
Proof. apply bool_decide_eq_true. rewrite lookup_insert_eq. eauto. Qed.

Lemma absent_false d P : P !! d = None -> bool_decide (is_Some (P !! d)) = false.
Proof. intros Hd. apply bool_decide_eq_false. rewrite Hd. apply is_Some_None. Qed.

(** ** The suite of stores *)

Context (uuid : nat -> Uuid) (uuid_text : Uuid -> text).
Abbreviation T := (unique_bytes uuid uuid_text).
Abbreviation D := (fun i tag => compute (T i tag)).

Lemma verify_computed b : verify (compute b) b = true.
Proof. unfold verify, compute, compute_with. cbn. by apply bool_decide_eq_true. Qed.

Lemma verify_sha256 b : verify (compute_with Sha256 b) b = true.
Proof. unfold verify, compute_with. cbn. by apply bool_decide_eq_true. Qed.

Lemma verify_other b b' : compute b' <> compute b -> verify (compute b') b = false.
Proof. intros Hne. unfold verify. apply bool_decide_eq_false. unfold compute, compute_with in *. cbn in *. congruence. Qed.

Hint Resolve bool_decide_eq_true_2 : core.

Lemma put_digest_pass i P : P !! D i (bs "put-digest") = None ->
  pass (holds P) (put_returns_the_content_digest uuid uuid_text i) () (holds (<[D i (bs "put-digest") := T i (bs "put-digest")]> P)).
Proof.
  intros Hd. unfold put_returns_the_content_digest. step store_pass. rewrite kept_new by done. apply pass_assert. auto.
Qed.

Lemma presence_pass i P : P !! D i (bs "presence") = None ->
  pass (holds P) (absent_before_put_present_after uuid uuid_text i) () (holds (<[D i (bs "presence") := T i (bs "presence")]> P)).
Proof.
  intros Hd. unfold absent_before_put_present_after. step has_pass. holds; [by rewrite absent_false|].
  step store_pass. rewrite kept_new by done. holds; [auto|]. step has_pass. apply pass_assert, present_true.
Qed.

Lemma roundtrip_pass i P : P !! D i (bs "roundtrip") = None ->
  pass (holds P) (get_returns_the_exact_verified_bytes uuid uuid_text i) () (holds (<[D i (bs "roundtrip") := T i (bs "roundtrip")]> P)).
Proof.
  intros Hd. unfold get_returns_the_exact_verified_bytes. step store_pass. rewrite kept_new by done.
  step fetch_pass; [by rewrite lookup_insert_eq|]. holds; [auto|]. apply pass_assert, verify_computed.
Qed.

Lemma idempotent_pass i P : P !! D i (bs "idempotent") = None ->
  pass (holds P) (put_is_idempotent uuid uuid_text i) () (holds (<[D i (bs "idempotent") := T i (bs "idempotent")]> P)).
Proof.
  intros Hd. unfold put_is_idempotent. step store_pass. rewrite kept_new by done. step store_pass.
  rewrite (kept_old _ _ (T i (bs "idempotent"))) by apply lookup_insert_eq. holds; [auto|]. step has_pass.
  apply pass_assert, present_true.
Qed.

Lemma never_stored_pass i P : P !! D i (bs "never-stored") = None ->
  pass (holds P) (get_on_an_absent_digest_errors uuid uuid_text i) () (holds P).
Proof.
  intros Hd s Hs'. destruct (wi_get_absent _ P s Hd Hs') as (e & s' & E & H). exists s'.
  unfold get_on_an_absent_digest_errors, answer, mbind, M_bind. by rewrite E.
Qed.

Lemma coexist_pass i P :
  P !! D i (bs "coexist-a") = None -> P !! D (i + 1)%nat (bs "coexist-b") = None ->
  D i (bs "coexist-a") <> D (i + 1)%nat (bs "coexist-b") ->
  pass (holds P) (distinct_blobs_coexist uuid uuid_text i) ()
    (holds (<[D (i + 1)%nat (bs "coexist-b") := T (i + 1)%nat (bs "coexist-b")]> (<[D i (bs "coexist-a") := T i (bs "coexist-a")]> P))).
Proof.
  intros Ha Hb Hne. unfold distinct_blobs_coexist. step store_pass. step store_pass.
  rewrite !kept_new by (rewrite ?kept_new, ?lookup_insert_ne by done; done). holds; [auto|].
  step fetch_pass; [by rewrite lookup_insert_ne, lookup_insert_eq|]. holds; [auto|].
  step fetch_pass; [by rewrite lookup_insert_eq|]. apply pass_assert. auto.
Qed.

Lemma empty_pass P : from_option (fun b => b = []) True (P !! compute []) ->
  pass (holds P) the_empty_blob_roundtrips () (holds (kept (compute []) [] P)).
Proof.
  intros He. assert (Hk : kept (compute []) [] P !! compute [] = Some []).
  { unfold kept. destruct (P !! compute []) as [b|] eqn:E; cbn in He; [subst b|]; case_bool_decide as Hb;
      [done|by destruct Hb|by destruct Hb as [? ?]|apply lookup_insert_eq]. }
  unfold the_empty_blob_roundtrips. step store_pass. holds; [auto|]. step has_pass.
  holds; [rewrite Hk; auto|]. step fetch_pass; [exact Hk|]. apply pass_assert. auto.
Qed.

Lemma size_pass i P :
  P !! D i (bs "size") = None -> P !! D (i + 1)%nat (bs "size-absent") = None ->
  D i (bs "size") <> D (i + 1)%nat (bs "size-absent") ->
  pass (holds P) (size_reports_stored_bytes uuid uuid_text i) () (holds (<[D i (bs "size") := T i (bs "size")]> P)).
Proof.
  intros Hd Hd' Hne. unfold size_reports_stored_bytes. step store_pass. rewrite kept_new by done.
  eapply pass_bind; [apply pass_expect, wi_size|cbv beta]. holds; [rewrite lookup_insert_eq; auto|].
  eapply pass_bind; [apply pass_expect, wi_size|cbv beta]. apply pass_assert. rewrite lookup_insert_ne, Hd' by done. auto.
Qed.

Lemma find_listed d b P l : P !! d = Some b ->
  l ≡ₚ (fun kv => mkLocalBlob kv.1 (zlen kv.2)) <$> map_to_list P ->
  find (fun x => bool_decide (lb_digest x = d)) l = Some (mkLocalBlob d (zlen b)).
Proof.
  intros Hd Hl. assert (Hin : mkLocalBlob d (zlen b) ∈ l).
  { rewrite Hl. apply list_elem_of_fmap. exists (d, b). split; [done|]. by apply elem_of_map_to_list. }
  destruct (find _ l) as [x|] eqn:Ef.
  - apply find_some in Ef as [Hx Hxd]. apply bool_decide_eq_true in Hxd. apply list_elem_of_In in Hx. rewrite Hl in Hx.
    apply list_elem_of_fmap in Hx as ([d' b'] & -> & Hp%elem_of_map_to_list). cbn in *. subst d'. by simplify_eq.
  - apply list_elem_of_In in Hin. apply (find_none _ _ Ef) in Hin. cbn in Hin. by rewrite bool_decide_true in Hin.
Qed.

Lemma reclaimable_pass (rec : option (ReclaimableCas S)) i P :
  from_option WillingReclaim True rec -> P !! D i (bs "reclaimable") = None ->
  pass (holds P) (reclaimable_round_trip_if_supported uuid uuid_text rec i) () (holds P).
Proof.
  intros Hr Hd. destruct rec as [R|]; [|apply pass_ret]. cbn in Hr. unfold reclaimable_round_trip_if_supported.
  step store_pass. rewrite kept_new by done. set (P' := <[_ := _]> P).
  assert (Hp : P' !! D i (bs "reclaimable") = Some (T i (bs "reclaimable"))) by apply lookup_insert_eq.
  intros s Hs'. destruct (wr_iter P' s Hs') as (l & s1 & E & H1 & Hl).
  unfold mbind at 1, M_bind at 1, expect at 1. rewrite E. cbn [map_err].
  refine ((_ : pass (holds P') _ _ _) s1 H1).
  eapply pass_bind; [eapply pass_lift; rewrite (find_listed _ _ P' l Hp Hl); done|cbv beta].
  cbn [lb_size]. holds; [auto|]. eapply pass_bind; [apply pass_expect, wr_reclaim|cbv beta].
  assert (Hb : bool_decide (is_Some (P' !! D i (bs "reclaimable"))) = true) by (rewrite Hp; auto). rewrite Hb.
  holds; [done|]. step has_pass. unfold P'. rewrite delete_insert_id by done. rewrite absent_false by done. holds; [done|].
  eapply pass_bind; [apply pass_expect, wr_reclaim|cbv beta]. rewrite absent_false, delete_id by done. by apply pass_assert.
Qed.

Lemma keyed_pass i P :
  let d := D i (bs "put-keyed") in let wrong := D (i + 1)%nat (bs "put-keyed-wrong") in
  let sha := compute_with Sha256 (T (i + 2)%nat (bs "sha256-native")) in
  P !! d = None -> P !! wrong = None -> P !! sha = None -> wrong <> d ->
  pass (holds P) (put_keyed_and_sha256_native_if_supported uuid uuid_text i) ()
    (holds (<[sha := T (i + 2)%nat (bs "sha256-native")]> (<[d := T i (bs "put-keyed")]> P))).
Proof.
  intros d wrong sha Hd Hw Hs' Hne. unfold put_keyed_and_sha256_native_if_supported. fold d wrong.
  assert (Hsd : sha <> d) by (intros [=]).
  eapply pass_bind.
  { apply pass_answer. intros s Hh. destruct (put_keyed_pass d _ P (verify_computed _) s Hh) as (s1 & E & H1).
    rewrite kept_new in H1 by done. by eexists. }
  cbv beta iota. step has_pass. holds; [apply present_true|]. step fetch_pass; [by rewrite lookup_insert_eq|]. holds; [auto|].
  eapply pass_bind; [apply pass_expect, put_keyed_pass, verify_computed|cbv beta].
  rewrite (kept_old _ _ (T i (bs "put-keyed"))) by apply lookup_insert_eq.
  intros s Hh. destruct (wi_put_wrong wrong (T i (bs "put-keyed")) _ s (verify_other _ _ Hne) ltac:(by rewrite lookup_insert_ne) Hh) as (m & rest & s1 & E & H1).
  unfold mbind at 1, M_bind at 1, answer at 1, put_keyed_bytes at 1. rewrite E.
  refine ((_ : pass (holds _) _ _ _) s1 H1). holds; [done|]. step has_pass.
  rewrite absent_false by by rewrite lookup_insert_ne. holds; [done|]. unfold sha256_native.
  eapply pass_bind; [apply pass_expect, put_keyed_pass, verify_sha256|cbv beta]. fold sha.
  rewrite kept_new by by rewrite lookup_insert_ne. holds; [auto|]. step has_pass. holds; [apply present_true|].
  eapply pass_bind; [apply pass_expect, wi_size|cbv beta]. holds; [rewrite lookup_insert_eq; auto|].
  step fetch_pass; [by rewrite lookup_insert_eq|]. holds; [auto|]. apply pass_assert, verify_sha256.
Qed.

(** What the suite stores or asks for, the empty blob apart: all distinct, none held. *)
Definition test_digests (base : nat) : list Digest :=
  [D base (bs "put-digest"); D (base + 1)%nat (bs "presence"); D (base + 2)%nat (bs "roundtrip");
   D (base + 3)%nat (bs "idempotent"); D (base + 4)%nat (bs "never-stored"); D (base + 5)%nat (bs "coexist-a");
   D (base + 5 + 1)%nat (bs "coexist-b"); D (base + 7)%nat (bs "reclaimable"); D (base + 8)%nat (bs "size");
   D (base + 8 + 1)%nat (bs "size-absent"); D (base + 10)%nat (bs "put-keyed"); D (base + 10 + 1)%nat (bs "put-keyed-wrong");
   compute_with Sha256 (T (base + 10 + 2)%nat (bs "sha256-native"))].

Record unheld P (ds : list Digest) : Prop := {
  uh_distinct : NoDup (compute [] :: ds);
  uh_absent : Forall (fun d => P !! d = None) ds;
  uh_empty : from_option (fun b => b = []) True (P !! compute []);
}.

Lemma unheld_head P d ds : unheld P (d :: ds) -> P !! d = None.
Proof. by intros [_ [H _]%Forall_cons _]. Qed.

Lemma unheld_tail P d ds : unheld P (d :: ds) -> unheld P ds.
Proof.
  intros [[He [_ Hn]%NoDup_cons]%NoDup_cons [_ Ha]%Forall_cons Hm]. split; [|done..].
  apply NoDup_cons. split; [set_solver|done].
Qed.

Lemma unheld_insert P d b ds : unheld P (d :: ds) -> unheld (<[d := b]> P) ds.
Proof.
  intros H. pose proof (unheld_tail _ _ _ H) as [Hn' Ha' Hm']. destruct H as [[He [Hd _]%NoDup_cons]%NoDup_cons _ _].
  split; [done| |].
  - eapply Forall_impl; [apply Forall_and; split; [exact Ha'|apply Forall_forall; intros x Hx; exact Hx]|].
    intros x [Hx Hin]. rewrite lookup_insert_ne; [done|]. intros ->. done.
  - rewrite lookup_insert_ne; [done|]. intros ->. apply He. by left.
Qed.

Lemma unheld_kept P ds : unheld P ds -> unheld (kept (compute []) [] P) ds.
Proof.
  intros [Hn Ha Hm]. unfold kept. case_bool_decide as Hb; [by split|]. split; [done| |by rewrite lookup_insert_eq].
  apply NoDup_cons in Hn as [He _]. eapply Forall_impl; [apply Forall_and; split; [exact Ha|apply Forall_forall; intros x Hx; exact Hx]|].
  intros x [Hx Hin]. rewrite lookup_insert_ne; [done|]. intros E. apply He. by rewrite E.
Qed.

Lemma unheld_two P d d' ds : unheld P (d :: d' :: ds) -> d <> d' /\ P !! d' = None /\ unheld P (d :: ds).
Proof.
  intros H. pose proof (unheld_tail _ _ _ H) as H'. split_and!; [|by eapply unheld_head|].
  - destruct H as [[_ [Hd _]%NoDup_cons]%NoDup_cons _ _]. set_solver.
  - destruct H as [[He [Hd [Hd' Hn]%NoDup_cons]%NoDup_cons]%NoDup_cons [Ha [_ Has]%Forall_cons]%Forall_cons Hm].
    split; [|by constructor|done]. rewrite !NoDup_cons. set_solver.
Qed.

(** The store still holds what it held, and none of [ds]. *)
Definition grown P (ds : list Digest) (s : S) : Prop := exists P', holds P' s /\ unheld P' ds /\ P ⊆ P'.

Lemma grows P ds ds' (m : M text S ()) :
  (forall P', unheld P' ds -> exists P'', pass (holds P') m () (holds P'') /\ unheld P'' ds' /\ P' ⊆ P'') ->
  pass (grown P ds) m () (grown P ds').
Proof.
  intros Hm s (P1 & Hs1 & Hu & Hle). destruct (Hm P1 Hu) as (P2 & Hp & Hu2 & Hle2). destruct (Hp s Hs1) as (s' & E & H2).
  exists s'. split; [done|]. exists P2. split_and!; [done..|by transitivity P1].
Qed.

(** A suite that stores one blob. *)
Lemma grows_one P d b ds (m : M text S ()) :
  (forall P', P' !! d = None -> pass (holds P') m () (holds (<[d := b]> P'))) -> pass (grown P (d :: ds)) m () (grown P ds).
Proof.
  intros Hm. apply grows. intros P' Hu. pose proof (unheld_head _ _ _ Hu). eexists.
  split_and!; [by apply Hm|by apply unheld_insert|by apply insert_subseteq].
Qed.

(** Any content-addressed backend whose operations succeed when they can and fail as
    documented when they cannot passes the whole conformance suite, whatever it holds, as long
    as the suite's own blobs are new to it and hash apart; it still holds afterwards all it
    held before. *)
Theorem willing_store_passes (rec : option (ReclaimableCas S)) base P s :
  from_option WillingReclaim True rec -> unheld P (test_digests base) -> holds P s ->
  exists s', run_all_cas uuid uuid_text rec base s = (Ok (), s') /\ cas_valid s' /\ P ⊆ held s'.
Proof.
  intros Hr Hu Hs'. cut (pass (grown P (test_digests base)) (run_all_cas uuid uuid_text rec base) () (grown P [])).
  { intros Hp. destruct (Hp s) as (s' & E & P' & [Hv Hh] & _ & Hle); [by exists P|]. exists s'. by rewrite Hh. }
  clear s Hs' Hu. unfold run_all_cas, test_digests.
  eapply pass_bind; [eapply grows_one; intros; by apply put_digest_pass|cbv beta].
  eapply pass_bind; [eapply grows_one; intros; by apply presence_pass|cbv beta].
  eapply pass_bind; [eapply grows_one; intros; by apply roundtrip_pass|cbv beta].
  eapply pass_bind; [eapply grows_one; intros; by apply idempotent_pass|cbv beta].
  eapply pass_bind; [eapply (grows _ _ (D (base + 5)%nat (bs "coexist-a") :: _)); intros P' Hu|cbv beta].
  { exists P'. split_and!; [by eapply never_stored_pass, unheld_head|by eapply unheld_tail|done]. }
  eapply pass_bind; [eapply (grows _ _ (D (base + 7)%nat (bs "reclaimable") :: _)); intros P' Hu|cbv beta].
  { destruct (unheld_two _ _ _ _ Hu) as (Hne & Hb & _). pose proof (unheld_head _ _ _ Hu) as Ha. eexists.
    split_and!; [by apply coexist_pass|by do 2 apply unheld_insert|].
    etransitivity; [eapply (insert_subseteq _ _ _ Ha)|]. apply insert_subseteq. by rewrite lookup_insert_ne. }
  eapply pass_bind; [eapply (grows _ _ (D (base + 7)%nat (bs "reclaimable") :: _)); intros P' Hu|cbv beta].
  { eexists. split_and!; [apply empty_pass, Hu|by apply unheld_kept|]. unfold kept.
    case_bool_decide as Hb; [done|]. apply insert_subseteq. by apply eq_None_not_Some. }
  eapply pass_bind; [eapply (grows _ _ (D (base + 8)%nat (bs "size") :: _)); intros P' Hu|cbv beta].
  { exists P'. split_and!; [by eapply reclaimable_pass, unheld_head|by eapply unheld_tail|done]. }
  eapply pass_bind; [eapply (grows _ _ (D (base + 10)%nat (bs "put-keyed") :: _)); intros P' Hu|cbv beta].
  { destruct (unheld_two _ _ _ _ Hu) as (Hne & Hb & _). pose proof (unheld_head _ _ _ Hu) as Ha. eexists.
    split_and!; [by apply size_pass|apply (unheld_tail _ _ _ (unheld_insert _ _ _ _ Hu))|by apply insert_subseteq]. }
  apply grows. intros P' Hu. destruct (unheld_two _ _ _ _ Hu) as (Hne & Hb & _). pose proof (unheld_head _ _ _ Hu) as Ha.
  pose proof (unheld_head _ _ _ (unheld_tail _ _ _ (unheld_tail _ _ _ Hu))) as Hsha. eexists.
  split_and!; [by apply keyed_pass| |].
  - apply unheld_insert, (unheld_tail _ _ _ (unheld_insert _ _ _ _ Hu)).
  - etransitivity; [eapply (insert_subseteq _ _ _ Ha)|]. apply insert_subseteq. rewrite lookup_insert_ne; [done|]. by intros [=].
Qed.
End willing.

(** ** The stores of the repository *)

#[export] Instance mem_willing {Hs : Hashers} {HL : HasherLaws Hs} : Willing (S := Mem.MemCas).
Proof.
  assert (Hk : forall d b (s : Mem.MemCas), held (Mem.or_insert d b s) = kept d b (held s)).
  { intros d b s. unfold kept, Mem.or_insert. cbn [held Mem.mem_model]. destruct (Mem.blobs s !! d) eqn:E; rewrite ?E; [by rewrite bool_decide_true by eauto|].
    by rewrite bool_decide_false by apply is_Some_None. }
  split.
  - intros d P s [Hv <-]. by exists s.
  - intros d b P s Hd [Hv <-]. exists (cursor b), s. cbn [cas_get Mem.mem_backend held Mem.mem_model] in *. unfold Mem.get. rewrite Hd, read_to_end_cursor. by split_and!.
  - intros d P s Hd [Hv <-]. exists (BlobNotFound d), s. cbn in *. unfold Mem.get. by rewrite Hd.
  - intros b P s [Hv <-]. cbn [cas_put Mem.mem_backend]. unfold Mem.put. rewrite read_to_end_cursor. eexists _, _. split; [done|].
    split; [apply Mem.or_insert_valid; [apply verify_computed|done]|apply Hk].
  - intros d b P s Hb [Hv <-]. cbn [cas_put_keyed Mem.mem_backend]. unfold Mem.put_keyed. rewrite read_to_end_cursor, Hb. eexists _, _. split; [done|].
    split; [by apply Mem.or_insert_valid|apply Hk].
  - intros d b P s Hb _ [Hv <-]. cbn [cas_put_keyed Mem.mem_backend]. unfold Mem.put_keyed. rewrite read_to_end_cursor, Hb. by eexists _, _, _.
  - intros d P s [Hv <-]. by exists s.
Qed.

#[export] Instance mem_willing_reclaim {Hs : Hashers} : WillingReclaim (S := Mem.MemCas) _.
Proof.
  split.
  - intros P s [Hv <-]. by eexists _, s.
  - intros d P s [Hv <-]. eexists. split; [done|]. split; [by apply Mem.delete_valid|done].
Qed.

(** An action cache is as willing as the store beneath. *)
Section cache.
Context {C : Type} {Hs : Hashers} {CB : CasBackend C} {V : CasModel C}.

#[export] Instance ac_model : CasModel (MemActionCache C) := {|
  held s := held (ac_cas s);
  quarantined_at s := quarantined_at (ac_cas s);
  cas_valid s := cas_valid (ac_cas s);
|}.

#[export] Instance ac_willing {W : Willing (S := C)} : Willing (S := MemActionCache C).
Proof.
  split.
  - intros d P s Hh. destruct (wi_has d P (ac_cas s) Hh) as (c & E & H). cbn. unfold ac_has, on_cas. rewrite E. by eexists.
  - intros d b P s Hd Hh. destruct (wi_get d b P (ac_cas s) Hd Hh) as (src & c & E & Hr & H). cbn. unfold ac_get, on_cas. rewrite E. by eexists _, _.
  - intros d P s Hd Hh. destruct (wi_get_absent d P (ac_cas s) Hd Hh) as (e & c & E & H). cbn. unfold ac_get, on_cas. rewrite E. by eexists _, _.
  - intros b P s Hh. destruct (wi_put b P (ac_cas s) Hh) as (r & c & E & H). cbn. unfold ac_put. rewrite E. by eexists _, _.
  - intros d b P s Hv Hh. destruct (wi_put_keyed d b P (ac_cas s) Hv Hh) as (r & c & E & H). cbn. unfold ac_put_keyed. rewrite E. by eexists _, _.
  - intros d b P s Hv Hd Hh. destruct (wi_put_wrong d b P (ac_cas s) Hv Hd Hh) as (m & r & c & E & H). cbn. unfold ac_put_keyed. rewrite E. by eexists _, _, _.
  - intros d P s Hh. destruct (wi_size d P (ac_cas s) Hh) as (c & E & H). cbn. unfold ac_size, on_cas. rewrite E. by eexists.
Qed.
End cache.
