(* ===== verification/CacheConforms.v ===== *)
(** The action cache passes the action-cache suite, over any store that does as it is told and
    with any hash functions that do not collide on what the suite hashes: a suite's votes are
    counted on plain names and tags, and the cache's answers follow the count. *)

From Stdlib Require Import ZArith Lia.
From stdpp Require Import base option gmap sets list.
From S2P Require Import Prelude Ordered Text Digest Errors Cursor Canonical Attestation Cas ActionCache Conformance ConformanceLaws.

Local Open Scope Z_scope.

(** ** Counting votes *)

(** A vote is a signer's name and a result's tag. *)
Abbreviation vote := (text * text)%type.

Definition voters (vs : list vote) (t : text) : list text := remove_dups (fst <$> filter (fun v => v.2 = t) vs).

Definition winners (vs : list vote) (k : positive) : list text :=
  filter (fun t => (Pos.to_nat k <= length (voters vs t))%nat) (remove_dups (snd <$> vs)).

Section cache.
Context {C : Type} {Hs : Hashers} {HL : HasherLaws Hs} {CB : CasBackend C} {V : CasModel C} {W : Willing (S := C)}.
(** The names and tags a suite uses; neither the identities nor the bodies collide. *)
Context (known tags : list text).
Hypothesis ids_apart : NoDup (ts_id ∘ from_name <$> known).
Hypothesis results_apart : NoDup (ActionResult.result_digest ∘ sample_result <$> tags).

Abbreviation rd t := (ActionResult.result_digest (sample_result t)).
Abbreviation body t := (ActionResult.to_canonical_bytes (sample_result t)).
Abbreviation id n := (ts_id (from_name n)).

Definition ballot (v : vote) : Attestation := mkAttestation (id v.1) (rd v.2).
Definition ballots (vs : list vote) : AttestationSet := mkAttSet (list_to_set (ballot <$> vs)).

(** Only known names vote for known tags. *)
Definition in_use (v : vote) : Prop := v.1 ∈ known /\ v.2 ∈ tags.

Lemma id_inj n m : n ∈ known -> m ∈ known -> id n = id m -> n = m.
Proof. intros Hn Hm. by apply (NoDup_fmap_inj (ts_id ∘ from_name) known). Qed.

Lemma rd_inj t u : t ∈ tags -> u ∈ tags -> rd t = rd u -> t = u.
Proof. intros Hn Hm. by apply (NoDup_fmap_inj (ActionResult.result_digest ∘ sample_result) tags). Qed.

Lemma ballot_inv x r v : mkAttestation x r = ballot v -> x = id v.1 /\ r = rd v.2.
Proof. intros E. split; [exact (f_equal signer E)|exact (f_equal att_result E)]. Qed.

Lemma elem_of_voters vs t n : n ∈ voters vs t <-> (n, t) ∈ vs.
Proof.
  unfold voters. rewrite elem_of_remove_dups, list_elem_of_fmap. split.
  - intros ([m u] & -> & [Hu Hin]%list_elem_of_filter). cbn [fst snd] in *. by subst.
  - intros Hin. exists (n, t). split; [done|]. by apply list_elem_of_filter.
Qed.

Lemma signers_of_voters vs t : Forall in_use vs -> t ∈ tags -> size (signers_for (ballots vs) (rd t)) = length (voters vs t).
Proof.
  intros Hvs Ht. rewrite <- (length_fmap (ts_id ∘ from_name) (voters vs t)).
  rewrite <- (size_list_to_set (C := gset SignerId)).
  - f_equal. apply set_eq. intros x. rewrite elem_of_signers, elem_of_list_to_set. cbn [atts ballots].
    rewrite elem_of_list_to_set, !list_elem_of_fmap. split.
    + intros ([n u] & [-> Hu]%ballot_inv & Hin). pose proof (proj1 (Forall_forall _ _) Hvs _ Hin) as [_ Hu']. cbn [fst snd] in *.
      apply rd_inj in Hu as ->; [|done..]. exists n. split; [done|]. by apply elem_of_voters.
    + intros (n & -> & Hn%elem_of_voters). exists (n, t). by split.
  - apply NoDup_fmap_on; [|apply NoDup_remove_dups]. intros n m Hn%elem_of_voters Hm%elem_of_voters.
    pose proof (proj1 (Forall_forall _ _) Hvs _ Hn) as [Hn' _]. pose proof (proj1 (Forall_forall _ _) Hvs _ Hm) as [Hm' _].
    by apply id_inj.
Qed.

Lemma confirmed_winner vs k r : Forall in_use vs -> is_confirmed (ballots vs) r k = true <-> exists t, t ∈ winners vs k /\ r = rd t.
Proof.
  intros Hvs. unfold is_confirmed. rewrite bool_decide_eq_true. split.
  - intros Hk. assert (Hne : signers_for (ballots vs) r ≠ ∅) by (intros E; rewrite E, size_empty in Hk; lia).
    apply set_choose_L in Hne as [x Hx]. apply elem_of_signers in Hx. cbn [atts ballots] in Hx.
    apply elem_of_list_to_set, list_elem_of_fmap in Hx as ([n t] & [-> ->]%ballot_inv & Hin). exists t. split; [|done].
    pose proof (proj1 (Forall_forall _ _) Hvs _ Hin) as [_ Ht]. cbn [fst snd] in *.
    unfold winners. apply list_elem_of_filter. rewrite signers_of_voters in Hk by done. split; [done|].
    apply elem_of_remove_dups, list_elem_of_fmap. by exists (n, t).
  - intros (t & [Hk Ht]%list_elem_of_filter & ->). apply elem_of_remove_dups, list_elem_of_fmap in Ht as ([n u] & -> & Hin).
    pose proof (proj1 (Forall_forall _ _) Hvs _ Hin) as [_ Ht]. cbn [fst snd] in *. by rewrite signers_of_voters.
Qed.

Lemma winner_tag vs k t : Forall in_use vs -> t ∈ winners vs k -> t ∈ tags.
Proof.
  intros Hvs [_ Ht]%list_elem_of_filter. apply elem_of_remove_dups, list_elem_of_fmap in Ht as ([n u] & -> & Hin).
  by apply (proj1 (Forall_forall _ _) Hvs _ Hin).
Qed.

(** Resolution follows the count. *)
Lemma resolve_count vs k : Forall in_use vs ->
  match winners vs k with
  | [] => resolve (ballots vs) k = Unconfirmed
  | [t] => resolve (ballots vs) k = Confirmed (rd t)
  | _ => exists ds, resolve (ballots vs) k = Conflicting ds
  end.
Proof.
  intros Hvs. pose proof (fun r => confirmed_winner vs k r Hvs) as Hc. pose proof (fun t => winner_tag vs k t Hvs) as Htag.
  assert (Hnd : NoDup (winners vs k)) by apply NoDup_filter, NoDup_remove_dups.
  pose proof (resolve_cases (ballots vs) k) as Hr. destruct (winners vs k) as [|t [|u ws]].
  - destruct (resolve _ _) as [|d|ds]; [done|..].
    + destruct (proj1 (Hc d)) as (t & ?%elem_of_nil & _); [by apply Hr|done].
    + destruct Hr as [Hr Hsz]. destruct (decide (ds = ∅)) as [->|Hne]; [rewrite size_empty in Hsz; lia|].
      apply set_choose_L in Hne as [d Hd]. apply Hr, Hc in Hd as (t & ?%elem_of_nil & _). done.
  - apply resolve_Confirmed. intros r. rewrite Hc. split; [intros (t' & ->%list_elem_of_singleton & ->); done|].
    intros ->. exists t. split; [by apply list_elem_of_singleton|done].
  - assert (Ht : is_confirmed (ballots vs) (rd t) k = true) by (apply Hc; exists t; split; [by left|done]).
    assert (Hu : is_confirmed (ballots vs) (rd u) k = true) by (apply Hc; exists u; split; [by right; left|done]).
    destruct (resolve _ _) as [|d|ds]; [by rewrite Hr in Ht| |by exists ds].
    apply NoDup_cons in Hnd as [Htu _]. destruct Htu. apply Hr in Ht, Hu.
    rewrite (rd_inj t u); [by left|..|congruence]; apply Htag; [by left|by right; left].
Qed.

(** ** A cache between two steps of a suite *)

(** The bodies of [ts] are in the store, and [vs] are the votes on the one action. *)
Definition polled (action : Digest) (ts : list text) (vs : list vote) (k : positive) (s : MemActionCache C) : Prop :=
  Forall in_use vs /\ Forall (fun v => v.2 ∈ ts) vs /\ ts ⊆ tags /\ threshold s = k /\
  entries s = match vs with [] => ∅ | _ => {[action := ballots vs]} end /\
  exists P, holds P (ac_cas s) /\ (forall t, t ∈ tags -> P !! rd t = None \/ P !! rd t = Some (body t)) /\
    (forall t, t ∈ ts -> P !! rd t = Some (body t)).

Definition secrets (names : list text) : gmap SignerId (list byte) :=
  foldr (fun n ring => <[id n := ts_secret (from_name n)]> ring) ∅ names.

Lemma secret_of names n : names ⊆ known -> n ∈ names -> secrets names !! id n = Some (ts_secret (from_name n)).
Proof.
  induction names as [|m names IH]; [by intros _ ?%elem_of_nil|]. intros Hk Hn. change (secrets (m :: names)) with (<[id m := ts_secret (from_name m)]> (secrets names)).
  destruct (decide (n = m)) as [->|Hne]; [apply lookup_insert_eq|]. apply elem_of_cons in Hn as [->|Hn]; [done|].
  rewrite lookup_insert_ne; [apply IH; [set_solver|done]|]. intros E. destruct Hne. symmetry. apply id_inj; set_solver.
Qed.

Lemma no_secret names n : names ⊆ known -> n ∈ known -> n ∉ names -> secrets names !! id n = None.
Proof.
  induction names as [|m names IH]; intros Hk Hn Hno; [done|]. change (secrets (m :: names)) with (<[id m := ts_secret (from_name m)]> (secrets names)).
  rewrite lookup_insert_ne; [apply IH; set_solver|]. intros E. apply Hno. rewrite (id_inj n m); [by left|..|done]; set_solver.
Qed.

Lemma sample_wf t : ActionResult.wf (sample_result t).
Proof.
  pose proof (compute_wf t) as Hd. split; [|split; [|split; [|split]]].
  - unfold bt_sorted. cbn. repeat constructor.
  - constructor; [|done]. split; [by vm_compute|done].
  - unfold is_i32. cbn. lia.
  - done.
  - done.
Qed.

Lemma length_delimited b : length (write_delimited b) = (8 + length b)%nat.
Proof. unfold write_delimited. rewrite length_app, length_le_bytes. done. Qed.

Lemma sample_fits t : ActionResult.fits (sample_result t).
Proof.
  pose proof (length_multihash _ (compute_wf t)) as Hd. unfold ActionResult.fits, zlen, ActionResult.to_canonical_bytes.
  cbn [sample_result ActionResult.outputs ActionResult.exit_code ActionResult.stdout_digest ActionResult.stderr_digest].
  unfold write_entries, ActionResult.write_output, write_opt_digest, write_bool. cbn [flat_map fst snd].
  rewrite !length_app. cbn [length]. rewrite !length_delimited, !length_le_bytes.
  cbn [ActionResult.of_digest ActionResult.is_executable length]. rewrite !Hd.
  change (length ActionResult.AR_DOMAIN) with 23%nat. change (length (bs "out")) with 3%nat.
  unfold isize_max. lia.
Qed.

Lemma body_roundtrip t : ActionResult.from_canonical_bytes (body t) = Ok (sample_result t).
Proof. apply ActionResult.ar_from_to_canonical; [apply sample_wf|apply sample_fits]. Qed.

Section action.
Context (action : Digest) (k : positive).
Abbreviation tier := (fun vfy : verifier => ac_tier (C := C) vfy).

Lemma fresh_polled c P :
  holds P c -> (forall t, t ∈ tags -> P !! rd t = None \/ P !! rd t = Some (body t)) ->
  polled action [] [] k (shared c k).
Proof.
  intros Hh HP. split_and!; [by constructor|by constructor|by intros t ?%elem_of_nil|done|done|].
  exists P. split; [done|]. split; [done|]. by intros t ?%elem_of_nil.
Qed.

Lemma put_pass ts vs t msg : t ∈ tags ->
  pass (polled action ts vs k) (expect msg (put_bytes (body t))) (rd t) (polled action (t :: ts) vs k).
Proof.
  intros Ht. apply pass_expect. intros s (Hu & Hv & Hts & Hth & He & P & Hh & HP & Hb).
  destruct (wi_put (body t) P (ac_cas s) Hh) as (rest & c & E & H). eexists. unfold put_bytes. cbn [cas_put ac_backend].
  unfold ac_put. rewrite E. split; [done|].
  split; [done|]. split; [|split; [set_solver|split; [done|split; [done|]]]].
  { eapply Forall_impl; [exact Hv|]. intros v. by right. }
  assert (Hk : forall u, u ∈ tags -> kept (rd t) (body t) P !! rd u = if decide (u = t) then Some (body t) else P !! rd u).
  { intros u Hut. unfold kept. fold (rd t). destruct (decide (u = t)) as [->|Hne].
    - destruct (HP t Ht) as [En|En]; rewrite ?En; [rewrite bool_decide_false by apply is_Some_None; apply lookup_insert_eq|].
      by rewrite bool_decide_true by eauto.
    - case_bool_decide; [done|]. rewrite lookup_insert_ne; [done|]. intros E'. destruct Hne. symmetry. by apply rd_inj. }
  exists (kept (rd t) (body t) P). split; [exact H|]. split.
  - intros u Hut. rewrite Hk by done. destruct (decide (u = t)) as [->|]; [by right|by apply HP].
  - intros u [->|Hut]%elem_of_cons; [by rewrite Hk, decide_True by done|].
    rewrite Hk by set_solver. destruct (decide (u = t)) as [->|]; [done|by apply Hb].
Qed.

Lemma submit_pass ring ts vs n t msg :
  n ∈ known -> t ∈ ts -> ring !! id n = Some (ts_secret (from_name n)) ->
  pass (polled action ts vs k) (expect msg (submit tier ring action (attest (from_name n) action (rd t)))) ()
    (polled action ts ((n, t) :: vs) k).
Proof.
  intros Hn Ht Hr. apply pass_expect. intros s (Hu & Hv & Hts & Hth & He & P & Hh & HP & Hb). eexists. split.
  { unfold submit, acb_attest, ac_tier, attest_action_result, mac_verify. cbn [attest attestation signature signer att_result].
    by rewrite Hr, bool_decide_true. }
  split; [|split; [by constructor|split; [done|split; [done|split; [|by exists P]]]]].
  { constructor; [|done]. split; [done|]. apply Hts, Ht. }
  cbn [entries]. rewrite He. destruct vs as [|v vs]; cbn [att_new].
  - rewrite lookup_empty. cbn [default from_option id]. unfold insert, att_new. cbn [atts snd ballots fmap list_fmap list_to_set].
    by rewrite insert_empty.
  - rewrite lookup_singleton_eq. cbn [default from_option]. rewrite insert_singleton_eq. done.
Qed.

Lemma deposit_pass ring ts vs n t :
  n ∈ known -> t ∈ tags -> ring !! id n = Some (ts_secret (from_name n)) ->
  pass (polled action ts vs k) (deposit_and_attest tier ring (from_name n) action (sample_result t)) ()
    (polled action (t :: ts) ((n, t) :: vs) k).
Proof. intros Hn Ht Hr. eapply pass_bind; [by apply put_pass|]. apply submit_pass; [done|by left|done]. Qed.

(** What the cache answers for the action. *)
Definition outcome (vs : list vote) : result BackendError (option ActionResult.t) :=
  match winners vs k with
  | [] => Ok None
  | [t] => Ok (Some (sample_result t))
  | _ => Err (ActionResultConflict action)
  end.

Lemma outcome_none vs : winners vs k = [] -> outcome vs = Ok None.
Proof. unfold outcome. by intros ->. Qed.

Lemma outcome_some vs t : winners vs k = [t] -> outcome vs = Ok (Some (sample_result t)).
Proof. unfold outcome. by intros ->. Qed.

Lemma look_up_outcome ring ts vs s :
  polled action ts vs k s -> exists s', look_up tier ring action s = (outcome vs, s') /\ polled action ts vs k s'.
Proof.
  intros (Hu & Hv & Hts & Hth & He & P & Hh & HP & Hb). unfold look_up, acb_get, ac_tier, get_action_result. rewrite He, Hth.
  destruct vs as [|v vs]; [exists s; split; [done|]; split_and!; [done..|by exists P]|].
  assert (Hself : polled action ts (v :: vs) k s) by (split_and!; [done..|by exists P]).
  rewrite lookup_singleton_eq. unfold outcome. pose proof (resolve_count (v :: vs) k Hu) as Hr.
  pose proof (fun t => winner_tag (v :: vs) k t Hu) as Htag.
  destruct (winners (v :: vs) k) as [|t [|u ws]] eqn:Ew.
  - rewrite Hr. by exists s.
  - rewrite Hr. assert (Hin : t ∈ ts).
    { assert (Hw : t ∈ winners (v :: vs) k) by (rewrite Ew; by left). unfold winners in Hw.
      apply list_elem_of_filter in Hw as [_ Hw]. apply elem_of_remove_dups, list_elem_of_fmap in Hw as (v' & -> & Hv').
      by apply (proj1 (Forall_forall _ _) Hv). }
    destruct (wi_get (rd t) (body t) P (ac_cas s) (Hb t Hin) Hh) as (src & c & E & Hrd & H).
    unfold materialize, ac_get, on_cas, mbind, M_bind. rewrite E, Hrd. unfold lift. cbn [map_err]. rewrite body_roundtrip.
    eexists. split; [done|]. split_and!; [done..|by exists P].
  - destruct Hr as [ds ->]. by exists s.
Qed.

Lemma expect_result_pass ring ts vs want msg :
  outcome vs = Ok want -> pass (polled action ts vs k) (expect_result tier ring action want msg) () (polled action ts vs k).
Proof.
  intros Ho s Hs'. destruct (look_up_outcome ring ts vs s Hs') as (s' & E & H). exists s'.
  unfold expect_result, expect, mbind, M_bind. rewrite E, Ho. cbn [map_err]. by rewrite bool_decide_true.
Qed.

Lemma look_up_pass ring ts vs want msg :
  outcome vs = Ok want -> pass (polled action ts vs k) (expect msg (look_up tier ring action)) want (polled action ts vs k).
Proof.
  intros Ho. apply pass_expect. intros s Hs'. destruct (look_up_outcome ring ts vs s Hs') as (s' & E & H). exists s'. by rewrite E, Ho.
Qed.

(** Another action was never voted on. *)
Lemma other_action_pass ring ts vs other msg :
  other <> action -> pass (polled action ts vs k) (expect_result tier ring other None msg) () (polled action ts vs k).
Proof.
  intros Hne s Hs'. pose proof Hs' as (Hu & Hv & Hts & Hth & He & HP). exists s. split; [|done].
  assert (Hn : entries s !! other = None).
  { rewrite He. destruct vs; [apply lookup_empty|]. by apply lookup_singleton_ne. }
  unfold expect_result, expect, mbind, M_bind, look_up, acb_get, ac_tier, get_action_result. rewrite Hn. cbn [map_err].
  by rewrite bool_decide_true.
Qed.

(** An attestation whose signature does not verify changes nothing. *)
Lemma reject_pass ring ts vs about signed :
  mac_verify ring (signer (attestation signed)) (statement_signing_bytes about (att_result (attestation signed))) (signature signed) = false ->
  pass (polled action ts vs k) (answer (submit tier ring about signed)) (Err (AttestationUnverified (signer (attestation signed))))
    (polled action ts vs k).
Proof.
  intros Hf. apply pass_answer. intros s Hs'. exists s. unfold submit, acb_attest, ac_tier, attest_action_result. by rewrite Hf.
Qed.
End action.

(** ** The suites *)

Ltac listed := apply (bool_decide_unpack _); vm_compute; exact I.

Section suites.
Context (c0 : C) (P0 : gmap Digest (list byte)).
Hypothesis start : holds P0 c0.
Hypothesis bodies_new : forall t, t ∈ tags -> P0 !! rd t = None \/ P0 !! rd t = Some (body t).
Hypothesis names_known : [bs "s1"; bs "s2"; bs "s3"; bs "s4"; bs "byz1"; bs "byz2"; bs "intruder"] ⊆ known.
Hypothesis tags_known : [bs "R"; bs "other"; bs "good"; bs "evil"; bs "false-but-agreed"] ⊆ tags.
(** Neither do the actions and the messages signed collide. *)
Hypothesis actions_apart : compute (bs "action-B") <> compute (bs "action-A").
Hypothesis forgery_seen :
  mac (ts_secret (from_name (bs "s1"))) (statement_signing_bytes (compute (bs "action")) (rd (bs "R"))) <>
  mac (ts_secret (from_name (bs "s1"))) (statement_signing_bytes (compute (bs "action")) (compute (bs "elsewhere"))).
Hypothesis replay_seen :
  mac (ts_secret (from_name (bs "s1"))) (statement_signing_bytes (compute (bs "action-B")) (rd (bs "R"))) <>
  mac (ts_secret (from_name (bs "s1"))) (statement_signing_bytes (compute (bs "action-A")) (rd (bs "R"))).

Abbreviation tier := (fun vfy : verifier => ac_tier (C := C) vfy).
Abbreviation make := (fun (_ : verifier) (k : positive) => shared c0 k).

Lemma on_fresh_Ok action k ring (m : M text (MemActionCache C) ()) Q :
  pass (polled action [] [] k) m () Q -> on_fresh make ring k m = Ok ().
Proof.
  intros Hm. destruct (Hm _ (fresh_polled action k c0 P0 start bodies_new)) as (s' & E & _). unfold on_fresh. by rewrite E.
Qed.

Lemma known_ring names n :
  Forall (fun m => m ∈ [bs "s1"; bs "s2"; bs "s3"; bs "s4"; bs "byz1"; bs "byz2"; bs "intruder"]) names -> n ∈ names ->
  secrets names !! id n = Some (ts_secret (from_name n)).
Proof. intros Hn. apply secret_of. intros x Hx. apply names_known. by apply (proj1 (Forall_forall _ _) Hn). Qed.

Ltac vote names :=
  eapply pass_bind; [eapply deposit_pass; [apply names_known; listed|apply tags_known; listed|apply (known_ring names); listed]|cbv beta].
Ltac answers := apply expect_result_pass; first [apply outcome_none; by vm_compute|apply outcome_some; by vm_compute].
Ltac asks := eapply pass_bind; [answers|cbv beta].

Lemma unknown_passes : unknown_action_is_a_clean_miss tier make = Ok ().
Proof. eapply (on_fresh_Ok (compute (bs "unknown-action"))). answers. Qed.

Lemma keystone_passes : k_of_n_confirms_the_keystone tier make = Ok ().
Proof. eapply (on_fresh_Ok (compute (bs "action-X"))). vote [bs "s2"; bs "s1"]. asks. vote [bs "s2"; bs "s1"]. answers. Qed.

Lemma below_passes : below_threshold_is_unconfirmed tier make = Ok ().
Proof. eapply (on_fresh_Ok (compute (bs "action"))). vote [bs "s2"; bs "s1"]. vote [bs "s2"; bs "s1"]. answers. Qed.

Lemma duplicate_passes : duplicate_signer_does_not_count tier make = Ok ().
Proof. eapply (on_fresh_Ok (compute (bs "action"))). vote [bs "s1"]. vote [bs "s1"]. answers. Qed.

Lemma redelivery_passes : redelivery_is_idempotent tier make = Ok ().
Proof.
  eapply (on_fresh_Ok (compute (bs "action"))). vote [bs "s1"].
  eapply pass_bind; [apply look_up_pass, outcome_some; by vm_compute|cbv beta]. vote [bs "s1"]. asks.
  apply pass_assert. by rewrite bool_decide_true.
Qed.

Lemma monotone_passes : confirmation_is_monotone tier make = Ok ().
Proof.
  eapply (on_fresh_Ok (compute (bs "action"))). vote [bs "s4"; bs "s3"; bs "s2"; bs "s1"].
  vote [bs "s4"; bs "s3"; bs "s2"; bs "s1"]. asks. vote [bs "s4"; bs "s3"; bs "s2"; bs "s1"].
  vote [bs "s4"; bs "s3"; bs "s2"; bs "s1"]. answers.
Qed.

Lemma distinct_passes : distinct_results_do_not_cross_count tier make = Ok ().
Proof. eapply (on_fresh_Ok (compute (bs "action"))). vote [bs "s2"; bs "s1"]. vote [bs "s2"; bs "s1"]. answers. Qed.

Lemma byzantine_passes : byzantine_cohort_of_k_forges_the_boundary tier make = Ok ().
Proof. eapply (on_fresh_Ok (compute (bs "action"))). vote [bs "byz2"; bs "byz1"]. vote [bs "byz2"; bs "byz1"]. answers. Qed.

Lemma order_passes : attest_order_is_irrelevant tier make = Ok ().
Proof.
  unfold attest_order_is_irrelevant. cbn [admit_signer].
  assert (Hrun : forall n m, (n = bs "s1" /\ m = bs "s2") \/ (n = bs "s2" /\ m = bs "s1") -> forall ring, ring = secrets [bs "s2"; bs "s1"] ->
    on_fresh make ring 2 (
      _ ← deposit_and_attest tier ring (from_name n) (compute (bs "action")) (sample_result (bs "R"));
      _ ← deposit_and_attest tier ring (from_name m) (compute (bs "action")) (sample_result (bs "R"));
      expect (bs "get") (look_up tier ring (compute (bs "action")))) = Ok (Some (sample_result (bs "R")))).
  { intros n m Hnm ring ->. assert (Hm : forall s, polled (compute (bs "action")) [] [] 2 s -> exists s', (
      _ ← deposit_and_attest tier (secrets [bs "s2"; bs "s1"]) (from_name n) (compute (bs "action")) (sample_result (bs "R"));
      _ ← deposit_and_attest tier (secrets [bs "s2"; bs "s1"]) (from_name m) (compute (bs "action")) (sample_result (bs "R"));
      expect (bs "get") (look_up tier (secrets [bs "s2"; bs "s1"]) (compute (bs "action")))) s = (Ok (Some (sample_result (bs "R"))), s') /\ True).
    { destruct Hnm as [[-> ->]|[-> ->]]; vote [bs "s2"; bs "s1"]; vote [bs "s2"; bs "s1"];
        (eapply pass_weaken; [apply look_up_pass, outcome_some; by vm_compute|done]). }
    destruct (Hm _ (fresh_polled (compute (bs "action")) 2 c0 P0 start bodies_new)) as (s' & E & _). unfold on_fresh. by rewrite E. }
  rewrite (Hrun (bs "s1") (bs "s2")) by (done || by left). cbn [mbind result_bind].
  rewrite (Hrun (bs "s2") (bs "s1")) by (done || by right). cbn [mbind result_bind]. by rewrite bool_decide_true.
Qed.

Lemma conflict_passes : conflict_is_surfaced_not_silently_wrong tier make = Ok ().
Proof.
  eapply (on_fresh_Ok (compute (bs "action"))). vote [bs "s4"; bs "s3"; bs "s2"; bs "s1"].
  vote [bs "s4"; bs "s3"; bs "s2"; bs "s1"]. vote [bs "s4"; bs "s3"; bs "s2"; bs "s1"]. vote [bs "s4"; bs "s3"; bs "s2"; bs "s1"].
  eapply pass_bind; [apply pass_answer; intros s Hs'; eapply look_up_outcome, Hs'|cbv beta].
  apply pass_assert. unfold outcome. match goal with |- context [winners ?vs ?k] => let w := eval vm_compute in (winners vs k) in
    replace (winners vs k) with w by by vm_compute end. done.
Qed.

Lemma isolation_passes : action_key_isolates_the_spec tier make = Ok ().
Proof.
  eapply (on_fresh_Ok (compute (bs "action-A"))). vote [bs "s1"]. asks.
  eapply pass_bind; [by apply other_action_pass|cbv beta].
  eapply pass_bind; [apply reject_pass|cbv beta; by apply pass_assert]. cbn [attestation signer att_result attest signature].
  unfold mac_verify. rewrite (known_ring [bs "s1"]) by listed. apply bool_decide_eq_false. exact replay_seen.
Qed.

Lemma unverified_passes : unverified_attestation_is_rejected tier make = Ok ().
Proof.
  eapply (on_fresh_Ok (compute (bs "action"))).
  eapply pass_bind; [apply put_pass; [apply tags_known; listed]|cbv beta].
  eapply pass_bind; [apply reject_pass|cbv beta; eapply pass_bind; [by apply pass_assert|cbv beta]].
  { cbn [attestation signer att_result attest signature]. unfold mac_verify.
    rewrite (no_secret [bs "s1"]); [done|intros x ->%list_elem_of_singleton; apply names_known; listed|apply names_known; listed|].
    by intros [=]%list_elem_of_singleton. }
  eapply pass_bind; [apply reject_pass|cbv beta; eapply pass_bind; [by apply pass_assert|cbv beta; answers]].
  cbn [attestation signer att_result attest_forged signature]. unfold mac_verify. rewrite (known_ring [bs "s1"]) by listed.
  apply bool_decide_eq_false. intros E. by apply forgery_seen.
Qed.
End suites.
End cache.

(** ** The whole suite *)

Definition suite_names : list text := [bs "s1"; bs "s2"; bs "s3"; bs "s4"; bs "byz1"; bs "byz2"; bs "intruder"].
Definition suite_tags : list text := [bs "R"; bs "other"; bs "good"; bs "evil"; bs "false-but-agreed"].

(** What the suite hashes does not collide. *)
Record apart {Hs : Hashers} : Prop := {
  ap_ids : NoDup (ts_id ∘ from_name <$> suite_names);
  ap_results : NoDup (ActionResult.result_digest ∘ sample_result <$> suite_tags);
  ap_actions : compute (bs "action-B") <> compute (bs "action-A");
  ap_forgery : signature (attest (from_name (bs "s1")) (compute (bs "action")) (ActionResult.result_digest (sample_result (bs "R")))) <>
    signature (attest_forged (from_name (bs "s1")) (compute (bs "action")) (ActionResult.result_digest (sample_result (bs "R"))) (compute (bs "elsewhere")));
  ap_replay : signature (attest (from_name (bs "s1")) (compute (bs "action-B")) (ActionResult.result_digest (sample_result (bs "R")))) <>
    signature (attest (from_name (bs "s1")) (compute (bs "action-A")) (ActionResult.result_digest (sample_result (bs "R"))));
}.

(** C19. The action cache passes its whole conformance suite, the store's included, over any
    content-addressed backend whose operations succeed when they can and fail as documented
    when they cannot, with any hash functions that do not collide on what the suite hashes:
    a result is served exactly when enough distinct admitted signers agree on it, whatever the
    order and repetition; outsiders, forgeries and signatures replayed under another action
    count for nothing; two confirmed results are an error. *)
Theorem action_cache_passes_its_suite {C} {Hs : Hashers} {HL : HasherLaws Hs} {CB : CasBackend C} {V : CasModel C}
    {W : Willing (S := C)} (c0 : C) P0 uuid uuid_text base :
  holds P0 c0 -> apart -> unheld P0 (test_digests uuid uuid_text base) ->
  (forall t, t ∈ suite_tags -> P0 !! ActionResult.result_digest (sample_result t) = None) ->
  run_all_ac (fun vfy => ac_tier vfy) (fun _ k => shared c0 k) uuid uuid_text None base = Ok ().
Proof.
  intros Hh [Hi Hr Ha Hf Hy] Hu Hn. unfold run_all_ac.
  assert (Hcas : it_is_also_a_cas (fun (_ : verifier) k => shared c0 k) uuid uuid_text None base = Ok ()).
  { unfold it_is_also_a_cas, on_fresh.
    destruct (willing_store_passes (S := MemActionCache C) (V := ac_model) uuid uuid_text None base P0 (shared c0 1) I Hu Hh) as (s' & -> & _). done. }
  rewrite Hcas. cbn [mbind result_bind].
  assert (Hn' : forall t, t ∈ suite_tags -> P0 !! ActionResult.result_digest (sample_result t) = None \/
    P0 !! ActionResult.result_digest (sample_result t) = Some (ActionResult.to_canonical_bytes (sample_result t))) by (left; by apply Hn).
  pose proof (fun x (Hx : x ∈ suite_names) => Hx) as Hk. pose proof (fun x (Hx : x ∈ suite_tags) => Hx) as Ht.
  rewrite (unknown_passes suite_names suite_tags Hi Hr c0 P0 Hh Hn').
  rewrite (keystone_passes suite_names suite_tags Hi Hr c0 P0 Hh Hn' Hk Ht).
  rewrite (below_passes suite_names suite_tags Hi Hr c0 P0 Hh Hn' Hk Ht).
  rewrite (duplicate_passes suite_names suite_tags Hi Hr c0 P0 Hh Hn' Hk Ht).
  rewrite (order_passes suite_names suite_tags Hi Hr c0 P0 Hh Hn' Hk Ht).
  rewrite (redelivery_passes suite_names suite_tags Hi Hr c0 P0 Hh Hn' Hk Ht).
  rewrite (monotone_passes suite_names suite_tags Hi Hr c0 P0 Hh Hn' Hk Ht).
  rewrite (unverified_passes suite_names suite_tags Hi Hr c0 P0 Hh Hn' Hk Ht Hf).
  rewrite (isolation_passes suite_names suite_tags Hi Hr c0 P0 Hh Hn' Hk Ht Ha Hy).
  rewrite (distinct_passes suite_names suite_tags Hi Hr c0 P0 Hh Hn' Hk Ht).
  rewrite (conflict_passes suite_names suite_tags Hi Hr c0 P0 Hh Hn' Hk Ht).
  apply (byzantine_passes suite_names suite_tags Hi Hr c0 P0 Hh Hn' Hk Ht).
Qed.

(** ** On an empty in-memory store *)

Module CacheExample.
Import Checksum.

Definition uuids (n : nat) : Uuid := N.of_nat n.
Definition uuid_text (u : Uuid) : list byte := dec (Z.of_N u).

Lemma checksum_apart : apart.
Proof. split; apply (bool_decide_unpack _); vm_compute; exact I. Qed.

Lemma nothing_held : unheld ∅ (test_digests uuids uuid_text 0).
Proof.
  split; [apply (bool_decide_unpack _); vm_compute; exact I| |done].
  apply Forall_forall. intros d _. apply lookup_empty.
Qed.

Lemma empty_holds : holds ∅ Mem.new.
Proof. split; [|done]. intros d b Hd. vm_compute in Hd. discriminate Hd. Qed.

Lemma action_cache_passes_its_suite_witness :
  run_all_ac (fun vfy => ac_tier vfy) (fun _ k => shared Mem.new k) uuids uuid_text None 0 = Ok ().
Proof.
  exact (action_cache_passes_its_suite Mem.new ∅ uuids uuid_text 0 empty_holds checksum_apart nothing_held
    (fun t _ => lookup_empty _)).
Defined.
End CacheExample.
