(* ===== verification/VolumeConforms.v ===== *)
(** The in-memory volume backend passes the volume suites from every well-formed state, and
    leaves it as it was: the suite's volumes are followed through each call as layers over the
    state the suite found. *)

From Stdlib Require Import ZArith Lia.
From stdpp Require Import base option gmap sets list.
From S2P Require Import Prelude Ordered Text Digest Errors Volume MemBackend Cas ActionCache Conformance ConformanceLaws.

Local Open Scope Z_scope.

(** ** Layers *)

(** [g] with one more volume and its snapshots. *)
Definition with_vol (v : Volume) (snaps : gmap SnapshotUuid Snapshot) (g : Inner) : Inner :=
  mkInner (<[v_uuid v := v]> (volumes g)) (<[v_uuid v := snaps]> (snaps_of g)) (names g ∪ {[v_name v]}).

(** Nothing in [g] has this identifier or this name. *)
Definition new_to (g : Inner) (u : VolumeUuid) (n : list byte) : Prop :=
  volumes g !! u = None /\ snaps_of g !! u = None /\ n ∉ names g.

Section layers.
Implicit Types (g : Inner) (v : Volume) (snaps : gmap SnapshotUuid Snapshot).

Lemma volume_of_layer v snaps g u : v_uuid v = u -> volume_of u (with_vol v snaps g) = (Ok v, with_vol v snaps g).
Proof. intros <-. unfold volume_of. cbn [volumes with_vol]. by rewrite lookup_insert_eq. Qed.

Lemma snapshots_of_layer v snaps g u :
  v_uuid v = u -> snapshots_of u (with_vol v snaps g) = (Ok snaps, with_vol v snaps g).
Proof. intros <-. unfold snapshots_of. cbn [snaps_of with_vol]. by rewrite lookup_insert_eq. Qed.

Lemma volume_of_gone g u : volumes g !! u = None -> volume_of u g = (Err (VolumeNotFound u), g).
Proof. intros Hu. unfold volume_of. by rewrite Hu. Qed.

(** Two layers of different volumes change places. *)
Lemma layers_swap v snaps v' snaps' g :
  v_uuid v <> v_uuid v' -> with_vol v snaps (with_vol v' snaps' g) = with_vol v' snaps' (with_vol v snaps g).
Proof.
  intros Hne. unfold with_vol. cbn [volumes snaps_of names]. f_equal; [by apply insert_insert_ne..|set_solver].
Qed.

Lemma new_to_layer v snaps g u n : new_to g u n -> v_uuid v <> u -> v_name v <> n -> new_to (with_vol v snaps g) u n.
Proof.
  intros (Hv & Hs & Hn) Hu Hnm. unfold new_to. cbn [volumes snaps_of names with_vol].
  rewrite !lookup_insert_ne by done. split_and!; [done..|set_solver].
Qed.

Lemma create_layer g u n size :
  new_to g u n -> create_volume u (mkSpec n size) g = (Ok (new_volume u n size None), with_vol (new_volume u n size None) ∅ g).
Proof. intros (_ & _ & Hn). unfold create_volume. cbn [spec_name spec_size]. by rewrite bool_decide_false. Qed.

Lemma delete_layer v snaps g u : v_uuid v = u -> new_to g u (v_name v) -> delete_volume u (with_vol v snaps g) = (Ok (), g).
Proof.
  intros <- (Hv & Hs & Hn). unfold delete_volume. cbn [volumes with_vol snaps_of names]. rewrite lookup_insert_eq.
  rewrite !delete_insert_id by done. replace ((names g ∪ {[v_name v]}) ∖ {[v_name v]}) with (names g) by set_solver. by destruct g.
Qed.

Lemma patch_layer debug v snaps g u z :
  v_uuid v = u ->
  let v' := mkVolume (v_uuid v) (v_name v) (Some z) (v_state v) (style v) (vol_type v) (clone v) in
  patch_volume debug u (mkPatch (Some z) None None) (with_vol v snaps g) = (Ok v', with_vol v' snaps g).
Proof.
  intros Hu v'. unfold patch_volume, mbind, M_bind. rewrite volume_of_layer by done. cbn [junction_path]. unfold patched.
  cbn [patch_size]. fold v'. unfold with_vol. cbn [volumes snaps_of names v_uuid v_name v']. by rewrite Hu, insert_insert_eq.
Qed.

Lemma set_snaps_layer v snaps snaps' g u : v_uuid v = u -> set_snaps u snaps' (with_vol v snaps g) = with_vol v snaps' g.
Proof. intros <-. unfold set_snaps, with_vol. cbn [volumes snaps_of names]. by rewrite insert_insert_eq. Qed.

Lemma create_snapshot_layer v snaps g u s n :
  v_uuid v = u -> has_name n snaps = false ->
  create_snapshot s u n (with_vol v snaps g) =
    (Ok (mkSnapshot s n None 0), with_vol v (<[s := mkSnapshot s n None 0]> snaps) g).
Proof.
  intros Hu Hn. unfold create_snapshot, mbind, M_bind. rewrite snapshots_of_layer, Hn by done. by rewrite set_snaps_layer.
Qed.

Lemma get_snapshot_layer v snaps g u s snap :
  v_uuid v = u -> snaps !! s = Some snap -> get_snapshot u s (with_vol v snaps g) = (Ok snap, with_vol v snaps g).
Proof. intros Hu Hs. unfold get_snapshot, mbind, M_bind. rewrite snapshots_of_layer by done. unfold lift. by rewrite Hs. Qed.

Lemma get_snapshot_gone v snaps g u s :
  v_uuid v = u -> snaps !! s = None -> get_snapshot u s (with_vol v snaps g) = (Err (SnapshotNotFound u s), with_vol v snaps g).
Proof. intros Hu Hs. unfold get_snapshot, mbind, M_bind. rewrite snapshots_of_layer by done. unfold lift. by rewrite Hs. Qed.

Lemma delete_snapshot_layer v snaps g u s snap :
  v_uuid v = u -> snaps !! s = Some snap -> delete_snapshot u s (with_vol v snaps g) = (Ok (), with_vol v (delete s snaps) g).
Proof.
  intros Hu Hs. unfold delete_snapshot, mbind, M_bind. rewrite snapshots_of_layer, Hs by done. by rewrite set_snaps_layer.
Qed.

Lemma clone_layer v snaps g u s snap fresh n :
  v_uuid v = u -> snaps !! s = Some snap -> new_to (with_vol v snaps g) fresh n ->
  let c := new_volume fresh n (size_bytes v) (Some (mkOrigin (v_name v) (s_name snap))) in
  create_clone fresh u s n (with_vol v snaps g) = (Ok c, with_vol c ∅ (with_vol v snaps g)).
Proof.
  intros Hu Hs (_ & _ & Hn). unfold create_clone, mbind, M_bind. rewrite volume_of_layer, snapshots_of_layer by done.
  unfold lift. rewrite Hs. cbn [ok_or]. unfold insert_clone. by rewrite bool_decide_false.
Qed.

Lemma has_name_singleton n s snap : has_name n {[s := snap]} = bool_decide (s_name snap = n).
Proof.
  case_bool_decide as Hn.
  - apply has_name_true. exists s, snap. split; [apply lookup_singleton_eq|done].
  - destruct (has_name _ _) eqn:E; [|done]. by apply has_name_true in E as (k & x & [<- <-]%lookup_singleton_Some & Hx).
Qed.

Lemma has_name_empty n : has_name n ∅ = false.
Proof. destruct (has_name n ∅) eqn:E; [|done]. by apply has_name_true in E as (k & x & ?%lookup_empty_Some & _). Qed.

(** The listings. *)
Lemma listed_layer v snaps g : exists l, list_volumes (with_vol v snaps g) = (Ok l, with_vol v snaps g) /\
  existsb (fun x => bool_decide (v_uuid x = v_uuid v)) l = true /\
  (forall x, x ∈ l <-> exists u, volumes (with_vol v snaps g) !! u = Some x).
Proof.
  unfold list_volumes. eexists. split; [done|].
  assert (Hl : forall x, x ∈ (map_to_list (volumes (with_vol v snaps g))).*2 <-> exists u, volumes (with_vol v snaps g) !! u = Some x).
  { intros x. rewrite list_elem_of_fmap. split.
    - intros ([u y] & -> & Hy%elem_of_map_to_list). by exists u.
    - intros (u & Hu%elem_of_map_to_list). by exists (u, x). }
  split; [|exact Hl]. apply existsb_exists. exists v. split; [|by apply bool_decide_eq_true].
  apply list_elem_of_In, Hl. exists (v_uuid v). apply lookup_insert_eq.
Qed.

Lemma unlisted g u : wf g -> volumes g !! u = None ->
  exists l, list_volumes g = (Ok l, g) /\ existsb (fun x => bool_decide (v_uuid x = u)) l = false.
Proof.
  intros Hg Hu. unfold list_volumes. eexists. split; [done|]. apply not_true_iff_false. intros He.
  apply existsb_exists in He as (x & Hin%list_elem_of_In & Hx%bool_decide_eq_true).
  apply list_elem_of_fmap in Hin as ([k y] & -> & Hk%elem_of_map_to_list). cbn in Hx. apply (wf_uuid g Hg) in Hk as E.
  assert (k = u) as -> by exact (eq_trans (eq_sym E) Hx). cbn in *. assert (@None Volume = Some y) by exact (eq_trans (eq_sym Hu) Hk). done.
Qed.

(** A layer over a well-formed state is well-formed. *)
Lemma wf_layer v snaps g :
  wf g -> new_to g (v_uuid v) (v_name v) -> (forall k s, snaps !! k = Some s -> s_uuid s = k) ->
  (forall k1 s1 k2 s2, snaps !! k1 = Some s1 -> snaps !! k2 = Some s2 -> s_name s1 = s_name s2 -> k1 = k2) ->
  wf (with_vol v snaps g).
Proof.
  intros Hg (Hv & Hs & Hn) Hk Hkn. assert (Hname : forall u x, volumes g !! u = Some x -> v_name x <> v_name v).
  { intros u x Hx E. apply Hn, (wf_names g Hg). by exists u, x. }
  split; cbn [volumes snaps_of names with_vol].
  - intros u x [[<- <-]|[_ Hx]]%lookup_insert_Some; [done|by eapply wf_uuid].
  - intros n. rewrite elem_of_union, elem_of_singleton, (wf_names g Hg). split.
    + intros [(u & x & Hx & Hxn)| ->]; [exists u, x|exists (v_uuid v), v; by rewrite lookup_insert_eq].
      rewrite lookup_insert_ne; [done|]. intros <-. by rewrite Hv in Hx.
    + intros (u & x & [[<- <-]|[_ Hx]]%lookup_insert_Some & Hxn); [by right|left; by exists u, x].
  - intros u1 v1 u2 v2 [[<- <-]|[_ H1]]%lookup_insert_Some [[<- <-]|[_ H2]]%lookup_insert_Some Hnm; [done|..].
    + by destruct (Hname _ _ H2).
    + by destruct (Hname _ _ H1).
    + by eapply wf_unique.
  - intros u. rewrite !lookup_insert_is_Some. rewrite (wf_snaps g Hg). done.
  - intros u sn k s [[<- <-]|[_ Hx]]%lookup_insert_Some Hks; [by apply Hk|by eapply wf_snap_uuid].
  - intros u sn k1 s1 k2 s2 [[<- <-]|[_ Hx]]%lookup_insert_Some H1 H2 Hnm; [by eapply Hkn|by eapply wf_snap_unique].
Qed.

(** And one with at most one snapshot. *)
Lemma wf_layer_one v s n g :
  wf g -> new_to g (v_uuid v) (v_name v) -> wf (with_vol v (<[s := mkSnapshot s n None 0]> ∅) g).
Proof.
  intros Hg Hnew. apply wf_layer; [done..| |].
  - by intros k x [<- <-]%lookup_singleton_Some.
  - by intros k1 x1 k2 x2 [<- <-]%lookup_singleton_Some [<- <-]%lookup_singleton_Some _.
Qed.

Lemma find_listed_volume v snaps g l :
  wf (with_vol v snaps g) -> (forall x, x ∈ l <-> exists u, volumes (with_vol v snaps g) !! u = Some x) ->
  find (fun x => bool_decide (v_name x = v_name v)) l = Some v.
Proof.
  intros Hw Hl. assert (Hself : volumes (with_vol v snaps g) !! v_uuid v = Some v) by apply lookup_insert_eq.
  destruct (find _ l) as [x|] eqn:Ef.
  - apply find_some in Ef as [Hx%list_elem_of_In Hn%bool_decide_eq_true]. apply Hl in Hx as (u & Hu).
    assert (u = v_uuid v) as -> by (by eapply (wf_unique _ Hw)). f_equal. assert (Some v = Some x) as [= <-] by exact (eq_trans (eq_sym Hself) Hu). done.
  - exfalso. assert (Hin : v ∈ l) by (apply Hl; by eexists). apply list_elem_of_In in Hin. apply (find_none _ _ Ef) in Hin.
    by rewrite bool_decide_true in Hin.
Qed.

Lemma send_layer debug v snaps g u sn :
  v_uuid v = u -> has_name sn snaps = true ->
  send_stream debug u sn None (with_vol v snaps g) =
    (Ok (cursor (encode_repl_stream (v_name v) (size_bytes v) sn None)), with_vol v snaps g).
Proof.
  intros Hu Hn. unfold send_stream, mbind, M_bind. rewrite volume_of_layer, snapshots_of_layer by done. by rewrite Hn.
Qed.

Lemma send_unknown debug v snaps g u sn :
  v_uuid v = u -> has_name sn snaps = false ->
  exists m, send_stream debug u sn None (with_vol v snaps g) = (Err (InvalidArgument m), with_vol v snaps g).
Proof.
  intros Hu Hn. eexists. unfold send_stream, mbind, M_bind. rewrite volume_of_layer, snapshots_of_layer by done. by rewrite Hn.
Qed.

(** A full stream makes the destination, with its snapshot. *)
Lemma receive_layer debug g fv fs dest vol size sn :
  wf g -> new_to g fv dest -> nl ∉ vol -> from_option is_u64 True size -> clean sn -> utf8_valid vol = true -> utf8_valid sn = true ->
  receive_stream debug fv fs dest (cursor (encode_repl_stream vol size sn None)) g =
    (Ok (zlen (encode_repl_stream vol size sn None)),
     with_vol (new_volume fv dest size None) (<[fs := mkSnapshot fs sn None 0]> ∅) g).
Proof.
  intros Hg (Hv & Hs & Hn) Hnl Hsz Hc Uv Us. rewrite receive_encoded by done. unfold mbind, M_bind, resolve_dest.
  rewrite (proj2 (find_volume_None dest g Hg) Hn). cbn [rs_base rs_size]. unfold apply_snapshot, add_volume. cbn [snaps_of v_uuid new_volume].
  rewrite lookup_insert_eq. cbn [default from_option]. rewrite has_name_empty. unfold set_snaps, with_vol.
  cbn [volumes snaps_of names v_uuid v_name new_volume]. by rewrite insert_insert_eq.
Qed.

Lemma list_snapshots_layer v snaps g u : v_uuid v = u ->
  list_snapshots u (with_vol v snaps g) = (Ok (map_to_list snaps).*2, with_vol v snaps g).
Proof. intros Hu. unfold list_snapshots, mbind, M_bind. by rewrite snapshots_of_layer. Qed.
End layers.

(** ** The suites *)

Section suites.
Context (debug : list byte -> list byte) (uuid : nat -> Uuid) (uuid_text : Uuid -> list byte) (g : Inner).
Hypothesis g_wf : wf g.
Abbreviation unique := (Conformance.unique uuid uuid_text).

(** The backend's instances, with their [{:?}]. *)
#[local] Existing Instance mem_volume_backend.
#[local] Existing Instance mem_snapshot_backend.
#[local] Existing Instance mem_clone_backend.
#[local] Existing Instance mem_replication_backend.

Lemma new_free u n : volumes g !! u = None -> n ∉ names g -> new_to g u n.
Proof.
  intros Hu Hn. split_and!; [done| |done]. apply eq_None_not_Some. intros Hs. apply (wf_snaps g g_wf) in Hs.
  destruct Hs as [x Hx]. assert (@None Volume = Some x) by exact (eq_trans (eq_sym Hu) Hx). done.
Qed.

Lemma pass_at {A} (m : M BackendError Inner A) g1 a g2 msg : m g1 = (Ok a, g2) -> pass (eq g1) (expect msg m) a (eq g2).
Proof. intros E. apply pass_expect. intros b <-. by exists g2. Qed.

Lemma answer_at {A} (m : M BackendError Inner A) g1 r g2 : m g1 = (r, g2) -> pass (eq g1) (answer m) r (eq g2).
Proof. intros E. apply pass_answer. intros b <-. by exists g2. Qed.

Ltac does H := eapply pass_bind; [apply pass_at; eapply H|cbv beta].
Ltac replies H := eapply pass_bind; [apply answer_at; eapply H|cbv beta].

Lemma volume_suite_passes base :
  volumes g !! uuid (base + 1)%nat = None -> volumes g !! uuid (base + 2)%nat = None ->
  unique base (bs "conf-vol") ∉ names g ->
  pass (eq g) (run_volume_suite (VolumeBackend0 := mem_volume_backend debug) uuid uuid_text base) () (eq g).
Proof.
  intros Hu Hu2 Hn. pose proof (new_free _ _ Hu Hn) as Hnew. unfold run_volume_suite.
  does create_layer; [done|]. set (v := new_volume _ _ _ _). holds; [by rewrite bool_decide_true|].
  does volume_of_layer; [done|]. holds; [by rewrite bool_decide_true|]. holds; [by rewrite bool_decide_true|].
  destruct (listed_layer v ∅ g) as (l & El & Hin & _). does El. holds; [done|].
  does (patch_layer debug v ∅ g (v_uuid v) 2147483648 eq_refl). set (v' := mkVolume _ _ _ _ _ _ _).
  does (volume_of_layer v'); [done|].
  eapply pass_bind; [apply pass_at; unfold vb_access_handle, mem_volume_backend, access_handle, mbind, M_bind; rewrite volume_of_layer by done; done|cbv beta].
  does (delete_layer v'); [done|done|]. replies volume_of_gone; [done|]. holds; [done|].
  destruct (unlisted g (v_uuid v) g_wf Hu) as (l' & El' & Hout). does El'. holds; [by rewrite Hout|].
  replies volume_of_gone; [done|]. by apply pass_assert.
Qed.

Lemma snapshot_suite_passes base :
  volumes g !! uuid (base + 1)%nat = None -> unique base (bs "conf-snapvol") ∉ names g ->
  pass (eq g) (run_snapshot_suite (SnapshotBackend0 := mem_snapshot_backend debug) uuid uuid_text base) () (eq g).
Proof.
  intros Hu Hn. pose proof (new_free _ _ Hu Hn) as Hnew. unfold run_snapshot_suite.
  does create_layer; [done|]. set (v := new_volume _ _ _ _).
  does create_snapshot_layer; [done|apply has_name_empty|]. set (snap := mkSnapshot _ _ _ _).
  holds; [by rewrite bool_decide_true|]. does list_snapshots_layer; [done|].
  holds; [rewrite insert_empty, map_to_list_singleton; cbn; by rewrite bool_decide_true|].
  does get_snapshot_layer; [done|apply lookup_insert_eq|]. holds; [by rewrite bool_decide_true|].
  does delete_snapshot_layer; [done|apply lookup_insert_eq|].
  replies get_snapshot_gone; [done|apply lookup_delete_eq|]. holds; [done|].
  apply pass_at, delete_layer; done.
Qed.

Lemma unique_apart i j p q : (forall x y, p ++ bs "-" ++ x <> q ++ bs "-" ++ y) -> unique i p <> unique j q.
Proof. intros H. apply H. Qed.

Lemma clone_suite_passes base :
  volumes g !! uuid (base + 1)%nat = None -> unique base (bs "conf-clonesrc") ∉ names g ->
  volumes g !! uuid (base + 5)%nat = None -> unique (base + 4)%nat (bs "conf-clone") ∉ names g ->
  uuid (base + 1)%nat <> uuid (base + 5)%nat ->
  pass (eq g) (run_clone_suite (CloneBackend0 := mem_clone_backend debug) uuid uuid_text base) () (eq g).
Proof.
  intros Hu Hn Hu' Hn' Hne. pose proof (new_free _ _ Hu Hn) as Hnew. pose proof (new_free _ _ Hu' Hn') as Hnew'.
  unfold run_clone_suite. does create_layer; [done|]. set (v := new_volume _ _ _ _).
  does create_snapshot_layer; [done|apply has_name_empty|]. set (snap := mkSnapshot _ _ _ _). set (snaps := <[_ := snap]> ∅).
  assert (Hc : new_to (with_vol v snaps g) (uuid (base + 5)%nat) (unique (base + 4)%nat (bs "conf-clone"))).
  { apply new_to_layer; [done|done|]. by apply unique_apart. }
  does clone_layer; [done|apply lookup_insert_eq|exact Hc|]. set (c := new_volume _ _ _ _).
  holds; [by rewrite bool_decide_true|]. holds; [done|].
  eapply pass_bind; [by apply pass_lift|cbv beta]. holds; [by rewrite bool_decide_true|]. holds; [by rewrite bool_decide_true|].
  does (volume_of_layer c); [done|]. does (delete_layer c); [done|exact Hc|].
  does delete_snapshot_layer; [done|apply lookup_insert_eq|]. apply pass_at, delete_layer; done.
Qed.

(** What a printed identifier is. *)
Hypothesis text_plain : forall u, (nl ∉ uuid_text u) /\ last (uuid_text u) <> Some cr /\ utf8_valid (uuid_text u) = true.

Lemma unique_plain i p : nl ∉ p -> utf8_valid p = true ->
  (nl ∉ unique i p) /\ clean (unique i p) /\ utf8_valid (unique i p) = true.
Proof.
  intros Hp Up. destruct (text_plain (uuid i)) as (Hn & Hl & Hu).
  assert (Hnl : nl ∉ unique i p) by (unfold Conformance.unique; rewrite !not_elem_of_app; split_and!; [done|apply (bool_decide_unpack _); vm_compute; exact I|done]).
  split; [done|]. split; [split; [done|]|].
  - unfold Conformance.unique. rewrite !last_app. cbn [last]. destruct (last (uuid_text (uuid i))) eqn:E; [congruence|done].
  - unfold Conformance.unique. by repeat apply utf8_valid_app.
Qed.

Lemma replication_suite_passes base :
  volumes g !! uuid (base + 1)%nat = None -> unique base (bs "conf-replsrc") ∉ names g ->
  volumes g !! uuid (base + 5)%nat = None -> unique (base + 4)%nat (bs "conf-repldst") ∉ names g ->
  uuid (base + 1)%nat <> uuid (base + 5)%nat ->
  pass (eq g) (run_replication_suite (ReplicationBackend0 := mem_replication_backend debug) uuid uuid_text base) () (eq g).
Proof.
  intros Hu Hn Hu' Hn' Hne. pose proof (new_free _ _ Hu Hn) as Hnew. pose proof (new_free _ _ Hu' Hn') as Hnew'.
  unfold run_replication_suite. does create_layer; [done|]. set (v := new_volume _ _ _ _).
  set (sn := unique (base + 2)%nat (bs "snapmirror")).
  does create_snapshot_layer; [done|apply has_name_empty|]. set (snaps := <[_ := _]> ∅).
  does (send_layer debug v snaps); [done|by apply has_name_true; eexists _, _; split; [apply lookup_insert_eq|]|].
  destruct (unique_plain base (bs "conf-replsrc")) as (P1 & _ & P3); [apply (bool_decide_unpack _); vm_compute; exact I|done|].
  destruct (unique_plain (base + 2)%nat (bs "snapmirror")) as (_ & Q2 & Q3); [apply (bool_decide_unpack _); vm_compute; exact I|done|].
  assert (Hw1 : wf (with_vol v snaps g)) by by apply wf_layer_one.
  assert (Hd : new_to (with_vol v snaps g) (uuid (base + 5)%nat) (unique (base + 4)%nat (bs "conf-repldst"))).
  { apply new_to_layer; [done|done|]. by apply unique_apart. }
  does receive_layer; [done|exact Hd|done..|]. set (d := new_volume _ _ _ _). set (dsnaps := <[_ := _]> ∅).
  holds. { apply bool_decide_eq_true. unfold encode_repl_stream. rewrite zlen_app. pose proof (zlen_nonneg ([nl] ++ bs "volume=" ++ v_name v ++ [nl] ++ bs "size=" ++ from_option dec [] (size_bytes v) ++ [nl] ++ bs "snapshot=" ++ sn ++ [nl] ++ bs "base=" ++ default [] None ++ [nl])). change (zlen repl_magic) with 18. lia. }
  assert (Hw2 : wf (with_vol d dsnaps (with_vol v snaps g))) by by apply wf_layer_one.
  destruct (listed_layer d dsnaps (with_vol v snaps g)) as (l & El & _ & Hl). does El.
  eapply pass_bind; [eapply pass_lift; exact (f_equal (fun o => ok_or o _) (find_listed_volume d dsnaps _ l Hw2 Hl))|cbv beta].
  does list_snapshots_layer; [done|]. holds.
  { unfold dsnaps. rewrite insert_empty, map_to_list_singleton. cbn [fmap list_fmap snd existsb s_name]. by rewrite bool_decide_true. }
  rewrite layers_swap by by intros E; apply Hne.
  destruct (send_unknown debug v snaps (with_vol d dsnaps g) (v_uuid v) (unique (base + 7)%nat (bs "nope")) eq_refl) as (m & Es).
  { unfold snaps. rewrite insert_empty, has_name_singleton. apply bool_decide_eq_false. by apply unique_apart. }
  replies Es. holds; [done|]. rewrite layers_swap by done.
  does (delete_layer d); [done|exact Hd|]. does delete_snapshot_layer; [done|apply lookup_insert_eq|]. apply pass_at, delete_layer; done.
Qed.
End suites.

(** ** All of them *)

(** The names the suites give to volumes. *)
Definition suite_volumes (uuid : nat -> Uuid) (uuid_text : Uuid -> list byte) (base : nat) : list (list byte) :=
  let unique := Conformance.unique uuid uuid_text in
  [unique base (bs "conf-vol"); unique (base + 3)%nat (bs "conf-snapvol"); unique (base + 7)%nat (bs "conf-clonesrc");
   unique (base + 7 + 4)%nat (bs "conf-clone"); unique (base + 13)%nat (bs "conf-replsrc");
   unique (base + 13 + 4)%nat (bs "conf-repldst")].

(** C28. The in-memory backend passes every volume suite of the repository, from every
    well-formed state in which the identifiers and the names the suites draw are new, and is
    then in that state again: volumes, snapshots, clones and replication streams do what the
    suites ask, the advertised tiers are those reachable, and nothing is left behind. *)
Theorem mem_passes_its_suites debug uuid uuid_text base (g : Inner) :
  wf g -> (forall u, (nl ∉ uuid_text u) /\ last (uuid_text u) <> Some cr /\ utf8_valid (uuid_text u) = true) ->
  NoDup (uuid <$> seq base 21) -> Forall (fun i => volumes g !! uuid i = None) (seq base 21) ->
  Forall (fun n => n ∉ names g) (suite_volumes uuid uuid_text base) ->
  run_all_volumes uuid uuid_text (mem_volume_backend debug) (Some (mem_snapshot_backend debug))
    (Some (mem_clone_backend debug)) (Some (mem_replication_backend debug)) base g = (Ok (), g).
Proof.
  intros Hg Ht Hd Hf Hn.
  assert (Hfree : forall k, (k < 21)%nat -> volumes g !! uuid (base + k)%nat = None).
  { intros k Hk. apply (proj1 (Forall_forall _ _) Hf). apply elem_of_seq. lia. }
  assert (Hfree' : forall k j, (k + j < 21)%nat -> volumes g !! uuid (base + k + j)%nat = None).
  { intros k j Hk. rewrite <- Nat.add_assoc. by apply Hfree. }
  assert (Hne : forall k j i, (i + k < 21)%nat -> (i + j < 21)%nat -> k <> j -> uuid (base + i + k)%nat <> uuid (base + i + j)%nat).
  { intros k j i Hk Hj Hkj E. apply (NoDup_fmap_inj uuid _ _ _ Hd) in E; [lia|..]; apply elem_of_seq; lia. }
  unfold suite_volumes in Hn. rewrite !Forall_cons in Hn. destruct Hn as (N1 & N2 & N3 & N4 & N5 & N6 & _).
  cut (pass (eq g) (run_all_volumes uuid uuid_text (mem_volume_backend debug) (Some (mem_snapshot_backend debug))
    (Some (mem_clone_backend debug)) (Some (mem_replication_backend debug)) base) () (eq g)).
  { intros Hp. by destruct (Hp g eq_refl) as (g' & E & <-). }
  unfold run_all_volumes. apply (pass_bind _ _ caps_all (eq g)); [intros b <-; by exists g|cbv beta].
  do 4 (holds; [done|]).
  eapply pass_bind; [apply volume_suite_passes; [done|apply Hfree; lia|apply Hfree; lia|done]|cbv beta].
  eapply pass_bind; [apply snapshot_suite_passes; [done|apply Hfree'; lia|done]|cbv beta].
  eapply pass_bind; [apply clone_suite_passes; [done|apply Hfree'; lia|done|apply Hfree'; lia|done|apply Hne; lia]|cbv beta].
  apply replication_suite_passes; [done|done|apply Hfree'; lia|done|apply Hfree'; lia|done|apply Hne; lia].
Qed.

(** ** Over a state that has a volume *)

Module VolumeConformsExample.
Definition uuids (n : nat) : Uuid := N.of_nat n.
Definition tally (u : Uuid) : list byte := replicate (N.to_nat u) (z2b 120).
Definition used : Inner := with_vol (new_volume (uuids 100) (bs "data") (Some 4096) None) ∅ empty.

Lemma used_wf : wf used.
Proof.
  apply wf_layer; [exact wf_empty| |by intros k s ?%lookup_empty_Some|by intros k1 s1 k2 s2 ?%lookup_empty_Some].
  split_and!; [apply lookup_empty..|apply not_elem_of_empty].
Qed.

Lemma tally_plain u : (nl ∉ tally u) /\ last (tally u) <> Some cr /\ utf8_valid (tally u) = true.
Proof.
  unfold tally. split_and!.
  - by intros [? _]%elem_of_replicate.
  - intros Hl%last_Some_elem_of. by apply elem_of_replicate in Hl as [? _].
  - apply utf8_valid_ascii, Forall_replicate. by vm_compute.
Qed.

Definition quoted (s : list byte) : list byte := s.

Lemma mem_passes_its_suites_witness :
  run_all_volumes uuids tally (mem_volume_backend quoted) (Some (mem_snapshot_backend quoted))
    (Some (mem_clone_backend quoted)) (Some (mem_replication_backend quoted)) 0 used = (Ok (), used).
Proof.
  apply (mem_passes_its_suites quoted uuids tally 0 used used_wf tally_plain);
    (apply (bool_decide_unpack _); vm_compute; exact I).
Defined.
End VolumeConformsExample.
